(* ===== verification/_CoqProject ===== *)
-Q . S2P
Prelude.v
Utf8.v
Exceptions.v
Base64.v
RingBuffer.v
SpscConcurrent.v
MultiBuffer.v
JsonValue.v
ToChars.v
Protocol.v
JsonProtocol.v
RpcServer.v
EmuRpc.v
System.v
TestEmulator.v
JsonLexer.v
JsonStrings.v
JsonNumbers.v
JsonScan.v
JsonParser.v
JsonDom.v
JsonSerializer.v
JsonDigits.v
Powers.v
Binary64.v
Strtod.v
Diyfp.v
Grisu.v
FloatText.v
JsonParse.v
JsonEscape.v
JsonText.v
JsonSound.v
JsonRoundTrip.v
JsonRpc.v
StaticBuffer.v
WsUtf8.v
WsFrame.v
WsStream.v
WsParse.v
WsRead.v
WsDeliver.v
WsReceive.v
WsWrite.v
OpQueue.v
Strand.v
Sha1.v
Hybi13.v
HttpString.v
HttpFields.v
HttpParser.v
HttpPieces.v
