(* ===== verification/Prelude.v ===== *)
(** * EmuRPC: a verified model of the emulator RPC server

    EmuRPC is a library that an emulator links to let tools read and write its
    memory. A client connects by websocket and sends JSON-RPC requests; the io
    thread turns each message into a packet and queues it, the server thread takes
    it from the queue, calls the emulator's callback and queues the response, and
    sends it on the connection of the client. This development models that path
    from the bytes of a message to the bytes of the response, with the data
    structures and the JSON library on it, and proves what holds of it.

    ** The parts

    - This file: notations, machine integers ([wrap], [u8] to [u64] of
      src/include/common.h), the outcomes of C++ code and shared lemmas. A
      computation of type [outcome] returns a value ([Ret]), throws an exception
      ([Throw]) or has undefined behaviour ([Undef]); [let*] sequences it.
      Exceptions.v has the exception classes and the texts of their messages.
    - Protocol.v and JsonProtocol.v: the packets of src/src/protocol.h and their
      conversions to and from JSON values of src/src/json_protocol.cpp
      ([Module Req], [Module Res]), over the JSON values of JsonValue.v and the
      base64 of Base64.v, which is made of the Boost iterators bit by bit.
    - RpcServer.v: [Session], [Listener] and [RPCServer] of
      src/src/rpc_server.cpp. What boost::asio does is the environment: a handler
      leaves an operation pending, an [io_event] completes one.
    - EmuRpc.v: [EmuRPC::Impl] of src/src/emurpc.cpp and the C API; the emulator's
      callbacks are functions on the state that [user_data] points to.
    - System.v: the io thread, the server thread and the emulator's thread as one
      step relation on the shared [Impl].
    - TestEmulator.v: the emulator of src/test/emulator.h, the one host in the
      repository. Its callbacks call back into [HandleTiming], so that
      [HandleRequest] is given there once more with callbacks that change [Impl].
    - RingBuffer.v and SpscConcurrent.v: boost::lockfree::spsc_queue, one
      operation at a time and as interleaved atomic steps. MultiBuffer.v:
      boost::beast::multi_buffer. The server is proved against the interfaces
      [SpscQueue], [DynamicBuffer] and [ProtocolSerializer]; [spsc_queue_1024],
      [multi_buffer_dynamic] and [JSONSerializer] are their instances.
    - The websocket, src/externals/boost/boost/beast: StaticBuffer.v has the two
      buffers of fixed size of the stream, WsUtf8.v the incremental UTF-8 checker,
      WsFrame.v frame headers, masks and the payloads of control frames
      (websocket/detail), WsStream.v the members of [stream], the locks, [parse_fh] and
      the control frames that it writes (websocket/impl/stream.ipp), WsRead.v the
      coroutines [read_some_op] and [read_op] behind [async_read]
      (websocket/impl/read.ipp) and WsWrite.v the coroutine [write_some_op] behind
      [async_write] (websocket/impl/write.ipp). A coroutine is a function for each
      piece between two of its yields, and what it waits for is a value. WsParse.v,
      WsDeliver.v and WsReceive.v are proofs: headers, one turn of the read operation,
      and its runs under every order and cutting of the completions ([net_step]).
    - The JSON library, src/externals/json/nlohmann/json.hpp: JsonLexer.v,
      JsonParser.v, JsonSerializer.v and ToChars.v are the code; Utf8.v,
      JsonStrings.v, JsonNumbers.v, JsonScan.v, JsonDom.v, JsonParse.v, JsonText.v,
      JsonSound.v, JsonDigits.v, JsonEscape.v and JsonRoundTrip.v are the proofs, from
      the characters up to the theorems on what is parsed and that what is written
      is read back.
    - Its floating-point numbers: ToChars.v is Grisu2 ([namespace dtoa_impl]);
      Powers.v has the rational numbers the proofs use, Diyfp.v and Grisu.v prove
      what digits the algorithm generates, Binary64.v and Strtod.v how a decimal
      text is rounded to a [double], and FloatText.v that the one undoes the other. A [double] is a [spec_float] of the Standard Library, and
      [valid_binary 53 1024] holds of those there are.
    - JsonRpc.v puts the two sides together: the program with the JSON serializer.

    Definitions have the names of the functions, types and constants they model,
    with the class as Module where two classes share a name. A function that
    changes members takes the object and returns it changed; one that the code
    calls for its effect on another object returns that object.

    ** What is proved

    - The program (System.v, JsonRpc.v): under every interleaving no undefined
      behaviour, with the hypotheses that this needs of the code as it is -
      [blocking_emu] happens to start as false, the host's read callback leaves
      bytes in its buffer, and no message has a floating-point number in it;
      responses answer requests, at most once and in order; which exceptions can
      end the program; a memory_read is answered, and the ways in which it is
      lost; the server thread ends after [stop].
    - The server and the emulator side (RpcServer.v, EmuRpc.v): what each handler
      does on every branch, the invariant of the sessions, the routing of
      responses and what goes wrong when writes overlap, a connection closes, a
      queue is full or the emulator is blocked. The emulator of the tests
      (TestEmulator.v): what was written is read, its frames end, and a callback
      that reports its access throws away the other requests.
    - The data structures: the ring buffer refines a bounded queue, the multi
      buffer a queue of bytes, and the interleaved queue delivers every element
      once with one consumer, and not with the two that the program has.
    - The websocket: the UTF-8 checker against the definition of UTF-8, for every
      cutting of a text; which headers [parse_fh] accepts; a message in any frames, cut
      into any pieces, is delivered by [async_read], with its pings answered; texts are
      delivered exactly when they are valid, but for an empty last frame; close frames
      and violations of the protocol end the connection in the right way; what a
      session does after that; the frames that [async_write] makes of a message, and
      that the other side reads the message back.
    - The protocol: base64 against RFC 4648, the enumeration tables, requests and
      responses as JSON values, and what is not read back.
    - The JSON text: parsing ends on all bytes with a well-formed value or one of
      two exceptions, with the value exactly when they are a JSON text of RFC 8259 that
      denotes it; a string token is accepted exactly when it is one; the escapes and the digits are
      written as they should be without running over a buffer; and dumping followed
      by parsing is the identity up to the types of integers, for every value that
      parsing can return but the least integer.
    - Floating-point numbers: Grisu2 ends without a failed assertion with at most
      17 digits between the midpoints to the neighbours of the number, the layout
      of the digits stays in the buffer, and [strtod] reads it as the same number.

    ** Bounds and fuel

    The loops of the lexer run on the number of characters left and two more,
    since every turn reads one and the end of the input ends each of them;
    [parse] on three more than the length of the input, one turn for each token;
    both are shown to be enough ([scan_sound], [sax_parse_internal_ok]). The loop
    of [transform_width] has a turn for each bit it moves, [dump_integer] ten for
    the at most twenty digits, [normalize] 64 for the bits of a significand,
    [grisu2_round] ten for the nine decrements of a digit, the loop for the digits
    of a fraction 64 where 17 are enough. The loop of [read_some_op] over headers has a
    turn for each byte of the read buffer and one more, since every header has two
    bytes ([read_header_ok]), and the loops of the UTF-8 checker one for each byte. The consume and commit loops recurse on the
    lists they take elements from. Integers are in [Z] with the wrap-around of
    their width where it can happen; a [std::vector] longer than [2^63] throws.

    ** Not modelled

    - boost::asio and the sockets: the completions of their operations are events with
      an error code and the bytes received. The memory model is sequentially
      consistent.
    - Of the websocket stream the handshake, permessage-deflate, which is off, the
      control callback, the close and ping operations and the synchronous operations,
      of which the program uses only the handshake. The sessions of RpcServer.v take
      the messages that [async_read] delivers as events.
    - [strtod] is the C library's: it is given as correct rounding.
    - Of nlohmann::json what the program does not call: iterators, pointers,
      patches, the binary formats, callbacks of the parser, [accept]. The pretty
      printer and the [replace] and [ignore] handlers are defined; the theorem on
      invalid texts is about [strict].
    - The MessagePack serializer is a stub in the code too. The commands
      LoadRomCommand, CreateOverlay and DrawOverlayText are never used.
    - The test cases of src/test. *)

From Stdlib Require Import ZArith Lia String Ascii.
From stdpp Require Import base list.

#[global] Open Scope Z_scope.

(** ** Machine-width integers and bytes *)

(** A byte string: the contents of a [std::string] or [std::vector<u8>]. *)
Abbreviation bytes := (list Z).

(** [static_cast] to an unsigned type of [w] bits. *)
Definition wrap (w z : Z) : Z := z mod 2 ^ w.

(** [static_cast] to a signed two's complement type of [w] bits. *)
Definition swrap (w z : Z) : Z := (z + 2 ^ (w - 1)) mod 2 ^ w - 2 ^ (w - 1).

(** The value range of an unsigned type of [w] bits. *)
Definition in_width (w z : Z) : Prop := 0 <= z < 2 ^ w.

Abbreviation u8 := (in_width 8).
Abbreviation u16 := (in_width 16).
Abbreviation u32 := (in_width 32).
Abbreviation u64 := (in_width 64).

(** A C string literal as the bytes of its characters. *)
Definition str (s : string) : bytes :=
  map (fun c => Z.of_nat (nat_of_ascii c)) (list_ascii_of_string s).

(** ** Outcomes of C++ code

    A call returns, throws an exception of type [E], or has undefined
    behaviour (a read past the end of an array, an out of range conversion). *)

Inductive outcome (E A : Type) : Type :=
  | Ret (a : A)
  | Throw (e : E)
  | Undef.

Arguments Ret {E A} a.
Arguments Throw {E A} e.
Arguments Undef {E A}.

Definition obind {E A B : Type} (m : outcome E A) (f : A -> outcome E B) : outcome E B :=
  match m with
  | Ret a => f a
  | Throw e => Throw e
  | Undef => Undef
  end.

Declare Scope cpp_scope.
Delimit Scope cpp_scope with cpp.

Notation "'let*' x ':=' m 'in' k" := (obind m (fun x => k))
  (at level 10, x pattern, m at level 100, k at level 200) : cpp_scope.

Open Scope cpp_scope.

(** ** Automation *)

Create HintDb emurpc.
Create Rewrite HintDb emurpc.

(** Case analysis on the conditions of the goal or of a hypothesis. *)
Ltac case_cond :=
  match goal with
  | |- context [if ?b then _ else _] => destruct b eqn:?
  | H : context [if ?b then _ else _] |- _ => destruct b eqn:?
  end.

(** Boolean integer comparisons as propositions. *)
Ltac bool_prop :=
  repeat match goal with
  | H : (_ && _)%bool = true |- _ => apply andb_true_iff in H as [? ?]
  | H : (_ || _)%bool = false |- _ => apply orb_false_iff in H as [? ?]
  | H : negb _ = true |- _ => apply negb_true_iff in H
  | H : negb _ = false |- _ => apply negb_false_iff in H
  | H : (_ =? _) = true |- _ => apply Z.eqb_eq in H
  | H : (_ =? _) = false |- _ => apply Z.eqb_neq in H
  | H : (_ <? _) = true |- _ => apply Z.ltb_lt in H
  | H : (_ <? _) = false |- _ => apply Z.ltb_ge in H
  | H : (_ <=? _) = true |- _ => apply Z.leb_le in H
  | H : (_ <=? _) = false |- _ => apply Z.leb_gt in H
  end.

(** Case analysis on every integer comparison of the goal. *)
Ltac zcases :=
  repeat match goal with
  | |- context [?a <=? ?b] => destruct (Z.leb_spec a b)
  | |- context [?a <? ?b] => destruct (Z.ltb_spec a b)
  | |- context [?a =? ?b] => destruct (Z.eqb_spec a b)
  end; cbn [andb orb negb]; try done; try lia.

(** ** Integer lemmas *)

Lemma wrap_small w z : in_width w z -> wrap w z = z.
Proof. intros H. apply Z.mod_small, H. Qed.

Lemma wrap_range w z : 0 <= w -> in_width w (wrap w z).
Proof. intros H. apply Z.mod_pos_bound. lia. Qed.

Lemma wrap_wrap w z : wrap w (wrap w z) = wrap w z.
Proof. apply Z.mod_mod_divide, Z.divide_refl. Qed.

Lemma swrap_small w z : 0 < w -> - 2 ^ (w - 1) <= z < 2 ^ (w - 1) -> swrap w z = z.
Proof.
  intros Hw H. unfold swrap.
  assert (2 ^ w = 2 * 2 ^ (w - 1)) by (rewrite <- Z.pow_succ_r by lia; f_equal; lia).
  rewrite Z.mod_small; lia.
Qed.

#[export] Hint Rewrite wrap_wrap : emurpc.
#[export] Hint Resolve wrap_small wrap_range : emurpc.

(** Disjoint bits are added. *)
Lemma lor_disjoint a b n : 0 <= n -> 0 <= b < 2 ^ n -> Z.lor (a * 2 ^ n) b = a * 2 ^ n + b.
Proof.
  intros Hn Hb. rewrite <- Z.add_lor_land.
  assert (Z.land (a * 2 ^ n) b = 0) as E; [|lia].
  apply Z.bits_inj'. intros i Hi. rewrite Z.land_spec, Z.bits_0, <- Z.shiftl_mul_pow2 by done.
  destruct (Z.ltb_spec i n).
  - by rewrite Z.shiftl_spec_low.
  - assert (Z.testbit b i = false) as ->; [|by rewrite andb_false_r].
    apply Z.testbit_false; [done|]. rewrite Z.div_small; [done|].
    split; [lia|]. apply (Z.lt_le_trans _ (2 ^ n)); [lia|]. apply Z.pow_le_mono_r; lia.
Qed.

Lemma land_low a n : 0 <= n -> Z.land a (2 ^ n - 1) = a mod 2 ^ n.
Proof. intros Hn. rewrite <- Z.land_ones by done. by rewrite Z.ones_equiv, <- Z.sub_1_r. Qed.

(** Whether a character lies in a range. *)
Definition in_range (lo hi c : Z) : bool := (lo <=? c) && (c <=? hi).

(** Checking a property of all the values below a bound by computation. *)
Definition all_below (n : nat) (p : Z -> bool) : bool :=
  forallb (fun k => p (Z.of_nat k)) (seq 0 n).

Lemma all_below_spec n p z : all_below n p = true -> 0 <= z < Z.of_nat n -> p z = true.
Proof.
  intros H Hz. unfold all_below in H. rewrite forallb_forall in H.
  specialize (H (Z.to_nat z)). rewrite Z2Nat.id in H by lia.
  apply H, in_seq. lia.
Qed.

(** ** Lists *)

(** Induction that removes three elements at a time. *)
Lemma list_ind3 {A} (P : list A -> Prop) :
  P [] -> (forall a, P [a]) -> (forall a b, P [a; b]) ->
  (forall a b c l, P l -> P (a :: b :: c :: l)) -> forall l, P l.
Proof.
  intros H0 H1 H2 H3. fix IH 1. intros [|a [|b [|c l]]]; [apply H0|apply H1|apply H2|apply H3, IH].
Qed.

(** Induction that removes four elements at a time. *)
Lemma list_ind4 {A} (P : list A -> Prop) :
  P [] -> (forall a, P [a]) -> (forall a b, P [a; b]) -> (forall a b c, P [a; b; c]) ->
  (forall a b c d l, P l -> P (a :: b :: c :: d :: l)) -> forall l, P l.
Proof.
  intros H0 H1 H2 H3 H4. fix IH 1.
  intros [|a [|b [|c [|d l]]]]; [apply H0|apply H1|apply H2|apply H3|apply H4, IH].
Qed.

(** Deciding that all the elements of a list are bytes. *)
Lemma forall_u8_dec (l : bytes) :
  forallb (fun z => (0 <=? z) && (z <? 256)) l = true -> Forall u8 l.
Proof.
  intros H. rewrite forallb_forall in H. apply Forall_forall. intros z Hz.
  apply list_elem_of_In, H in Hz. bool_prop. unfold in_width. lia.
Qed.

(** Discharges the byte ranges of a concrete list. *)
Ltac bytes_ok := apply forall_u8_dec; vm_compute; reflexivity.

(** ** Runs *)

(** Whatever step is taken, one with [P] is reached. *)
Section Eventually.
Context {C : Type} (step : C -> C -> Prop).

Inductive eventually (P : C -> Prop) (c : C) : Prop :=
  | eventually_now : P c -> eventually P c
  | eventually_step : (exists c', step c c') -> (forall c', step c c' -> eventually P c') -> eventually P c.

Lemma eventually_mono (P Q : C -> Prop) c : (forall c, P c -> Q c) -> eventually P c -> eventually Q c.
Proof. intros H. induction 1 as [c Hc|c Hex _ IH]; [apply eventually_now; by apply H|by apply eventually_step]. Qed.

(** The run goes on from there. *)
Lemma eventually_bind (P Q : C -> Prop) c : (forall c, P c -> eventually Q c) -> eventually P c -> eventually Q c.
Proof. intros H. induction 1 as [c Hc|c Hex _ IH]; [by apply H|by apply eventually_step]. Qed.

End Eventually.
