(* ===== verification/Utf8.v ===== *)
(** * UTF-8

    The encoding that the lexer checks and the serializer decodes, as the Unicode
    standard defines it: scalar values with their encodings, and the well-formed
    byte sequences of its table 3-7. The two are shown to agree. *)

From Stdlib Require Import ZArith Lia.
From stdpp Require Import base list.
From S2P Require Import Prelude.

(** The code points that are not surrogates. *)
Definition scalar (c : Z) : Prop := 0 <= c < 55296 \/ 57344 <= c < 1114112.

(** The UTF-8 encoding of a scalar value. *)
Definition utf8_encode (c : Z) : bytes :=
  if c <? 128 then [c]
  else if c <? 2048 then [192 + c / 64; 128 + c mod 64]
  else if c <? 65536 then [224 + c / 4096; 128 + c / 64 mod 64; 128 + c mod 64]
  else [240 + c / 262144; 128 + c / 4096 mod 64; 128 + c / 64 mod 64; 128 + c mod 64].

Definition utf8_text (cs : list Z) : bytes := flat_map utf8_encode cs.

(** A text is valid UTF-8 if it encodes some scalar values. *)
Definition valid_utf8 (s : bytes) : Prop := exists cs, Forall scalar cs /\ s = utf8_text cs.

(** The rows of table 3-7: the ranges of the bytes after a first byte. *)
Definition trail_ranges (c : Z) : option (list (Z * Z)) :=
  if in_range 0 127 c then Some []
  else if in_range 194 223 c then Some [(128, 191)]
  else if in_range 224 224 c then Some [(160, 191); (128, 191)]
  else if in_range 225 236 c then Some [(128, 191); (128, 191)]
  else if in_range 237 237 c then Some [(128, 159); (128, 191)]
  else if in_range 238 239 c then Some [(128, 191); (128, 191)]
  else if in_range 240 240 c then Some [(144, 191); (128, 191); (128, 191)]
  else if in_range 241 243 c then Some [(128, 191); (128, 191); (128, 191)]
  else if in_range 244 244 c then Some [(128, 143); (128, 191); (128, 191)]
  else None.

Fixpoint in_ranges (ranges : list (Z * Z)) (s : bytes) : bool :=
  match ranges, s with
  | [], [] => true
  | (lo, hi) :: ranges, c :: s => in_range lo hi c && in_ranges ranges s
  | _, _ => false
  end.

(** A sequence that table 3-7 allows for one code point. *)
Definition well_formed (s : bytes) : bool :=
  match s with
  | c :: s => match trail_ranges c with Some ranges => in_ranges ranges s | None => false end
  | [] => false
  end.

(** The payload bits of a sequence. *)
Definition lead_bits (c : Z) : Z :=
  if c <? 128 then c else if c <? 224 then c mod 32 else if c <? 240 then c mod 16 else c mod 8.

Definition join_bits (acc c : Z) : Z := acc * 64 + c mod 64.

Definition utf8_value (s : bytes) : Z :=
  match s with
  | c :: s => fold_left join_bits s (lead_bits c)
  | [] => 0
  end.

(** The first code point of a text: its bytes and what follows them. *)
Definition utf8_split (s : bytes) : option (bytes * bytes) :=
  match s with
  | c :: s' =>
      match trail_ranges c with
      | Some ranges =>
          let n := length ranges in
          if in_ranges ranges (take n s') then Some (c :: take n s', drop n s') else None
      | None => None
      end
  | [] => None
  end.

Lemma in_range_spec lo hi c : in_range lo hi c = true <-> lo <= c <= hi.
Proof. unfold in_range. rewrite andb_true_iff, !Z.leb_le. lia. Qed.

Lemma in_range_false lo hi c : in_range lo hi c = false <-> c < lo \/ hi < c.
Proof. unfold in_range. rewrite andb_false_iff, !Z.leb_gt. lia. Qed.

(** Case analysis on the range tests of the goal or of a hypothesis. *)
Ltac range_cases :=
  repeat match goal with
  | H : in_range _ _ _ = true |- _ => apply in_range_spec in H
  | H : in_range _ _ _ = false |- _ => apply in_range_false in H
  | H : context [if in_range ?a ?b ?c then _ else _] |- _ => destruct (in_range a b c) eqn:?
  | |- context [if in_range ?a ?b ?c then _ else _] => destruct (in_range a b c) eqn:?
  end.

Lemma in_ranges_length ranges s : in_ranges ranges s = true -> length s = length ranges.
Proof.
  revert s. induction ranges as [|[lo hi] ranges IH]; intros [|c s] H; try done.
  cbn in *. apply andb_true_iff in H as [_ H]. by rewrite (IH s).
Qed.

(** What a well-formed sequence encodes, by its length. *)
Lemma well_formed_cases s :
  well_formed s = true ->
  (exists c, s = [c] /\ 0 <= c <= 127) \/
  (exists c c1, s = [c; c1] /\ 194 <= c <= 223 /\ 128 <= c1 <= 191) \/
  (exists c c1 c2, s = [c; c1; c2] /\ 224 <= c <= 239 /\ 128 <= c1 <= 191 /\ 128 <= c2 <= 191 /\
     (c = 224 -> 160 <= c1) /\ (c = 237 -> c1 <= 159)) \/
  (exists c c1 c2 c3, s = [c; c1; c2; c3] /\ 240 <= c <= 244 /\ 128 <= c1 <= 191 /\ 128 <= c2 <= 191 /\
     128 <= c3 <= 191 /\ (c = 240 -> 144 <= c1) /\ (c = 244 -> c1 <= 143)).
Proof.
  destruct s as [|c s]; [done|]. cbn. intros H. unfold trail_ranges in H. range_cases; try done;
    pose proof (in_ranges_length _ _ H) as L;
    destruct s as [|c1 [|c2 [|c3 [|c4 s]]]]; try done; cbn in H;
    rewrite ?andb_true_iff, ?in_range_spec in H.
  all: [> left; eauto | right; left | right; right; left | right; right; left | right; right; left
       | right; right; left | right; right; right | right; right; right | right; right; right].
  all: repeat eexists; lia.
Qed.

(** A well-formed sequence is the encoding of its value, a scalar value. *)
Lemma well_formed_encode s :
  well_formed s = true -> scalar (utf8_value s) /\ s = utf8_encode (utf8_value s).
Proof.
  intros H. destruct (well_formed_cases s H) as
    [(c & -> & ?)|[(c & c1 & -> & ?)|[(c & c1 & c2 & -> & ?)|(c & c1 & c2 & c3 & -> & ?)]]];
    cbn [utf8_value fold_left]; unfold join_bits, lead_bits, scalar, utf8_encode.
  - zcases. split; [lia|done].
  - replace (c <? 128) with false by lia. replace (c <? 224) with true by lia.
    replace (c mod 32) with (c - 192) by (Z.to_euclidean_division_equations; lia).
    replace (c1 mod 64) with (c1 - 128) by (Z.to_euclidean_division_equations; lia).
    zcases. split; [lia|]. repeat f_equal; Z.to_euclidean_division_equations; lia.
  - replace (c <? 128) with false by lia. replace (c <? 224) with false by lia.
    replace (c <? 240) with true by lia.
    replace (c mod 16) with (c - 224) by (Z.to_euclidean_division_equations; lia).
    replace (c1 mod 64) with (c1 - 128) by (Z.to_euclidean_division_equations; lia).
    replace (c2 mod 64) with (c2 - 128) by (Z.to_euclidean_division_equations; lia).
    zcases. split; [lia|]. repeat f_equal; Z.to_euclidean_division_equations; lia.
  - replace (c <? 128) with false by lia. replace (c <? 224) with false by lia.
    replace (c <? 240) with false by lia.
    replace (c mod 8) with (c - 240) by (Z.to_euclidean_division_equations; lia).
    replace (c1 mod 64) with (c1 - 128) by (Z.to_euclidean_division_equations; lia).
    replace (c2 mod 64) with (c2 - 128) by (Z.to_euclidean_division_equations; lia).
    replace (c3 mod 64) with (c3 - 128) by (Z.to_euclidean_division_equations; lia).
    zcases. split; [lia|]. repeat f_equal; Z.to_euclidean_division_equations; lia.
Qed.

(** The encoding of a scalar value is well-formed. *)
Lemma encode_well_formed c : scalar c -> well_formed (utf8_encode c) = true.
Proof.
  intros H. unfold scalar in H. unfold utf8_encode.
  assert (0 <= c mod 64 < 64) by (apply Z.mod_pos_bound; lia).
  assert (0 <= c / 64 mod 64 < 64) by (apply Z.mod_pos_bound; lia).
  assert (0 <= c / 4096 mod 64 < 64) by (apply Z.mod_pos_bound; lia).
  zcases; cbn; unfold trail_ranges.
  - range_cases; try done; lia.
  - assert (2 <= c / 64 < 32) by (split; [apply Z.div_le_lower_bound|apply Z.div_lt_upper_bound]; lia).
    range_cases; cbn; rewrite ?andb_true_iff, ?in_range_spec; lia.
  - assert (0 <= c / 4096 < 16) by (split; [apply Z.div_le_lower_bound|apply Z.div_lt_upper_bound]; lia).
    range_cases; cbn; rewrite ?andb_true_iff, ?in_range_spec;
      try lia; Z.to_euclidean_division_equations; lia.
  - assert (0 <= c / 262144 < 5) by (split; [apply Z.div_le_lower_bound|apply Z.div_lt_upper_bound]; lia).
    range_cases; cbn; rewrite ?andb_true_iff, ?in_range_spec;
      try lia; Z.to_euclidean_division_equations; lia.
Qed.

(** The encoding of a scalar value encodes it. *)
Lemma value_encode c : scalar c -> utf8_value (utf8_encode c) = c.
Proof.
  intros H. unfold scalar in H. unfold utf8_encode.
  zcases; cbn [utf8_value fold_left]; unfold join_bits, lead_bits; zcases;
    Z.to_euclidean_division_equations; lia.
Qed.

Lemma in_ranges_app ranges a b :
  in_ranges ranges a = true -> take (length ranges) (a ++ b) = a /\ drop (length ranges) (a ++ b) = b.
Proof.
  intros H. rewrite <- (in_ranges_length _ _ H). by rewrite take_app_length, drop_app_length.
Qed.

(** Splitting off the first code point. *)
Lemma utf8_split_spec s a b : utf8_split s = Some (a, b) <-> s = a ++ b /\ well_formed a = true.
Proof.
  split.
  - destruct s as [|c s]; [done|]. cbn. destruct (trail_ranges c) as [ranges|] eqn:E; [|done].
    case_cond; [|done]. intros [= <- <-]. cbn. rewrite E. by rewrite take_drop.
  - intros [-> H]. destruct a as [|c a]; [done|]. cbn in *. destruct (trail_ranges c) as [ranges|]; [|done].
    destruct (in_ranges_app ranges a b H) as [-> ->]. by rewrite H.
Qed.

Lemma valid_utf8_nil : valid_utf8 [].
Proof. by exists []. Qed.

Lemma valid_utf8_char a b : well_formed a = true -> valid_utf8 b -> valid_utf8 (a ++ b).
Proof.
  intros Ha (cs & Hcs & ->). destruct (well_formed_encode a Ha) as [Hs E].
  exists (utf8_value a :: cs). split; [by constructor|]. cbn. by rewrite <- E.
Qed.

Lemma valid_utf8_app a b : valid_utf8 a -> valid_utf8 b -> valid_utf8 (a ++ b).
Proof.
  intros (cs & Hcs & ->) (ds & Hds & ->). exists (cs ++ ds). split; [by apply Forall_app|].
  unfold utf8_text. by rewrite flat_map_app.
Qed.

(** A valid text is empty or starts with a well-formed sequence. *)
Lemma valid_utf8_inv s :
  valid_utf8 s -> s = [] \/ exists a b, s = a ++ b /\ well_formed a = true /\ valid_utf8 b.
Proof.
  intros ([|c cs] & Hcs & ->); [by left|]. apply Forall_cons in Hcs as [Hc Hcs]. right.
  exists (utf8_encode c), (utf8_text cs). split; [done|]. split; [by apply encode_well_formed|].
  by exists cs.
Qed.

(** The code points that a text encodes are unique. *)
Lemma utf8_text_inj cs ds :
  Forall scalar cs -> Forall scalar ds -> utf8_text cs = utf8_text ds -> cs = ds.
Proof.
  intros Hcs. revert ds. induction Hcs as [|c cs Hc Hcs IH]; intros ds Hds E.
  - destruct Hds as [|d ds Hd Hds]; [done|]. cbn in E.
    pose proof (encode_well_formed d Hd) as Hw. by destruct (utf8_encode d).
  - destruct Hds as [|d ds Hd Hds]; cbn in E.
    { pose proof (encode_well_formed c Hc) as Hw. by destruct (utf8_encode c). }
    assert (utf8_split (utf8_encode c ++ utf8_text cs) = Some (utf8_encode c, utf8_text cs)) as E1
      by (apply utf8_split_spec; split; [done|by apply encode_well_formed]).
    assert (utf8_split (utf8_encode d ++ utf8_text ds) = Some (utf8_encode d, utf8_text ds)) as E2
      by (apply utf8_split_spec; split; [done|by apply encode_well_formed]).
    unfold utf8_text in *. rewrite E, E2 in E1. injection E1 as E1 E3.
    f_equal; [|by apply IH].
    by rewrite <- (value_encode c Hc), <- (value_encode d Hd), E1.
Qed.

(** A text whose first code point cannot be split off is not valid. *)
Lemma utf8_split_none s : utf8_split s = None -> s <> [] -> ~ valid_utf8 s.
Proof.
  intros E Hs Hv. destruct (valid_utf8_inv s Hv) as [->|(a & b & -> & Ha & _)]; [done|].
  assert (utf8_split (a ++ b) = Some (a, b)) as E' by by apply utf8_split_spec. by rewrite E in E'.
Qed.

Lemma valid_utf8_split s a b : utf8_split s = Some (a, b) -> valid_utf8 s <-> valid_utf8 b.
Proof.
  intros E. destruct (proj1 (utf8_split_spec s a b) E) as [-> Ha]. split; [|by apply valid_utf8_char].
  intros Hv. destruct (valid_utf8_inv _ Hv) as [Hn|(a' & b' & E' & Ha' & Hb')].
  - by destruct a.
  - rewrite E' in E. assert (utf8_split (a' ++ b') = Some (a', b')) as E2 by by apply utf8_split_spec.
    rewrite E2 in E. by injection E as -> ->.
Qed.

Lemma well_formed_u8 s : well_formed s = true -> Forall u8 s.
Proof.
  intros H. destruct (well_formed_cases s H) as
    [(c & -> & ?)|[(c & c1 & -> & ?)|[(c & c1 & c2 & -> & ?)|(c & c1 & c2 & c3 & -> & ?)]]];
    repeat constructor; lia.
Qed.

Lemma valid_utf8_u8 s : valid_utf8 s -> Forall u8 s.
Proof.
  intros (cs & Hcs & ->). induction Hcs as [|c cs Hc _ IH]; [constructor|]. cbn.
  apply Forall_app. split; [by apply well_formed_u8, encode_well_formed|done].
Qed.

(** ASCII texts are valid. *)
Lemma ascii_valid s : Forall (fun c => 0 <= c < 128) s -> valid_utf8 s.
Proof.
  induction 1 as [|c s Hc _ IH]; [apply valid_utf8_nil|]. apply (valid_utf8_char [c] s); [|done].
  cbn. unfold trail_ranges. range_cases; [done|lia..].
Qed.
