(* ===== verification/Exceptions.v ===== *)
(** * The exceptions of the program

    The exception classes of nlohmann::json (detail/exceptions.hpp in
    src/externals/json/nlohmann/json.hpp), of the Boost base64 iterators
    (boost/archive/iterators/dataflow_exception.hpp) and of the JSON protocol
    (src/json_protocol.h), as one sum type, with the functions that create
    them and compose their messages. *)

From Stdlib Require Import ZArith Lia String Ascii.
From stdpp Require Import base list.
From S2P Require Import Prelude.

(** [std::to_string] and [snprintf]'s ["%.2X"], ["%.4X"], ["%04x"] of the C++
    library, on non-negative numbers. *)

Definition digit_char (d : Z) : Z := if d <? 10 then 48 + d else 55 + d.
Definition digit_char_lower (d : Z) : Z := if d <? 10 then 48 + d else 87 + d.

Fixpoint to_base_fuel (fuel : nat) (base : Z) (digit : Z -> Z) (z : Z) (acc : bytes) : bytes :=
  match fuel with
  | O => acc
  | S fuel =>
      let acc := digit (z mod base) :: acc in
      if z <? base then acc else to_base_fuel fuel base digit (z / base) acc
  end.

Definition to_string (z : Z) : bytes :=
  if z <? 0
  then 45 :: to_base_fuel (S (Z.to_nat (Z.log2 (- z)))) 10 digit_char (- z) []
  else to_base_fuel (S (Z.to_nat (Z.log2 z))) 10 digit_char z [].

Definition pad_left (n : nat) (s : bytes) : bytes := repeat 48 (n - length s) ++ s.

Definition hex_upper (n : nat) (z : Z) : bytes :=
  pad_left n (to_base_fuel (S (Z.to_nat (Z.log2 z))) 16 digit_char z []).

Definition hex_lower (n : nat) (z : Z) : bytes :=
  pad_left n (to_base_fuel (S (Z.to_nat (Z.log2 z))) 16 digit_char_lower z []).

(** The part of a [std::string] that its [c_str()] denotes as a C string. *)
Fixpoint c_str (s : bytes) : bytes :=
  match s with
  | [] => []
  | c :: s => if c =? 0 then [] else c :: c_str s
  end.

Inductive exception_code :=
  | invalid_6_bitcode
  | invalid_base64_character
  | invalid_xml_escape_sequence
  | comparison_not_permitted
  | invalid_conversion
  | other_exception.

(** The exception objects the modelled code throws. The three json classes
    carry the members [id], [byte] (parse_error only) and [what()]. *)
Inductive exn :=
  | parse_error (id : Z) (byte : Z) (what : bytes)
  | type_error (id : Z) (what : bytes)
  | out_of_range (id : Z) (what : bytes)
  | dataflow_exception (code : exception_code)
  | version_mismatch_error (what : bytes)
  | invalid_method_error (what : bytes)
  | std_length_error
  | std_bad_alloc.

Abbreviation cpp := (outcome exn).

(** Whether an exception is caught by a handler for [nlohmann::json::exception]. *)
Definition is_json_exception (e : exn) : bool :=
  match e with
  | parse_error _ _ _ | type_error _ _ | out_of_range _ _ => true
  | _ => false
  end.

(** [struct position_t]. *)
Record position_t := mk_position {
  chars_read_total : Z;
  chars_read_current_line : Z;
  lines_read : Z
}.

(** [exception::name]. *)
Definition exception_name (ename : bytes) (id_ : Z) : bytes :=
  str "[json.exception." ++ ename ++ str "." ++ to_string id_ ++ str "] ".

(** [parse_error::position_string]. *)
Definition position_string (pos : position_t) : bytes :=
  str " at line " ++ to_string (lines_read pos + 1) ++
  str ", column " ++ to_string (chars_read_current_line pos).

(** [parse_error::create(int, const position_t&, const std::string&)]. *)
Definition create_parse_error (id_ : Z) (pos : position_t) (what_arg : bytes) : exn :=
  parse_error id_ (chars_read_total pos)
    (c_str (exception_name (str "parse_error") id_ ++ str "parse error" ++
            position_string pos ++ str ": " ++ what_arg)).

(** [type_error::create]. *)
Definition create_type_error (id_ : Z) (what_arg : bytes) : exn :=
  type_error id_ (c_str (exception_name (str "type_error") id_ ++ what_arg)).

(** [out_of_range::create]. *)
Definition create_out_of_range (id_ : Z) (what_arg : bytes) : exn :=
  out_of_range id_ (c_str (exception_name (str "out_of_range") id_ ++ what_arg)).

(** [dataflow_exception::what]. *)
Definition dataflow_what (code : exception_code) : bytes :=
  match code with
  | invalid_6_bitcode => str "attempt to encode a value > 6 bits"
  | invalid_base64_character => str "attempt to decode a value not in base64 char set"
  | invalid_xml_escape_sequence => str "invalid xml escape_sequence"
  | comparison_not_permitted => str "cannot invoke iterator comparison now"
  | invalid_conversion => str "invalid multbyte/wide char conversion"
  | other_exception => str "unknown exception code"
  end.
