(* ===== verification/Base64.v ===== *)
(** * Base64: EncodeBase64 and DecodeBase64

    Models [EncodeBase64] and [DecodeBase64] of src/src/json_protocol.cpp with
    the Boost iterators they instantiate: [transform_width],
    [base64_from_binary] and [binary_from_base64] of
    src/externals/boost/boost/archive/iterators. An iterator over a buffer is
    the list of the elements it has still to visit. *)

From Stdlib Require Import ZArith Lia String Ascii.
From stdpp Require Import base list.
From S2P Require Import Prelude Exceptions.

(** ** The character tables *)

(** [detail::from_6_bit::operator()]. *)
Definition from_6_bit (t : Z) : cpp Z :=
  let lookup_table := str "ABCDEFGHIJKLMNOPQRSTUVWXYZabcdefghijklmnopqrstuvwxyz0123456789+/" in
  match lookup_table !! Z.to_nat t with
  | Some c => Ret c
  | None => Undef
  end.

(** The array [lookup_table] of [detail::to_6_bit::operator()]. *)
Definition lookup_table : list Z :=
  [ -1;-1;-1;-1;-1;-1;-1;-1;-1;-1;-1;-1;-1;-1;-1;-1;
    -1;-1;-1;-1;-1;-1;-1;-1;-1;-1;-1;-1;-1;-1;-1;-1;
    -1;-1;-1;-1;-1;-1;-1;-1;-1;-1;-1;62;-1;-1;-1;63;
    52;53;54;55;56;57;58;59;60;61;-1;-1;-1; 0;-1;-1;
    -1; 0; 1; 2; 3; 4; 5; 6; 7; 8; 9;10;11;12;13;14;
    15;16;17;18;19;20;21;22;23;24;25;-1;-1;-1;-1;-1;
    -1;26;27;28;29;30;31;32;33;34;35;36;37;38;39;40;
    41;42;43;44;45;46;47;48;49;50;51;-1;-1;-1;-1;-1 ].

(** [detail::to_6_bit::operator()]: a byte of the input text, as an unsigned
    value (a negative [char] fails the same [t <= 127] test). *)
Definition to_6_bit (t : Z) : cpp Z :=
  let value := if t <=? 127 then default (-1) (lookup_table !! Z.to_nat t) else -1 in
  if value =? -1 then Throw (dataflow_exception invalid_base64_character) else Ret value.

(** ** transform_width *)

Module TransformWidth.

(** The data members of [transform_width<Base, BitsOut, BitsIn, CharType>]:
    the base iterator, as what it has still to visit, and the bit buffers. *)
Record t := mk {
  base_reference : list Z;
  m_buffer_out_full : bool;
  m_buffer_out : Z;
  m_buffer_in : Z;
  m_remaining_bits : Z;
  m_end_of_sequence : bool
}.

(** [transform_width(T start)]. *)
Definition transform_width (start : list Z) : t := mk start false 0 0 0 false.

Section Iterator.
Context (BitsOut BitsIn : Z).
(** Dereferencing the base iterator; [None] is the end of its buffer. *)
Context (deref : option Z -> cpp Z).

(** One iteration of the loop of [fill]: the new iterator and [missing_bits]. *)
Definition fill_step (it : t) (missing_bits : Z) : cpp (t * Z) :=
  let* it :=
    (if m_remaining_bits it =? 0 then
      if m_end_of_sequence it then
        Ret (mk (base_reference it) (m_buffer_out_full it) (m_buffer_out it)
          0 missing_bits (m_end_of_sequence it))
      else
        let* v := deref (head (base_reference it)) in
        Ret (mk (tail (base_reference it)) (m_buffer_out_full it) (m_buffer_out it)
          v BitsIn (m_end_of_sequence it))
    else Ret it) in
  let i := Z.min missing_bits (m_remaining_bits it) in
  let j := Z.shiftr (m_buffer_in it) (m_remaining_bits it - i) in
  let j := Z.land j (Z.shiftl 1 i - 1) in
  let out := wrap 8 (Z.shiftl (m_buffer_out it) i) in
  let out := Z.lor out j in
  Ret (mk (base_reference it) (m_buffer_out_full it) out (m_buffer_in it)
    (m_remaining_bits it - i) (m_end_of_sequence it),
    missing_bits - i).

(** The do-while loop of [fill]; every iteration moves at least one bit. *)
Fixpoint fill_loop (fuel : nat) (it : t) (missing_bits : Z) : cpp t :=
  match fuel with
  | O => Undef
  | S fuel =>
      let* (it, missing_bits) := fill_step it missing_bits in
      if 0 <? missing_bits then fill_loop fuel it missing_bits else Ret it
  end.

(** [fill()]. *)
Definition fill (it : t) : cpp t :=
  let it := mk (base_reference it) (m_buffer_out_full it) 0 (m_buffer_in it)
       (m_remaining_bits it) (m_end_of_sequence it) in
  let* it := fill_loop (Z.to_nat BitsOut) it BitsOut in
  Ret (mk (base_reference it) true (m_buffer_out it) (m_buffer_in it)
    (m_remaining_bits it) (m_end_of_sequence it)).

(** [dereference()], with the iterator it updates. *)
Definition dereference (it : t) : cpp (Z * t) :=
  let* it := (if m_buffer_out_full it then Ret it else fill it) in
  Ret (m_buffer_out it, it).

(** [increment()]. *)
Definition increment (it : t) : t :=
  mk (base_reference it) false (m_buffer_out it) (m_buffer_in it)
  (m_remaining_bits it) (m_end_of_sequence it).

(** [equal_impl(rhs)] against the end iterator of the same buffer. *)
Definition equal_impl (it : t) : bool * t :=
  let at_end := match base_reference it with [] => true | _ => false end in
  if BitsIn <? BitsOut then (at_end, it)
  else if at_end then
    (m_remaining_bits it =? 0,
      mk (base_reference it) (m_buffer_out_full it) (m_buffer_out it)
      (m_buffer_in it) (m_remaining_bits it) true)
  else (false, it).

(** [for (; first != last; ++first) out.push_back(f( *first ))]: the copy of
    the sequence, with the function [f] of an outer transform_iterator. *)
Fixpoint copy_loop (fuel : nat) (f : Z -> cpp Z) (it : t) : cpp (list Z) :=
  match fuel with
  | O => Undef
  | S fuel =>
      let (eq, it) := equal_impl it in
      if eq then Ret []
      else
        let* (v, it) := dereference it in
        let* c := f v in
        let* rest := copy_loop fuel f (increment it) in
        Ret (c :: rest)
  end.

(** Every element of the copy takes at least one bit of the input. *)
Definition copy (f : Z -> cpp Z) (start : list Z) : cpp (list Z) :=
  copy_loop (S (Z.to_nat BitsIn * length start)) f (transform_width start).

End Iterator.

End TransformWidth.

(** Dereferencing an iterator into a [std::vector<u8>]; past the end it is
    undefined. *)
Definition vector_deref (o : option Z) : cpp Z :=
  match o with Some v => Ret v | None => Undef end.

(** Dereferencing [binary_from_base64<std::string::const_iterator>]: at the end
    of the string the iterator reads the terminating null character. *)
Definition string_deref (o : option Z) : cpp Z := to_6_bit (default 0 o).

(** [DecodeBase64]. *)
Definition DecodeBase64 (val : bytes) : cpp bytes :=
  TransformWidth.copy 8 6 string_deref Ret val.

(** [EncodeBase64]. *)
Definition EncodeBase64 (val : bytes) : cpp bytes :=
  let* tmp := TransformWidth.copy 6 8 vector_deref from_6_bit val in
  Ret (tmp ++ repeat 61 (Z.to_nat ((3 - Z.of_nat (length val) mod 3) mod 3))).

(** ** Reference definitions: RFC 4648 *)

(** The character of a 6-bit value. *)
Definition base64_char (t : Z) : Z :=
  default 0 (str "ABCDEFGHIJKLMNOPQRSTUVWXYZabcdefghijklmnopqrstuvwxyz0123456789+/" !! Z.to_nat t).

(** RFC 4648, section 4: three bytes make four characters, and a shorter last
    group is padded with ['=']. *)
Fixpoint rfc4648_encode (v : bytes) : bytes :=
  match v with
  | a :: b :: c :: l =>
      base64_char (a / 4) :: base64_char ((a mod 4) * 16 + b / 16) ::
      base64_char ((b mod 16) * 4 + c / 64) :: base64_char (c mod 64) :: rfc4648_encode l
  | [a; b] =>
      [base64_char (a / 4); base64_char ((a mod 4) * 16 + b / 16);
        base64_char ((b mod 16) * 4); 61]
  | [a] => [base64_char (a / 4); base64_char ((a mod 4) * 16); 61; 61]
  | [] => []
  end.

(** What four (or, at the end, two or three) 6-bit values decode to. *)
Fixpoint decode_sextets (l : list Z) : option bytes :=
  match l with
  | a :: b :: c :: d :: l =>
      l' ← decode_sextets l;
      Some (a * 4 + b / 16 :: (b mod 16) * 16 + c / 4 :: (c mod 4) * 64 + d :: l')
  | [a; b; c] => Some [a * 4 + b / 16; (b mod 16) * 16 + c / 4]
  | [a; b] => Some [a * 4 + b / 16]
  | [_] => None
  | [] => Some []
  end.

(** The 6-bit value of a character, the padding character counting as 0. *)
Definition sextet (c : Z) : option Z :=
  match to_6_bit c with Ret v => Some v | _ => None end.

(** ** The iterators *)

#[local] Arguments Z.shiftl : simpl never.
#[local] Arguments Z.shiftr : simpl never.
#[local] Arguments Z.land : simpl never.
#[local] Arguments Z.lor : simpl never.
#[local] Arguments Z.div : simpl never.
#[local] Arguments Z.modulo : simpl never.
#[local] Arguments Z.mul : simpl never.
#[local] Arguments Z.add : simpl never.
#[local] Arguments wrap : simpl never.

Lemma from_6_bit_char t : 0 <= t < 64 -> from_6_bit t = Ret (base64_char t).
Proof.
  intros Ht. unfold from_6_bit, base64_char.
  destruct (_ !! Z.to_nat t) eqn:E; [done|].
  apply lookup_ge_None in E. change (length _) with 64%nat in E. lia.
Qed.

(** Tables of bit identities on values below [n] and [m], by computation. *)
Lemma all_below1 (n : nat) (f g : Z -> Z) a :
  all_below n (fun a => f a =? g a) = true -> 0 <= a < Z.of_nat n -> f a = g a.
Proof. intros H Ha. apply (all_below_spec _ _ a) in H; [|done]. by apply Z.eqb_eq. Qed.

Lemma all_below2 (n m : nat) (f g : Z -> Z -> Z) a b :
  all_below n (fun a => all_below m (fun b => f a b =? g a b)) = true ->
  0 <= a < Z.of_nat n -> 0 <= b < Z.of_nat m -> f a b = g a b.
Proof.
  intros H Ha Hb. apply (all_below_spec _ _ a) in H; [|done].
  apply (all_below_spec _ _ b) in H; [|done]. by apply Z.eqb_eq.
Qed.

Ltac bits1 n a :=
  match goal with
  | |- ?l = ?r =>
      let f := eval pattern a in l in
      let g := eval pattern a in r in
      match f with ?f _ => match g with ?g _ =>
          apply (all_below1 n f g a); [vm_compute; reflexivity | assumption]
      end end
  end.

Ltac bits2 n m a b :=
  match goal with
  | |- ?l = ?r =>
      let f := eval pattern a, b in l in
      let g := eval pattern a, b in r in
      match f with ?f _ _ => match g with ?g _ _ =>
          apply (all_below2 n m f g a b); [vm_compute; reflexivity | assumption | assumption]
      end end
  end.

Import TransformWidth.

(** One dereference, symbolically: unfold [fill] and run its loop. *)
Ltac run_fill :=
  match goal with |- ?l = _ =>
      let l' := eval cbv -[Z.shiftl Z.shiftr Z.land Z.lor wrap] in l in change l with l'
  end.

Ltac same_value :=
  match goal with |- Ret (?v, _) = Ret (?w, _) => replace v with w; [reflexivity|symmetry] end.

Section EncodeIterator.
Context (l : list Z) (o x : Z).
Abbreviation deref_enc := (dereference 6 8 vector_deref).

Lemma enc_deref_0 a : 0 <= a < 256 ->
  deref_enc (mk (a :: l) false o x 0 false) = Ret (a / 4, mk l true (a / 4) a 2 false).
Proof. intros Ha. run_fill. same_value. bits1 256%nat a. Qed.

Lemma enc_deref_2 a b : 0 <= a < 256 -> 0 <= b < 256 ->
  deref_enc (mk (b :: l) false o a 2 false) =
  Ret (a mod 4 * 16 + b / 16, mk l true (a mod 4 * 16 + b / 16) b 4 false).
Proof. intros Ha Hb. run_fill. same_value. bits2 256%nat 256%nat a b. Qed.

Lemma enc_deref_4 b c : 0 <= b < 256 -> 0 <= c < 256 ->
  deref_enc (mk (c :: l) false o b 4 false) =
  Ret (b mod 16 * 4 + c / 64, mk l true (b mod 16 * 4 + c / 64) c 6 false).
Proof. intros Hb Hc. run_fill. same_value. bits2 256%nat 256%nat b c. Qed.

Lemma enc_deref_6 c e : 0 <= c < 256 ->
  deref_enc (mk l false o c 6 e) = Ret (c mod 64, mk l true (c mod 64) c 0 e).
Proof. intros Hc. run_fill. same_value. bits1 256%nat c. Qed.

Lemma enc_deref_2_end a : 0 <= a < 256 ->
  deref_enc (mk l false o a 2 true) = Ret (a mod 4 * 16, mk l true (a mod 4 * 16) 0 0 true).
Proof. intros Ha. run_fill. same_value. bits1 256%nat a. Qed.

Lemma enc_deref_4_end b : 0 <= b < 256 ->
  deref_enc (mk l false o b 4 true) = Ret (b mod 16 * 4, mk l true (b mod 16 * 4) 0 0 true).
Proof. intros Hb. run_fill. same_value. bits1 256%nat b. Qed.

End EncodeIterator.

Section DecodeIterator.
Context (deref : option Z -> cpp Z) (l : list Z) (o x : Z).
Abbreviation deref_dec := (dereference 8 6 deref).

Lemma dec_deref_0 ca cb a b :
  deref (Some ca) = Ret a -> deref (Some cb) = Ret b -> 0 <= a < 64 -> 0 <= b < 64 ->
  deref_dec (mk (ca :: cb :: l) false o x 0 false) =
  Ret (a * 4 + b / 16, mk l true (a * 4 + b / 16) b 4 false).
Proof.
  intros Ea Eb Ha Hb. run_fill. rewrite Ea. run_fill. rewrite Eb. run_fill. same_value.
  bits2 64%nat 64%nat a b.
Qed.

Lemma dec_deref_4 cc b c :
  deref (Some cc) = Ret c -> 0 <= b < 64 -> 0 <= c < 64 ->
  deref_dec (mk (cc :: l) false o b 4 false) =
  Ret (b mod 16 * 16 + c / 4, mk l true (b mod 16 * 16 + c / 4) c 2 false).
Proof.
  intros Ec Hb Hc. run_fill. rewrite Ec. run_fill. same_value. bits2 64%nat 64%nat b c.
Qed.

Lemma dec_deref_2 cd c d :
  deref (Some cd) = Ret d -> 0 <= c < 64 -> 0 <= d < 64 ->
  deref_dec (mk (cd :: l) false o c 2 false) =
  Ret (c mod 4 * 64 + d, mk l true (c mod 4 * 64 + d) d 0 false).
Proof.
  intros Ed Hc Hd. run_fill. rewrite Ed. run_fill. same_value. bits2 64%nat 64%nat c d.
Qed.

(** An exception of the base iterator leaves [dereference]. *)

Lemma dec_throw_0 e :
  deref (head l) = Throw e -> deref_dec (mk l false o x 0 false) = Throw e.
Proof. intros E. run_fill. destruct l; cbn in E; by rewrite E. Qed.

Lemma dec_throw_0' ca a e :
  deref (Some ca) = Ret a -> deref (head l) = Throw e ->
  deref_dec (mk (ca :: l) false o x 0 false) = Throw e.
Proof. intros Ea E. run_fill. rewrite Ea. run_fill. destruct l; cbn in E; by rewrite E. Qed.

Lemma dec_throw_4 cc e :
  deref (Some cc) = Throw e -> deref_dec (mk (cc :: l) false o x 4 false) = Throw e.
Proof. intros Ea. run_fill. by rewrite Ea. Qed.

Lemma dec_throw_2 cc e :
  deref (Some cc) = Throw e -> deref_dec (mk (cc :: l) false o x 2 false) = Throw e.
Proof. intros Ea. run_fill. by rewrite Ea. Qed.
End DecodeIterator.

(** ** The copy loops *)

Lemma copy_loop_step bo bi d f fuel it it1 v it2 c :
  equal_impl bo bi it = (false, it1) -> dereference bo bi d it1 = Ret (v, it2) -> f v = Ret c ->
  copy_loop bo bi d (S fuel) f it =
    (let* rest := copy_loop bo bi d fuel f (increment it2) in Ret (c :: rest)).
Proof. intros H1 H2 H3. cbn. rewrite H1, H2. cbn. by rewrite H3. Qed.

Lemma copy_loop_throw bo bi d f fuel it it1 e :
  equal_impl bo bi it = (false, it1) -> dereference bo bi d it1 = Throw e ->
  copy_loop bo bi d (S fuel) f it = Throw e.
Proof. intros H1 H2. cbn. by rewrite H1, H2. Qed.

(** Advance a copy loop by one element with the given [dereference] lemma. *)
Ltac enc_step lem :=
  match goal with |- context [copy_loop _ _ _ ?fuel _ _] =>
      destruct fuel as [|fuel]; [cbn in *; lia|] end;
  erewrite copy_loop_step;
    [ | reflexivity | apply lem; assumption | apply from_6_bit_char ];
    unfold increment; cbn [base_reference m_buffer_out m_buffer_in m_remaining_bits m_end_of_sequence obind].

Ltac enc_range :=
  solve [ Z.to_euclidean_division_equations; lia ].

(** Three more bytes need the same number of padding characters. *)
Lemma pad_count_step (n : nat) :
  (3 - Z.of_nat (S (S (S n))) mod 3) mod 3 = (3 - Z.of_nat n mod 3) mod 3.
Proof.
  replace (Z.of_nat (S (S (S n)))) with (Z.of_nat n + 1 * 3) by lia.
  by rewrite Z.mod_add.
Qed.

Lemma enc_copy v : Forall u8 v ->
  forall fuel o x, (8 * length v < fuel)%nat ->
  exists body,
    copy_loop 6 8 vector_deref fuel from_6_bit (mk v false o x 0 false) = Ret body /\
    body ++ repeat 61 (Z.to_nat ((3 - Z.of_nat (length v) mod 3) mod 3)) = rfc4648_encode v.
Proof.
  unfold in_width. change (2 ^ 8) with 256.
  induction v as [|a|a b|a b c l IH] using list_ind3; intros Hv fuel o x Hf;
    repeat match goal with H : Forall _ (_ :: _) |- _ => apply Forall_cons in H as [? ?] end.
  - exists []. destruct fuel; [lia|]. done.
  - enc_step (enc_deref_0 [] o x a); [|enc_range].
    enc_step (enc_deref_2_end [] (a / 4) a); [|enc_range].
    eexists; split; [destruct fuel; [cbn in *; lia|]; reflexivity|done].
  - enc_step (enc_deref_0 [b] o x a); [|enc_range].
    enc_step (enc_deref_2 [] (a / 4) a b); [|enc_range].
    enc_step (enc_deref_4_end [] (a mod 4 * 16 + b / 16) b); [|enc_range].
    eexists; split; [destruct fuel; [cbn in *; lia|]; reflexivity|done].
  - enc_step (enc_deref_0 (b :: c :: l) o x a); [|enc_range].
    enc_step (enc_deref_2 (c :: l) (a / 4) a b); [|enc_range].
    enc_step (enc_deref_4 l (a mod 4 * 16 + b / 16) b c); [|enc_range].
    destruct fuel as [|fuel]; [cbn in *; lia|].
    set (e := match l with [] => true | _ => false end).
    erewrite copy_loop_step with
      (it1 := mk l false (b mod 16 * 4 + c / 64) c 6 e);
      [ | destruct l; reflexivity | apply enc_deref_6; assumption
        | apply from_6_bit_char; enc_range ].
    unfold increment; cbn [base_reference m_buffer_out m_buffer_in m_remaining_bits m_end_of_sequence].
    destruct (IH ltac:(assumption) fuel (c mod 64) c) as (body & Hb & Hp); [cbn in *; lia|].
    assert (Hfuel : exists f', fuel = S f') by (destruct fuel; [cbn in *; lia|eauto]).
    destruct Hfuel as [f' ->].
    exists (base64_char (a / 4) :: base64_char (a mod 4 * 16 + b / 16) ::
       base64_char (b mod 16 * 4 + c / 64) :: base64_char (c mod 64) :: body).
    split.
    + replace (copy_loop 6 8 vector_deref (S f') from_6_bit (mk l false (c mod 64) c 0 e))
        with (@Ret exn _ body); [reflexivity|].
      rewrite <- Hb. subst e. by destruct l.
    + cbn [rfc4648_encode app]. by rewrite <- Hp, <- pad_count_step with (n := length l).
Qed.

Lemma EncodeBase64_eq v : Forall u8 v -> EncodeBase64 v = Ret (rfc4648_encode v).
Proof.
  intros Hv. unfold EncodeBase64, copy, transform_width.
  destruct (enc_copy v Hv (S (Z.to_nat 8 * length v)) 0 0) as (body & Hb & Hp); [lia|].
  rewrite Hb. cbn [obind]. by rewrite Hp.
Qed.

(** C37: [EncodeBase64] computes the RFC 4648 encoding of any byte vector; in
    particular it returns, and its bit-level iterator never reads past the end. *)
Theorem EncodeBase64_rfc4648 v :
  Forall u8 v -> EncodeBase64 v = Ret (rfc4648_encode v).
Proof. apply EncodeBase64_eq. Qed.

Lemma EncodeBase64_rfc4648_witness :
  Forall u8 (str "HELLO WORLD") /\ EncodeBase64 (str "HELLO WORLD") = Ret (str "SEVMTE8gV09STEQ=").
Proof.
  assert (Forall u8 (str "HELLO WORLD")) as H by bytes_ok.
  split; [exact H|]. exact (EncodeBase64_rfc4648 (str "HELLO WORLD") H).
Defined.

(** ** Decoding *)

Lemma sextet_range c t : sextet c = Some t -> 0 <= t < 64.
Proof.
  unfold sextet, to_6_bit.
  assert (forallb (fun v => (v =? -1) || ((0 <=? v) && (v <? 64)))%bool lookup_table = true)
    as HF by reflexivity.
  rewrite forallb_forall in HF.
  destruct (c <=? 127) eqn:Hc; [|done].
  destruct (lookup_table !! Z.to_nat c) as [v|] eqn:E; cbn [default]; [|done].
  apply list_elem_of_lookup_2, list_elem_of_In, HF in E.
  cbn. destruct (v =? -1) eqn:Ev; [done|]. cbn in E. bool_prop. intros [= <-]. lia.
Qed.

Lemma string_deref_sextet c t : sextet c = Some t -> string_deref (Some c) = Ret t.
Proof. unfold sextet, string_deref. cbn. destruct (to_6_bit c); by intros [= ->]. Qed.

Abbreviation bad_base64 := (Throw (dataflow_exception invalid_base64_character)).

Lemma string_deref_bad c : sextet c = None -> string_deref (Some c) = bad_base64.
Proof.
  unfold sextet, string_deref, to_6_bit. cbn.
  destruct (c <=? 127); cbn; [|done].
  by destruct (default _ _ =? -1).
Qed.

(** The 6-bit values of a text, when every character has one. *)
Definition sextets (s : bytes) : option (list Z) := mapM sextet s.

(** What [DecodeBase64] computes, without its bit buffers. *)
Definition decode_spec (s : bytes) : cpp bytes :=
  match sextets s ≫= decode_sextets with
  | Some out => Ret out
  | None => bad_base64
  end.

(** Advance a decoding copy loop by one element, or to its exception. *)
Ltac dec_fuel :=
  match goal with |- context [copy_loop _ _ _ ?fuel _ _] =>
      destruct fuel as [|fuel]; [cbn in *; lia|] end.

Ltac dec_step lem :=
  dec_fuel; erewrite copy_loop_step; [ | reflexivity | eapply lem; eauto 3 | reflexivity ];
  unfold increment; cbn [base_reference m_buffer_out m_buffer_in m_remaining_bits m_end_of_sequence obind].

Ltac dec_throw lem :=
  dec_fuel; erewrite copy_loop_throw; [ reflexivity | reflexivity | eapply lem; cbn [head]; eauto ].

#[local] Hint Resolve sextet_range string_deref_sextet string_deref_bad : core.

Lemma string_deref_end : string_deref None = bad_base64.
Proof. reflexivity. Qed.

#[local] Hint Resolve string_deref_end : core.

Lemma sextets_cons c s :
  sextets (c :: s) = (t ← sextet c; l ← sextets s; Some (t :: l)).
Proof. reflexivity. Qed.

Lemma decode_spec_group ca cb cc cd a b c d s :
  sextet ca = Some a -> sextet cb = Some b -> sextet cc = Some c -> sextet cd = Some d ->
  decode_spec (ca :: cb :: cc :: cd :: s) =
    (let* rest := decode_spec s in
      Ret (a * 4 + b / 16 :: (b mod 16) * 16 + c / 4 :: (c mod 4) * 64 + d :: rest)).
Proof.
  intros Ea Eb Ec Ed. unfold decode_spec. rewrite !sextets_cons, Ea, Eb, Ec, Ed. cbn.
  destruct (sextets s) as [l|]; cbn; [|done]. by destruct (decode_sextets l).
Qed.

Lemma dec_copy s : forall fuel o x, (6 * length s < fuel)%nat ->
  copy_loop 8 6 string_deref fuel Ret (mk s false o x 0 false) = decode_spec s.
Proof.
  induction s as [|ca|ca cb|ca cb cc|ca cb cc cd s IH] using list_ind4; intros fuel o x Hf.
  - by dec_fuel.
  - destruct (sextet ca) as [a|] eqn:Ea.
    + transitivity (@Throw exn bytes (dataflow_exception invalid_base64_character)).
      * dec_throw dec_throw_0'.
      * unfold decode_spec. by rewrite sextets_cons, Ea.
    + unfold decode_spec. rewrite sextets_cons, Ea. dec_throw dec_throw_0.
  - destruct (sextet ca) as [a|] eqn:Ea;
      [|unfold decode_spec; rewrite sextets_cons, Ea; dec_throw dec_throw_0].
    destruct (sextet cb) as [b|] eqn:Eb;
      [|unfold decode_spec; rewrite !sextets_cons, Ea, Eb; dec_throw dec_throw_0'].
    unfold decode_spec. rewrite !sextets_cons, Ea, Eb.
    dec_step dec_deref_0. by dec_fuel.
  - destruct (sextet ca) as [a|] eqn:Ea;
      [|unfold decode_spec; rewrite sextets_cons, Ea; dec_throw dec_throw_0].
    destruct (sextet cb) as [b|] eqn:Eb;
      [|unfold decode_spec; rewrite !sextets_cons, Ea, Eb; dec_throw dec_throw_0'].
    unfold decode_spec. rewrite !sextets_cons, Ea, Eb.
    dec_step dec_deref_0.
    destruct (sextet cc) as [c|] eqn:Ec; [|dec_throw dec_throw_4].
    dec_step dec_deref_4. by dec_fuel.
  - destruct (sextet ca) as [a|] eqn:Ea;
      [|unfold decode_spec; rewrite sextets_cons, Ea; dec_throw dec_throw_0].
    destruct (sextet cb) as [b|] eqn:Eb;
      [|unfold decode_spec; rewrite !sextets_cons, Ea, Eb; dec_throw dec_throw_0'].
    dec_step dec_deref_0.
    destruct (sextet cc) as [c|] eqn:Ec;
      [|unfold decode_spec; rewrite !sextets_cons, Ea, Eb, Ec; dec_throw dec_throw_4].
    dec_step dec_deref_4.
    destruct (sextet cd) as [d|] eqn:Ed;
      [|unfold decode_spec; rewrite !sextets_cons, Ea, Eb, Ec, Ed; dec_throw dec_throw_2].
    dec_step dec_deref_2.
    rewrite IH by (cbn in *; lia). erewrite decode_spec_group by eauto.
    by destruct (decode_spec s).
Qed.

Lemma DecodeBase64_eq s : DecodeBase64 s = decode_spec s.
Proof. apply dec_copy. lia. Qed.

(** ** Round trip *)

Lemma sextet_base64_char t : 0 <= t < 64 -> sextet (base64_char t) = Some t.
Proof.
  intros Ht.
  assert (all_below 64 (fun t => match sextet (base64_char t) with
                                 | Some u => u =? t | None => false end) = true) as H by reflexivity.
  apply (all_below_spec _ _ t) in H; [|done].
  cbv beta in H. destruct (sextet _); [|done]. bool_prop. by subst.
Qed.

Lemma sextet_pad : sextet 61 = Some 0.
Proof. reflexivity. Qed.

(** The number of padding characters of the encoding of [n] bytes. *)
Definition pad_count (n : nat) : nat := Z.to_nat ((3 - Z.of_nat n mod 3) mod 3).

(** The three bytes of a group from its four 6-bit values. *)
Lemma sextet_join a b c : 0 <= a < 256 -> 0 <= b < 256 -> 0 <= c < 256 ->
  a / 4 * 4 + (a mod 4 * 16 + b / 16) / 16 = a /\
  (a mod 4 * 16 + b / 16) mod 16 * 16 + (b mod 16 * 4 + c / 64) / 4 = b /\
  (b mod 16 * 4 + c / 64) mod 4 * 64 + c mod 64 = c.
Proof. intros Ha Hb Hc. repeat split; enc_range. Qed.

Lemma decode_rfc4648 v :
  Forall u8 v -> decode_spec (rfc4648_encode v) = Ret (v ++ repeat 0 (pad_count (length v))).
Proof.
  unfold in_width. change (2 ^ 8) with 256.
  induction v as [|a|a b|a b c l IH] using list_ind3; intros Hv;
    repeat match goal with H : Forall _ (_ :: _) |- _ => apply Forall_cons in H as [? ?] end;
    [done| | |]; cbn [rfc4648_encode].
  - erewrite decode_spec_group by
      (apply sextet_pad || (apply sextet_base64_char; enc_range)).
    destruct (sextet_join a 0 0) as (J1 & J2 & J3); try lia.
    change (0 / 16) with 0 in *. change (0 mod 16 * 4 + 0 / 64) with 0 in *.
    change (0 / 4) with 0 in *. rewrite !Z.add_0_r in *. cbn. by rewrite J1, J2.
  - erewrite decode_spec_group by
      (apply sextet_pad || (apply sextet_base64_char; enc_range)).
    destruct (sextet_join a b 0) as (J1 & J2 & J3); try lia.
    change (0 / 64) with 0 in *. change (0 mod 64) with 0 in *.
    rewrite !Z.add_0_r in *. cbn. by rewrite J1, J2, J3.
  - erewrite decode_spec_group by (apply sextet_base64_char; enc_range).
    rewrite IH by done. unfold pad_count. cbn [length obind app].
    destruct (sextet_join a b c) as (J1 & J2 & J3); try lia.
    by rewrite pad_count_step, J1, J2, J3.
Qed.

(** Decoding what [EncodeBase64] wrote gives the bytes back, followed by one
    zero byte per padding character, because the decoder reads ['='] as the
    6-bit value 0 and does not drop it. *)
Theorem DecodeBase64_EncodeBase64 v s :
  Forall u8 v -> EncodeBase64 v = Ret s ->
  DecodeBase64 s = Ret (v ++ repeat 0 (pad_count (length v))).
Proof.
  intros Hv Hs. rewrite EncodeBase64_eq in Hs by done. injection Hs as <-.
  rewrite DecodeBase64_eq. by apply decode_rfc4648.
Qed.

Lemma DecodeBase64_EncodeBase64_witness :
  Forall u8 (str "HELLO") /\ DecodeBase64 (str "SEVMTE8=") = Ret (str "HELLO" ++ [0]).
Proof.
  assert (Forall u8 (str "HELLO")) as H by bytes_ok.
  split; [exact H|].
  exact (DecodeBase64_EncodeBase64 (str "HELLO") (str "SEVMTE8=") H eq_refl).
Defined.

(** The exact round trip: it needs a length divisible by three. *)
Corollary DecodeBase64_EncodeBase64_exact v s :
  Forall u8 v -> Z.of_nat (length v) mod 3 = 0 -> EncodeBase64 v = Ret s ->
  DecodeBase64 s = Ret v.
Proof.
  intros Hv Hl Hs. rewrite EncodeBase64_eq in Hs by done. injection Hs as <-.
  rewrite DecodeBase64_eq, decode_rfc4648 by done.
  unfold pad_count. rewrite Hl. cbn. by rewrite app_nil_r.
Qed.

(** What a text decodes to is bytes. *)
Lemma decode_sextets_u8 l out :
  Forall (fun t => 0 <= t < 64) l -> decode_sextets l = Some out -> Forall u8 out.
Proof.
  unfold in_width. change (2 ^ 8) with 256.
  revert out. induction l as [|a|a b|a b c|a b c d l IH] using list_ind4; intros out Hl;
    repeat match goal with H : Forall _ (_ :: _) |- _ => apply Forall_cons in H as [? ?] end;
    cbn [decode_sextets]; [by intros [= <-]|done| | |].
  1,2: intros [= <-]; repeat constructor; Z.to_euclidean_division_equations; lia.
  destruct (decode_sextets l) as [l'|] eqn:E; cbn; [|done]. intros [= <-].
  repeat constructor; try (Z.to_euclidean_division_equations; lia). by apply IH.
Qed.

Lemma sextets_range s l : sextets s = Some l -> Forall (fun t => 0 <= t < 64) l.
Proof.
  revert l. induction s as [|c s IH]; intros l; [by intros [= <-]|]. rewrite sextets_cons.
  destruct (sextet c) eqn:E; cbn; [|done]. destruct (sextets s); cbn; [|done].
  intros [= <-]. constructor; eauto.
Qed.

Lemma decode_spec_cases s :
  match decode_spec s with
  | Ret out => Forall u8 out
  | Throw e => e = dataflow_exception invalid_base64_character
  | Undef => False
  end.
Proof.
  unfold decode_spec. destruct (sextets s) as [l|] eqn:E; cbn; [|done].
  destruct (decode_sextets l) eqn:El; [|done]. eauto using decode_sextets_u8, sextets_range.
Qed.

(** The accepted texts: every character has a 6-bit value and the length is not
    one more than a multiple of four. *)
Definition base64_ok (s : bytes) : bool :=
  forallb (fun c => match sextet c with Some _ => true | None => false end) s &&
  negb (Z.of_nat (length s) mod 4 =? 1).

Lemma decode_sextets_length l :
  match decode_sextets l with Some _ => Z.of_nat (length l) mod 4 <> 1 | None => Z.of_nat (length l) mod 4 = 1 end.
Proof.
  induction l as [|a|a b|a b c|a b c d l IH] using list_ind4; try done.
  cbn [decode_sextets mbind option_bind].
  assert (Z.of_nat (length (a :: b :: c :: d :: l)) mod 4 = Z.of_nat (length l) mod 4) as ->.
  { cbn [length]. replace (Z.of_nat _) with (Z.of_nat (length l) + 1 * 4) by lia. by rewrite Z.mod_add. }
  by destruct (decode_sextets l).
Qed.

Lemma sextets_spec s :
  match sextets s with
  | Some l => length l = length s /\
              forallb (fun c => match sextet c with Some _ => true | None => false end) s = true
  | None => forallb (fun c => match sextet c with Some _ => true | None => false end) s = false
  end.
Proof.
  induction s as [|c s IH]; [done|]. rewrite sextets_cons. cbn [forallb].
  destruct (sextet c); cbn; [|done].
  destruct (sextets s); cbn; [|done]. destruct IH as [-> ->]. done.
Qed.

(** The two ways out of [DecodeBase64]: it returns exactly on the texts of
    base64 and padding characters whose length is not 1 modulo 4, and throws
    [dataflow_exception] on all the others. *)
Theorem DecodeBase64_throws s :
  (base64_ok s = true -> exists out, DecodeBase64 s = Ret out) /\
  (base64_ok s = false -> DecodeBase64 s = Throw (dataflow_exception invalid_base64_character)).
Proof.
  rewrite DecodeBase64_eq. unfold decode_spec, base64_ok.
  pose proof (sextets_spec s) as Hs.
  destruct (sextets s) as [l|]; cbn; [|rewrite Hs; by split].
  destruct Hs as [Hl ->]. rewrite <- Hl.
  pose proof (decode_sextets_length l) as Hd. cbn.
  destruct (decode_sextets l); split; intros H; bool_prop; eauto; done.
Qed.

Lemma DecodeBase64_throws_witness :
  (exists out, DecodeBase64 (str "QQ==") = Ret out) /\
  DecodeBase64 (str "QQ==Q") = Throw (dataflow_exception invalid_base64_character).
Proof.
  split.
  - exact (proj1 (DecodeBase64_throws (str "QQ==")) eq_refl).
  - exact (proj2 (DecodeBase64_throws (str "QQ==Q")) eq_refl).
Defined.
