(* ===== verification/RingBuffer.v ===== *)
(** * boost::lockfree::spsc_queue

    Models [ringbuffer_base], [compile_time_sized_ringbuffer] and [spsc_queue]
    of src/externals/boost/boost/lockfree/spsc_queue.hpp, which carry the
    requests and the responses between the threads
    ([ClientEmuQueue] and [EmuClientQueue] of src/src/rpc_server.h). Here every
    operation runs without interference; SpscConcurrent.v interleaves the
    atomic steps of [push] and [consume_one].

    A slot of the storage holds [Some] object that has been constructed and not
    yet destroyed, or [None]. *)

From Stdlib Require Import ZArith Lia.
From stdpp Require Import base list.
From S2P Require Import Prelude Exceptions.

(** ** The data members and the index functions *)

Record ringbuffer (T : Type) := mk_rb {
  write_index_ : Z;
  read_index_ : Z;
  storage_ : list (option T)
}.
Arguments mk_rb {T} _ _ _.
Arguments write_index_ {T} _.
Arguments read_index_ {T} _.
Arguments storage_ {T} _.

(** [size_t] arithmetic. *)
Definition size_t (z : Z) : Z := wrap 64 z.

(** The loop [while (ret >= max_size) ret -= max_size] of [next_index]. *)
Fixpoint next_index_loop (fuel : nat) (ret max_size : Z) : Z :=
  match fuel with
  | O => ret
  | S fuel => if max_size <=? ret then next_index_loop fuel (size_t (ret - max_size)) max_size else ret
  end.

Definition next_index (arg max_size : Z) : Z :=
  let ret := size_t (arg + 1) in
  next_index_loop (Z.to_nat ret) ret max_size.

Definition read_available (write_index read_index max_size : Z) : Z :=
  if read_index <=? write_index then size_t (write_index - read_index)
  else size_t (size_t (write_index + max_size) - read_index).

Definition write_available (write_index read_index max_size : Z) : Z :=
  let ret := size_t (size_t (read_index - write_index) - 1) in
  if read_index <=? write_index then size_t (ret + max_size) else ret.

Section Operations.
Context {T : Type}.
Implicit Types rb : ringbuffer T.

(** [ringbuffer_base()] with [compile_time_sized_ringbuffer<T, MaxSize>]'s
    storage of [max_size = MaxSize + 1] slots. *)
Definition ringbuffer_base (max_size : Z) : ringbuffer T :=
  mk_rb 0 0 (replicate (Z.to_nat max_size) None).

(** Whether the ringbuffer is empty, from its indices. *)
Definition empty (write_index read_index : Z) : bool := write_index =? read_index.

(** [buffer[i]], an object that must be alive. *)
Definition object_at (buffer : list (option T)) (i : Z) : cpp T :=
  match buffer !! Z.to_nat i with
  | Some (Some t) => Ret t
  | _ => Undef
  end.

(** [push(T const & t, T * buffer, size_t max_size)]. *)
Definition push (t : T) (max_size : Z) rb : bool * ringbuffer T :=
  let write_index := write_index_ rb in
  let next := next_index write_index max_size in
  if next =? read_index_ rb then (false, rb)
  else
    let buffer := <[Z.to_nat write_index := Some t]> (storage_ rb) in
    (true, mk_rb next (read_index_ rb) buffer).

Section Functor.
Context {St : Type} (functor : St -> T -> St).

(** [consume_one(Functor & functor, T * buffer, size_t max_size)], with the
    state [s] the functor updates. *)
Definition consume_one (max_size : Z) (s : St) rb : cpp (bool * St * ringbuffer T) :=
  let write_index := write_index_ rb in
  let read_index := read_index_ rb in
  if empty write_index read_index then Ret (false, s, rb)
  else
    let* object_to_consume := object_at (storage_ rb) read_index in
    let s := functor s object_to_consume in
    let buffer := <[Z.to_nat read_index := None]> (storage_ rb) in
    let next := next_index read_index max_size in
    Ret (true, s, mk_rb write_index next buffer).

(** [run_functor_and_delete(first, last, functor)] on the [count] objects
    from the index [first]. *)
Fixpoint run_functor_and_delete (count : nat) (first : Z) (s : St)
  (buffer : list (option T)) : cpp (St * list (option T)) :=
  match count with
  | O => Ret (s, buffer)
  | S count =>
      let* t := object_at buffer first in
      run_functor_and_delete count (first + 1) (functor s t)
      (<[Z.to_nat first := None]> buffer)
  end.

(** [consume_all(Functor & functor, T * internal_buffer, size_t max_size)]. *)
Definition consume_all (max_size : Z) (s : St) rb : cpp (Z * St * ringbuffer T) :=
  let write_index := write_index_ rb in
  let read_index := read_index_ rb in
  let avail := read_available write_index read_index max_size in
  if avail =? 0 then Ret (0, s, rb)
  else
    let output_count := avail in
    let new_read_index := size_t (read_index + output_count) in
    if max_size <? new_read_index then
      let count0 := size_t (max_size - read_index) in
      let count1 := size_t (output_count - count0) in
      let* (s, buffer) :=
        run_functor_and_delete (Z.to_nat count0) read_index s (storage_ rb) in
      let* (s, buffer) := run_functor_and_delete (Z.to_nat count1) 0 s buffer in
      Ret (output_count, s, mk_rb write_index (size_t (new_read_index - max_size)) buffer)
    else
      let* (s, buffer) :=
        run_functor_and_delete (Z.to_nat output_count) read_index s (storage_ rb) in
      Ret (output_count, s,
        mk_rb write_index (if new_read_index =? max_size then 0 else new_read_index) buffer).
End Functor.

(** [copy_and_delete(first, last, out)]: the copied objects, in order. *)
Definition copy_and_delete (count : nat) (first : Z) (buffer : list (option T))
  : cpp (list T * list (option T)) :=
  run_functor_and_delete (fun out t => out ++ [t]) count first [] buffer.

(** [pop_to_output_iterator(OutputIterator it, ...)]: the objects written
    through the output iterator, one after the other. *)
Definition pop_to_output_iterator (max_size : Z) rb : cpp (list T * ringbuffer T) :=
  let write_index := write_index_ rb in
  let read_index := read_index_ rb in
  let avail := read_available write_index read_index max_size in
  if avail =? 0 then Ret ([], rb)
  else
    let new_read_index := size_t (read_index + avail) in
    if max_size <? new_read_index then
      let count0 := size_t (max_size - read_index) in
      let count1 := size_t (avail - count0) in
      let* (out0, buffer) := copy_and_delete (Z.to_nat count0) read_index (storage_ rb) in
      let* (out1, buffer) := copy_and_delete (Z.to_nat count1) 0 buffer in
      Ret (out0 ++ out1, mk_rb write_index (size_t (new_read_index - max_size)) buffer)
    else
      let* (out, buffer) := copy_and_delete (Z.to_nat avail) read_index (storage_ rb) in
      Ret (out, mk_rb write_index (if new_read_index =? max_size then 0 else new_read_index) buffer).

(** [pop(T * output_buffer, size_t output_count, ...)]. *)
Definition pop_array (output_count max_size : Z) rb : cpp (list T * ringbuffer T) :=
  let write_index := write_index_ rb in
  let read_index := read_index_ rb in
  let avail := read_available write_index read_index max_size in
  if avail =? 0 then Ret ([], rb)
  else
    let output_count := Z.min output_count avail in
    let new_read_index := size_t (read_index + output_count) in
    if max_size <? new_read_index then
      let count0 := size_t (max_size - read_index) in
      let count1 := size_t (output_count - count0) in
      let* (out0, buffer) := copy_and_delete (Z.to_nat count0) read_index (storage_ rb) in
      let* (out1, buffer) := copy_and_delete (Z.to_nat count1) 0 buffer in
      Ret (out0 ++ out1, mk_rb write_index (size_t (new_read_index - max_size)) buffer)
    else
      let* (out, buffer) := copy_and_delete (Z.to_nat output_count) read_index (storage_ rb) in
      Ret (out, mk_rb write_index (if new_read_index =? max_size then 0 else new_read_index) buffer).

(** [std::uninitialized_copy(first, last, internal_buffer + i)]. *)
Fixpoint uninitialized_copy (ts : list T) (i : Z) (buffer : list (option T)) : list (option T) :=
  match ts with
  | [] => buffer
  | t :: ts => uninitialized_copy ts (i + 1) (<[Z.to_nat i := Some t]> buffer)
  end.

(** [push(ConstIterator begin, ConstIterator end, ...)]: the elements that have
    not been pushed, and the ringbuffer. *)
Definition push_range (ts : list T) (max_size : Z) rb : list T * ringbuffer T :=
  let write_index := write_index_ rb in
  let read_index := read_index_ rb in
  let avail := write_available write_index read_index max_size in
  if avail =? 0 then (ts, rb)
  else
    let input_count := Z.min (Z.of_nat (length ts)) avail in
    let new_write_index := size_t (write_index + input_count) in
    let pushed := take (Z.to_nat input_count) ts in
    let last := drop (Z.to_nat input_count) ts in
    if max_size <? new_write_index then
      let count0 := size_t (max_size - write_index) in
      let buffer := uninitialized_copy (take (Z.to_nat count0) pushed) write_index (storage_ rb) in
      let buffer := uninitialized_copy (drop (Z.to_nat count0) pushed) 0 buffer in
      (last, mk_rb (size_t (new_write_index - max_size)) read_index buffer)
    else
      let buffer := uninitialized_copy pushed write_index (storage_ rb) in
      (last, mk_rb (if new_write_index =? max_size then 0 else new_write_index) read_index buffer).

(** [spsc_queue::pop(U & ret)], that is [consume_one] with
    [detail::consume_via_copy]: the copied object, if any. *)
Definition consume_via_copy (out_ : option T) (element : T) : option T := Some element.

Definition pop (max_size : Z) rb : cpp (option T * ringbuffer T) :=
  let* (res, rb) := consume_one consume_via_copy max_size None rb in
  Ret (snd res, rb).

(** [front]. *)
Definition front rb : cpp T := object_at (storage_ rb) (read_index_ rb).

(** [reset()], for a [T] with a destructor: pop until empty. *)
Fixpoint reset (fuel : nat) (max_size : Z) rb : cpp (ringbuffer T) :=
  match fuel with
  | O => Undef
  | S fuel =>
      let* (dummy_element, rb) := pop max_size rb in
      match dummy_element with
      | Some _ => reset fuel max_size rb
      | None => Ret rb
      end
  end.
End Operations.

(** ** The queue a ringbuffer holds *)

(** The slot [k] places after [r], and the distance from [r] to the slot [j]. *)
Definition slot (max_size r k : Z) : Z := if r + k <? max_size then r + k else r + k - max_size.
Definition offset (max_size r j : Z) : Z := if r <=? j then j - r else j - r + max_size.

(** [holds max_size rb q]: the ringbuffer is well formed and its live objects
    are the elements of [q], from the read index on, in order. *)
Record holds {T} (max_size : Z) (rb : ringbuffer T) (q : list T) : Prop := {
  holds_max : 1 < max_size < 2 ^ 32;
  holds_read : 0 <= read_index_ rb < max_size;
  holds_length : length (storage_ rb) = Z.to_nat max_size;
  holds_fits : Z.of_nat (length q) < max_size;
  holds_write : write_index_ rb = slot max_size (read_index_ rb) (Z.of_nat (length q));
  holds_slots : forall j : nat, Z.of_nat j < max_size ->
    storage_ rb !! j = Some (q !! Z.to_nat (offset max_size (read_index_ rb) (Z.of_nat j)))
}.

(** Splits the tests of the index arithmetic and closes with [lia]. *)
Ltac index_arith :=
  unfold slot, offset in *;
  repeat match goal with
  | |- context [if ?b then _ else _] => destruct b eqn:?
  | H : context [if ?b then _ else _] |- _ => destruct b eqn:?
  end; bool_prop; try lia.

Lemma size_t_small z : 0 <= z < 2 ^ 64 -> size_t z = z.
Proof. apply Z.mod_small. Qed.

Lemma size_t_wrap z : - 2 ^ 64 <= z < 0 -> size_t z = z + 2 ^ 64.
Proof.
  intros Hz. unfold size_t, wrap.
  rewrite <- (Z.mod_small (z + 2 ^ 64) (2 ^ 64)) by lia.
  rewrite <- (Z.mul_1_l (2 ^ 64)) at 2. by rewrite Z.mod_add.
Qed.

Lemma next_index_slot max_size a :
  1 < max_size < 2 ^ 32 -> 0 <= a < max_size -> next_index a max_size = slot max_size a 1.
Proof.
  intros Hm Ha. unfold next_index. rewrite size_t_small by lia.
  destruct (Z.to_nat (a + 1)) as [|fuel] eqn:E; [lia|]. cbn.
  destruct (max_size <=? a + 1) eqn:Hle; bool_prop.
  - rewrite size_t_small by lia.
    assert (a + 1 - max_size = 0) as H0 by lia. rewrite H0.
    destruct fuel; cbn; [index_arith|].
    destruct (max_size <=? 0) eqn:?; index_arith.
  - index_arith.
Qed.

Section Holds.
Context {T : Type} (max_size : Z).
Implicit Types (rb : ringbuffer T) (q : list T).

Lemma holds_write_range rb q : holds max_size rb q -> 0 <= write_index_ rb < max_size.
Proof. intros []. index_arith. Qed.

Lemma read_available_holds rb q :
  holds max_size rb q ->
  read_available (write_index_ rb) (read_index_ rb) max_size = Z.of_nat (length q).
Proof.
  intros H. pose proof (holds_write_range _ _ H). destruct H as [Hm Hr _ Hf Hw _].
  unfold read_available. rewrite Hw in *.
  destruct (read_index_ rb <=? slot _ _ _) eqn:?; bool_prop.
  - rewrite size_t_small by index_arith. index_arith.
  - rewrite (size_t_small (_ + _)) by index_arith.
    rewrite size_t_small by index_arith. index_arith.
Qed.

Lemma write_available_holds rb q :
  holds max_size rb q ->
  write_available (write_index_ rb) (read_index_ rb) max_size = max_size - 1 - Z.of_nat (length q).
Proof.
  intros H. pose proof (holds_write_range _ _ H). destruct H as [Hm Hr _ Hf Hw _].
  unfold write_available. rewrite Hw in *.
  destruct (read_index_ rb <=? slot _ _ _) eqn:?; bool_prop.
  - assert (size_t (size_t (read_index_ rb - slot max_size (read_index_ rb) (Z.of_nat (length q))) - 1)
        = 2 ^ 64 - 1 - Z.of_nat (length q)) as ->.
    { destruct (decide (length q = 0%nat)) as [E|E].
      - rewrite E. replace (read_index_ rb - _) with 0 by index_arith.
        rewrite (size_t_small 0), size_t_wrap by lia. lia.
      - rewrite (size_t_wrap (read_index_ rb - _)) by index_arith.
        rewrite size_t_small by index_arith. index_arith. }
    replace (2 ^ 64 - 1 - Z.of_nat (length q) + max_size)
      with ((max_size - 1 - Z.of_nat (length q)) + 1 * 2 ^ 64) by lia.
    unfold size_t, wrap. rewrite Z.mod_add by lia. apply Z.mod_small. lia.
  - rewrite (size_t_small (read_index_ rb - _)) by index_arith.
    rewrite size_t_small by index_arith. index_arith.
Qed.

Lemma empty_holds rb q :
  holds max_size rb q ->
  empty (write_index_ rb) (read_index_ rb) = match q with [] => true | _ => false end.
Proof.
  intros H. destruct H as [Hm Hr _ Hf Hw _]. unfold empty.
  destruct q; cbn [length] in *; [apply Z.eqb_eq|apply Z.eqb_neq]; index_arith.
Qed.

(** The object [i] places after the read index. *)
Lemma object_at_holds rb q i t :
  holds max_size rb q -> q !! i = Some t ->
  storage_ rb !! Z.to_nat (slot max_size (read_index_ rb) (Z.of_nat i)) = Some (Some t).
Proof.
  intros [Hm Hr Hl Hf Hw Hs] Hi. pose proof (lookup_lt_Some _ _ _ Hi).
  rewrite Hs by index_arith. do 2 f_equal. rewrite <- Hi. f_equal. index_arith.
Qed.

Lemma ringbuffer_base_holds :
  1 < max_size < 2 ^ 32 -> holds (T:=T) max_size (ringbuffer_base max_size) [].
Proof.
  intros Hm. split; cbn; try lia.
  - by rewrite length_replicate.
  - index_arith.
  - intros j Hj. rewrite lookup_replicate_2 by lia. done.
Qed.

Lemma push_holds rb q t :
  holds max_size rb q ->
  if Z.of_nat (length q) <? max_size - 1
  then exists rb', push t max_size rb = (true, rb') /\ holds max_size rb' (q ++ [t])
  else push t max_size rb = (false, rb).
Proof.
  intros H. pose proof (holds_write_range _ _ H) as Hwr.
  destruct H as [Hm Hr Hl Hf Hw Hs]. unfold push.
  rewrite next_index_slot by done.
  destruct (_ <? max_size - 1) eqn:Hfull; bool_prop.
  - destruct (_ =? read_index_ rb) eqn:E; bool_prop; [rewrite Hw in *; index_arith|].
    eexists; split; [done|]. split; cbn; rewrite ?length_insert, ?length_app; cbn; try lia.
    + rewrite Hw in *. index_arith.
    + intros j Hj. destruct (decide (Z.of_nat j = write_index_ rb)) as [Ej|Ej].
      * rewrite <- Ej, Nat2Z.id, list_lookup_insert_eq by lia.
        assert (Z.to_nat (offset max_size (read_index_ rb) (Z.of_nat j)) = length q) as ->
          by (rewrite Ej, Hw in *; index_arith).
        rewrite lookup_app_r, Nat.sub_diag by lia. done.
      * rewrite list_lookup_insert_ne by lia. rewrite Hs by done. f_equal.
        destruct (decide (offset max_size (read_index_ rb) (Z.of_nat j) < Z.of_nat (length q))).
        -- rewrite lookup_app_l by index_arith. done.
        -- rewrite !(proj2 (lookup_ge_None _ _)); [done| |]; rewrite ?length_app; cbn;
            rewrite Hw in *; index_arith.
  - destruct (_ =? read_index_ rb) eqn:E; bool_prop; [done|]. rewrite Hw in *. index_arith.
Qed.

(** Removing [n] objects from the front: their slots are dead and the read
    index has moved [n] places. *)
Lemma holds_drop rb q n buffer :
  holds max_size rb q -> (n <= length q)%nat ->
  length buffer = length (storage_ rb) ->
  (forall j : nat, Z.of_nat j < max_size ->
    buffer !! j =
    if offset max_size (read_index_ rb) (Z.of_nat j) <? Z.of_nat n
    then Some None else storage_ rb !! j) ->
  holds max_size
  (mk_rb (write_index_ rb) (slot max_size (read_index_ rb) (Z.of_nat n)) buffer) (drop n q).
Proof.
  intros [Hm Hr Hl Hf Hw Hs] Hn Hlen Hb.
  split; cbn; rewrite ?length_drop; try lia.
  - index_arith.
  - rewrite Hw. index_arith.
  - intros j Hj. rewrite Hb by done. rewrite lookup_drop.
    destruct (_ <? Z.of_nat n) eqn:E; bool_prop.
    + rewrite (proj2 (lookup_ge_None _ _)); [done|]. index_arith.
    + rewrite Hs by done. f_equal. f_equal. index_arith.
Qed.

Lemma consume_one_holds {St} (functor : St -> T -> St) s rb q :
  holds max_size rb q ->
  match q with
  | [] => consume_one functor max_size s rb = Ret (false, s, rb)
  | t :: q' => exists rb',
      consume_one functor max_size s rb = Ret (true, functor s t, rb') /\ holds max_size rb' q'
  end.
Proof.
  intros H. unfold consume_one. rewrite (empty_holds _ _ H).
  destruct q as [|t q']; [done|].
  pose proof (object_at_holds rb (t :: q') 0 t H eq_refl) as Ho.
  pose proof (holds_drop rb (t :: q') 1 (<[Z.to_nat (read_index_ rb):=None]> (storage_ rb)) H) as Hd.
  destruct H as [Hm Hr Hl Hf Hw Hs].
  replace (slot max_size (read_index_ rb) (Z.of_nat 0)) with (read_index_ rb) in Ho by index_arith.
  unfold object_at. rewrite Ho. cbn. eexists; split; [done|].
  rewrite next_index_slot by done. apply Hd; [cbn; lia|by rewrite length_insert|].
  intros j Hj. destruct (decide (j = Z.to_nat (read_index_ rb))) as [->|Hne].
  - rewrite list_lookup_insert_eq by lia.
    destruct (_ <? _) eqn:E; [done|]. index_arith.
  - rewrite list_lookup_insert_ne by lia.
    destruct (_ <? _) eqn:E; [|done]. index_arith.
Qed.

(** The storage after the destruction of [count] objects from [first] on. *)
Fixpoint kill (count : nat) (first : Z) (buffer : list (option T)) : list (option T) :=
  match count with
  | O => buffer
  | S count => kill count (first + 1) (<[Z.to_nat first := None]> buffer)
  end.

Lemma length_kill count : forall first buffer, length (kill count first buffer) = length buffer.
Proof. induction count; intros; cbn; [done|]. by rewrite IHcount, length_insert. Qed.

Lemma kill_lookup count : forall first buffer (j : nat),
  0 <= first -> (j < length buffer)%nat ->
  kill count first buffer !! j =
  if (first <=? Z.of_nat j) && (Z.of_nat j <? first + Z.of_nat count)
  then Some None else buffer !! j.
Proof.
  induction count as [|count IH]; intros first buffer j Hf Hj; cbn [kill]; [zcases|].
  rewrite IH by (rewrite ?length_insert; lia).
  destruct (decide (j = Z.to_nat first)) as [->|Hne].
  - rewrite list_lookup_insert_eq by lia. zcases.
  - rewrite list_lookup_insert_ne by lia. zcases.
Qed.

(** [run_functor_and_delete] on a segment of live objects. *)
Lemma run_segment {St} (functor : St -> T -> St) (qs : list T) : forall first s (buffer : list (option T)),
  0 <= first ->
  (forall (i : nat) t, qs !! i = Some t -> buffer !! Z.to_nat (first + Z.of_nat i) = Some (Some t)) ->
  run_functor_and_delete functor (length qs) first s buffer =
  Ret (foldl functor s qs, kill (length qs) first buffer).
Proof.
  induction qs as [|t qs IH]; intros first s buffer Hf Hb; cbn; [done|].
  pose proof (Hb 0%nat t eq_refl) as H0. rewrite Z.add_0_r in H0.
  unfold object_at. rewrite H0. cbn. apply IH; [lia|].
  intros i u Hi. rewrite list_lookup_insert_ne by lia.
  rewrite <- (Hb (S i) u Hi). f_equal. lia.
Qed.

Lemma foldl_snoc_list (l acc : list T) : foldl (fun out t => out ++ [t]) acc l = acc ++ l.
Proof.
  revert acc. induction l as [|t l IH]; intros acc; cbn; [by rewrite app_nil_r|].
  by rewrite IH, <- app_assoc.
Qed.

(** Taking [n] objects when they do not reach past the end of the storage. *)
Lemma drain_one {St} (functor : St -> T -> St) rb q (n : nat) s :
  holds max_size rb q -> (n <= length q)%nat -> read_index_ rb + Z.of_nat n <= max_size ->
  exists buffer,
  run_functor_and_delete functor n (read_index_ rb) s (storage_ rb)
  = Ret (foldl functor s (take n q), buffer) /\
  holds max_size
  (mk_rb (write_index_ rb)
     (if read_index_ rb + Z.of_nat n =? max_size then 0 else read_index_ rb + Z.of_nat n) buffer)
  (drop n q).
Proof.
  intros H Hn Hfit.
  exists (kill n (read_index_ rb) (storage_ rb)). split.
  - pose proof (run_segment functor (take n q) (read_index_ rb) s (storage_ rb)) as Hrun.
    rewrite length_take_le in Hrun by lia. apply Hrun; [apply H|].
    intros i t Hi. apply lookup_take_Some in Hi as [Hi Hlt].
    rewrite <- (object_at_holds rb q i t H Hi). f_equal. destruct H. index_arith.
  - pose proof (holds_drop rb q n (kill n (read_index_ rb) (storage_ rb)) H Hn
      (length_kill _ _ _)) as Hd.
    destruct H as [Hm Hr Hl _ _ _].
    replace (if _ =? max_size then _ else _) with (slot max_size (read_index_ rb) (Z.of_nat n))
      by index_arith.
    apply Hd. intros j Hj. rewrite kill_lookup by lia. unfold offset. zcases.
Qed.

(** Taking [n] objects in two segments, around the end of the storage. *)
Lemma drain_two {St} (functor : St -> T -> St) rb q (n : nat) :
  holds max_size rb q -> (n <= length q)%nat -> max_size < read_index_ rb + Z.of_nat n ->
  let c0 := Z.to_nat (max_size - read_index_ rb) in
  exists b1 b2,
  (forall s, run_functor_and_delete functor c0 (read_index_ rb) s (storage_ rb)
    = Ret (foldl functor s (take c0 q), b1)) /\
  (forall s, run_functor_and_delete functor (n - c0) 0 s b1
    = Ret (foldl functor s (drop c0 (take n q)), b2)) /\
  holds max_size (mk_rb (write_index_ rb) (read_index_ rb + Z.of_nat n - max_size) b2) (drop n q).
Proof.
  intros H Hn Hover c0. pose proof H as [Hm Hr Hl Hf _ _].
  set (b1 := kill c0 (read_index_ rb) (storage_ rb)).
  exists b1, (kill (n - c0) 0 b1). split; [|split].
  - intros s. pose proof (run_segment functor (take c0 q) (read_index_ rb) s (storage_ rb)) as Hrun.
    rewrite length_take_le in Hrun by lia. apply Hrun; [lia|].
    intros i t Hi. apply lookup_take_Some in Hi as [Hi Hlt].
    rewrite <- (object_at_holds rb q i t H Hi). f_equal. index_arith.
  - intros s. assert (length (drop c0 (take n q)) = (n - c0)%nat) as Hlen
      by (rewrite length_drop, length_take; lia).
    rewrite <- Hlen. apply run_segment; [lia|].
    intros i t Hi. rewrite lookup_drop in Hi. apply lookup_take_Some in Hi as [Hi Hlt].
    subst b1. rewrite kill_lookup by (rewrite ?Hl; lia).
    rewrite <- (object_at_holds rb q _ t H Hi).
    replace (slot _ _ _) with (0 + Z.of_nat i) by index_arith. zcases.
  - pose proof (holds_drop rb q n (kill (n - c0) 0 b1) H Hn) as Hd.
    replace (read_index_ rb + Z.of_nat n - max_size)
      with (slot max_size (read_index_ rb) (Z.of_nat n)) by index_arith.
    subst b1. apply Hd; [by rewrite !length_kill|].
    intros j Hj.
    rewrite kill_lookup by (rewrite ?length_kill, ?Hl; lia).
    rewrite kill_lookup by (rewrite ?Hl; lia). unfold offset. zcases.
Qed.

(** *** The whole-queue operations *)

Lemma consume_all_holds {St} (functor : St -> T -> St) s rb q :
  holds max_size rb q ->
  exists rb', consume_all functor max_size s rb = Ret (Z.of_nat (length q), foldl functor s q, rb') /\
          holds max_size rb' [].
Proof.
  intros H. pose proof H as [Hm Hr Hl Hf _ _].
  unfold consume_all. rewrite (read_available_holds _ _ H).
  destruct (Z.of_nat (length q) =? 0) eqn:E; bool_prop.
  { destruct q; [|cbn in *; lia]. by exists rb. }
  rewrite (size_t_small (read_index_ rb + _)) by lia.
  destruct (max_size <? _) eqn:Hover; bool_prop.
  - rewrite (size_t_small (max_size - read_index_ rb)), (size_t_small (_ - (_ - _))),
      (size_t_small (_ + _ - _)) by lia.
    destruct (drain_two functor rb q (length q) H) as (b1 & b2 & H1 & H2 & Hh); [lia..|].
    rewrite H1. cbn [obind].
    replace (Z.to_nat (Z.of_nat (length q) - (max_size - read_index_ rb)))
      with (length q - Z.to_nat (max_size - read_index_ rb))%nat by lia.
    rewrite H2. cbn [obind]. rewrite firstn_all, <- foldl_app, take_drop.
    rewrite drop_all in Hh. eauto.
  - rewrite Nat2Z.id.
    destruct (drain_one functor rb q (length q) s H) as (b & -> & Hh); [lia..|].
    rewrite firstn_all, drop_all in *. eauto.
Qed.

Lemma pop_to_output_iterator_holds rb q :
  holds max_size rb q ->
  exists rb', pop_to_output_iterator max_size rb = Ret (q, rb') /\ holds max_size rb' [].
Proof.
  intros H. pose proof H as [Hm Hr Hl Hf _ _].
  unfold pop_to_output_iterator, copy_and_delete. rewrite (read_available_holds _ _ H).
  destruct (Z.of_nat (length q) =? 0) eqn:E; bool_prop.
  { destruct q; [|cbn in *; lia]. by exists rb. }
  rewrite (size_t_small (read_index_ rb + _)) by lia.
  destruct (max_size <? _) eqn:Hover; bool_prop.
  - rewrite (size_t_small (max_size - read_index_ rb)), (size_t_small (_ - (_ - _))),
      (size_t_small (_ + _ - _)) by lia.
    destruct (drain_two (fun out t => out ++ [t]) rb q (length q) H) as (b1 & b2 & H1 & H2 & Hh); [lia..|].
    rewrite H1. cbn [obind].
    replace (Z.to_nat (Z.of_nat (length q) - (max_size - read_index_ rb)))
      with (length q - Z.to_nat (max_size - read_index_ rb))%nat by lia.
    rewrite H2. cbn [obind]. rewrite !foldl_snoc_list, firstn_all; cbn [app]; rewrite take_drop.
    rewrite drop_all in Hh. eauto.
  - rewrite Nat2Z.id.
    destruct (drain_one (fun out t => out ++ [t]) rb q (length q) [] H) as (b & -> & Hh); [lia..|].
    cbn [obind]. rewrite foldl_snoc_list, firstn_all, drop_all in *. eauto.
Qed.

Lemma pop_array_holds rb q (n : nat) :
  holds max_size rb q ->
  exists rb', pop_array (Z.of_nat n) max_size rb = Ret (take n q, rb') /\
          holds max_size rb' (drop n q).
Proof.
  intros H. pose proof H as [Hm Hr Hl Hf _ _].
  unfold pop_array, copy_and_delete. rewrite (read_available_holds _ _ H).
  destruct (Z.of_nat (length q) =? 0) eqn:E; bool_prop.
  { destruct q; [|cbn in *; lia]. exists rb. by rewrite take_nil, drop_nil. }
  set (k := Nat.min n (length q)). assert (k <= length q)%nat as Hk by lia.
  replace (Z.min (Z.of_nat n) (Z.of_nat (length q))) with (Z.of_nat k) by lia.
  replace (take n q) with (take k q) by (subst k; destruct (Nat.le_ge_cases n (length q));
    [by rewrite Nat.min_l by lia | by rewrite Nat.min_r, !take_ge by lia]).
  replace (drop n q) with (drop k q) by (subst k; destruct (Nat.le_ge_cases n (length q));
    [by rewrite Nat.min_l by lia | by rewrite Nat.min_r, !drop_ge by lia]).
  rewrite (size_t_small (read_index_ rb + _)) by lia.
  destruct (max_size <? _) eqn:Hover; bool_prop.
  - rewrite (size_t_small (max_size - read_index_ rb)), (size_t_small (_ - (_ - _))),
      (size_t_small (_ + _ - _)) by lia.
    destruct (drain_two (fun out t => out ++ [t]) rb q k H) as (b1 & b2 & H1 & H2 & Hh); [lia..|].
    rewrite H1. cbn [obind].
    replace (Z.to_nat (Z.of_nat k - (max_size - read_index_ rb)))
      with (k - Z.to_nat (max_size - read_index_ rb))%nat by lia.
    rewrite H2. cbn [obind]. rewrite !foldl_snoc_list.
    set (c0 := Z.to_nat (max_size - read_index_ rb)) in *.
    replace (take c0 q) with (take c0 (take k q)) by (rewrite take_take; f_equal; lia).
    cbn [app]. rewrite take_drop. eauto.
  - rewrite Nat2Z.id.
    destruct (drain_one (fun out t => out ++ [t]) rb q k [] H) as (b & -> & Hh); [lia..|].
    cbn [obind]. rewrite foldl_snoc_list. eauto.
Qed.

(** *** Pushing a range *)

Lemma length_uninitialized_copy (ts : list T) : forall i buffer,
  length (uninitialized_copy ts i buffer) = length buffer.
Proof. induction ts; intros; cbn; [done|]. by rewrite IHts, length_insert. Qed.

Lemma uninitialized_copy_lookup (ts : list T) : forall i buffer (j : nat),
  0 <= i -> (j < length buffer)%nat ->
  uninitialized_copy ts i buffer !! j =
  if (i <=? Z.of_nat j) && (Z.of_nat j <? i + Z.of_nat (length ts))
  then Some (ts !! Z.to_nat (Z.of_nat j - i)) else buffer !! j.
Proof.
  induction ts as [|t ts IH]; intros i buffer j Hi Hj; cbn [uninitialized_copy length]; [zcases|].
  rewrite IH by (rewrite ?length_insert; lia).
  destruct (decide (j = Z.to_nat i)) as [->|Hne].
  - rewrite list_lookup_insert_eq by lia.
    replace (Z.to_nat (Z.of_nat (Z.to_nat i) - i)) with 0%nat by lia. zcases.
  - rewrite list_lookup_insert_ne by lia. zcases.
    replace (Z.to_nat (Z.of_nat j - i)) with (S (Z.to_nat (Z.of_nat j - (i + 1)))) by lia. done.
Qed.

Lemma holds_append rb q ts buffer :
  holds max_size rb q -> Z.of_nat (length q + length ts) < max_size ->
  length buffer = length (storage_ rb) ->
  (forall j : nat, Z.of_nat j < max_size ->
    let k := offset max_size (read_index_ rb) (Z.of_nat j) - Z.of_nat (length q) in
    buffer !! j = if (0 <=? k) && (k <? Z.of_nat (length ts))
               then Some (ts !! Z.to_nat k) else storage_ rb !! j) ->
  holds max_size
  (mk_rb (slot max_size (read_index_ rb) (Z.of_nat (length q + length ts))) (read_index_ rb) buffer)
  (q ++ ts).
Proof.
  intros [Hm Hr Hl Hf Hw Hs] Hn Hlen Hb.
  split; cbn; rewrite ?length_app; try (done || lia).
  intros j Hj. rewrite Hb by done.
  set (k := offset _ _ _) in *.
  assert (0 <= k) by (subst k; index_arith).
  destruct (Z.leb_spec 0 (k - Z.of_nat (length q))); cbn [andb].
  - rewrite lookup_app_r by lia.
    destruct (Z.ltb_spec (k - Z.of_nat (length q)) (Z.of_nat (length ts))).
    + do 2 f_equal. lia.
    + rewrite Hs by done. fold k. f_equal. rewrite !(proj2 (lookup_ge_None _ _)); [done|lia..].
  - rewrite lookup_app_l by lia. by apply Hs.
Qed.

Lemma push_range_holds rb q ts :
  holds max_size rb q ->
  let k := Nat.min (length ts) (Z.to_nat (max_size - 1 - Z.of_nat (length q))) in
  exists rb', push_range ts max_size rb = (drop k ts, rb') /\ holds max_size rb' (q ++ take k ts).
Proof.
  intros H k. pose proof (holds_write_range _ _ H) as Hwr.
  pose proof H as [Hm Hr Hl Hf Hw _].
  unfold push_range. rewrite (write_available_holds _ _ H).
  destruct (_ =? 0) eqn:E; bool_prop.
  { assert (k = 0%nat) as -> by lia. exists rb. by rewrite take_0, drop_0, app_nil_r. }
  replace (Z.min _ _) with (Z.of_nat k) by lia. rewrite Nat2Z.id.
  assert (length (take k ts) = k) as Hk by (rewrite length_take; lia).
  assert (k <= length ts)%nat as Hkt by lia.
  assert (Z.of_nat (length q + k) < max_size) as Hfit by lia. clearbody k.
  rewrite (size_t_small (write_index_ rb + _)) by lia.
  destruct (max_size <? _) eqn:Hover; bool_prop.
  - rewrite (size_t_small (max_size - write_index_ rb)), (size_t_small (_ + _ - _)) by lia.
    eexists; split; [done|].
    replace (write_index_ rb + Z.of_nat k - max_size)
      with (slot max_size (read_index_ rb) (Z.of_nat (length q + length (take k ts))))
      by (rewrite Hk; index_arith).
    apply holds_append; [done|lia|by rewrite !length_uninitialized_copy|].
    intros j Hj. cbv zeta.
    set (c0 := Z.to_nat (max_size - write_index_ rb)).
    rewrite uninitialized_copy_lookup by (rewrite ?length_uninitialized_copy; lia).
    rewrite uninitialized_copy_lookup by lia.
    rewrite length_drop, (length_take (take k ts)), Hk, lookup_drop, Z.sub_0_r.
    unfold slot in Hw. unfold offset.
    zcases; try (do 2 f_equal; solve [index_arith]);
      try (rewrite (lookup_take_lt (take k ts)) by lia; do 2 f_equal; solve [index_arith]);
      exfalso; solve [index_arith].
  - eexists; split; [done|].
    replace (if _ =? max_size then _ else _)
      with (slot max_size (read_index_ rb) (Z.of_nat (length q + length (take k ts))))
      by (rewrite Hk; index_arith).
    apply holds_append; [done|lia|by rewrite length_uninitialized_copy|].
    intros j Hj. cbv zeta. rewrite uninitialized_copy_lookup by lia. rewrite Hk.
    unfold slot in Hw. unfold offset.
    zcases; try (do 2 f_equal; solve [index_arith]);
      try (rewrite !lookup_take_lt by lia; do 2 f_equal; solve [index_arith]);
      exfalso; solve [index_arith].
Qed.
End Holds.

(** ** The contract of a single-producer single-consumer queue

    What the client code relies on: a bounded first-in first-out queue. *)

Class SpscQueue (Q : Type -> Type) (capacity : nat) := {
  sq_new : forall {T}, Q T;
  sq_push : forall {T}, T -> Q T -> bool * Q T;
  sq_pop : forall {T}, Q T -> cpp (option T * Q T);
  sq_consume_all : forall {T St}, (St -> T -> St) -> St -> Q T -> cpp (Z * St * Q T);
  sq_pop_to_output_iterator : forall {T}, Q T -> cpp (list T * Q T);
  sq_holds : forall {T}, Q T -> list T -> Prop;

  sq_new_holds : forall {T}, sq_holds (T:=T) sq_new [];
  sq_push_holds : forall {T} (t : T) q l, sq_holds q l ->
    exists q', sq_push t q = ((length l <? capacity)%nat, q') /\
               sq_holds q' (if (length l <? capacity)%nat then l ++ [t] else l);
  sq_pop_holds : forall {T} (q : Q T) l, sq_holds q l ->
    exists q', sq_pop q = Ret (head l, q') /\ sq_holds q' (tail l);
  sq_consume_all_holds : forall {T St} (f : St -> T -> St) s q l, sq_holds q l ->
    exists q', sq_consume_all f s q = Ret (Z.of_nat (length l), foldl f s l, q') /\ sq_holds q' [];
  sq_pop_to_output_iterator_holds : forall {T} (q : Q T) l, sq_holds q l ->
    exists q', sq_pop_to_output_iterator q = Ret (l, q') /\ sq_holds q' []
}.

(** [boost::lockfree::spsc_queue<T, boost::lockfree::capacity<1024>>]: the
    storage has one slot more than the capacity. *)
Definition queue_max_size : Z := 1024 + 1.

Lemma queue_max_size_ok : 1 < queue_max_size < 2 ^ 32.
Proof. unfold queue_max_size. lia. Qed.

#[export] Instance spsc_queue_1024 : SpscQueue ringbuffer 1024.
Proof.
  refine {|
    sq_new T := ringbuffer_base queue_max_size;
    sq_push T t q := push t queue_max_size q;
    sq_pop T q := pop queue_max_size q;
    sq_consume_all T St f s q := consume_all f queue_max_size s q;
    sq_pop_to_output_iterator T q := pop_to_output_iterator queue_max_size q;
    sq_holds T q l := holds queue_max_size q l
    |}.
  - intros T. apply ringbuffer_base_holds, queue_max_size_ok.
  - intros T t q l H. pose proof (push_holds _ q l t H) as Hp.
    replace (Z.of_nat (length l) <? queue_max_size - 1) with (length l <? 1024)%nat in Hp
      by (unfold queue_max_size; destruct (Nat.ltb_spec (length l) 1024); zcases).
    destruct (length l <? 1024)%nat; eauto.
  - intros T q l H. pose proof (consume_one_holds _ consume_via_copy None q l H) as Hc.
    unfold pop. destruct l as [|t l]; [rewrite Hc; eauto|].
    destruct Hc as (q' & -> & Hq'). eauto.
  - intros T St f s q l H. by apply consume_all_holds.
  - intros T q l H. by apply pop_to_output_iterator_holds.
Defined.

#[local] Arguments Nat.ltb : simpl never.

(** ** Refinement of the bounded queue *)

Section Refinement.
Context {T : Type}.

(** The calls of a client, and what each returns. *)
Inductive op :=
| OpPush (t : T)
| OpPushRange (ts : list T)
| OpPop
| OpPopArray (n : nat)
| OpPopToOutputIterator
| OpConsumeAll
| OpReadAvailable
| OpWriteAvailable.

Inductive result :=
| ResPushed (ok : bool)
| ResNotPushed (ts : list T)
| ResPopped (o : option T)
| ResItems (ts : list T)
| ResConsumed (n : Z) (ts : list T)
| ResCount (n : Z).

(** One call on the ringbuffer; [consume_all] with a functor that records
    what it is given. *)
Definition run_op (max_size : Z) (o : op) (rb : ringbuffer T) : cpp (result * ringbuffer T) :=
  match o with
  | OpPush t => let (ok, rb) := push t max_size rb in Ret (ResPushed ok, rb)
  | OpPushRange ts => let (rest, rb) := push_range ts max_size rb in Ret (ResNotPushed rest, rb)
  | OpPop => let* (o, rb) := pop max_size rb in Ret (ResPopped o, rb)
  | OpPopArray n => let* (ts, rb) := pop_array (Z.of_nat n) max_size rb in Ret (ResItems ts, rb)
  | OpPopToOutputIterator =>
      let* (ts, rb) := pop_to_output_iterator max_size rb in Ret (ResItems ts, rb)
  | OpConsumeAll =>
      let* (res, rb) := consume_all (fun s t => s ++ [t]) max_size [] rb in
      Ret (ResConsumed (fst res) (snd res), rb)
  | OpReadAvailable =>
      Ret (ResCount (read_available (write_index_ rb) (read_index_ rb) max_size), rb)
  | OpWriteAvailable =>
      Ret (ResCount (write_available (write_index_ rb) (read_index_ rb) max_size), rb)
  end.

(** The same call on a bounded first-in first-out queue. *)
Definition spec_op (capacity : nat) (o : op) (q : list T) : result * list T :=
  match o with
  | OpPush t => if (length q <? capacity)%nat then (ResPushed true, q ++ [t]) else (ResPushed false, q)
  | OpPushRange ts =>
      let k := Nat.min (length ts) (capacity - length q) in
      (ResNotPushed (drop k ts), q ++ take k ts)
  | OpPop => (ResPopped (head q), tail q)
  | OpPopArray n => (ResItems (take n q), drop n q)
  | OpPopToOutputIterator => (ResItems q, [])
  | OpConsumeAll => (ResConsumed (Z.of_nat (length q)) q, [])
  | OpReadAvailable => (ResCount (Z.of_nat (length q)), q)
  | OpWriteAvailable => (ResCount (Z.of_nat capacity - Z.of_nat (length q)), q)
  end.

Fixpoint run_ops (max_size : Z) (os : list op) (rb : ringbuffer T) : cpp (list result) :=
  match os with
  | [] => Ret []
  | o :: os =>
      let* (r, rb) := run_op max_size o rb in
      let* rs := run_ops max_size os rb in Ret (r :: rs)
  end.

Fixpoint spec_ops (capacity : nat) (os : list op) (q : list T) : list result :=
  match os with
  | [] => []
  | o :: os => let (r, q) := spec_op capacity o q in r :: spec_ops capacity os q
  end.

Lemma run_op_refines capacity o rb q :
  holds (Z.of_nat capacity + 1) rb q ->
  exists rb', run_op (Z.of_nat capacity + 1) o rb = Ret (fst (spec_op capacity o q), rb') /\
          holds (Z.of_nat capacity + 1) rb' (snd (spec_op capacity o q)).
Proof.
  intros H. destruct o; cbn.
  - pose proof (push_holds _ rb q t H) as Hp. revert Hp.
    destruct (Nat.ltb_spec (length q) capacity); zcases.
    + intros (rb' & -> & Hh). cbn. eauto.
    + intros ->. cbn. eauto.
  - destruct (push_range_holds _ rb q ts H) as (rb' & -> & Hh). cbn.
    replace (Z.to_nat (Z.of_nat capacity + 1 - 1 - Z.of_nat (length q)))
      with (capacity - length q)%nat in * by lia. eauto.
  - unfold pop. pose proof (consume_one_holds _ consume_via_copy None rb q H) as Hc.
    destruct q as [|t q]; [rewrite Hc; cbn; eauto|]. destruct Hc as (rb' & -> & Hh). cbn. eauto.
  - destruct (pop_array_holds _ rb q n H) as (rb' & -> & Hh). cbn. eauto.
  - destruct (pop_to_output_iterator_holds _ rb q H) as (rb' & -> & Hh). cbn. eauto.
  - destruct (consume_all_holds _ (fun s t => s ++ [t]) [] rb q H) as (rb' & -> & Hh).
    cbn. rewrite foldl_snoc_list. eauto.
  - rewrite (read_available_holds _ rb q H). eauto.
  - rewrite (write_available_holds _ rb q H). eexists; split; [|done]. do 3 f_equal. lia.
Qed.

(** C28: the ringbuffer is a bounded first-in first-out queue: from a fresh
    ringbuffer of [capacity + 1] slots, every sequence of calls returns what a
    queue of at most [capacity] elements returns, whatever the wrap-around of
    the indices, and never reads a dead slot. *)
Theorem ringbuffer_refines_queue capacity os :
  0 < Z.of_nat capacity < 2 ^ 31 ->
  run_ops (Z.of_nat capacity + 1) os (ringbuffer_base (Z.of_nat capacity + 1))
  = Ret (spec_ops capacity os []).
Proof.
  intros Hc. assert (holds (Z.of_nat capacity + 1) (ringbuffer_base (T:=T) (Z.of_nat capacity + 1)) [])
    as H.
  { apply ringbuffer_base_holds. lia. }
  clear Hc. revert H. generalize (ringbuffer_base (T:=T) (Z.of_nat capacity + 1)) (@nil T).
  induction os as [|o os IH]; intros rb q H; cbn; [done|].
  destruct (run_op_refines capacity o rb q H) as (rb' & -> & Hh). cbn.
  rewrite (IH _ _ Hh). by destruct (spec_op capacity o q).
Qed.
End Refinement.
Arguments op T : clear implicits.
Arguments result T : clear implicits.

Lemma ringbuffer_refines_queue_witness :
  run_ops 3 [OpPush 7; OpPush 8; OpPush 9; OpPop; OpPush 9; OpConsumeAll] (ringbuffer_base 3)
    = Ret [ResPushed true; ResPushed true; ResPushed false; ResPopped (Some 7);
           ResPushed true; ResConsumed 2 [8; 9]].
Proof. refine (ringbuffer_refines_queue 2 _ _). lia. Defined.
