(* ===== verification/SpscConcurrent.v ===== *)
(** * Interleavings of the single-producer single-consumer queue

    The atomic steps of [ringbuffer_base::push] and of
    [ringbuffer_base::consume_one] (src/externals/boost/boost/lockfree/spsc_queue.hpp),
    interleaved: a step is one load, one store, or one access to a slot of the
    storage. Loads and stores are sequentially consistent here; the
    release/acquire pairs of the source order the slot accesses the same way.

    With one producer and one consumer every interleaving is safe and delivers
    the elements in order. With two consumers, which is how [EmuRPC::Impl] of
    src/src/emurpc.cpp uses [client_emu], an element can be consumed twice and a
    destroyed object can be read. *)

From Stdlib Require Import ZArith Lia.
From stdpp Require Import base list relations.
From S2P Require Import Prelude Exceptions RingBuffer.

Section Concurrent.
Context {T : Type} (max_size : Z).

(** Where the producer is in [push(t)]. *)
Inductive producer :=
| PIdle
| PLoaded (t : T) (write_index next : Z)
| PChecked (t : T) (write_index next : Z)
| PConstructed (t : T) (write_index next : Z).

(** Where a consumer is in [consume_one(functor)]. *)
Inductive consumer :=
| CIdle
| CLoaded (write_index : Z)
| CReady (read_index : Z)
| CConsumed (read_index : Z) (t : T)
| CDestroyed (read_index : Z) (t : T).

(** The shared ringbuffer, the threads, the elements whose [push] has returned
    true and those a functor has been given, in order, and whether some thread
    has touched a dead object. *)
Record system := mk_system {
  sys_rb : ringbuffer T;
  sys_producer : producer;
  sys_consumers : list consumer;
  sys_pushed : list T;
  sys_consumed : list T;
  sys_undef : bool
}.

Definition init (consumers : nat) : system :=
  mk_system (ringbuffer_base max_size) PIdle (replicate consumers CIdle) [] [] false.

Inductive action :=
| ProducerCalls (t : T)
| ProducerSteps
| ConsumerSteps (i : nat).

(** The next atomic step of [push]. *)
Definition push_step (s : system) : option system :=
  let rb := sys_rb s in
  match sys_producer s with
  | PIdle => None
  | PLoaded t write_index next =>
      let p := if next =? read_index_ rb then PIdle else PChecked t write_index next in
      Some (mk_system rb p (sys_consumers s) (sys_pushed s) (sys_consumed s) (sys_undef s))
  | PChecked t write_index next =>
      let buffer := <[Z.to_nat write_index := Some t]> (storage_ rb) in
      Some (mk_system (mk_rb (write_index_ rb) (read_index_ rb) buffer)
          (PConstructed t write_index next)
          (sys_consumers s) (sys_pushed s) (sys_consumed s) (sys_undef s))
  | PConstructed t write_index next =>
      Some (mk_system (mk_rb next (read_index_ rb) (storage_ rb)) PIdle
          (sys_consumers s) (sys_pushed s ++ [t]) (sys_consumed s) (sys_undef s))
  end.

(** The next atomic step of a consumer at [c] in [consume_one]: the
    ringbuffer, where the consumer goes, the element the functor is given, and
    whether the step is undefined. *)
Definition consume_step (rb : ringbuffer T) (c : consumer)
  : ringbuffer T * consumer * option T * bool :=
  match c with
  | CIdle => (rb, CLoaded (write_index_ rb), None, false)
  | CLoaded write_index =>
      if empty write_index (read_index_ rb) then (rb, CIdle, None, false)
      else (rb, CReady (read_index_ rb), None, false)
  | CReady read_index =>
      match object_at (storage_ rb) read_index with
      | Ret t => (rb, CConsumed read_index t, Some t, false)
      | _ => (rb, CIdle, None, true)
      end
  | CConsumed read_index t =>
      match object_at (storage_ rb) read_index with
      | Ret _ =>
          let buffer := <[Z.to_nat read_index := None]> (storage_ rb) in
          (mk_rb (write_index_ rb) (read_index_ rb) buffer, CDestroyed read_index t, None, false)
      | _ => (rb, CIdle, None, true)
      end
  | CDestroyed read_index t =>
      (mk_rb (write_index_ rb) (next_index read_index max_size) (storage_ rb), CIdle, None, false)
  end.

Definition act (a : action) (s : system) : option system :=
  let rb := sys_rb s in
  match a with
  | ProducerCalls t =>
      match sys_producer s with
      | PIdle =>
          let write_index := write_index_ rb in
          Some (mk_system rb (PLoaded t write_index (next_index write_index max_size))
              (sys_consumers s) (sys_pushed s) (sys_consumed s) (sys_undef s))
      | _ => None
      end
  | ProducerSteps => push_step s
  | ConsumerSteps i =>
      c ← sys_consumers s !! i;
      let '(rb, c, o, ub) := consume_step rb c in
      Some (mk_system rb (sys_producer s) (<[i := c]> (sys_consumers s)) (sys_pushed s)
          (sys_consumed s ++ match o with Some t => [t] | None => [] end)
          (sys_undef s || ub))
  end.

(** The interleaving semantics. *)
Inductive step : relation system :=
| step_act a s s' : act a s = Some s' -> step s s'.

(** ** One producer and one consumer *)

Definition consumer_holds (c : consumer) : bool :=
  match c with CConsumed _ _ | CDestroyed _ _ => true | _ => false end.

(** What the slot [j] holds: the published element there, unless the consumer
    has just destroyed it, or the element the producer is about to publish. *)
Definition expected_slot (s : system) (c : consumer) (q : list T) (j : Z) : option T :=
  let rb := sys_rb s in
  let published := q !! Z.to_nat (offset max_size (read_index_ rb) j) in
  let seen := match c with
          | CDestroyed r _ => if j =? r then None else published
          | _ => published
          end in
  match sys_producer s with
  | PConstructed t w _ => if j =? w then Some t else seen
  | _ => seen
  end.

Definition producer_ok (s : system) (q : list T) : Prop :=
  match sys_producer s with
  | PIdle => True
  | PLoaded t w n => w = write_index_ (sys_rb s) /\ n = next_index w max_size
  | PChecked t w n | PConstructed t w n =>
      w = write_index_ (sys_rb s) /\ n = next_index w max_size /\ Z.of_nat (length q) < max_size - 1
  end.

Definition consumer_ok (s : system) (c : consumer) (q : list T) : Prop :=
  let r := read_index_ (sys_rb s) in
  match c with
  | CIdle => True
  | CLoaded w => exists k, 0 <= k <= Z.of_nat (length q) /\ w = slot max_size r k
  | CReady r' => r' = r /\ q <> []
  | CConsumed r' t | CDestroyed r' t => r' = r /\ head q = Some t
  end.

(** The invariant, for the queue [q] of published elements. *)
Record invariant (s : system) (c : consumer) (q : list T) : Prop := {
  inv_consumers : sys_consumers s = [c];
  inv_max : 1 < max_size < 2 ^ 32;
  inv_read : 0 <= read_index_ (sys_rb s) < max_size;
  inv_write : write_index_ (sys_rb s) = slot max_size (read_index_ (sys_rb s)) (Z.of_nat (length q));
  inv_fits : Z.of_nat (length q) < max_size;
  inv_length : length (storage_ (sys_rb s)) = Z.to_nat max_size;
  inv_slots : forall j, 0 <= j < max_size ->
  storage_ (sys_rb s) !! Z.to_nat j = Some (expected_slot s c q j);
  inv_producer : producer_ok s q;
  inv_consumer : consumer_ok s c q;
  inv_order : sys_pushed s = sys_consumed s ++ (if consumer_holds c then tail q else q);
  inv_defined : sys_undef s = false
}.

(** *** Preservation, step by step *)

Lemma init_invariant : 1 < max_size < 2 ^ 32 -> invariant (init 1) CIdle [].
Proof.
  intros Hm. split; cbn; try done; try lia.
  - index_arith.
  - by rewrite length_replicate.
  - intros j Hj. unfold expected_slot. cbn. by rewrite lookup_replicate_2 by lia.
Qed.

Lemma call_invariant s c q t s' :
  invariant s c q -> act (ProducerCalls t) s = Some s' -> invariant s' c q.
Proof.
  intros [] H. destruct s as [rb p cs pu co ub]; cbn in *; subst.
  destruct p; simplify_eq. split; try done.
Qed.

Lemma next_index_read s c q :
  invariant s c q ->
  (next_index (write_index_ (sys_rb s)) max_size =? read_index_ (sys_rb s)) = false ->
  Z.of_nat (length q) < max_size - 1.
Proof.
  intros [] H. rewrite next_index_slot in H by index_arith. bool_prop. index_arith.
Qed.

Lemma producer_invariant s c q s' :
  invariant s c q -> push_step s = Some s' -> exists q', invariant s' c q'.
Proof.
  intros Hinv H. pose proof (next_index_read s c q Hinv) as Hnext.
  destruct Hinv as [Hc Hm Hr Hw Hf Hl Hs Hp Hco Ho Hd].
  destruct s as [[w r st] p cs pu co ub]; cbn in *; subst cs ub.
  destruct p as [|t w' n|t w' n|t w' n]; cbn in *; try done; injection H as <-.
  - destruct Hp as [Hw' Hn]. subst n w'. exists q.
    destruct (next_index w max_size =? r) eqn:E; split; try done.
    cbn. eauto.
  - destruct Hp as (Hw' & Hn & Hroom). subst n w'. exists q. split; try done; cbn.
    + by rewrite length_insert.
    + intros j Hj. unfold expected_slot; cbn.
      destruct (Z.eqb_spec j w) as [->|Hne].
      * rewrite list_lookup_insert_eq by index_arith. done.
      * rewrite list_lookup_insert_ne by index_arith. by apply Hs.
  - destruct Hp as (Hw' & Hn & Hroom). subst n w'. exists (q ++ [t]).
    rewrite next_index_slot in * by index_arith.
    split; try done; cbn; rewrite ?length_app; cbn.
    + index_arith.
    + lia.
    + intros j Hj. rewrite (Hs j Hj). unfold expected_slot; cbn. f_equal.
      destruct (Z.eqb_spec j w) as [->|Hne].
      * assert (Z.to_nat (offset max_size r w) = length q) as Hoff by index_arith.
        rewrite Hoff, lookup_app_r, Nat.sub_diag by lia.
        destruct c; try done. destruct Hco as [-> Hhead].
        cbn. destruct q; [done|]. destruct (Z.eqb_spec w r); [|done]. cbn [length] in *. index_arith.
      * assert ((q ++ [t]) !! Z.to_nat (offset max_size r j) = q !! Z.to_nat (offset max_size r j)) as ->.
        { destruct (decide (offset max_size r j < Z.of_nat (length q))).
          - rewrite lookup_app_l by index_arith. done.
          - rewrite !(proj2 (lookup_ge_None _ _)); [done| |]; rewrite ?length_app; cbn; index_arith. }
        done.
    + destruct c; cbn in *; try done.
      * destruct Hco as (k & Hk & ->). exists k. rewrite length_app. split; [lia|done].
      * destruct Hco as [-> Hq]. split; [done|]. by destruct q.
      * destruct Hco as [-> Hq]. split; [done|]. by destruct q.
      * destruct Hco as [-> Hq]. split; [done|]. by destruct q.
    + rewrite Ho, <- app_assoc. f_equal. destruct (consumer_holds c) eqn:E; [|done].
      destruct q; [|done]. destruct c; try done; by destruct Hco.
Qed.

(** The object at the read index, while a published element is there. *)
Lemma read_slot s c q t :
  invariant s c q -> head q = Some t ->
  match c with CDestroyed _ _ => False | _ => True end ->
  object_at (storage_ (sys_rb s)) (read_index_ (sys_rb s)) = Ret t.
Proof.
  intros [Hc Hm Hr Hw Hf Hl Hs Hp Hco Ho Hd] Hq Hnd.
  unfold object_at. rewrite Hs by done. unfold expected_slot.
  destruct q as [|t' q]; cbn in Hq; simplify_eq.
  replace (Z.to_nat (offset _ _ _)) with 0%nat by index_arith.
  assert (forall w, w = write_index_ (sys_rb s) -> (read_index_ (sys_rb s) =? w) = false) as Hrw.
  { intros w ->. rewrite Hw. cbn [length] in *. apply Z.eqb_neq. index_arith. }
  unfold producer_ok in Hp.
  destruct (sys_producer s) as [| | |t' w n]; destruct c; try done;
    destruct Hp as [-> _]; by rewrite Hrw.
Qed.

(** The system after a step of its only consumer. *)
Definition after_consume (s : system) (c : consumer) : system :=
  let '(rb, c', o, ub) := consume_step (sys_rb s) c in
  mk_system rb (sys_producer s) [c'] (sys_pushed s)
  (sys_consumed s ++ match o with Some t => [t] | None => [] end) (sys_undef s || ub).

Lemma consumer_invariant s c q :
  invariant s c q ->
  exists c' q', invariant (after_consume s c) c' q'.
Proof.
  intros Hinv. pose proof (fun t => read_slot s c q t Hinv) as Hread.
  destruct Hinv as [Hc Hm Hr Hw Hf Hl Hs Hp Hco Ho Hd].
  destruct s as [[w r st] p cs pu co ub]; cbn in *; subst cs ub.
  unfold after_consume. destruct c as [|w'|r'|r' t|r' t]; cbn in *.
  - exists (CLoaded w), q. split; try done; cbn; [|by rewrite app_nil_r].
    exists (Z.of_nat (length q)). split; [lia|done].
  - destruct Hco as (k & Hk & ->).
    unfold empty. destruct (_ =? r) eqn:E; bool_prop; cbn.
    + exists CIdle, q. split; try done; cbn. by rewrite app_nil_r.
    + exists (CReady r), q. split; try done; cbn; [|by rewrite app_nil_r].
      split; [done|]. intros ->. cbn in *. index_arith.
  - destruct Hco as [-> Hq]. destruct q as [|t q]; [done|].
    rewrite (Hread t) by done. cbn.
    exists (CConsumed r t), (t :: q). split; try done; cbn.
    by rewrite Ho, <- app_assoc.
  - destruct Hco as [-> Hq]. rewrite (Hread t) by done. cbn.
    exists (CDestroyed r t), q. split; try done; cbn; [by rewrite length_insert| |by rewrite app_nil_r].
    intros j Hj. unfold expected_slot. cbn.
    destruct (Z.eqb_spec j r) as [->|Hne].
    + rewrite list_lookup_insert_eq by lia. f_equal.
      destruct q as [|t' q]; [done|].
      destruct p as [| | |t'' w'' n]; try done. destruct Hp as [-> _].
      cbn. destruct (Z.eqb_spec r w); [|done]. cbn [length] in *. index_arith.
    + rewrite list_lookup_insert_ne by lia. by apply Hs.
  - destruct Hco as [-> Hq]. destruct q as [|t' q]; [done|]. injection Hq as ->.
    cbn [length tail] in *.
    exists CIdle, q. rewrite next_index_slot by done.
    split; try done; cbn; try lia.
    + index_arith.
    + rewrite Hw. index_arith.
    + intros j Hj. rewrite Hs by done. unfold expected_slot. cbn. f_equal.
      assert ((if j =? r then None else (t :: q) !! Z.to_nat (offset max_size r j)) =
          q !! Z.to_nat (offset max_size (slot max_size r 1) j)) as Heq.
      { destruct (Z.eqb_spec j r) as [->|Hne].
        - symmetry. apply lookup_ge_None. index_arith.
        - replace (Z.to_nat (offset max_size r j))
            with (S (Z.to_nat (offset max_size (slot max_size r 1) j))) by index_arith.
          done. }
      rewrite <- Heq. done.
    + destruct p; cbn in *; try done; intuition lia.
    + by rewrite app_nil_r.
Qed.

Lemma act_invariant a s c q s' :
  invariant s c q -> act a s = Some s' -> exists c' q', invariant s' c' q'.
Proof.
  intros Hinv H. destruct a as [t| |i].
  - exists c, q. eapply call_invariant; eauto.
  - exists c. eapply producer_invariant; eauto.
  - destruct (consumer_invariant s c q Hinv) as (c' & q' & H').
    unfold act in H. rewrite (inv_consumers _ _ _ Hinv) in H.
    destruct i as [|i]; [|done]. cbn in H. unfold after_consume in H'.
    destruct (consume_step _ _) as [[[rb c''] o] ub]. injection H as <-. eauto.
Qed.

Lemma reachable_invariant s :
  1 < max_size < 2 ^ 32 -> rtc step (init 1) s -> exists c q, invariant s c q.
Proof.
  intros Hm. revert s.
  apply (rtc_ind_r (fun s => exists c q, invariant s c q) (init 1)).
  - exists CIdle, []. by apply init_invariant.
  - intros s1 s2 _ [a ? ? Ha] (c & q & Hinv). eapply act_invariant; eauto.
Qed.

(** C30: with one producer and one consumer, in every interleaving of their
    atomic steps no dead slot is read or destroyed, and the elements the
    consumer has been given are, in order and without loss or duplication,
    the first ones the producer has pushed. *)
Theorem spsc_safe s :
  1 < max_size < 2 ^ 32 -> rtc step (init 1) s ->
  sys_undef s = false /\ exists pending, sys_pushed s = sys_consumed s ++ pending /\
  Z.of_nat (length pending) < max_size.
Proof.
  intros Hm H. destruct (reachable_invariant s Hm H) as (c & q & []).
  split; [done|]. eexists; split; [done|].
  destruct (consumer_holds c); [destruct q; cbn in *|]; lia.
Qed.
End Concurrent.

Arguments mk_system {T} _ _ _ _ _ _.
Arguments ProducerCalls {T} _.
Arguments ProducerSteps {T}.
Arguments ConsumerSteps {T} _.

(** Running a schedule. *)
Fixpoint run_schedule {T} (max_size : Z) (acts : list (action (T:=T))) (s : system (T:=T)) : option system :=
  match acts with
  | [] => Some s
  | a :: acts => s ← act max_size a s; run_schedule max_size acts s
  end.

Lemma run_schedule_reachable {T} max_size (acts : list (action (T:=T))) : forall s s',
  run_schedule max_size acts s = Some s' -> rtc (step max_size) s s'.
Proof.
  induction acts as [|a acts IH]; intros s s' H; cbn in H; [by simplify_eq|].
  destruct (act max_size a s) as [s1|] eqn:E; [|done]. eapply rtc_l; [by eapply step_act|eauto].
Qed.

Definition push_one : list (action (T:=Z)) :=
  [ProducerCalls 7; ProducerSteps; ProducerSteps; ProducerSteps].

Lemma spsc_safe_witness :
  exists s, rtc (step (T:=Z) 1025) (init 1025 1) s /\ sys_undef s = false /\
    exists pending, sys_pushed s = sys_consumed s ++ pending /\ Z.of_nat (length pending) < 1025.
Proof.
  destruct (run_schedule 1025 (push_one ++ repeat (ConsumerSteps 0) 3) (init 1025 1)) as [s|] eqn:E.
  2: { exfalso. vm_compute in E. discriminate E. }
  assert (rtc (step (T:=Z) 1025) (init 1025 1) s) as H by (eapply run_schedule_reachable; exact E).
  exists s. split; [exact H|]. exact (spsc_safe 1025 s ltac:(lia) H).
Defined.

(** The schedule in which both consumers load the indices before either of them
    has moved the read index. *)
Definition race : list (action (T:=Z)) :=
  push_one ++ [ConsumerSteps 0; ConsumerSteps 1; ConsumerSteps 0; ConsumerSteps 1;
               ConsumerSteps 0; ConsumerSteps 1].

(** With two consumers on one queue, which is how [Impl::ProcessEvents] (on
    the server thread) and [Impl::HandleTiming] (on the emulator thread) use
    [client_emu], there is an interleaving in which one pushed element is
    consumed twice, and one in which a consumer touches a destroyed object. *)
Theorem two_consumers_unsafe :
  (exists s, rtc (step 1025) (init 1025 2) s /\ sys_pushed s = [7] /\ sys_consumed s = [7; 7]) /\
  (exists s, rtc (step (T:=Z) 1025) (init 1025 2) s /\ sys_undef s = true).
Proof.
  split.
  - destruct (run_schedule 1025 race (init 1025 2)) as [s|] eqn:E; [|vm_compute in E; discriminate].
    exists s. split; [by eapply run_schedule_reachable|]. vm_compute in E. by simplify_eq.
  - destruct (run_schedule 1025 (race ++ [ConsumerSteps 0; ConsumerSteps 1]) (init 1025 2))
      as [s|] eqn:E; [|vm_compute in E; discriminate].
    exists s. split; [by eapply run_schedule_reachable|]. vm_compute in E. by simplify_eq.
Qed.
