(* ===== verification/MultiBuffer.v ===== *)
(** * boost::beast::multi_buffer

    Models [basic_multi_buffer] of
    src/externals/boost/boost/beast/core/impl/multi_buffer.ipp, the dynamic
    buffer of [Session::read_buffer] and [Session::write_buffer], and the
    [boost::asio::buffer_copy] calls on it (boost/asio/buffer.hpp).

    An element of the list is its memory: [Some] byte once written, [None] while
    indeterminate. Offsets in elements are natural numbers; the differences the
    code does not guard are taken modulo 2^64. *)

From Stdlib Require Import ZArith Lia SpecFloat.
From stdpp Require Import base list.
From S2P Require Import Prelude Exceptions.

Abbreviation element := (list (option Z)).

(** [out_] is the index of an element, or the length of the list for [end()]. *)
Record multi_buffer := mk_mb {
  max_ : Z;
  list_ : list element;
  out_ : nat;
  in_size_ : nat;
  in_pos_ : nat;
  out_pos_ : nat;
  out_end_ : nat
}.

(** [size_t] subtraction. *)
Definition sub64 (a b : nat) : nat := Z.to_nat (wrap 64 (Z.of_nat a - Z.of_nat b)).

(** [basic_multi_buffer()]. *)
Definition new_multi_buffer : multi_buffer := mk_mb (2 ^ 64 - 1) [] 0 0 0 0 0.

(** [element::size] of the element at an index. *)
Definition size_at (l : list element) (i : nat) : nat := length (default [] (l !! i)).

(** [list_.iterator_to(list_.back())]; for an empty list the circular list
    node makes it [end()]. *)
Definition back_index (l : list element) : nat := pred (length l).

(** [static_cast<float>] of a [size_t]. *)
Definition float32_of_Z (z : Z) : spec_float := binary_normalize 24 128 z 0 false.

(** [static_cast<std::size_t>(in_size_ * growth_factor - in_size_)]. *)
Definition growth (in_size : nat) : nat :=
  let f := float32_of_Z (Z.of_nat in_size) in
  match SFsub 24 128 (SFmul 24 128 f (float32_of_Z 2)) f with
  | S754_finite false m e => Z.to_nat (Z.shiftl (Z.pos m) e)
  | _ => 0%nat
  end.

(** The start of [prepare]: the elements after [out_] are put aside, and the rest
    of [out_] becomes output. It returns the buffer, the elements put aside, the
    missing size and [total]. *)
Definition prepare_out (n : nat) (b : multi_buffer) : multi_buffer * list element * nat * nat :=
  if (out_ b <? length (list_ b))%nat then
    let size := size_at (list_ b) (out_ b) in
    let avail := sub64 size (out_pos_ b) in
    let total := (in_size_ b + avail)%nat in
    let reuse := drop (S (out_ b)) (list_ b) in
    let l := take (S (out_ b)) (list_ b) in
    if (avail <? n)%nat then
      (mk_mb (max_ b) l (out_ b) (in_size_ b) (in_pos_ b) (out_pos_ b) size, reuse, (n - avail)%nat, total)
    else
      (mk_mb (max_ b) l (out_ b) (in_size_ b) (in_pos_ b) (out_pos_ b) (out_pos_ b + n), reuse, 0%nat, total)
  else (b, [], n, in_size_ b).

(** The loop [while (n > 0 && ! reuse.empty())]. *)
Fixpoint prepare_reuse (reuse : list element) (n total : nat) (b : multi_buffer)
    : multi_buffer * nat * nat :=
  match n, reuse with
  | O, _ => (b, n, total)
  | _, [] => (b, n, total)
  | _, e :: reuse =>
      let size := length e in
      let out_end := if (size <? n)%nat then size else n in
      let b := mk_mb (max_ b) (list_ b ++ [e]) (out_ b) (in_size_ b) (in_pos_ b) (out_pos_ b) out_end in
      prepare_reuse reuse (if (size <? n)%nat then n - size else 0)%nat (total + size)%nat b
  end.

(** The size of a new element. *)
Definition alloc_size (b : multi_buffer) (n total : nat) : nat :=
  Z.to_nat (Z.min (max_ b - Z.of_nat total)
                  (Z.max (Z.max (Z.of_nat (growth (in_size_ b))) 512) (Z.of_nat n))).

(** The allocation at the end of [prepare]; what remains put aside is freed. *)
Definition prepare_alloc (n total : nat) (b : multi_buffer) : multi_buffer :=
  match n with
  | O => b
  | _ =>
      let e := replicate (alloc_size b n total) None in
      mk_mb (max_ b) (list_ b ++ [e]) (out_ b) (in_size_ b) (in_pos_ b) (out_pos_ b) n
  end.

(** [prepare(n)]; the sequence it returns is [mutable_buffers] of the result.
    When [out_] is [end()] it becomes the new element by the push itself. *)
Definition prepare (n : nat) (b : multi_buffer) : cpp multi_buffer :=
  if max_ b <? wrap 64 (Z.of_nat (in_size_ b) + Z.of_nat n) then Throw std_length_error
  else
    let '(b, reuse, n, total) := prepare_out n b in
    let '(b, n, total) := prepare_reuse reuse n total b in
    Ret (prepare_alloc n total b).

(** The loop [while (out_ != back)] of [commit]: its result, and the [n] that is
    left unless it returned. *)
Fixpoint commit_loop (fuel : nat) (n : nat) (b : multi_buffer) : multi_buffer * option nat :=
  match fuel with
  | O => (b, Some n)
  | S fuel =>
      if (out_ b =? back_index (list_ b))%nat then (b, Some n)
      else
        let avail := sub64 (size_at (list_ b) (out_ b)) (out_pos_ b) in
        if (n <? avail)%nat then
          (mk_mb (max_ b) (list_ b) (out_ b) (in_size_ b + n) (in_pos_ b) (out_pos_ b + n) (out_end_ b), None)
        else
          commit_loop fuel (n - avail)%nat
            (mk_mb (max_ b) (list_ b) (S (out_ b)) (in_size_ b + avail) (in_pos_ b) 0 (out_end_ b))
  end.

(** [commit(n)]. *)
Definition commit (n : nat) (b : multi_buffer) : multi_buffer :=
  match list_ b with
  | [] => b
  | _ =>
      if (out_ b =? length (list_ b))%nat then b
      else
        match commit_loop (length (list_ b)) n b with
        | (b, None) => b
        | (b, Some n) =>
            let n := Nat.min n (sub64 (out_end_ b) (out_pos_ b)) in
            let out_pos := (out_pos_ b + n)%nat in
            let in_size := (in_size_ b + n)%nat in
            if (out_pos =? size_at (list_ b) (out_ b))%nat
            then mk_mb (max_ b) (list_ b) (S (out_ b)) in_size (in_pos_ b) 0 0
            else mk_mb (max_ b) (list_ b) (out_ b) in_size (in_pos_ b) out_pos (out_end_ b)
        end
  end.

(** The loop [for(;;)] of [consume]. Erasing the first element moves the index
    of every other element down by one. *)
Fixpoint consume_loop (fuel : nat) (n : nat) (b : multi_buffer) : multi_buffer :=
  match fuel with
  | O => b
  | S fuel =>
      match out_ b with
      | S out =>
          let avail := sub64 (size_at (list_ b) 0) (in_pos_ b) in
          if (n <? avail)%nat then
            mk_mb (max_ b) (list_ b) (out_ b) (sub64 (in_size_ b) n) (in_pos_ b + n) (out_pos_ b) (out_end_ b)
          else
            consume_loop fuel (n - avail)%nat
              (mk_mb (max_ b) (tail (list_ b)) out (sub64 (in_size_ b) avail) 0 (out_pos_ b) (out_end_ b))
      | O =>
          let avail := sub64 (out_pos_ b) (in_pos_ b) in
          if (n <? avail)%nat then
            mk_mb (max_ b) (list_ b) (out_ b) (sub64 (in_size_ b) n) (in_pos_ b + n) (out_pos_ b) (out_end_ b)
          else if negb (out_ b =? back_index (list_ b))%nat || negb (out_pos_ b =? out_end_ b)%nat then
            mk_mb (max_ b) (list_ b) (out_ b) 0 (out_pos_ b) (out_pos_ b) (out_end_ b)
          else mk_mb (max_ b) (list_ b) (out_ b) 0 0 0 0
      end
  end.

(** [consume(n)]. *)
Definition consume (n : nat) (b : multi_buffer) : multi_buffer :=
  match list_ b with
  | [] => b
  | _ => consume_loop (S (length (list_ b))) n b
  end.

(** ** Buffer sequences *)

(** A [const_buffer] or [mutable_buffer] into an element. *)
Record buffer := mk_buffer { buf_element : nat; buf_offset : nat; buf_size : nat }.

(** [operator+(buffer, n)]. *)
Definition buffer_plus (d : buffer) (n : nat) : buffer :=
  let offset := if (n <? buf_size d)%nat then n else buf_size d in
  mk_buffer (buf_element d) (buf_offset d + offset) (buf_size d - offset).

(** [const_buffers_type::const_iterator::operator*] at the element [i]. *)
Definition const_buffer_at (b : multi_buffer) (i : nat) : buffer :=
  buffer_plus
    (mk_buffer i 0 (if (out_ b =? length (list_ b))%nat || negb (i =? out_ b)%nat
                    then size_at (list_ b) i else out_pos_ b))
    (if (i =? 0)%nat then in_pos_ b else 0).

(** [data()]: from [list_.begin()] to [end()], or to the element after [out_]. *)
Definition const_buffers (b : multi_buffer) : list buffer :=
  map (const_buffer_at b)
    (seq 0 (if (out_ b =? length (list_ b))%nat then length (list_ b) else S (out_ b))).

(** [mutable_buffers_type::const_iterator::operator*] at the element [i]. *)
Definition mutable_buffer_at (b : multi_buffer) (i : nat) : buffer :=
  buffer_plus
    (mk_buffer i 0 (if (i =? pred (length (list_ b)))%nat then out_end_ b else size_at (list_ b) i))
    (if (i =? out_ b)%nat then out_pos_ b else 0).

(** From [out_] to [list_.end()]. *)
Definition mutable_buffers (b : multi_buffer) : list buffer :=
  map (mutable_buffer_at b) (seq (out_ b) (length (list_ b) - out_ b)).

(** The memory of a buffer. *)
Definition buffer_contents (l : list element) (d : buffer) : element :=
  take (buf_size d) (drop (buf_offset d) (default [] (l !! buf_element d))).

(** [memcpy] of [d] to the start of a buffer. *)
Definition memcpy_to (l : list element) (t : buffer) (d : element) : list element :=
  alter (fun e => take (buf_offset t) e ++ d ++ drop (buf_offset t + length d) e) (buf_element t) l.

(** [buffer_copy(mutable_buffers, buffer(data))]: one source buffer. *)
Fixpoint buffer_copy_to (targets : list buffer) (source : element) (l : list element)
    : nat * list element :=
  match targets with
  | [] => (0%nat, l)
  | t :: targets =>
      match source with
      | [] => (0%nat, l)
      | _ =>
          let n := if (buf_size t <? length source)%nat then buf_size t else length source in
          let (k, l) := buffer_copy_to targets (drop n source) (memcpy_to l t (take n source)) in
          ((n + k)%nat, l)
      end
  end.

(** [buffer_copy(buffer(bytes), const_buffers)]: one target buffer, with room for
    [room] bytes; the bytes copied. *)
Fixpoint buffer_copy_from (room : nat) (sources : list buffer) (l : list element) : element :=
  match room, sources with
  | O, _ => []
  | _, [] => []
  | _, s :: sources =>
      let n := if (room <? buf_size s)%nat then room else buf_size s in
      take n (buffer_contents l s) ++ buffer_copy_from (room - n) sources l
  end.

(** ** The buffer as one sequence of cells *)

(** The position of the first cell of the element [i]. *)
Definition start (l : list element) (i : nat) : nat := length (concat (take i l)).

#[local] Arguments start : simpl never.
#[local] Arguments size_at : simpl never.
#[local] Arguments sub64 : simpl never.
#[local] Arguments Nat.ltb : simpl never.
#[local] Arguments Nat.eqb : simpl never.

Definition cells (b : multi_buffer) : element := concat (list_ b).
Definition out_abs (b : multi_buffer) : nat := (start (list_ b) (out_ b) + out_pos_ b)%nat.
Definition end_abs (b : multi_buffer) : nat :=
  if (out_ b <? length (list_ b))%nat then (start (list_ b) (back_index (list_ b)) + out_end_ b)%nat
  else length (cells b).

(** The size of the output sequence, and the contents of the input sequence. *)
Definition room (b : multi_buffer) : nat := (end_abs b - out_abs b)%nat.
Definition inputs (b : multi_buffer) : element := drop (in_pos_ b) (take (out_abs b) (cells b)).

#[local] Arguments cells : simpl never.
#[local] Arguments out_abs : simpl never.
#[local] Arguments end_abs : simpl never.
#[local] Arguments room : simpl never.

(** What [debug_check] asserts, with the bounds the allocations respect. *)
Record wf (b : multi_buffer) : Prop := mk_wf {
  wf_elements : Forall (fun e => (0 < length e)%nat /\ Z.of_nat (length e) <= max_ b) (list_ b);
  wf_out : (out_ b <= length (list_ b))%nat;
  wf_in_out : (in_pos_ b <= out_abs b)%nat;
  wf_in_front : list_ b = [] /\ in_pos_ b = 0%nat \/ (in_pos_ b < size_at (list_ b) 0)%nat;
  wf_out_pos : (out_ b < length (list_ b))%nat -> (out_pos_ b < size_at (list_ b) (out_ b))%nat;
  wf_out_end : (out_ b < length (list_ b))%nat ->
    (out_end_ b <= size_at (list_ b) (back_index (list_ b)))%nat;
  wf_at_end : out_ b = length (list_ b) -> out_pos_ b = 0%nat /\ out_end_ b = 0%nat;
  wf_out_in_end : (out_abs b <= end_abs b)%nat;
  wf_in_size : in_size_ b = (out_abs b - in_pos_ b)%nat;
  wf_max : Z.of_nat (in_size_ b + room b) <= max_ b < 2 ^ 64
}.

Lemma sub64_small a b : (b <= a)%nat -> Z.of_nat a < 2 ^ 64 -> sub64 a b = (a - b)%nat.
Proof. intros H Ha. unfold sub64. rewrite wrap_small; unfold in_width; lia. Qed.

Lemma size_at_lookup l i e : l !! i = Some e -> size_at l i = length e.
Proof. intros H. unfold size_at. by rewrite H. Qed.

Lemma lookup_at (l : list element) i : (i < length l)%nat -> exists e, l !! i = Some e.
Proof. apply lookup_lt_is_Some_2. Qed.

Lemma size_at_pos_lt l i k : (k < size_at l i)%nat -> (i < length l)%nat.
Proof.
  unfold size_at. destruct (l !! i) eqn:E; cbn; [|lia]. intros _. by apply lookup_lt_Some in E.
Qed.

Lemma start_0 l : start l 0 = 0%nat. Proof. done. Qed.

Lemma start_app l r i : (i <= length l)%nat -> start (l ++ r) i = start l i.
Proof. intros H. unfold start. by rewrite take_app_le. Qed.

Lemma start_take l k i : (i <= k)%nat -> start (take k l) i = start l i.
Proof. intros H. unfold start. by rewrite take_take, Nat.min_l. Qed.

Lemma start_S l i : (i < length l)%nat -> start l (S i) = (start l i + size_at l i)%nat.
Proof.
  intros H. destruct (lookup_at l i H) as [e He]. unfold start.
  rewrite (take_S_r _ _ _ He), concat_app, length_app. cbn.
  by rewrite app_nil_r, (size_at_lookup _ _ _ He).
Qed.

Lemma start_length l : start l (length l) = length (concat l).
Proof. unfold start. by rewrite firstn_all. Qed.

Lemma start_mono l i j : (i <= j)%nat -> (start l i <= start l j)%nat.
Proof.
  intros H. unfold start. rewrite <- (take_drop i (take j l)), take_take, Nat.min_l by done.
  rewrite concat_app, length_app. lia.
Qed.

Lemma start_le_cells l i : (start l i <= length (concat l))%nat.
Proof.
  destruct (decide (i <= length l)%nat).
  - rewrite <- start_length. by apply start_mono.
  - unfold start. rewrite firstn_all2 by lia. done.
Qed.

(** The end of the last element is the end of the cells. *)
Lemma start_back l : l <> [] ->
  (start l (back_index l) + size_at l (back_index l))%nat = length (concat l).
Proof.
  intros H. destruct l as [|e l]; [done|]. rewrite <- start_S by (cbn; lia).
  rewrite <- start_length. done.
Qed.

Lemma wf_size b i e : wf b -> list_ b !! i = Some e ->
  (0 < length e)%nat /\ Z.of_nat (length e) <= max_ b.
Proof. intros H He. pose proof (wf_elements b H) as HF. rewrite Forall_lookup in HF. eauto. Qed.

Lemma wf_size_at b i : wf b -> (i < length (list_ b))%nat ->
  (0 < size_at (list_ b) i)%nat /\ Z.of_nat (size_at (list_ b) i) < 2 ^ 64.
Proof.
  intros H Hi. destruct (lookup_at _ _ Hi) as [e He]. rewrite (size_at_lookup _ _ _ He).
  pose proof (wf_size b i e H He). pose proof (wf_max b H). lia.
Qed.

Lemma end_abs_cells b : wf b -> (end_abs b <= length (cells b))%nat.
Proof.
  intros H. unfold end_abs. destruct (Nat.ltb_spec (out_ b) (length (list_ b))) as [Ho|]; [|done].
  pose proof (wf_out_end b H Ho).
  unfold cells. rewrite <- (start_back (list_ b)) by (intros E; rewrite E in Ho; cbn in Ho; lia). lia.
Qed.

Lemma inputs_length b : wf b -> length (inputs b) = in_size_ b.
Proof.
  intros H. unfold inputs. rewrite length_drop, length_take.
  pose proof (end_abs_cells b H). pose proof (wf_out_in_end b H). rewrite (wf_in_size b H). lia.
Qed.

Lemma new_multi_buffer_wf : wf new_multi_buffer.
Proof. split; cbn; try done; try lia; eauto. Qed.

(** ** prepare *)

(** The buffer [b] is [b0] with output for [n0 - n] bytes. *)
Record preparing (b0 : multi_buffer) (n0 : nat) (b : multi_buffer) (n total : nat) : Prop := mk_preparing {
  pr_wf : wf b;
  pr_max : max_ b = max_ b0;
  pr_in_size : in_size_ b = in_size_ b0;
  pr_in_pos : in_pos_ b = in_pos_ b0;
  pr_out : out_abs b = out_abs b0;
  pr_cells : take (out_abs b) (cells b) = take (out_abs b0) (cells b0);
  pr_room : (room b + n)%nat = n0;
  pr_end : (0 < n)%nat -> end_abs b = length (cells b) /\ total = (in_size_ b + room b)%nat
}.

Lemma preparing_inputs b0 n0 b n total : preparing b0 n0 b n total -> inputs b = inputs b0.
Proof. intros []. unfold inputs. congruence. Qed.

(** Appending an element whose first [k] bytes are output. *)
Lemma wf_push b e k :
  wf b -> end_abs b = length (cells b) -> (0 < k <= length e)%nat -> Z.of_nat (length e) <= max_ b ->
  Z.of_nat (in_size_ b + room b + k) <= max_ b ->
  let b' := mk_mb (max_ b) (list_ b ++ [e]) (out_ b) (in_size_ b) (in_pos_ b) (out_pos_ b) k in
  wf b' /\ out_abs b' = out_abs b /\ take (out_abs b') (cells b') = take (out_abs b) (cells b) /\
  room b' = (room b + k)%nat /\ (k = length e -> end_abs b' = length (cells b')).
Proof.
  intros H He Hk Hm Hr b'.
  pose proof (wf_out b H) as Ho. pose proof (wf_out_in_end b H) as Hoe.
  assert (out_abs b' = out_abs b) as Ea by (unfold out_abs, b'; cbn; rewrite start_app by done; done).
  assert (cells b' = cells b ++ e) as Ec.
  { unfold cells, b'. cbn. rewrite concat_app. cbn. by rewrite app_nil_r. }
  assert (back_index (list_ b') = length (list_ b)) as Eb.
  { unfold back_index, b'. cbn. rewrite length_app. cbn. lia. }
  assert (size_at (list_ b') (length (list_ b)) = length e) as Es.
  { apply size_at_lookup. unfold b'. cbn. by rewrite lookup_app_r, Nat.sub_diag by lia. }
  assert (forall i, (i < length (list_ b))%nat -> size_at (list_ b') i = size_at (list_ b) i) as Es'.
  { intros i Hi. unfold size_at, b'. cbn. by rewrite lookup_app_l. }
  assert (length (list_ b') = S (length (list_ b))) as El.
  { unfold b'. cbn. rewrite length_app. cbn. lia. }
  assert (end_abs b' = (length (cells b) + k)%nat) as Ee.
  { unfold end_abs. rewrite Eb, El. cbn [out_ out_end_ b'].
    destruct (Nat.ltb_spec (out_ b) (S (length (list_ b)))); [|lia].
    unfold b' at 1. cbn. rewrite start_app by done. by rewrite start_length. }
  assert (room b' = (room b + k)%nat) as Er by (unfold room; rewrite Ee, Ea, He; lia).
  split; [|split; [done|split; [|split; [done|]]]].
  - split; rewrite ?Ea, ?Ee, ?Er, ?El, ?Eb, ?Es;
      change (out_ b') with (out_ b); change (in_pos_ b') with (in_pos_ b);
      change (out_pos_ b') with (out_pos_ b); change (out_end_ b') with k;
      change (in_size_ b') with (in_size_ b); change (max_ b') with (max_ b); try lia.
    + unfold b'; cbn. apply Forall_app. split; [apply (wf_elements b H)|].
      constructor; [|constructor]. lia.
    + apply (wf_in_out b H).
    + right. destruct (wf_in_front b H) as [[E0 E1]|Hf].
      * rewrite E1. rewrite E0 in Es. cbn in Es. unfold b', size_at in *. cbn in *. rewrite E0 in *. cbn in *. lia.
      * rewrite Es'; [done|]. by apply size_at_pos_lt in Hf.
    + intros _. destruct (decide (out_ b = length (list_ b))) as [E|E].
      * rewrite E, Es. pose proof (wf_at_end b H E). lia.
      * rewrite Es' by lia. apply (wf_out_pos b H). lia.
    + apply (wf_in_size b H).
    + pose proof (wf_max b H). lia.
  - rewrite Ea, Ec. apply take_app_le. lia.
  - intros ->. rewrite Ee, Ec, length_app. done.
Qed.

(** Cutting the list after [out_] and setting the end of the output. *)
Lemma wf_cut b k :
  wf b -> (out_ b < length (list_ b))%nat -> (out_pos_ b + k <= size_at (list_ b) (out_ b))%nat ->
  Z.of_nat (in_size_ b + k) <= max_ b ->
  let b' := mk_mb (max_ b) (take (S (out_ b)) (list_ b)) (out_ b) (in_size_ b) (in_pos_ b)
              (out_pos_ b) (out_pos_ b + k) in
  wf b' /\ out_abs b' = out_abs b /\ take (out_abs b') (cells b') = take (out_abs b) (cells b) /\
  room b' = k /\
  ((out_pos_ b + k)%nat = size_at (list_ b) (out_ b) -> end_abs b' = length (cells b')).
Proof.
  intros H Ho Hk Hm b'.
  pose proof (wf_out_pos b H Ho) as Hp.
  assert (length (list_ b') = S (out_ b)) as El by (unfold b'; cbn; rewrite length_take; lia).
  assert (back_index (list_ b') = out_ b) as Eb by (unfold back_index; rewrite El; done).
  assert (out_abs b' = out_abs b) as Ea by (unfold out_abs, b'; cbn; rewrite start_take by lia; done).
  assert (forall i, (i <= out_ b)%nat -> size_at (list_ b') i = size_at (list_ b) i) as Es.
  { intros i Hi. unfold size_at, b'. cbn. by rewrite lookup_take_lt by lia. }
  assert (end_abs b' = (out_abs b + k)%nat) as Ee.
  { unfold end_abs. rewrite Eb, El. change (out_ b') with (out_ b).
    destruct (Nat.ltb_spec (out_ b) (S (out_ b))); [|lia].
    unfold b'. cbn. rewrite start_take by lia. unfold out_abs. lia. }
  assert (room b' = k) as Er by (unfold room; rewrite Ee, Ea; lia).
  assert (length (cells b') = (start (list_ b) (out_ b) + size_at (list_ b) (out_ b))%nat) as Ec.
  { unfold cells. rewrite <- start_length, El, start_S by lia. rewrite Es by lia.
    unfold b'. cbn. by rewrite start_take by lia. }
  split; [|split; [done|split; [|split; [done|]]]].
  - split; rewrite ?Ea, ?Ee, ?Er, ?El, ?Eb, ?Es by lia;
      change (out_ b') with (out_ b); change (in_pos_ b') with (in_pos_ b);
      change (out_pos_ b') with (out_pos_ b); change (out_end_ b') with (out_pos_ b + k)%nat;
      change (in_size_ b') with (in_size_ b); change (max_ b') with (max_ b); try lia.
    + unfold b'. apply Forall_take, (wf_elements b H).
    + apply (wf_in_out b H).
    + right. destruct (wf_in_front b H) as [[E0 _]|Hf]; [|done]. rewrite E0 in Ho. cbn in Ho. lia.
    + intros _. by rewrite Es by lia.
    + apply (wf_in_size b H).
    + pose proof (wf_max b H). lia.
  - rewrite Ea.
    assert (cells b = cells b' ++ concat (drop (S (out_ b)) (list_ b))) as ->.
    { unfold cells, b'. cbn [list_]. by rewrite <- concat_app, take_drop. }
    rewrite take_app_le; [done|]. rewrite Ec. unfold out_abs. lia.
  - intros E. rewrite Ee, Ec. unfold out_abs. lia.
Qed.

Lemma prepare_out_preparing b n :
  wf b -> Z.of_nat (in_size_ b + n) <= max_ b ->
  let '(b', reuse, n', total) := prepare_out n b in
  preparing b n b' n' total /\ Forall (fun e => (0 < length e)%nat /\ Z.of_nat (length e) <= max_ b) reuse /\
  ((0 < n)%nat -> (out_ b' < length (list_ b'))%nat \/ n' = n).
Proof.
  intros H Hm. unfold prepare_out.
  destruct (Nat.ltb_spec (out_ b) (length (list_ b))) as [Ho|Ho].
  - pose proof (wf_out_pos b H Ho) as Hp. pose proof (wf_size_at b _ H Ho).
    rewrite sub64_small by lia.
    assert (Forall (fun e => (0 < length e)%nat /\ Z.of_nat (length e) <= max_ b)
              (drop (S (out_ b)) (list_ b))) as Hr by (apply Forall_drop, (wf_elements b H)).
    assert (out_ b < length (take (S (out_ b)) (list_ b)))%nat as Hl by (rewrite length_take; lia).
    destruct (Nat.ltb_spec (size_at (list_ b) (out_ b) - out_pos_ b) n).
    + destruct (wf_cut b (size_at (list_ b) (out_ b) - out_pos_ b) H Ho) as (Hw & Ea & Ec & Er & Ee);
        [lia|lia|].
      replace (out_pos_ b + (size_at (list_ b) (out_ b) - out_pos_ b))%nat
        with (size_at (list_ b) (out_ b)) in * by lia.
      split; [|split; [done|by left]].
      split; try done; cbn; try lia.
    + destruct (wf_cut b n H Ho) as (Hw & Ea & Ec & Er & Ee); [lia|lia|].
      split; [|split; [done|by left]]. split; try done; cbn; lia.
  - pose proof (wf_out b H). assert (out_ b = length (list_ b)) as E by lia.
    assert (end_abs b = length (cells b)) as Ee.
    { unfold end_abs. destruct (Nat.ltb_spec (out_ b) (length (list_ b))); [lia|done]. }
    assert (room b = 0%nat) as Er.
    { unfold room, out_abs. rewrite Ee, E, start_length. unfold cells. lia. }
    split; [|split; [done|by right]]. split; try done; rewrite ?Er; try lia.
Qed.

Lemma preparing_push b0 n0 b n total e k :
  preparing b0 n0 b n total -> (0 < k <= length e)%nat -> (k <= n)%nat -> (k < n -> k = length e)%nat ->
  Z.of_nat (length e) <= max_ b -> Z.of_nat (in_size_ b0 + n0) <= max_ b0 ->
  preparing b0 n0
    (mk_mb (max_ b) (list_ b ++ [e]) (out_ b) (in_size_ b) (in_pos_ b) (out_pos_ b) k)
    (n - k) (total + k).
Proof.
  intros [Hw Em Ei Ep Eo Ec Er Ee] Hk Hkn Hfull Hl Hm. destruct (Ee ltac:(lia)) as [Ee' Et].
  destruct (wf_push b e k Hw Ee' Hk Hl) as (Hw' & Ea & Ec' & Er' & Ef); [rewrite Ei, Em in *; lia|].
  split; try done; cbn; try lia; try congruence.
Qed.

Lemma prepare_reuse_preparing b0 n0 reuse : forall b n total,
  preparing b0 n0 b n total -> Z.of_nat (in_size_ b0 + n0) <= max_ b0 ->
  Forall (fun e => (0 < length e)%nat /\ Z.of_nat (length e) <= max_ b0) reuse ->
  let '(b', n', total') := prepare_reuse reuse n total b in preparing b0 n0 b' n' total'.
Proof.
  induction reuse as [|e reuse IH]; intros b n total Hp Hm Hr; destruct n as [|n]; try done.
  apply Forall_cons in Hr as [[He1 He2] Hr]. cbn [prepare_reuse].
  pose proof (pr_max _ _ _ _ _ Hp) as Em.
  destruct (Nat.ltb_spec (length e) (S n)) as [Hlt|Hge].
  - apply IH; [|done|done]. apply (preparing_push _ _ _ _ _ e (length e)) in Hp; try lia. done.
  - eapply (preparing_push _ _ _ _ _ e (S n)) in Hp; try lia.
    rewrite Nat.sub_diag in Hp. destruct reuse; cbn.
    + destruct Hp. split; try done. lia.
    + destruct Hp. split; try done. lia.
Qed.

(** [prepare(n)] makes room for exactly [n] bytes and keeps the input. *)
Lemma prepare_ok b n :
  wf b -> Z.of_nat (in_size_ b + n) <= max_ b ->
  exists b' total, prepare n b = Ret b' /\ preparing b n b' 0 total.
Proof.
  intros H Hm. unfold prepare. pose proof (wf_max b H) as Hmax.
  rewrite wrap_small by (unfold in_width; lia).
  destruct (Z.ltb_spec (max_ b) (Z.of_nat (in_size_ b) + Z.of_nat n)); [lia|].
  pose proof (prepare_out_preparing b n H Hm) as Ho.
  destruct (prepare_out n b) as [[[b1 reuse] n1] t1]. destruct Ho as (Hp1 & Hr & _).
  pose proof (prepare_reuse_preparing b n reuse b1 n1 t1 Hp1 Hm Hr) as Hp2.
  destruct (prepare_reuse reuse n1 t1 b1) as [[b2 n2] t2].
  destruct n2 as [|n2]; [cbn; eauto|]. cbn [prepare_alloc].
  pose proof (pr_end _ _ _ _ _ Hp2) as [_ Et]; [lia|].
  pose proof (pr_max _ _ _ _ _ Hp2) as Em. pose proof (pr_room _ _ _ _ _ Hp2) as Er.
  pose proof (pr_in_size _ _ _ _ _ Hp2) as Ei.
  assert (S n2 <= alloc_size b2 (S n2) t2)%nat as Ha.
  { unfold alloc_size. lia. }
  assert (Z.of_nat (alloc_size b2 (S n2) t2) <= max_ b2) as Hb by (unfold alloc_size; lia).
  do 2 eexists. split; [done|].
  rewrite <- (Nat.sub_diag (S n2)).
  apply (preparing_push _ _ _ _ _ (replicate (alloc_size b2 (S n2) t2) None) (S n2) Hp2);
    rewrite ?length_replicate; lia.
Qed.

(** ** Writing into the output sequence *)

(** [X] with [d] at the position [p]. *)
Definition overwrite (p : nat) (d X : element) : element := take p X ++ d ++ drop (p + length d) X.

Lemma overwrite_nil p X : overwrite p [] X = X.
Proof. unfold overwrite. cbn. by rewrite Nat.add_0_r, take_drop. Qed.

Lemma overwrite_length p d X : (p + length d <= length X)%nat -> length (overwrite p d X) = length X.
Proof. intros H. unfold overwrite. rewrite !length_app, length_take, length_drop. lia. Qed.

Lemma overwrite_overwrite p d1 d2 X :
  (p <= length X)%nat ->
  overwrite (p + length d1) d2 (overwrite p d1 X) = overwrite p (d1 ++ d2) X.
Proof.
  intros H. unfold overwrite.
  assert (length (take p X ++ d1) = p + length d1)%nat as E by (rewrite length_app, length_take; lia).
  rewrite (app_assoc (take p X) d1), take_app_length', drop_app_add', drop_drop, length_app by done.
  rewrite <- !app_assoc. do 4 f_equal. lia.
Qed.

(** Cells of one element. *)
Lemma concat_split (l : list element) i e : l !! i = Some e ->
  concat l = concat (take i l) ++ e ++ concat (drop (S i) l).
Proof.
  intros H. rewrite <- (take_drop_middle l i e H) at 1. by rewrite concat_app.
Qed.

Lemma memcpy_to_ok l t d :
  (buf_element t < length l)%nat ->
  (buf_offset t + length d <= size_at l (buf_element t))%nat ->
  map length (memcpy_to l t d) = map length l /\
  concat (memcpy_to l t d) = overwrite (start l (buf_element t) + buf_offset t) d (concat l).
Proof.
  intros Hi Hs. destruct (lookup_at _ _ Hi) as [e He]. rewrite (size_at_lookup _ _ _ He) in Hs.
  unfold memcpy_to.
  assert (alter (fun e => take (buf_offset t) e ++ d ++ drop (buf_offset t + length d) e) (buf_element t) l
          = <[buf_element t := overwrite (buf_offset t) d e]> l) as ->.
  { apply list_eq. intros j. destruct (decide (j = buf_element t)) as [->|Hne].
    - rewrite list_lookup_alter_eq, list_lookup_insert_eq by done. by rewrite He.
    - by rewrite list_lookup_alter_ne, list_lookup_insert_ne by done. }
  split.
  - apply list_eq. intros j. rewrite !list_lookup_fmap.
    destruct (decide (j = buf_element t)) as [->|Hne].
    + rewrite list_lookup_insert_eq, He by done. cbn. by rewrite overwrite_length.
    + by rewrite list_lookup_insert_ne.
  - rewrite (concat_split (<[_:=_]> l) (buf_element t) (overwrite (buf_offset t) d e))
      by (by rewrite list_lookup_insert_eq).
    rewrite take_insert_ge, drop_insert_lt by lia.
    rewrite (concat_split l _ e He). unfold start.
    generalize (concat (take (buf_element t) l)) (concat (drop (S (buf_element t)) l)). intros A B.
    unfold overwrite. rewrite take_app_add, <- Nat.add_assoc, drop_app_add.
    rewrite take_app_le, drop_app_le by lia. by rewrite <- !app_assoc.
Qed.

Lemma same_sizes l l' i : map length l' = map length l -> size_at l' i = size_at l i.
Proof.
  intros H. unfold size_at. apply (f_equal (fun m => m !! i)) in H. rewrite !list_lookup_fmap in H.
  destruct (l !! i), (l' !! i); cbn in *; congruence.
Qed.

Lemma length_concat_sizes (l : list element) : length (concat l) = sum_list_with length l.
Proof. induction l as [|e l IH]; cbn; [done|]. rewrite length_app. lia. Qed.

Lemma same_starts l l' i : map length l' = map length l -> start l' i = start l i.
Proof.
  intros H. unfold start. rewrite !length_concat_sizes.
  assert (map length (take i l') = map length (take i l)) as E by (rewrite <- !firstn_map; congruence).
  clear H. revert E. generalize (take i l') (take i l).
  intros a. induction a as [|x a IH]; intros [|y c]; cbn; try done. intros [= -> E]. by rewrite (IH _ E).
Qed.

Lemma buffer_copy_to_nil ts l : buffer_copy_to ts [] l = (0%nat, l).
Proof. by destruct ts. Qed.

(** The position in the cells from which the element [i] is output. *)
Definition write_from (b : multi_buffer) (i : nat) : nat :=
  if (i =? out_ b)%nat then out_abs b else start (list_ b) i.

(** The buffer at the element [i], which ends with the element or the output. *)
Lemma mutable_buffer_at_ok b i :
  wf b -> (out_ b <= i < length (list_ b))%nat ->
  let t := mutable_buffer_at b i in
  buf_element t = i /\ (start (list_ b) i + buf_offset t = write_from b i)%nat /\
  (buf_offset t + buf_size t <= size_at (list_ b) i)%nat /\
  (write_from b i + buf_size t =
     if (i =? back_index (list_ b))%nat then end_abs b else start (list_ b) (S i))%nat.
Proof.
  intros H Hi t. subst t. unfold mutable_buffer_at, buffer_plus, write_from, end_abs, back_index. cbn.
  pose proof (wf_out_pos b H ltac:(lia)) as Hp. pose proof (wf_out_end b H ltac:(lia)) as He.
  pose proof (wf_out_in_end b H) as Hoe. unfold end_abs, out_abs, back_index in *.
  rewrite start_S by lia.
  destruct (Nat.ltb_spec (out_ b) (length (list_ b))); [|lia].
  assert (i = pred (length (list_ b)) -> size_at (list_ b) i = size_at (list_ b) (pred (length (list_ b))) /\
            start (list_ b) i = start (list_ b) (pred (length (list_ b)))) as Hb by (by intros <-).
  assert (i = out_ b -> size_at (list_ b) i = size_at (list_ b) (out_ b) /\
            start (list_ b) i = start (list_ b) (out_ b)) as Ho by (by intros <-).
  destruct (Nat.eqb_spec i (out_ b)), (Nat.eqb_spec i (pred (length (list_ b))));
    repeat match goal with
    | |- context [(?a <? ?b)%nat] => destruct (Nat.ltb_spec a b)
    end; lia.
Qed.

Lemma buffer_copy_to_ok b : wf b -> forall k i l src,
  (out_ b <= i)%nat -> (i + k = length (list_ b))%nat -> map length l = map length (list_ b) ->
  (write_from b i + length src <= end_abs b)%nat ->
  exists l', buffer_copy_to (map (mutable_buffer_at b) (seq i k)) src l = (length src, l') /\
    map length l' = map length (list_ b) /\
    concat l' = overwrite (write_from b i) src (concat l).
Proof.
  intros H. pose proof (end_abs_cells b H) as Hec.
  induction k as [|k IH]; intros i l src Hi Hk Hl Hs.
  - assert (src = []) as ->.
    { apply length_zero_iff_nil. unfold write_from in Hs.
      pose proof (wf_out_in_end b H). unfold end_abs, out_abs, cells in *.
      replace i with (length (list_ b)) in * by lia.
      destruct (Nat.eqb_spec (length (list_ b)) (out_ b)) as [<-|].
      - rewrite Nat.ltb_irrefl, start_length in Hs. lia.
      - rewrite start_length in Hs. destruct (_ <? _)%nat; lia. }
    exists l. by rewrite overwrite_nil.
  - destruct src as [|x src']; [exists l; rewrite buffer_copy_to_nil, overwrite_nil; done|].
    remember (x :: src') as src eqn:Esrc. cbn [seq map buffer_copy_to].
    assert (src <> []) as Hne by (by subst). destruct src as [|y srct] eqn:Es; [done|]. rewrite <- Es in *.
    clear Esrc x src' Es y srct Hne.
    destruct (mutable_buffer_at_ok b i H) as (Et & Eo & Hb & Hend); [lia|].
    set (t := mutable_buffer_at b i) in *.
    set (n := if (buf_size t <? length src)%nat then buf_size t else length src).
    assert (n <= buf_size t /\ n <= length src)%nat as [Hn1 Hn2]
      by (unfold n; destruct (Nat.ltb_spec (buf_size t) (length src)); lia).
    assert (length (take n src) = n) as Htn by (rewrite length_take; lia).
    assert (length l = length (list_ b)) as Hll.
    { apply (f_equal length) in Hl. by rewrite !length_map in Hl. }
    destruct (memcpy_to_ok l t (take n src)) as [Hm1 Hm2];
      [lia|rewrite Et, (same_sizes _ _ _ Hl); lia|].
    rewrite Et, (same_starts _ _ _ Hl), Eo in Hm2.
    assert (length (concat l) = length (cells b)) as Hcl.
    { unfold cells. rewrite <- !start_length, Hll. by apply same_starts. }
    destruct (Nat.ltb_spec (buf_size t) (length src)) as [Hlt|Hge].
    + assert (i <> back_index (list_ b)) as Hib by (intros ->; rewrite Nat.eqb_refl in Hend; lia).
      apply Nat.eqb_neq in Hib. rewrite Hib in Hend.
      assert (write_from b (S i) = start (list_ b) (S i)) as Ew.
      { unfold write_from. destruct (Nat.eqb_spec (S i) (out_ b)); [lia|done]. }
      destruct (IH (S i) (memcpy_to l t (take n src)) (drop n src)) as (l' & -> & H1 & H2);
        [lia|lia|congruence|rewrite Ew, length_drop; lia|].
      exists l'. split; [rewrite length_drop; f_equal; lia|split; [done|]].
      rewrite H2, Hm2, Ew, <- Hend. subst n.
      rewrite <- Htn at 1. rewrite overwrite_overwrite by lia. by rewrite take_drop.
    + subst n. rewrite firstn_all, drop_all, buffer_copy_to_nil in *.
      eexists. split; [f_equal; lia|]. split; [congruence|]. done.
Qed.

(** [buffer_copy(b.prepare(n), buffer(data))] on the prepared buffer. *)
Definition write_prepared (data : bytes) (b : multi_buffer) : nat * multi_buffer :=
  let (n, l) := buffer_copy_to (mutable_buffers b) (map Some data) (list_ b) in
  (n, mk_mb (max_ b) l (out_ b) (in_size_ b) (in_pos_ b) (out_pos_ b) (out_end_ b)).

Lemma wf_same_sizes b l :
  wf b -> map length l = map length (list_ b) ->
  let b' := mk_mb (max_ b) l (out_ b) (in_size_ b) (in_pos_ b) (out_pos_ b) (out_end_ b) in
  wf b' /\ out_abs b' = out_abs b /\ end_abs b' = end_abs b.
Proof.
  intros H Hl b'.
  assert (length l = length (list_ b)) as Hll.
  { apply (f_equal length) in Hl. by rewrite !length_map in Hl. }
  assert (out_abs b' = out_abs b) as Eo by (unfold out_abs; cbn; by rewrite (same_starts _ _ _ Hl)).
  assert (length (cells b') = length (cells b)) as Ec.
  { unfold cells. cbn. rewrite <- !start_length, Hll. by apply same_starts. }
  assert (end_abs b' = end_abs b) as Ee.
  { unfold end_abs, back_index. rewrite Ec. cbn. by rewrite Hll, (same_starts _ _ _ Hl). }
  split; [|done]. destruct H as [He Ho Hio Hf Hp Hoe Hae Hoie His Hm].
  unfold back_index in *.
  split; unfold room, back_index in *; rewrite ?Eo, ?Ee; cbn; rewrite ?Hll, ?(same_sizes _ _ _ Hl); try done.
  - rewrite Forall_lookup in *. intros i e Hi.
    assert (i < length (list_ b))%nat as Hib by (rewrite <- Hll; by eapply lookup_lt_Some).
    destruct (lookup_at _ _ Hib) as [e' He'].
    pose proof (same_sizes _ _ i Hl) as Es. rewrite (size_at_lookup _ _ _ Hi), (size_at_lookup _ _ _ He') in Es.
    rewrite Es. eauto.
  - destruct Hf as [[E0 E1]|Hf]; [left|by right]. split; [|done].
    rewrite E0 in Hll. by destruct l.
Qed.

(** Writing as many bytes as were prepared puts them after the input. *)
Lemma write_prepared_ok b data :
  wf b -> (length data <= room b)%nat ->
  exists b', write_prepared data b = (length data, b') /\ wf b' /\
    in_pos_ b' = in_pos_ b /\ in_size_ b' = in_size_ b /\ max_ b' = max_ b /\
    out_abs b' = out_abs b /\ room b' = room b /\
    cells b' = overwrite (out_abs b) (map Some data) (cells b).
Proof.
  intros H Hd. unfold write_prepared, mutable_buffers.
  pose proof (wf_out b H) as Ho. pose proof (wf_out_in_end b H).
  assert (write_from b (out_ b) = out_abs b) as Ew by (unfold write_from; by rewrite Nat.eqb_refl).
  destruct (buffer_copy_to_ok b H (length (list_ b) - out_ b) (out_ b) (list_ b) (map Some data))
    as (l' & -> & Hl & Hc); [lia|lia|done|rewrite Ew, length_map; unfold room in Hd; lia|].
  destruct (wf_same_sizes b l' H Hl) as (Hw & Eo & Ee).
  rewrite length_map, Ew in *. eexists. split; [done|]. unfold room. rewrite Eo, Ee. done.
Qed.

(** ** commit *)

(** Moving the output position forward to [pos] in the element [out]. *)
Lemma wf_forward b out pos :
  wf b -> (out_ b <= out < length (list_ b))%nat -> (pos < size_at (list_ b) out)%nat ->
  (out_abs b <= start (list_ b) out + pos <= end_abs b)%nat ->
  let b' := mk_mb (max_ b) (list_ b) out (in_size_ b + (start (list_ b) out + pos - out_abs b))
              (in_pos_ b) pos (out_end_ b) in
  wf b' /\ out_abs b' = (start (list_ b) out + pos)%nat /\ end_abs b' = end_abs b.
Proof.
  intros H Ho Hp Ha b'.
  assert (out_abs b' = (start (list_ b) out + pos)%nat) as Eo by done.
  assert (end_abs b' = end_abs b) as Ee.
  { unfold end_abs. cbn. destruct (Nat.ltb_spec out (length (list_ b))); [|lia].
    destruct (Nat.ltb_spec (out_ b) (length (list_ b))); [done|lia]. }
  split; [|done]. pose proof (wf_in_out b H) as Hio. pose proof (wf_in_size b H). pose proof (wf_max b H).
  split; unfold room in *; rewrite ?Eo, ?Ee; cbn; try done; try lia;
    [apply (wf_elements b H)|apply (wf_in_front b H)|].
  intros _. apply (wf_out_end b H). lia.
Qed.

(** The input has grown by [n] bytes of the cells. *)
Record committed (b : multi_buffer) (n : nat) (b' : multi_buffer) : Prop := mk_committed {
  co_wf : wf b';
  co_max : max_ b' = max_ b;
  co_list : list_ b' = list_ b;
  co_in_pos : in_pos_ b' = in_pos_ b;
  co_end : end_abs b' = end_abs b;
  co_out : out_abs b' = (out_abs b + n)%nat
}.

Lemma committed_trans b n b1 m b2 :
  committed b n b1 -> committed b1 m b2 -> committed b (n + m) b2.
Proof. intros [] []. split; try done; try congruence; lia. Qed.

Lemma end_abs_back b : wf b -> (out_ b < length (list_ b))%nat ->
  end_abs b = (start (list_ b) (back_index (list_ b)) + out_end_ b)%nat.
Proof. intros H Ho. unfold end_abs. by destruct (Nat.ltb_spec (out_ b) (length (list_ b))); [|lia]. Qed.

Lemma commit_loop_ok fuel : forall n b,
  wf b -> (out_ b < length (list_ b))%nat -> (n <= room b)%nat ->
  (back_index (list_ b) - out_ b < fuel)%nat ->
  match commit_loop fuel n b with
  | (b', None) => committed b n b'
  | (b', Some n') =>
      out_ b' = back_index (list_ b) /\ (n' <= n)%nat /\ committed b (n - n') b'
  end.
Proof.
  induction fuel as [|fuel IH]; intros n b H Ho Hn Hf; [lia|]. cbn [commit_loop].
  destruct (Nat.eqb_spec (out_ b) (back_index (list_ b))) as [E|E].
  { split; [done|]. split; [lia|]. rewrite Nat.sub_diag. split; try done; lia. }
  pose proof (wf_out_pos b H Ho) as Hp. destruct (wf_size_at b _ H Ho) as [_ Hs].
  rewrite sub64_small by lia. unfold room in Hn. pose proof (wf_out_in_end b H) as Hoe.
  assert (S (out_ b) <= back_index (list_ b) < length (list_ b))%nat as Hb by (unfold back_index in *; lia).
  pose proof (start_mono (list_ b) _ _ (proj1 Hb)) as Hm.
  rewrite start_S in Hm by lia. pose proof (end_abs_back b H Ho) as Ee.
  destruct (Nat.ltb_spec n (size_at (list_ b) (out_ b) - out_pos_ b)).
  - destruct (wf_forward b (out_ b) (out_pos_ b + n) H) as (Hw & H1 & H2);
      [lia|lia|unfold out_abs in *; lia|].
    replace (start (list_ b) (out_ b) + (out_pos_ b + n) - out_abs b)%nat with n in * by (unfold out_abs; lia).
    split; try done. rewrite H1. unfold out_abs. lia.
  - destruct (wf_size_at b (S (out_ b)) H) as [Hs1 _]; [lia|].
    destruct (wf_forward b (S (out_ b)) 0 H) as (Hw & H1 & H2);
      [lia|lia|rewrite start_S by lia; unfold out_abs in *; lia|].
    rewrite start_S in * by lia.
    set (avail := (size_at (list_ b) (out_ b) - out_pos_ b)%nat) in *.
    replace (start (list_ b) (out_ b) + size_at (list_ b) (out_ b) + 0 - out_abs b)%nat
      with avail in * by (unfold out_abs, avail; lia).
    match type of Hw with wf ?x => set (b1 := x) in * end.
    assert (committed b avail b1) as Hc.
    { split; try done. rewrite H1. unfold out_abs, avail. lia. }
    specialize (IH (n - avail)%nat b1 Hw). cbn in IH. unfold room in IH. rewrite H1, H2 in IH.
    specialize (IH ltac:(lia) ltac:(unfold out_abs in *; lia) ltac:(lia)).
    destruct (commit_loop fuel (n - avail) b1) as [b' [n'|]].
    + destruct IH as (I1 & I2 & I3). split; [done|]. split; [lia|].
      pose proof (committed_trans _ _ _ _ _ Hc I3) as Hct.
      by replace (avail + (n - avail - n'))%nat with (n - n')%nat in Hct by lia.
    + pose proof (committed_trans _ _ _ _ _ Hc IH) as Hct.
      by replace (avail + (n - avail))%nat with n in Hct by lia.
Qed.

(** Filling the last element moves [out_] to the end of the list. *)
Lemma wf_full b :
  wf b -> out_ b = back_index (list_ b) -> (out_ b < length (list_ b))%nat ->
  out_end_ b = size_at (list_ b) (out_ b) ->
  let b' := mk_mb (max_ b) (list_ b) (S (out_ b)) (in_size_ b + room b) (in_pos_ b) 0 0 in
  committed b (room b) b'.
Proof.
  intros H E Ho Ef b'.
  pose proof (wf_in_size b H). pose proof (wf_in_out b H). pose proof (wf_max b H).
  pose proof (wf_out_in_end b H). pose proof (end_abs_back b H Ho) as Ee.
  assert (length (list_ b) = S (out_ b)) as El by (unfold back_index in *; lia).
  assert (end_abs b = length (cells b)) as Ec.
  { rewrite Ee, Ef, E. unfold cells. apply start_back. intros E0. rewrite E0 in El. done. }
  assert (out_abs b' = length (cells b)) as Eo.
  { unfold out_abs. cbn. rewrite <- El, start_length. unfold cells. lia. }
  assert (end_abs b' = length (cells b)) as Ee'.
  { unfold end_abs. cbn. rewrite El. destruct (Nat.ltb_spec (S (out_ b)) (S (out_ b))); [lia|done]. }
  split; try done; try congruence; [|rewrite Eo; unfold room; lia].
  split; unfold room; rewrite ?Eo, ?Ee'; cbn; try done; try lia;
    [apply (wf_elements b H)|apply (wf_in_front b H)|unfold room in *; lia..].
Qed.

(** [commit(n)] turns the first [n] bytes of the output into input. *)
Lemma commit_ok b n : wf b -> (n <= room b)%nat -> committed b n (commit n b).
Proof.
  intros H Hn. unfold commit.
  assert (room b = 0%nat \/ out_ b < length (list_ b))%nat as Hr.
  { destruct (decide (out_ b < length (list_ b))%nat) as [|Hge]; [by right|left].
    pose proof (wf_out b H). assert (out_ b = length (list_ b)) as E by lia.
    unfold room, out_abs, end_abs. rewrite E, Nat.ltb_irrefl, start_length. unfold cells. lia. }
  assert (n = 0%nat -> committed b n b) as Hsame by (intros ->; split; try done; lia).
  destruct (list_ b) as [|e0 l0] eqn:El; [apply Hsame; cbn in Hr; lia|]. rewrite <- El in *.
  destruct (Nat.eqb_spec (out_ b) (length (list_ b))); [apply Hsame; lia|].
  pose proof (wf_out b H). assert (out_ b < length (list_ b))%nat as Ho by lia.
  pose proof (commit_loop_ok (length (list_ b)) n b H Ho Hn) as Hc.
  specialize (Hc ltac:(unfold back_index; lia)).
  destruct (commit_loop (length (list_ b)) n b) as [b1 [n1|]]; [|done].
  destruct Hc as (E1 & Hn1 & Hc). pose proof (co_wf _ _ _ Hc) as Hw1.
  pose proof (co_list _ _ _ Hc) as Hl1. rewrite <- Hl1 in *.
  assert (out_ b1 < length (list_ b1))%nat as Ho1 by (unfold back_index in *; lia).
  pose proof (end_abs_back b1 Hw1 Ho1) as Ee1. rewrite E1 in Ho1.
  pose proof (wf_out_in_end b1 Hw1) as Hoe. pose proof (wf_out_end b1 Hw1 ltac:(lia)) as Hend.
  destruct (wf_size_at b1 _ Hw1 Ho1) as [_ Hs64].
  assert (out_abs b1 = start (list_ b1) (back_index (list_ b1)) + out_pos_ b1)%nat as Eo1
    by (unfold out_abs; by rewrite E1).
  rewrite sub64_small by lia.
  assert (n1 <= out_end_ b1 - out_pos_ b1)%nat as Hle.
  { pose proof (co_out _ _ _ Hc). pose proof (co_end _ _ _ Hc). unfold room in Hn. lia. }
  rewrite Nat.min_l by done. rewrite E1.
  replace n with ((n - n1) + n1)%nat by lia. eapply committed_trans; [exact Hc|].
  destruct (Nat.eqb_spec (out_pos_ b1 + n1) (size_at (list_ b1) (back_index (list_ b1)))) as [Ef|Ef].
  - assert (out_end_ b1 = size_at (list_ b1) (back_index (list_ b1))) as Ef' by lia.
    assert (n1 = room b1) as -> by (unfold room; lia).
    pose proof (wf_full b1 Hw1 E1) as Hfull. rewrite E1 in Hfull. by apply Hfull.
  - destruct (wf_forward b1 (back_index (list_ b1)) (out_pos_ b1 + n1) Hw1) as (Hw & Ha & He);
      [lia|lia|lia|].
    replace (start (list_ b1) (back_index (list_ b1)) + (out_pos_ b1 + n1) - out_abs b1)%nat
      with n1 in * by lia.
    split; try done. rewrite Ha. lia.
Qed.

(** ** consume *)

(** Erasing the first element once it is all input. *)
Lemma wf_pop b out :
  wf b -> out_ b = S out ->
  let front := size_at (list_ b) 0 in
  let b' := mk_mb (max_ b) (tail (list_ b)) out (in_size_ b - (front - in_pos_ b)) 0 (out_pos_ b) (out_end_ b) in
  wf b' /\ inputs b' = drop (front - in_pos_ b) (inputs b).
Proof.
  intros H E front b'. pose proof (wf_out b H) as Ho.
  destruct (list_ b) as [|e l] eqn:El; [cbn in Ho; lia|].
  assert (front = length e) as Ef by done.
  assert (forall i, size_at (e :: l) (S i) = size_at l i) as Es by done.
  assert (forall i, start (e :: l) (S i) = (length e + start l i)%nat) as Est.
  { intros i. unfold start. cbn. by rewrite length_app. }
  assert (cells b = e ++ cells b') as Ec by (unfold cells; cbn; by rewrite El).
  assert (out_abs b = length e + out_abs b')%nat as Eo.
  { unfold out_abs. rewrite E, El, Est. cbn. lia. }
  assert (end_abs b = length e + end_abs b')%nat as Ee.
  { unfold end_abs. rewrite Ec, E, El. cbn [b' out_ list_ tail length out_end_].
    destruct (Nat.ltb_spec (S out) (S (length l))), (Nat.ltb_spec out (length l)); try lia.
    - unfold back_index. cbn [length pred].
      destruct l as [|e1 l1]; [cbn in *; lia|]. cbn [length pred]. rewrite Est. lia.
    - by rewrite length_app. }
  destruct H as [He _ Hio Hf Hp Hoe Hae Hoie His Hm]. rewrite El in *. cbn in Ho.
  rewrite E in *. rewrite Es in Hp. cbn in Hp, Hoe, Hae.
  destruct Hf as [[E0 _]|Hf]; [done|]. fold front in Hf.
  split.
  - apply Forall_cons in He as [_ He]. unfold room in *.
    split; cbn [b' max_ list_ out_ in_size_ in_pos_ out_pos_ out_end_ tail]; unfold room; try done; try lia.
    + destruct l as [|e1 l1]; [by left|right]. cbn. apply Forall_cons in He as [[He _] _].
      unfold size_at. cbn. lia.
    + intros Hlt. specialize (Hoe ltac:(lia)). destruct l; [cbn in Hlt; lia|exact Hoe].
  - unfold inputs. rewrite drop_drop, Ec, Eo, take_app_add. cbn [b' in_pos_].
    replace (in_pos_ b + (front - in_pos_ b))%nat with (length e) by lia.
    by rewrite drop_app_length.
Qed.

(** The input sequence has lost its first [n] bytes. *)
Record consumed (b : multi_buffer) (n : nat) (b' : multi_buffer) : Prop := mk_consumed {
  cs_wf : wf b';
  cs_max : max_ b' = max_ b;
  cs_inputs : inputs b' = drop n (inputs b)
}.

(** Moving the input position forward inside the first element. *)
Lemma wf_skip b n :
  wf b -> (in_pos_ b + n <= out_abs b)%nat -> (in_pos_ b + n < size_at (list_ b) 0)%nat ->
  consumed b n (mk_mb (max_ b) (list_ b) (out_ b) (in_size_ b - n) (in_pos_ b + n) (out_pos_ b) (out_end_ b)).
Proof.
  intros H Hn Hf.
  match goal with |- consumed b n ?x => set (b' := x) end.
  assert (out_abs b' = out_abs b /\ end_abs b' = end_abs b) as [Eo Ee] by done.
  pose proof (wf_in_size b H). pose proof (wf_max b H) as Hm. pose proof (wf_out_in_end b H).
  split; [|done|].
  - unfold room in *. split; unfold room; rewrite ?Eo, ?Ee; cbn; try lia.
    + apply (wf_elements b H).
    + apply (wf_out b H).
    + apply (wf_out_pos b H).
    + apply (wf_out_end b H).
    + apply (wf_at_end b H).
  - unfold inputs. rewrite drop_drop. done.
Qed.

(** Emptying a buffer whose input and output are both empty. *)
Lemma wf_rewind b :
  wf b -> out_ b = 0%nat -> out_ b = back_index (list_ b) -> out_pos_ b = out_end_ b ->
  wf (mk_mb (max_ b) (list_ b) 0 0 0 0 0).
Proof.
  intros H E Eb Ep. set (b' := mk_mb _ _ _ _ _ _ _).
  assert (out_abs b' = 0%nat) as Eo by done.
  assert (end_abs b' = 0%nat) as Ee.
  { unfold end_abs, cells. cbn. destruct (Nat.ltb_spec 0 (length (list_ b))) as [Hl|Hl].
    - unfold b'. cbn. rewrite E in Eb. by rewrite <- Eb.
    - destruct (list_ b); [done|cbn in Hl; lia]. }
  pose proof (wf_max b H) as Hm.
  split; unfold room; rewrite ?Eo, ?Ee; cbn; try lia.
  - apply (wf_elements b H).
  - destruct (list_ b) as [|e l] eqn:El; [by left|right].
    destruct (wf_size_at b 0 H) as [Hs _]; rewrite El in *; cbn in *; lia.
  - intros Hl. apply (wf_size_at b 0 H Hl).
Qed.

Lemma wf_out_pos64 b : wf b -> Z.of_nat (out_pos_ b) < 2 ^ 64.
Proof.
  intros H. pose proof (wf_out b H). destruct (decide (out_ b = length (list_ b))) as [E|E].
  - destruct (wf_at_end b H E) as [-> _]. done.
  - pose proof (wf_out_pos b H ltac:(lia)). pose proof (wf_size_at b (out_ b) H ltac:(lia)). lia.
Qed.

(** Whether the buffer is empty, [out_] at the only element: the position of
    the output is inside it. *)
Lemma wf_front_out b : wf b -> out_ b = 0%nat -> list_ b <> [] -> (out_pos_ b < size_at (list_ b) 0)%nat.
Proof.
  intros H E Hl. pose proof (wf_out_pos b H) as Hp. rewrite E in Hp. apply Hp.
  destruct (list_ b); cbn; [done|lia].
Qed.

Lemma wf_empty b : wf b -> list_ b = [] -> out_ b = 0%nat /\ out_pos_ b = 0%nat /\ out_end_ b = 0%nat.
Proof.
  intros H El. pose proof (wf_out b H) as Ho. pose proof (wf_at_end b H) as Hae.
  rewrite El in *. cbn in *. split; [lia|]. apply Hae. lia.
Qed.

Lemma consume_front_ok n b fuel :
  wf b -> out_ b = 0%nat -> consumed b n (consume_loop (S fuel) n b).
Proof.
  intros H E. cbn [consume_loop]. rewrite E.
  pose proof (wf_in_size b H) as His. pose proof (wf_max b H) as Hm. pose proof (wf_in_out b H) as Hio.
  pose proof (inputs_length b H) as Hil. pose proof (wf_out_pos64 b H).
  assert (out_abs b = out_pos_ b) as Eo by (unfold out_abs; rewrite E; done).
  rewrite sub64_small by lia.
  assert (list_ b = [] \/ (out_pos_ b < size_at (list_ b) 0)%nat) as Hf.
  { destruct (list_ b) as [|e l] eqn:El; [by left|right]. rewrite <- El. apply wf_front_out; congruence. }
  destruct (Nat.ltb_spec n (out_pos_ b - in_pos_ b)).
  - rewrite sub64_small by lia. rewrite <- E. apply wf_skip; [done|lia|].
    destruct Hf as [E0|]; [|lia]. destruct (wf_empty b H E0) as (_ & E1 & _). lia.
  - assert (drop n (inputs b) = []) as En by (apply drop_ge; lia).
    assert (negb (0 =? back_index (list_ b))%nat || negb (out_pos_ b =? out_end_ b)%nat = false \/
            list_ b <> []) as Hcase.
    { destruct (list_ b) eqn:El; [|by right]. left. by destruct (wf_empty b H El) as (_ & -> & ->). }
    destruct (_ || _)%bool eqn:Eb.
    + destruct Hf as [E0|Hf]; [by destruct Hcase|].
      destruct (wf_skip b (out_pos_ b - in_pos_ b) H) as [Hw _ Hi]; [lia|lia|].
      replace (in_pos_ b + (out_pos_ b - in_pos_ b))%nat with (out_pos_ b) in * by lia.
      replace (in_size_ b - (out_pos_ b - in_pos_ b))%nat with 0%nat in * by lia.
      rewrite E in *. split; [done|done|]. rewrite Hi, En. apply drop_ge. lia.
    + apply orb_false_iff in Eb as [Eb1 Eb2]. apply negb_false_iff, Nat.eqb_eq in Eb1, Eb2.
      split; [apply wf_rewind; congruence|done|]. rewrite En. done.
Qed.

Lemma consume_loop_ok fuel : forall n b,
  wf b -> (out_ b < fuel)%nat -> consumed b n (consume_loop fuel n b).
Proof.
  induction fuel as [|fuel IH]; intros n b H Hf; [lia|].
  destruct (out_ b) as [|out] eqn:E; [by apply consume_front_ok|]. cbn [consume_loop]. rewrite E.
  pose proof (wf_in_size b H) as His. pose proof (wf_max b H) as Hm. pose proof (wf_out b H) as Hol.
  pose proof (inputs_length b H) as Hil. pose proof (wf_out_in_end b H) as Hoe.
  assert (0 < length (list_ b))%nat as Hl by lia. destruct (wf_size_at b 0 H Hl) as [_ Hs].
  assert (in_pos_ b < size_at (list_ b) 0)%nat as Hin.
  { destruct (wf_in_front b H) as [[E0 _]|]; [rewrite E0 in Hl; cbn in Hl; lia|done]. }
  rewrite sub64_small by lia.
  assert (size_at (list_ b) 0 <= out_abs b)%nat as Hfo.
  { unfold out_abs. rewrite E. pose proof (start_mono (list_ b) 1 (S out) ltac:(lia)) as Hm1.
    rewrite start_S, start_0 in Hm1 by lia. lia. }
  destruct (Nat.ltb_spec n (size_at (list_ b) 0 - in_pos_ b)).
  - rewrite sub64_small by lia. rewrite <- E. apply wf_skip; [done|lia|lia].
  - rewrite sub64_small by lia.
    destruct (wf_pop b out H E) as [Hw Hi].
    match type of Hw with wf ?x => set (b1 := x) in * end.
    destruct (IH (n - (size_at (list_ b) 0 - in_pos_ b))%nat b1 Hw) as [Hw2 Hm2 Hi2]; [cbn; lia|].
    split; [done|done|]. rewrite Hi2, Hi, drop_drop. f_equal. lia.
Qed.

(** [consume(n)] removes the first [n] bytes of the input, or all of them. *)
Lemma consume_ok b n : wf b -> consumed b n (consume n b).
Proof.
  intros H. unfold consume. destruct (list_ b) eqn:El.
  - split; [done|done|]. assert (inputs b = []) as ->; [|by rewrite drop_nil].
    unfold inputs, cells. rewrite El. cbn. by rewrite take_nil, drop_nil.
  - rewrite <- El. apply consume_loop_ok; [done|]. pose proof (wf_out b H). lia.
Qed.

(** ** data *)

(** The position in the cells from which the element [i] is input. *)
Definition read_from (b : multi_buffer) (i : nat) : nat :=
  if (i =? 0)%nat then in_pos_ b else start (list_ b) i.

(** The number of buffers of [data()]. *)
Definition data_count (b : multi_buffer) : nat :=
  if (out_ b =? length (list_ b))%nat then length (list_ b) else S (out_ b).

Lemma const_buffer_at_ok b i :
  wf b -> (i < data_count b)%nat ->
  let t := const_buffer_at b i in
  buf_element t = i /\ (start (list_ b) i + buf_offset t = read_from b i)%nat /\
  (buf_offset t + buf_size t <= size_at (list_ b) i)%nat /\
  (read_from b i + buf_size t =
     if (S i =? data_count b)%nat then out_abs b else start (list_ b) (S i))%nat /\
  (read_from b i + buf_size t <= out_abs b)%nat.
Proof.
  intros H Hi t. subst t. unfold const_buffer_at, buffer_plus, read_from, data_count, out_abs in *.
  pose proof (wf_out b H) as Ho. pose proof (wf_in_out b H) as Hio. unfold out_abs in Hio.
  pose proof (wf_out_pos b H) as Hp. pose proof (wf_at_end b H) as Hae.
  assert (0 < length (list_ b))%nat as Hl
    by (destruct (Nat.eqb_spec (out_ b) (length (list_ b))); lia).
  assert (in_pos_ b < size_at (list_ b) 0)%nat as Hin.
  { destruct (wf_in_front b H) as [[E0 _]|]; [rewrite E0 in Hl; cbn in Hl; lia|done]. }
  cbn [buf_element buf_offset buf_size].
  destruct (Nat.eqb_spec (out_ b) (length (list_ b))) as [E|E].
  - destruct (Hae E) as [-> _]. rewrite E in *. cbn [orb].
    pose proof (start_mono (list_ b) (S i) (length (list_ b)) ltac:(lia)).
    assert (S i = length (list_ b) -> start (list_ b) (S i) = start (list_ b) (length (list_ b))) by (by intros ->).
    rewrite start_S in * by lia.
    assert (i = 0 -> start (list_ b) i = 0 /\ size_at (list_ b) i = size_at (list_ b) 0)%nat as Hi0
      by (by intros ->).
    destruct (Nat.eqb_spec i 0); destruct (Nat.eqb_spec (S i) (length (list_ b)));
      repeat match goal with |- context [(?a <? ?b)%nat] => destruct (Nat.ltb_spec a b) end; lia.
  - specialize (Hp ltac:(lia)). cbn [orb].
    pose proof (start_mono (list_ b) i (out_ b) ltac:(lia)).
    assert (S i <= out_ b -> start (list_ b) (S i) <= start (list_ b) (out_ b))%nat by apply start_mono.
    rewrite start_S in * by lia.
    assert (i = 0 -> start (list_ b) i = 0 /\ size_at (list_ b) i = size_at (list_ b) 0)%nat as Hi0
      by (by intros ->).
    assert (i = out_ b -> start (list_ b) i = start (list_ b) (out_ b) /\
              size_at (list_ b) i = size_at (list_ b) (out_ b)) as Hio' by (by intros ->).
    destruct (Nat.eqb_spec i (out_ b)) as [Ei|Ei]; cbn [negb];
      destruct (Nat.eqb_spec i 0) as [E0|E0];
      destruct (Nat.eqb_spec (S i) (S (out_ b)));
      repeat match goal with |- context [(?a <? ?b)%nat] => destruct (Nat.ltb_spec a b) end; lia.
Qed.

Lemma data_contents b : wf b -> forall k i, (i + k = data_count b)%nat ->
  concat (map (buffer_contents (list_ b)) (map (const_buffer_at b) (seq i k))) =
  drop (if (k =? 0)%nat then out_abs b else read_from b i) (take (out_abs b) (cells b)).
Proof.
  intros H. induction k as [|k IH]; intros i Hk; cbn [seq map concat].
  - rewrite Nat.eqb_refl, drop_ge; [done|]. rewrite length_take. lia.
  - change (S k =? 0)%nat with false. cbv iota. rewrite IH by lia.
    destruct (const_buffer_at_ok b i H) as (Et & Eo & Hs & Hend & Hle); [lia|].
    set (t := const_buffer_at b i) in *. clearbody t.
    assert (i < length (list_ b) \/ buf_size t = 0 /\ buf_offset t = 0)%nat as Hi.
    { destruct (decide (i < length (list_ b))%nat) as [|Hge]; [by left|right].
      unfold size_at in Hs. rewrite lookup_ge_None_2 in Hs by lia. cbn in Hs. lia. }
    assert ((if (k =? 0)%nat then out_abs b else read_from b (S i)) = read_from b i + buf_size t)%nat as ->.
    { rewrite Hend. unfold read_from. change (S i =? 0)%nat with false.
      destruct (Nat.eqb_spec k 0), (Nat.eqb_spec (S i) (data_count b)); try lia; done. }
    rewrite <- drop_drop.
    assert (buffer_contents (list_ b) t = take (buf_size t) (drop (read_from b i) (take (out_abs b) (cells b)))) as ->;
      [|apply take_drop].
    unfold buffer_contents. rewrite Et, <- Eo.
    destruct Hi as [Hi|[-> ->]]; [|done]. destruct (lookup_at _ _ Hi) as [e He]. rewrite He. cbn [default].
    rewrite (size_at_lookup _ _ _ He) in Hs. unfold cells. rewrite (concat_split _ _ _ He).
    unfold start in *. set (A := concat (take i (list_ b))) in *. set (B := concat (drop (S i) (list_ b))).
    rewrite !take_drop_commute, take_take, Nat.min_l by lia.
    by rewrite <- Nat.add_assoc, take_app_add, drop_app_add, take_app_le by lia.
Qed.

(** The bytes of [data()] are the input sequence. *)
Lemma const_buffers_contents b : wf b ->
  concat (map (buffer_contents (list_ b)) (const_buffers b)) = inputs b.
Proof.
  intros H. unfold const_buffers. fold (data_count b). rewrite (data_contents b H) by lia.
  unfold inputs, read_from, data_count, out_abs, cells.
  destruct (Nat.eqb_spec (out_ b) (length (list_ b))) as [E|E]; [|done].
  destruct (Nat.eqb_spec (length (list_ b)) 0) as [E0|]; [|done].
  destruct (list_ b); [|done]. cbn. by rewrite take_nil, !drop_nil.
Qed.

Lemma buffer_copy_from_ok l ds : forall room,
  Forall (fun d => length (buffer_contents l d) = buf_size d) ds ->
  buffer_copy_from room ds l = take room (concat (map (buffer_contents l) ds)).
Proof.
  induction ds as [|d ds IH]; intros room Hd; destruct room as [|room]; try done.
  cbn [buffer_copy_from map concat]. apply Forall_cons in Hd as [Hd Hds].
  destruct (Nat.ltb_spec (S room) (buf_size d)).
  - rewrite take_app_le by lia. rewrite Nat.sub_diag. destruct ds; cbn; by rewrite app_nil_r.
  - rewrite IH by done. rewrite take_app_ge by lia. by rewrite firstn_all2, Hd by lia.
Qed.

Lemma const_buffers_sizes b : wf b ->
  Forall (fun d => length (buffer_contents (list_ b) d) = buf_size d) (const_buffers b).
Proof.
  intros H. unfold const_buffers. fold (data_count b). apply Forall_forall. intros d Hd.
  apply list_elem_of_In, in_map_iff in Hd as (i & <- & Hi). apply in_seq in Hi.
  destruct (const_buffer_at_ok b i H) as (Et & Eo & Hs & _); [lia|].
  unfold buffer_contents. rewrite length_take, length_drop, Et.
  fold (size_at (list_ b) i). lia.
Qed.

(** The bytes of memory that has been written. *)
Definition read_cells (m : element) : cpp bytes :=
  match mapM (fun c => c) m with
  | Some d => Ret d
  | None => Undef
  end.

Lemma read_cells_some d : read_cells (map Some d) = Ret d.
Proof.
  unfold read_cells. assert (mapM (fun c => c) (map Some d) = Some d) as ->; [|done].
  induction d as [|x d IH]; cbn; [done|]. by rewrite IH.
Qed.

(** [std::vector<u8> bytes(b.size()); buffer_copy(buffer(bytes), b.data());]. *)
Definition copy_out (b : multi_buffer) : cpp bytes :=
  read_cells (buffer_copy_from (in_size_ b) (const_buffers b) (list_ b)).

(** ** The interface *)

(** The buffer holds the bytes [v] as its input sequence. *)
Definition mb_holds (b : multi_buffer) (v : bytes) : Prop :=
  wf b /\ max_ b = 2 ^ 64 - 1 /\ inputs b = map Some v.

Lemma mb_size_holds b v : mb_holds b v -> in_size_ b = length v.
Proof. intros (H & _ & Hi). rewrite <- (inputs_length b H), Hi. apply length_map. Qed.

Lemma mb_copy_out_holds b v : mb_holds b v -> copy_out b = Ret v.
Proof.
  intros Hh. pose proof (mb_size_holds b v Hh) as Hs. destruct Hh as (H & _ & Hi). unfold copy_out.
  rewrite buffer_copy_from_ok by (by apply const_buffers_sizes).
  rewrite const_buffers_contents, Hi by done. rewrite firstn_all2 by (rewrite length_map; lia).
  apply read_cells_some.
Qed.

Lemma mb_consume_holds b v n : mb_holds b v -> mb_holds (consume n b) (drop n v).
Proof.
  intros (H & Hm & Hi). destruct (consume_ok b n H) as [Hw Hmx Hin].
  split; [done|]. split; [congruence|]. by rewrite Hin, Hi, skipn_map.
Qed.

Lemma mb_prepare_holds b v n b1 :
  mb_holds b v -> Z.of_nat (length v + n) < 2 ^ 64 -> prepare n b = Ret b1 -> mb_holds b1 v.
Proof.
  intros Hh Hl E. pose proof (mb_size_holds b v Hh) as Hs. destruct Hh as (H & Hm & Hi).
  destruct (prepare_ok b n H) as (b' & total & E' & Hp); [lia|]. rewrite E in E'. injection E' as <-.
  split; [apply (pr_wf _ _ _ _ _ Hp)|]. split; [by rewrite (pr_max _ _ _ _ _ Hp)|]. by rewrite (preparing_inputs _ _ _ _ _ Hp).
Qed.

(** Preparing room for [n] bytes, copying [data] there and committing [k] of its bytes. *)
Lemma mb_write_holds b v data n k : mb_holds b v ->
  Z.of_nat (length v + n) < 2 ^ 64 -> (length data <= n)%nat -> (k <= length data)%nat ->
  exists b1 b2, prepare n b = Ret b1 /\ write_prepared data b1 = (length data, b2) /\
    mb_holds (commit k b2) (v ++ take k data).
Proof.
  intros Hh Hl Hd Hk. pose proof (mb_size_holds b v Hh) as Hs. destruct Hh as (H & Hm & Hi).
  destruct (prepare_ok b n H) as (b1 & total & -> & Hp); [lia|].
  pose proof (preparing_inputs _ _ _ _ _ Hp) as Hi1. destruct Hp as [Hw1 Hm1 Hs1 Hp1 Ho1 Hc1 Hr1 _].
  rewrite Nat.add_0_r in Hr1.
  destruct (write_prepared_ok b1 data Hw1 ltac:(lia)) as (b2 & Ew & Hw2 & Hp2 & Hs2 & Hm2 & Ho2 & Hr2 & Hc2).
  exists b1, b2. split; [done|]. split; [done|].
  destruct (commit_ok b2 k Hw2 ltac:(lia)) as [Hw3 Hm3 Hl3 Hp3 He3 Ho3].
  split; [done|]. split; [congruence|]. rewrite Hi in Hi1.
  pose proof (wf_out_in_end b1 Hw1) as Hoe. pose proof (end_abs_cells b1 Hw1) as Hec.
  pose proof (wf_in_out b1 Hw1) as Hio. unfold room in Hr1.
  unfold inputs in *. rewrite Ho3, Hp3, Ho2, Hp2. unfold cells at 1. rewrite Hl3. fold (cells b2). rewrite Hc2.
  unfold overwrite.
  assert (length (take (out_abs b1) (cells b1)) = out_abs b1) as El by (rewrite length_take; lia).
  rewrite take_app_add', drop_app_le by lia. rewrite Hi1, map_app. f_equal.
  rewrite take_app_le by (rewrite length_map; lia). apply firstn_map.
Qed.

(** What the sessions rely on: a dynamic buffer holds a sequence of bytes, what
    is prepared, written and committed goes to its end, and [consume] removes
    from its start. *)
Class DynamicBuffer (B : Type) := {
  db_new : B;
  db_prepare : nat -> B -> cpp B;
  db_write : bytes -> B -> nat * B;
  db_commit : nat -> B -> B;
  db_consume : nat -> B -> B;
  db_size : B -> nat;
  db_max_size : B -> Z;
  db_copy_out : B -> cpp bytes;
  db_holds : B -> bytes -> Prop;

  db_new_holds : db_holds db_new [];
  db_write_holds : forall b v data n k, db_holds b v ->
    Z.of_nat (length v + n) < 2 ^ 64 -> (length data <= n)%nat -> (k <= length data)%nat ->
    exists b1 b2, db_prepare n b = Ret b1 /\ db_write data b1 = (length data, b2) /\
      db_holds (db_commit k b2) (v ++ take k data);
  db_prepare_holds : forall b v n b1, db_holds b v -> Z.of_nat (length v + n) < 2 ^ 64 -> db_prepare n b = Ret b1 -> db_holds b1 v;
  db_consume_holds : forall b v n, db_holds b v -> db_holds (db_consume n b) (drop n v);
  db_size_holds : forall b v, db_holds b v -> db_size b = length v;
  db_max_size_holds : forall b v, db_holds b v -> db_max_size b = 2 ^ 64 - 1;
  db_copy_out_holds : forall b v, db_holds b v -> db_copy_out b = Ret v
}.

Lemma mb_new_holds : mb_holds new_multi_buffer [].
Proof. split; [apply new_multi_buffer_wf|done]. Qed.

Lemma mb_max_size_holds b v : mb_holds b v -> max_ b = 2 ^ 64 - 1.
Proof. by intros (_ & ? & _). Qed.

#[export] Instance multi_buffer_dynamic : DynamicBuffer multi_buffer := {|
  db_new := new_multi_buffer;
  db_prepare := prepare;
  db_write := write_prepared;
  db_commit := commit;
  db_consume := consume;
  db_size := in_size_;
  db_max_size := max_;
  db_copy_out := copy_out;
  db_holds := mb_holds;
  db_new_holds := mb_new_holds;
  db_write_holds := mb_write_holds;
  db_prepare_holds := mb_prepare_holds;
  db_consume_holds := mb_consume_holds;
  db_size_holds := mb_size_holds;
  db_max_size_holds := mb_max_size_holds;
  db_copy_out_holds := mb_copy_out_holds
|}.

(** ** Refinement of a byte queue *)

(** The calls on a buffer: write [data] and commit its first [k] bytes, consume,
    and read the size and the contents. *)
Inductive mb_op :=
  | OpWrite (data : bytes) (k : nat)
  | OpConsume (n : nat)
  | OpContents.

(** The contents after each call, as the code computes them. *)
Fixpoint mb_run (os : list mb_op) (b : multi_buffer) : cpp (list (nat * bytes)) :=
  match os with
  | [] => Ret []
  | o :: os =>
      let* b :=
        match o with
        | OpWrite data k =>
            let* b := prepare (length data) b in
            let (n, b) := write_prepared data b in
            Ret (commit (Nat.min k n) b)
        | OpConsume n => Ret (consume n b)
        | OpContents => Ret b
        end in
      let* v := copy_out b in
      let* rest := mb_run os b in
      Ret ((in_size_ b, v) :: rest)
  end.

(** The same calls on a queue of bytes. *)
Fixpoint mb_spec (os : list mb_op) (v : bytes) : list (nat * bytes) :=
  match os with
  | [] => []
  | o :: os =>
      let v :=
        match o with
        | OpWrite data k => v ++ take k data
        | OpConsume n => drop n v
        | OpContents => v
        end in
      (length v, v) :: mb_spec os v
  end.

(** The bytes a sequence of calls writes. *)
Definition mb_written (os : list mb_op) : nat :=
  sum_list_with (fun o => match o with OpWrite data _ => length data | _ => 0%nat end) os.

Lemma mb_run_spec os : forall b v,
  mb_holds b v -> Z.of_nat (length v + mb_written os) < 2 ^ 64 -> mb_run os b = Ret (mb_spec os v).
Proof.
  induction os as [|o os IH]; intros b v Hb Hl; [done|]. cbn [mb_run mb_spec].
  change (mb_written (o :: os)) with
    ((match o with OpWrite data _ => length data | _ => 0%nat end) + mb_written os)%nat in Hl.
  destruct o as [data k|n|]; cbn [obind].
  - destruct (mb_write_holds b v data (length data) (Nat.min k (length data)) Hb) as (b1 & b2 & -> & Hw & Hc); [lia..|].
    cbn [obind]. rewrite Hw. cbn [obind].
    rewrite <- take_take, firstn_all in Hc.
    rewrite (mb_copy_out_holds _ _ Hc). cbn [obind].
    rewrite (mb_size_holds _ _ Hc), (IH _ _ Hc); [done|].
    rewrite length_app, length_take. lia.
  - pose proof (mb_consume_holds b v n Hb) as Hc. rewrite (mb_copy_out_holds _ _ Hc). cbn [obind].
    rewrite (mb_size_holds _ _ Hc), (IH _ _ Hc); [done|]. rewrite length_drop. lia.
  - rewrite (mb_copy_out_holds _ _ Hb). cbn [obind].
    by rewrite (mb_size_holds _ _ Hb), (IH _ _ Hb).
Qed.

(** C29: a multi_buffer is a queue of bytes: from a new buffer, after any
    sequence of writes, commits and consumes the input sequence is the bytes
    committed and not yet consumed, in order, however they are spread over the
    elements; no call throws, and no indeterminate byte is read. *)
Theorem multi_buffer_refines_bytes os :
  Z.of_nat (mb_written os) < 2 ^ 64 -> mb_run os new_multi_buffer = Ret (mb_spec os []).
Proof. intros H. apply mb_run_spec; [apply mb_new_holds|done]. Qed.

Lemma multi_buffer_refines_bytes_witness :
  mb_run [OpWrite (repeat 7 600) 600; OpConsume 598; OpWrite [1; 2; 3] 2] new_multi_buffer =
    Ret [(600%nat, repeat 7 600); (2%nat, [7; 7]); (4%nat, [7; 7; 1; 2])].
Proof.
  exact (multi_buffer_refines_bytes [OpWrite (repeat 7 600) 600; OpConsume 598; OpWrite [1; 2; 3] 2]
           eq_refl).
Defined.
