(* ===== verification/JsonValue.v ===== *)
(** * nlohmann::basic_json values

    The JSON value type of src/externals/json/nlohmann/json.hpp and the member
    functions the protocol code calls on it: type queries, [at], [operator[]],
    [operator==], the initializer-list constructor, and the conversions
    [from_json]/[to_json] of numbers, strings and enumerations. *)

From Stdlib Require Import ZArith Lia String Ascii.
From Stdlib Require Import SpecFloat.
From stdpp Require Import base list.
From S2P Require Import Prelude Exceptions.

(** ** The value type *)

(** [value_t]. *)
Inductive value_t :=
  | value_null | value_object | value_array | value_string | value_boolean
  | value_number_integer | value_number_unsigned | value_number_float | value_discarded.

#[export] Instance value_t_eq_dec : EqDecision value_t.
Proof. solve_decision. Defined.

(** [number_float_t] is [double]; the sign, mantissa and exponent of a binary64. *)
Abbreviation number_float_t := spec_float.

(** A [basic_json] value: its [m_type] and the member of [m_value] it selects.
    An object is the content of its [std::map], in key order. *)
Inductive json :=
  | JNull
  | JObject (m : list (bytes * json))
  | JArray (a : list json)
  | JString (s : bytes)
  | JBoolean (b : bool)
  | JInteger (z : Z)
  | JUnsigned (z : Z)
  | JFloat (f : number_float_t)
  | JDiscarded.

Definition m_type (j : json) : value_t :=
  match j with
  | JNull => value_null
  | JObject _ => value_object
  | JArray _ => value_array
  | JString _ => value_string
  | JBoolean _ => value_boolean
  | JInteger _ => value_number_integer
  | JUnsigned _ => value_number_unsigned
  | JFloat _ => value_number_float
  | JDiscarded => value_discarded
  end.

Definition type_name (j : json) : bytes :=
  match m_type j with
  | value_null => str "null"
  | value_object => str "object"
  | value_array => str "array"
  | value_string => str "string"
  | value_boolean => str "boolean"
  | value_discarded => str "discarded"
  | _ => str "number"
  end.

Definition is_null (j : json) : bool := bool_decide (m_type j = value_null).
Definition is_object (j : json) : bool := bool_decide (m_type j = value_object).
Definition is_array (j : json) : bool := bool_decide (m_type j = value_array).
Definition is_string (j : json) : bool := bool_decide (m_type j = value_string).
Definition is_boolean (j : json) : bool := bool_decide (m_type j = value_boolean).

(** ** [std::map<std::string, basic_json>] *)

(** [std::string::compare]: bytes as [unsigned char], lexicographically. *)
Fixpoint key_compare (a b : bytes) : comparison :=
  match a, b with
  | [], [] => Eq
  | [], _ => Lt
  | _, [] => Gt
  | x :: a, y :: b =>
      match x ?= y with
      | Eq => key_compare a b
      | c => c
      end
  end.

Definition key_eqb (a b : bytes) : bool := match key_compare a b with Eq => true | _ => false end.

Fixpoint map_find {V} (k : bytes) (m : list (bytes * V)) : option V :=
  match m with
  | [] => None
  | (k', v) :: m => if key_eqb k k' then Some v else map_find k m
  end.

(** [m[k] = v]. *)
Fixpoint map_set {V} (k : bytes) (v : V) (m : list (bytes * V)) : list (bytes * V) :=
  match m with
  | [] => [(k, v)]
  | (k', v') :: m' =>
      match key_compare k k' with
      | Lt => (k, v) :: m
      | Eq => (k', v) :: m'
      | Gt => (k', v') :: map_set k v m'
      end
  end.

(** [m.emplace(k, v)]: an existing element is left as it is. *)
Definition map_emplace {V} (k : bytes) (v : V) (m : list (bytes * V)) : list (bytes * V) :=
  match map_find k m with
  | Some _ => m
  | None => map_set k v m
  end.

(** The keys of a map are strictly increasing. *)
Fixpoint keys_sorted {V} (m : list (bytes * V)) : bool :=
  match m with
  | [] => true
  | (k, _) :: m' =>
      match m' with
      | [] => true
      | (k', _) :: _ => match key_compare k k' with Lt => keys_sorted m' | _ => false end
      end
  end.

(** ** Numbers *)

(** [std::isfinite]. *)
Definition is_finite (f : number_float_t) : bool :=
  match f with S754_zero _ | S754_finite _ _ _ => true | _ => false end.

(** [static_cast<number_float_t>] of an integer: round to nearest, ties to even. *)
Definition float_of_Z (z : Z) : number_float_t := binary_normalize 53 1024 z 0 false.

(** The integral part of a finite floating-point number. *)
Definition float_trunc (f : number_float_t) : option Z :=
  match f with
  | S754_zero _ => Some 0
  | S754_finite s m e =>
      let a := if 0 <=? e then Z.pos m * 2 ^ e else Z.pos m / 2 ^ (- e) in
      Some (if s then - a else a)
  | _ => None
  end.

(** [static_cast] of a [double] to an unsigned type of [w] bits: undefined when
    the truncated value is not in range. *)
Definition float_to_unsigned (w : Z) (f : number_float_t) : cpp Z :=
  match float_trunc f with
  | Some z => if (0 <=? z) && (z <? 2 ^ w) then Ret z else Undef
  | None => Undef
  end.

(** ** Element access *)

(** [const_reference at(const key_type& key) const]. *)
Definition at_key (j : json) (key : bytes) : cpp json :=
  match j with
  | JObject m =>
      match map_find key m with
      | Some v => Ret v
      | None => Throw (create_out_of_range 403 (str "key '" ++ key ++ str "' not found"))
      end
  | _ => Throw (create_type_error 304 (str "cannot use at() with " ++ type_name j))
  end.

(** [reference operator[](const key_type& key)], as the element it refers to
    and the object that now holds it. *)
Definition operator_index (j : json) (key : bytes) : cpp (json * json) :=
  let j := if is_null j then JObject [] else j in
  match j with
  | JObject m =>
      match map_find key m with
      | Some v => Ret (v, j)
      | None => Ret (JNull, JObject (map_set key JNull m))
      end
  | _ => Throw (create_type_error 305
                 (str "cannot use operator[] with a string argument with " ++ type_name j))
  end.

(** [j[key] = v]. *)
Definition assign_index (j : json) (key : bytes) (v : json) : cpp json :=
  let* (_, j) := operator_index j key in
  match j with
  | JObject m => Ret (JObject (map_set key v m))
  | _ => Ret j
  end.

(** The test of the initializer-list constructor on one element. *)
Definition is_key_value_pair (e : json) : bool :=
  match e with
  | JArray [JString _; _] => true
  | _ => false
  end.

(** [basic_json(initializer_list_t init, bool type_deduction, value_t manual_type)]
    with its default arguments. *)
Definition basic_json_init (init : list json) : json :=
  if forallb is_key_value_pair init then
    JObject (foldl (fun m e =>
      match e with
      | JArray [JString k; v] => map_emplace k v m
      | _ => m
      end) [] init)
  else JArray init.

(** [{key, value}] inside an initializer list. *)
Definition pair_init (key : bytes) (value : json) : json := basic_json_init [JString key; value].

(** ** Equality *)

(** [operator==(const_reference lhs, const_reference rhs)]. *)
Fixpoint json_eqb (lhs rhs : json) {struct lhs} : bool :=
  match lhs, rhs with
  | JArray l, JArray r =>
      (fix array_eqb (l r : list json) : bool :=
         match l, r with
         | [], [] => true
         | x :: l, y :: r => json_eqb x y && array_eqb l r
         | _, _ => false
         end) l r
  | JObject l, JObject r =>
      (fix object_eqb (l r : list (bytes * json)) : bool :=
         match l, r with
         | [], [] => true
         | (k, x) :: l, (k', y) :: r => key_eqb k k' && json_eqb x y && object_eqb l r
         | _, _ => false
         end) l r
  | JNull, JNull => true
  | JString l, JString r => key_eqb l r
  | JBoolean l, JBoolean r => Bool.eqb l r
  | JInteger l, JInteger r => l =? r
  | JUnsigned l, JUnsigned r => l =? r
  | JFloat l, JFloat r => SFeqb l r
  | JInteger l, JFloat r => SFeqb (float_of_Z l) r
  | JFloat l, JInteger r => SFeqb l (float_of_Z r)
  | JUnsigned l, JFloat r => SFeqb (float_of_Z l) r
  | JFloat l, JUnsigned r => SFeqb l (float_of_Z r)
  | JUnsigned l, JInteger r => swrap 64 l =? r
  | JInteger l, JUnsigned r => l =? swrap 64 r
  | _, _ => false
  end.

(** ** from_json *)

(** [get_arithmetic_value] into an unsigned type of [w] bits. *)
Definition get_arithmetic_value (w : Z) (j : json) : cpp Z :=
  match j with
  | JUnsigned z => Ret (wrap w z)
  | JInteger z => Ret (wrap w z)
  | JFloat f => float_to_unsigned w f
  | _ => Throw (create_type_error 302 (str "type must be number, but is " ++ type_name j))
  end.

(** [from_json(j, u64&)], that is [number_unsigned_t]. *)
Definition from_json_number_unsigned (j : json) : cpp Z := get_arithmetic_value 64 j.

(** [from_json(j, ArithmeticType& val)] for an unsigned type of [w] bits that is
    none of the number types of [basic_json], such as [u32]. *)
Definition from_json_arithmetic (w : Z) (j : json) : cpp Z :=
  match j with
  | JUnsigned z => Ret (wrap w z)
  | JInteger z => Ret (wrap w z)
  | JFloat f => float_to_unsigned w f
  | JBoolean b => Ret (if b then 1 else 0)
  | _ => Throw (create_type_error 302 (str "type must be number, but is " ++ type_name j))
  end.

(** [from_json(j, string_t& s)]. *)
Definition from_json_string (j : json) : cpp bytes :=
  match j with
  | JString s => Ret s
  | _ => Throw (create_type_error 302 (str "type must be string, but is " ++ type_name j))
  end.

(** ** NLOHMANN_JSON_SERIALIZE_ENUM *)

Section SerializeEnum.
Context {E : Type} `{EqDecision E} (m : list (E * json)) (first : E * json).

(** The macro's [to_json]: the value of the first pair with this enumerator,
    or of the first pair of the table [first :: m]. *)
Definition enum_to_json (e : E) : json :=
  match find (fun ej_pair => bool_decide (fst ej_pair = e)) (first :: m) with
  | Some it => snd it
  | None => snd first
  end.

(** The macro's [from_json]: the enumerator of the first pair whose value is
    [j], or of the first pair of the table. *)
Definition enum_from_json (j : json) : E :=
  match find (fun ej_pair => json_eqb (snd ej_pair) j) (first :: m) with
  | Some it => fst it
  | None => fst first
  end.
End SerializeEnum.

(** ** Keys and maps *)

Lemma key_compare_refl a : key_compare a a = Eq.
Proof. induction a as [|x a IH]; cbn; [done|]. by rewrite Z.compare_refl. Qed.

Lemma key_compare_eq a b : key_compare a b = Eq -> a = b.
Proof.
  revert b. induction a as [|x a IH]; intros [|y b]; cbn; try done.
  destruct (x ?= y) eqn:E; try done. apply Z.compare_eq in E as ->. intros H. by rewrite (IH b).
Qed.

Lemma key_compare_antisym a b : key_compare b a = CompOpp (key_compare a b).
Proof.
  revert b. induction a as [|x a IH]; intros [|y b]; cbn; try done.
  rewrite (Z.compare_antisym x y). destruct (x ?= y); cbn; done.
Qed.

Lemma key_compare_trans a b c :
  key_compare a b = Lt -> key_compare b c = Lt -> key_compare a c = Lt.
Proof.
  revert b c. induction a as [|x a IH]; intros [|y b] [|z c]; cbn; try done.
  destruct (Z.compare_spec x y), (Z.compare_spec y z); try done;
    destruct (Z.compare_spec x z); subst; try done; try lia. eauto.
Qed.

Lemma key_eqb_eq a b : key_eqb a b = true <-> a = b.
Proof.
  unfold key_eqb. split.
  - destruct (key_compare a b) eqn:E; try done. by apply key_compare_eq in E.
  - intros ->. by rewrite key_compare_refl.
Qed.

Lemma key_eqb_neq a b : key_eqb a b = false <-> a <> b.
Proof. rewrite <- not_true_iff_false, key_eqb_eq. done. Qed.

Lemma key_eqb_refl a : key_eqb a a = true.
Proof. by apply key_eqb_eq. Qed.

#[export] Hint Rewrite key_eqb_refl key_compare_refl : emurpc.

Lemma map_find_set {V} k (v : V) m : map_find k (map_set k v m) = Some v.
Proof.
  induction m as [|[k' v'] m IH]; cbn; [by rewrite key_eqb_refl|].
  destruct (key_compare k k') eqn:E; cbn; rewrite ?key_eqb_refl; try done.
  - unfold key_eqb. by rewrite E.
  - unfold key_eqb at 1. by rewrite E.
Qed.

Lemma map_find_set_ne {V} k k' (v : V) m : k <> k' -> map_find k (map_set k' v m) = map_find k m.
Proof.
  intros Hne. apply key_eqb_neq in Hne as Hb.
  induction m as [|[k2 v2] m IH]; cbn; [by rewrite Hb|].
  destruct (key_compare k' k2) eqn:E; cbn; rewrite ?Hb; try done.
  - apply key_compare_eq in E as ->. by rewrite Hb.
  - by rewrite IH.
Qed.

(** [map_set] keeps the order of the keys. *)
Lemma map_set_sorted {V} k (v : V) m : keys_sorted m = true -> keys_sorted (map_set k v m) = true.
Proof.
  induction m as [|[k1 v1] m IH]; [done|]. intros Hs. cbn [map_set].
  destruct (key_compare k k1) eqn:E.
  - apply key_compare_eq in E as ->. exact Hs.
  - cbn [keys_sorted]. by rewrite E.
  - assert (key_compare k1 k = Lt) as E' by (rewrite key_compare_antisym, E; done).
    destruct m as [|[k2 v2] m]; cbn [map_set]; [cbn; by rewrite E'|].
    cbn [keys_sorted] in Hs. destruct (key_compare k1 k2) eqn:E2; try done.
    specialize (IH Hs). cbn [map_set] in IH. destruct (key_compare k k2) eqn:E3.
    + cbn [keys_sorted]. rewrite E2. exact IH.
    + cbn [keys_sorted] in *. by rewrite E', E3.
    + cbn [keys_sorted] in *. by rewrite E2.
Qed.

Lemma map_emplace_sorted {V} k (v : V) m :
  keys_sorted m = true -> keys_sorted (map_emplace k v m) = true.
Proof. intros H. unfold map_emplace. destruct (map_find k m); [done|by apply map_set_sorted]. Qed.

(** ** Access and equality *)

(** [j.at(key)] is [v]. *)
Definition field (j : json) (key : bytes) (v : json) : Prop := at_key j key = Ret v.

Lemma at_key_cases j key :
  (exists v, field j key v) \/
  at_key j key = Throw (create_out_of_range 403 (str "key '" ++ key ++ str "' not found")) \/
  at_key j key = Throw (create_type_error 304 (str "cannot use at() with " ++ type_name j)).
Proof.
  unfold field, at_key. destruct j; eauto. destruct (map_find key m); eauto.
Qed.

Lemma json_eqb_string j s : json_eqb j (JString s) = true <-> j = JString s.
Proof.
  destruct j; cbn; try done. rewrite key_eqb_eq. split; [by intros ->|by intros [= ->]].
Qed.

Lemma string_json_eqb j s : json_eqb (JString s) j = true <-> j = JString s.
Proof.
  destruct j; cbn; try done. rewrite key_eqb_eq. split; [by intros ->|by intros [= ->]].
Qed.
