(* ===== verification/ToChars.v ===== *)
(** * The digits of floating-point numbers

    [detail::to_chars] and [namespace dtoa_impl] of
    src/externals/json/nlohmann/json.hpp: the Grisu2 algorithm, which writes a
    [double] with at most 17 digits, and the layout of the digits.

    A significand is a 64-bit unsigned integer with its wrap-around; the [int]s are
    exponents and lengths of a few thousands at most. The buffer is the array the
    pointers point into, and a pointer an index: to write outside is undefined, and
    so is an [assert] that fails. A loop on fuel is undefined when it runs out,
    which the theorems exclude. *)

From Stdlib Require Import ZArith Lia String Ascii SpecFloat.
From stdpp Require Import base list.
From S2P Require Import Prelude Exceptions JsonValue.

(** ** The buffer *)

(** [assert(b)]. *)
Definition assert_ (b : bool) : cpp unit := if b then Ret tt else Undef.

(** [buf[i] = c]. *)
Definition store (buf : bytes) (i c : Z) : cpp bytes :=
  if (0 <=? i) && (i <? Z.of_nat (length buf)) then Ret (<[Z.to_nat i := c]> buf) else Undef.

(** [buf[i]]. *)
Definition load (buf : bytes) (i : Z) : cpp Z :=
  if (0 <=? i) && (i <? Z.of_nat (length buf)) then Ret (nth (Z.to_nat i) buf 0) else Undef.

(** [std::memset(buf + at, c, n)]. *)
Definition memset (buf : bytes) (at_ c n : Z) : cpp bytes :=
  if (0 <=? at_) && (0 <=? n) && (at_ + n <=? Z.of_nat (length buf))
  then Ret (take (Z.to_nat at_) buf ++ replicate (Z.to_nat n) c ++ drop (Z.to_nat (at_ + n)) buf)
  else Undef.

(** [std::memmove(buf + dst, buf + src, n)]. *)
Definition memmove (buf : bytes) (dst src n : Z) : cpp bytes :=
  if (0 <=? dst) && (0 <=? src) && (0 <=? n) && (dst + n <=? Z.of_nat (length buf)) &&
     (src + n <=? Z.of_nat (length buf))
  then Ret (take (Z.to_nat dst) buf ++ take (Z.to_nat n) (drop (Z.to_nat src) buf) ++ drop (Z.to_nat (dst + n)) buf)
  else Undef.

(** ** diyfp *)

Module diyfp.
(** [f * 2^e]. *)
Record diyfp := mk { f : Z; e : Z }.

Definition kPrecision : Z := 64.

Definition sub (x y : diyfp) : cpp diyfp :=
  let* _ := assert_ (e x =? e y) in
  let* _ := assert_ (f y <=? f x) in
  Ret (mk (wrap 64 (f x - f y)) (e x)).

Definition mul (x y : diyfp) : diyfp :=
  let u_lo := Z.land (f x) 0xFFFFFFFF in
  let u_hi := Z.shiftr (f x) 32 in
  let v_lo := Z.land (f y) 0xFFFFFFFF in
  let v_hi := Z.shiftr (f y) 32 in
  let p0 := wrap 64 (u_lo * v_lo) in
  let p1 := wrap 64 (u_lo * v_hi) in
  let p2 := wrap 64 (u_hi * v_lo) in
  let p3 := wrap 64 (u_hi * v_hi) in
  let p0_hi := Z.shiftr p0 32 in
  let p1_lo := Z.land p1 0xFFFFFFFF in
  let p1_hi := Z.shiftr p1 32 in
  let p2_lo := Z.land p2 0xFFFFFFFF in
  let p2_hi := Z.shiftr p2 32 in
  let Q := wrap 64 (p0_hi + p1_lo + p2_lo) in
  let Q := wrap 64 (Q + Z.shiftl 1 (64 - 32 - 1)) in
  let h := wrap 64 (p3 + p2_hi + p1_hi + Z.shiftr Q 32) in
  mk h (e x + e y + 64).

(** The loop of [normalize]; 63 turns suffice for [f x <> 0]. *)
Fixpoint normalize_loop (fuel : nat) (x : diyfp) : cpp diyfp :=
  match fuel with
  | O => Undef
  | S fuel =>
      if Z.shiftr (f x) 63 =? 0 then normalize_loop fuel (mk (wrap 64 (Z.shiftl (f x) 1)) (e x - 1))
      else Ret x
  end.

Definition normalize (x : diyfp) : cpp diyfp :=
  let* _ := assert_ (negb (f x =? 0)) in
  normalize_loop 64 x.

Definition normalize_to (x : diyfp) (target_exponent : Z) : cpp diyfp :=
  let delta := e x - target_exponent in
  let* _ := assert_ (0 <=? delta) in
  if 64 <=? delta then Undef
  else
    let* _ := assert_ (Z.shiftr (wrap 64 (Z.shiftl (f x) delta)) delta =? f x) in
    Ret (mk (wrap 64 (Z.shiftl (f x) delta)) target_exponent).
End diyfp.

Import diyfp (diyfp, mk).

(** ** The boundaries of a number *)

Record boundaries := mk_boundaries { w : diyfp; minus : diyfp; plus : diyfp }.

(** [reinterpret_bits<std::uint64_t>(value)]: the IEEE 754 encoding of a finite
    [double]. *)
Definition reinterpret_bits (value : number_float_t) : Z :=
  match value with
  | S754_finite s m e =>
      (if s then 2 ^ 63 else 0) +
      (if Zpos m <? 2 ^ 52 then Zpos m else (e + 1075) * 2 ^ 52 + (Zpos m - 2 ^ 52))
  | S754_zero s => if s then 2 ^ 63 else 0
  | S754_infinity s => (if s then 2 ^ 63 else 0) + 2047 * 2 ^ 52
  | S754_nan => 4095 * 2 ^ 51
  end.

Definition compute_boundaries (value : number_float_t) : cpp boundaries :=
  let* _ := assert_ (match value with S754_finite false _ _ => true | _ => false end) in
  let kPrecision := 53 in
  let kBias := 1024 - 1 + (kPrecision - 1) in
  let kMinExp := 1 - kBias in
  let kHiddenBit := Z.shiftl 1 (kPrecision - 1) in
  let bits := reinterpret_bits value in
  let E := Z.shiftr bits (kPrecision - 1) in
  let F := Z.land bits (kHiddenBit - 1) in
  let is_denormal := E =? 0 in
  let v := if is_denormal then mk F kMinExp else mk (wrap 64 (F + kHiddenBit)) (E - kBias) in
  let lower_boundary_is_closer := (F =? 0) && (1 <? E) in
  let m_plus := mk (wrap 64 (2 * diyfp.f v + 1)) (diyfp.e v - 1) in
  let m_minus :=
    if lower_boundary_is_closer then mk (wrap 64 (4 * diyfp.f v - 1)) (diyfp.e v - 2)
    else mk (wrap 64 (2 * diyfp.f v - 1)) (diyfp.e v - 1) in
  let* w_plus := diyfp.normalize m_plus in
  let* w_minus := diyfp.normalize_to m_minus (diyfp.e w_plus) in
  let* v := diyfp.normalize v in
  Ret (mk_boundaries v w_minus w_plus).

(** ** Cached powers of ten *)

Definition kAlpha : Z := -60.
Definition kGamma : Z := -32.

Record cached_power := mk_cached_power { cp_f : Z; cp_e : Z; cp_k : Z }.

Definition kCachedPowersMinDecExp : Z := -300.
Definition kCachedPowersDecStep : Z := 8.

Definition kCachedPowers : list cached_power :=
  map (fun '(f, e, k) => mk_cached_power f e k)
  [(0xAB70FE17C79AC6CA, -1060, -300); (0xFF77B1FCBEBCDC4F, -1034, -292); (0xBE5691EF416BD60C, -1007, -284);
   (0x8DD01FAD907FFC3C, -980, -276); (0xD3515C2831559A83, -954, -268); (0x9D71AC8FADA6C9B5, -927, -260);
   (0xEA9C227723EE8BCB, -901, -252); (0xAECC49914078536D, -874, -244); (0x823C12795DB6CE57, -847, -236);
   (0xC21094364DFB5637, -821, -228); (0x9096EA6F3848984F, -794, -220); (0xD77485CB25823AC7, -768, -212);
   (0xA086CFCD97BF97F4, -741, -204); (0xEF340A98172AACE5, -715, -196); (0xB23867FB2A35B28E, -688, -188);
   (0x84C8D4DFD2C63F3B, -661, -180); (0xC5DD44271AD3CDBA, -635, -172); (0x936B9FCEBB25C996, -608, -164);
   (0xDBAC6C247D62A584, -582, -156); (0xA3AB66580D5FDAF6, -555, -148); (0xF3E2F893DEC3F126, -529, -140);
   (0xB5B5ADA8AAFF80B8, -502, -132); (0x87625F056C7C4A8B, -475, -124); (0xC9BCFF6034C13053, -449, -116);
   (0x964E858C91BA2655, -422, -108); (0xDFF9772470297EBD, -396, -100); (0xA6DFBD9FB8E5B88F, -369, -92);
   (0xF8A95FCF88747D94, -343, -84); (0xB94470938FA89BCF, -316, -76); (0x8A08F0F8BF0F156B, -289, -68);
   (0xCDB02555653131B6, -263, -60); (0x993FE2C6D07B7FAC, -236, -52); (0xE45C10C42A2B3B06, -210, -44);
   (0xAA242499697392D3, -183, -36); (0xFD87B5F28300CA0E, -157, -28); (0xBCE5086492111AEB, -130, -20);
   (0x8CBCCC096F5088CC, -103, -12); (0xD1B71758E219652C, -77, -4); (0x9C40000000000000, -50, 4);
   (0xE8D4A51000000000, -24, 12); (0xAD78EBC5AC620000, 3, 20); (0x813F3978F8940984, 30, 28);
   (0xC097CE7BC90715B3, 56, 36); (0x8F7E32CE7BEA5C70, 83, 44); (0xD5D238A4ABE98068, 109, 52);
   (0x9F4F2726179A2245, 136, 60); (0xED63A231D4C4FB27, 162, 68); (0xB0DE65388CC8ADA8, 189, 76);
   (0x83C7088E1AAB65DB, 216, 84); (0xC45D1DF942711D9A, 242, 92); (0x924D692CA61BE758, 269, 100);
   (0xDA01EE641A708DEA, 295, 108); (0xA26DA3999AEF774A, 322, 116); (0xF209787BB47D6B85, 348, 124);
   (0xB454E4A179DD1877, 375, 132); (0x865B86925B9BC5C2, 402, 140); (0xC83553C5C8965D3D, 428, 148);
   (0x952AB45CFA97A0B3, 455, 156); (0xDE469FBD99A05FE3, 481, 164); (0xA59BC234DB398C25, 508, 172);
   (0xF6C69A72A3989F5C, 534, 180); (0xB7DCBF5354E9BECE, 561, 188); (0x88FCF317F22241E2, 588, 196);
   (0xCC20CE9BD35C78A5, 614, 204); (0x98165AF37B2153DF, 641, 212); (0xE2A0B5DC971F303A, 667, 220);
   (0xA8D9D1535CE3B396, 694, 228); (0xFB9B7CD9A4A7443C, 720, 236); (0xBB764C4CA7A44410, 747, 244);
   (0x8BAB8EEFB6409C1A, 774, 252); (0xD01FEF10A657842C, 800, 260); (0x9B10A4E5E9913129, 827, 268);
   (0xE7109BFBA19C0C9D, 853, 276); (0xAC2820D9623BF429, 880, 284); (0x80444B5E7AA7CF85, 907, 292);
   (0xBF21E44003ACDD2D, 933, 300); (0x8E679C2F5E44FF8F, 960, 308); (0xD433179D9C8CB841, 986, 316);
   (0x9E19DB92B4E31BA9, 1013, 324)].

Definition get_cached_power_for_binary_exponent (e : Z) : cpp cached_power :=
  let* _ := assert_ (-1500 <=? e) in
  let* _ := assert_ (e <=? 1500) in
  let f := kAlpha - e - 1 in
  let k := Z.quot (f * 78913) (Z.shiftl 1 18) + (if 0 <? f then 1 else 0) in
  let index := Z.quot (- kCachedPowersMinDecExp + k + (kCachedPowersDecStep - 1)) kCachedPowersDecStep in
  let* _ := assert_ (0 <=? index) in
  let* _ := assert_ (index <? Z.of_nat (length kCachedPowers)) in
  match kCachedPowers !! Z.to_nat index with
  | Some cached =>
      let* _ := assert_ (kAlpha <=? cp_e cached + e + 64) in
      let* _ := assert_ (cp_e cached + e + 64 <=? kGamma) in
      Ret cached
  | None => Undef
  end.

(** ** Generating digits *)

(** [find_largest_pow10(n, pow10)]: the result and [pow10]. *)
Definition find_largest_pow10 (n : Z) : Z * Z :=
  if 1000000000 <=? n then (10, 1000000000)
  else if 100000000 <=? n then (9, 100000000)
  else if 10000000 <=? n then (8, 10000000)
  else if 1000000 <=? n then (7, 1000000)
  else if 100000 <=? n then (6, 100000)
  else if 10000 <=? n then (5, 10000)
  else if 1000 <=? n then (4, 1000)
  else if 100 <=? n then (3, 100)
  else if 10 <=? n then (2, 10)
  else (1, 1).

(** The loop of [grisu2_round]: a digit can be decremented nine times. *)
Fixpoint grisu2_round_loop (fuel : nat) (buf : bytes) (len dist delta rest ten_k : Z) : cpp bytes :=
  match fuel with
  | O => Undef
  | S fuel =>
      if (rest <? dist) && (ten_k <=? wrap 64 (delta - rest)) &&
         ((wrap 64 (rest + ten_k) <? dist) ||
          (wrap 64 (wrap 64 (rest + ten_k) - dist) <? wrap 64 (dist - rest)))
      then
        let* c := load buf (len - 1) in
        let* _ := assert_ (negb (c =? 48)) in
        let* buf := store buf (len - 1) (c - 1) in
        grisu2_round_loop fuel buf len dist delta (wrap 64 (rest + ten_k)) ten_k
      else Ret buf
  end.

Definition grisu2_round (buf : bytes) (len dist delta rest ten_k : Z) : cpp bytes :=
  let* _ := assert_ (1 <=? len) in
  let* _ := assert_ (dist <=? delta) in
  let* _ := assert_ (rest <=? delta) in
  let* _ := assert_ (0 <? ten_k) in
  grisu2_round_loop 10 buf len dist delta rest ten_k.

(** What [grisu2_digit_gen] leaves in [buffer], [length] and [decimal_exponent]. *)
Definition generated : Type := bytes * Z * Z.

(** The first loop of [grisu2_digit_gen], over the digits of [p1]: the result of
    its [return], or [buffer], [length], [pow10] and [p1] after it. *)
Fixpoint integral_digits (n : nat) (buffer : bytes) (len decimal_exponent p1 p2 pow10 delta dist : Z) (one : diyfp)
    : cpp (generated + bytes * Z) :=
  match n with
  | O => Ret (inr (buffer, len))
  | S n =>
      let d := p1 / pow10 in
      let r := p1 mod pow10 in
      let* _ := assert_ (d <=? 9) in
      let* buffer := store buffer len (48 + d) in
      let len := len + 1 in
      let p1 := r in
      let rest := wrap 64 (wrap 64 (Z.shiftl p1 (- diyfp.e one)) + p2) in
      if rest <=? delta then
        let decimal_exponent := decimal_exponent + Z.of_nat n in
        let ten_n := wrap 64 (Z.shiftl pow10 (- diyfp.e one)) in
        let* buffer := grisu2_round buffer len dist delta rest ten_n in
        Ret (inl (buffer, len, decimal_exponent))
      else integral_digits n buffer len decimal_exponent p1 p2 (pow10 / 10) delta dist one
  end.

(** The second loop, over the digits of the fraction, with what follows it. *)
Fixpoint fractional_digits (fuel : nat) (buffer : bytes) (len decimal_exponent p2 delta dist m : Z) (one : diyfp)
    : cpp generated :=
  match fuel with
  | O => Undef
  | S fuel =>
      let* _ := assert_ (p2 <=? (2 ^ 64 - 1) / 10) in
      let p2 := wrap 64 (p2 * 10) in
      let d := Z.shiftr p2 (- diyfp.e one) in
      let r := Z.land p2 (diyfp.f one - 1) in
      let* _ := assert_ (d <=? 9) in
      let* buffer := store buffer len (48 + d) in
      let len := len + 1 in
      let p2 := r in
      let m := m + 1 in
      let delta := wrap 64 (delta * 10) in
      let dist := wrap 64 (dist * 10) in
      if p2 <=? delta then
        let decimal_exponent := decimal_exponent - m in
        let ten_m := diyfp.f one in
        let* buffer := grisu2_round buffer len dist delta p2 ten_m in
        Ret (buffer, len, decimal_exponent)
      else fractional_digits fuel buffer len decimal_exponent p2 delta dist m one
  end.

Definition grisu2_digit_gen (buffer : bytes) (len decimal_exponent : Z) (M_minus w M_plus : diyfp) : cpp generated :=
  let* _ := assert_ (kAlpha <=? diyfp.e M_plus) in
  let* _ := assert_ (diyfp.e M_plus <=? kGamma) in
  let* delta := diyfp.sub M_plus M_minus in
  let* dist := diyfp.sub M_plus w in
  let delta := diyfp.f delta in
  let dist := diyfp.f dist in
  let one := mk (wrap 64 (Z.shiftl 1 (- diyfp.e M_plus))) (diyfp.e M_plus) in
  let p1 := wrap 32 (Z.shiftr (diyfp.f M_plus) (- diyfp.e one)) in
  let p2 := Z.land (diyfp.f M_plus) (diyfp.f one - 1) in
  let* _ := assert_ (0 <? p1) in
  let (k, pow10) := find_largest_pow10 p1 in
  let* res := integral_digits (Z.to_nat k) buffer len decimal_exponent p1 p2 pow10 delta dist one in
  match res with
  | inl g => Ret g
  | inr (buffer, len) =>
      let* _ := assert_ (delta <? p2) in
      fractional_digits 64 buffer len decimal_exponent p2 delta dist 0 one
  end.

(** [grisu2(buf, len, decimal_exponent, m_minus, v, m_plus)]. *)
Definition grisu2_scaled (buf : bytes) (len : Z) (m_minus v m_plus : diyfp) : cpp generated :=
  let* _ := assert_ (diyfp.e m_plus =? diyfp.e m_minus) in
  let* _ := assert_ (diyfp.e m_plus =? diyfp.e v) in
  let* cached := get_cached_power_for_binary_exponent (diyfp.e m_plus) in
  let c_minus_k := mk (cp_f cached) (cp_e cached) in
  let w := diyfp.mul v c_minus_k in
  let w_minus := diyfp.mul m_minus c_minus_k in
  let w_plus := diyfp.mul m_plus c_minus_k in
  let M_minus := mk (wrap 64 (diyfp.f w_minus + 1)) (diyfp.e w_minus) in
  let M_plus := mk (wrap 64 (diyfp.f w_plus - 1)) (diyfp.e w_plus) in
  let decimal_exponent := - cp_k cached in
  grisu2_digit_gen buf len decimal_exponent M_minus w M_plus.

(** [grisu2(buf, len, decimal_exponent, value)]. *)
Definition grisu2 (buf : bytes) (len : Z) (value : number_float_t) : cpp generated :=
  let* b := compute_boundaries value in
  grisu2_scaled buf len (minus b) (w b) (plus b).

(** ** The layout of the digits *)

(** [append_exponent(buf + at, e)]: the buffer and the index behind the exponent. *)
Definition append_exponent (buf : bytes) (at_ e : Z) : cpp (bytes * Z) :=
  let* _ := assert_ (-1000 <? e) in
  let* _ := assert_ (e <? 1000) in
  let* buf := store buf at_ (if e <? 0 then 45 else 43) in
  let at_ := at_ + 1 in
  let k := Z.abs e in
  if k <? 10 then
    let* buf := store buf at_ 48 in
    let* buf := store buf (at_ + 1) (48 + k) in
    Ret (buf, at_ + 2)
  else if k <? 100 then
    let* buf := store buf at_ (48 + k / 10) in
    let* buf := store buf (at_ + 1) (48 + k mod 10) in
    Ret (buf, at_ + 2)
  else
    let* buf := store buf at_ (48 + k / 100) in
    let k := k mod 100 in
    let* buf := store buf (at_ + 1) (48 + k / 10) in
    let* buf := store buf (at_ + 2) (48 + k mod 10) in
    Ret (buf, at_ + 3).

(** [format_buffer(buf, len, decimal_exponent, min_exp, max_exp)]. *)
Definition format_buffer (buf : bytes) (len decimal_exponent min_exp max_exp : Z) : cpp (bytes * Z) :=
  let* _ := assert_ (min_exp <? 0) in
  let* _ := assert_ (0 <? max_exp) in
  let k := len in
  let n := len + decimal_exponent in
  if (k <=? n) && (n <=? max_exp) then
    let* buf := memset buf k 48 (n - k) in
    let* buf := store buf (n + 0) 46 in
    let* buf := store buf (n + 1) 48 in
    Ret (buf, n + 2)
  else if (0 <? n) && (n <=? max_exp) then
    let* _ := assert_ (n <? k) in
    let* buf := memmove buf (n + 1) n (k - n) in
    let* buf := store buf n 46 in
    Ret (buf, k + 1)
  else if (min_exp <? n) && (n <=? 0) then
    let* buf := memmove buf (2 + - n) 0 k in
    let* buf := store buf 0 48 in
    let* buf := store buf 1 46 in
    let* buf := memset buf 2 48 (- n) in
    Ret (buf, 2 + (- n) + k)
  else
    let* (buf, at_) :=
      if k =? 1 then Ret (buf, 1)
      else
        let* buf := memmove buf 2 1 (k - 1) in
        let* buf := store buf 1 46 in
        Ret (buf, 1 + k) in
    let* buf := store buf at_ 101 in
    append_exponent buf (at_ + 1) (n - 1).

(** [to_chars(first, last, value)] from the test for zero on: the array from
    [first] to [last], and the index of the end of the text in it. *)
Definition to_chars_abs (buf : bytes) (value : number_float_t) : cpp (bytes * Z) :=
  match value with
  | S754_zero _ =>
      let* buf := store buf 0 48 in
      let* buf := store buf 1 46 in
      let* buf := store buf 2 48 in
      Ret (buf, 3)
  | _ =>
      let size := Z.of_nat (length buf) in
      let* _ := assert_ (17 <=? size) in
      let* (buf, len, decimal_exponent) := grisu2 buf 0 value in
      let* _ := assert_ (len <=? 17) in
      let kMinExp := -4 in
      let kMaxExp := 15 in
      let* _ := assert_ (kMaxExp + 2 <=? size) in
      let* _ := assert_ (2 + (- kMinExp - 1) + 17 <=? size) in
      let* _ := assert_ (17 + 6 <=? size) in
      format_buffer buf len decimal_exponent kMinExp kMaxExp
  end.

(** [std::signbit]. *)
Definition signbit (f : number_float_t) : bool :=
  match f with S754_finite s _ _ | S754_zero s | S754_infinity s => s | S754_nan => false end.

Definition to_chars (buf : bytes) (value : number_float_t) : cpp (bytes * Z) :=
  let* _ := assert_ (is_finite value) in
  if signbit value then
    let* buf := store buf 0 45 in
    let* (rest, last) := to_chars_abs (tail buf) (SFopp value) in
    Ret (take 1 buf ++ rest, 1 + last)
  else to_chars_abs buf value.
