(* ===== verification/Protocol.v ===== *)
(** * The protocol packets

    The classes and enumerations of src/src/protocol.h and src/src/protocol.cpp:
    the requests a client sends, the responses it gets, and the variants that
    carry them through the queues. A derived class holds its base class object
    as its first field. *)

From Stdlib Require Import ZArith Lia String Ascii.
From stdpp Require Import base list countable.
From S2P Require Import Prelude Exceptions.

Module Request.

Inductive Timing := Immediate | FrameEnd | MemoryAccess | GPUAccess | SpecialAccess.

Module Method.
Inductive t := Command | MemoryRead | MemoryWrite | GPURead | GPUWrite | SpecialRead | SpecialWrite.
End Method.

Inductive Sync := Blocking | NonBlocking.

Inductive Function_ := Once | Conditional | Callback.

Module CommandType.
Inductive t :=
| Continue | CancelCallback | ClearCPUCache | SaveState | LoadState | PauseEmu | ResumeEmu
| LoadRom | CloseRom | ResetRom | CreateOverlay | DrawOverlay.
End CommandType.

#[global] Instance Timing_eq_dec : EqDecision Timing.
Proof. solve_decision. Defined.
#[global] Instance Method_eq_dec : EqDecision Method.t.
Proof. solve_decision. Defined.
#[global] Instance Sync_eq_dec : EqDecision Sync.
Proof. solve_decision. Defined.
#[global] Instance Function_eq_dec : EqDecision Function_.
Proof. solve_decision. Defined.
#[global] Instance CommandType_eq_dec : EqDecision CommandType.t.
Proof. solve_decision. Defined.

(** The underlying value of a [Timing], by which [Impl::callbacks] is keyed. *)
Definition timing_index (t : Timing) : nat :=
  match t with
  | Immediate => 0 | FrameEnd => 1 | MemoryAccess => 2 | GPUAccess => 3 | SpecialAccess => 4
  end%nat.

#[global] Instance Timing_countable : Countable Timing.
Proof.
  refine (inj_countable' timing_index
    (fun n => match n with
        | O => Immediate | 1%nat => FrameEnd | 2%nat => MemoryAccess | 3%nat => GPUAccess
        | _ => SpecialAccess
        end) _).
  by intros [].
Defined.

(** [class Packet]. *)
Record Packet := mk_packet {
  id : Z;
  method : Method.t;
  timing : Timing;
  sync : Sync;
  function : Function_
}.

(** [Packet::operator==]. *)
Definition packet_eqb (a b : Packet) : bool :=
  (id a =? id b) && bool_decide (method a = method b) && bool_decide (timing a = timing b) &&
  bool_decide (sync a = sync b) && bool_decide (function a = function b).

(** [class MemoryWrite]. *)
Record MemoryWrite := mk_memory_write {
  mw_packet : Packet;
  mw_address : Z;
  mw_data : bytes
}.

(** [MemoryWrite(id, timing, sync, function, address, data)]. *)
Definition new_memory_write (i : Z) (t : Timing) (s : Sync) (f : Function_) (address : Z)
  (data : bytes) : MemoryWrite :=
  mk_memory_write (mk_packet i Method.MemoryWrite t s f) address data.

(** [MemoryWrite::operator==]. *)
Definition memory_write_eqb (a b : MemoryWrite) : bool :=
  packet_eqb (mw_packet a) (mw_packet b) &&
  ((mw_address a =? mw_address b) && bool_decide (mw_data a = mw_data b)).

(** [class MemoryRead]. *)
Record MemoryRead := mk_memory_read {
  mr_packet : Packet;
  mr_address : Z;
  mr_length : Z
}.

(** [MemoryRead(id, timing, sync, function, address, length)]. *)
Definition new_memory_read (i : Z) (t : Timing) (s : Sync) (f : Function_) (address len : Z)
  : MemoryRead :=
  mk_memory_read (mk_packet i Method.MemoryRead t s f) address len.

(** [MemoryRead::operator==]. *)
Definition memory_read_eqb (a b : MemoryRead) : bool :=
  packet_eqb (mr_packet a) (mr_packet b) &&
  ((mr_address a =? mr_address b) && (mr_length a =? mr_length b)).

(** [class Command] and the commands of the variant. *)
Record Command := mk_command { cmd_packet : Packet; command_type : CommandType.t }.
Record SaveStateCommand := mk_save_state { save_command : Command; save_slot : Z }.
Record LoadStateCommand := mk_load_state { load_command : Command; load_slot : Z }.

(** [AnyPacket]. *)
Inductive AnyPacket :=
| APacket (p : Packet)
| AMemoryRead (p : MemoryRead)
| AMemoryWrite (p : MemoryWrite)
| ASaveStateCommand (p : SaveStateCommand)
| ALoadStateCommand (p : LoadStateCommand).

(** [enum class PacketList] and [AnyPacket::which()]. *)
Module PacketList.
Inductive t := Packet | MemoryRead | MemoryWrite | SaveStateCommand | LoadStateCommand.
End PacketList.

Definition which (p : AnyPacket) : PacketList.t :=
  match p with
  | APacket _ => PacketList.Packet
  | AMemoryRead _ => PacketList.MemoryRead
  | AMemoryWrite _ => PacketList.MemoryWrite
  | ASaveStateCommand _ => PacketList.SaveStateCommand
  | ALoadStateCommand _ => PacketList.LoadStateCommand
  end.

(** [boost::polymorphic_get<Request::Packet>(&packet)]: every alternative has a
    [Packet] base class object. *)
Definition base_packet (p : AnyPacket) : Packet :=
  match p with
  | APacket p => p
  | AMemoryRead p => mr_packet p
  | AMemoryWrite p => mw_packet p
  | ASaveStateCommand p => cmd_packet (save_command p)
  | ALoadStateCommand p => cmd_packet (load_command p)
  end.

(** [static_cast<const MemoryRead*>], [static_cast<const MemoryWrite*>] and
    [static_cast<const Command*>] of that base class object: undefined unless
    the object is of that class. *)
Definition as_memory_read (p : AnyPacket) : cpp MemoryRead :=
  match p with AMemoryRead p => Ret p | _ => Undef end.
Definition as_memory_write (p : AnyPacket) : cpp MemoryWrite :=
  match p with AMemoryWrite p => Ret p | _ => Undef end.
Definition as_command (p : AnyPacket) : cpp Command :=
  match p with
  | ASaveStateCommand p => Ret (save_command p)
  | ALoadStateCommand p => Ret (load_command p)
  | _ => Undef
  end.

(** [operator==] of the variant; the commands inherit [Packet::operator==]. *)
Definition any_packet_eqb (a b : AnyPacket) : bool :=
  match a, b with
  | APacket a, APacket b => packet_eqb a b
  | AMemoryRead a, AMemoryRead b => memory_read_eqb a b
  | AMemoryWrite a, AMemoryWrite b => memory_write_eqb a b
  | ASaveStateCommand a, ASaveStateCommand b =>
      packet_eqb (cmd_packet (save_command a)) (cmd_packet (save_command b))
  | ALoadStateCommand a, ALoadStateCommand b =>
      packet_eqb (cmd_packet (load_command a)) (cmd_packet (load_command b))
  | _, _ => false
  end.

(** The method a packet says it has is the class it is an object of: what the
    casts of [Impl::HandleRequest] rely on. *)
Definition method_matches (p : AnyPacket) : bool :=
  match method (base_packet p), p with
  | Method.MemoryRead, AMemoryRead _ => true
  | Method.MemoryRead, _ => false
  | Method.MemoryWrite, AMemoryWrite _ => true
  | Method.MemoryWrite, _ => false
  | Method.Command, (ASaveStateCommand _ | ALoadStateCommand _) => true
  | Method.Command, _ => false
  | _, _ => true
  end.

(** The fields of a packet fit their C++ types. *)
Definition packet_wf (p : Packet) : Prop := u32 (id p).
Definition any_packet_wf (p : AnyPacket) : Prop :=
  packet_wf (base_packet p) /\
  match p with
  | AMemoryRead p => u64 (mr_address p) /\ u64 (mr_length p)
  | AMemoryWrite p => u64 (mw_address p) /\ Forall u8 (mw_data p)
  | ASaveStateCommand p => u16 (save_slot p)
  | ALoadStateCommand p => u16 (load_slot p)
  | APacket _ => True
  end.

Lemma packet_eqb_eq a b : packet_eqb a b = true <-> a = b.
Proof.
  unfold packet_eqb. destruct a, b; cbn.
  rewrite !andb_true_iff, !bool_decide_eq_true, Z.eqb_eq. naive_solver.
Qed.

End Request.

Module Response.

(** [enum class ErrorCode] and its underlying values. *)
Inductive ErrorCode := None_ | Mismatch | InvalidHeader | Unsupported.

Definition error_code (e : ErrorCode) : Z :=
  match e with None_ => 0 | Mismatch => 1 | InvalidHeader => 2 | Unsupported => 3 end.

(** [struct Error] and the predefined errors. *)
Record Error := mk_error { code : Z; message : bytes }.

Definition NoneError : Error := mk_error (error_code None_) (str "Sentinal value").
Definition MismatchError : Error :=
  mk_error (error_code Mismatch) (str "Client version and server version does not match").
Definition InvalidHeaderError : Error :=
  mk_error (error_code InvalidHeader) (str "Request was malformed").
Definition UnsupportedError : Error :=
  mk_error (error_code Unsupported) (str "Unsupported operation").

(** [class Packet] and its derived classes. *)
Record Packet := mk_packet { id : Z; error : Error }.
Record MemoryRead := mk_memory_read { mr_packet : Packet; result : bytes }.
Record MemoryWrite := mk_memory_write { mw_packet : Packet }.

(** [Packet(u32 id, Error error = NoneError)] and the constructors on top of it. *)
Definition new_packet (i : Z) : Packet := mk_packet i NoneError.
Definition new_memory_read (i : Z) (result : bytes) : MemoryRead := mk_memory_read (new_packet i) result.
Definition new_memory_write (i : Z) : MemoryWrite := mk_memory_write (new_packet i).

(** [AnyPacket]. *)
Inductive AnyPacket :=
| APacket (p : Packet)
| AMemoryRead (p : MemoryRead)
| AMemoryWrite (p : MemoryWrite).

(** The id a response answers. *)
Definition response_id (p : AnyPacket) : Z :=
  match p with
  | APacket p => id p
  | AMemoryRead p => id (mr_packet p)
  | AMemoryWrite p => id (mw_packet p)
  end.

End Response.
