(* ===== verification/JsonProtocol.v ===== *)
(** * The JSON protocol

    src/src/json_protocol.cpp: the conversions between packets and JSON values
    and the two serializers. The values are converted here; JsonLexer.v,
    JsonParser.v and JsonSerializer.v are the text side. *)

From Stdlib Require Import ZArith Lia String Ascii.
From stdpp Require Import base list.
From S2P Require Import Prelude Exceptions Base64 JsonValue Protocol.

(** ** The enumeration tables *)

Section Tables.
Import Request.

Definition timing_first := (Immediate, JString (str "immediate")).
Definition timing_rest :=
  [(FrameEnd, JString (str "frame_end")); (MemoryAccess, JString (str "memory_access"));
    (GPUAccess, JString (str "gpu_access")); (SpecialAccess, JString (str "special_access"))].
Definition timing_to_json (t : Timing) : json := enum_to_json timing_rest timing_first t.
Definition timing_from_json (j : json) : Timing := enum_from_json timing_rest timing_first j.

Definition method_first := (Method.Command, JString (str "command")).
Definition method_rest :=
  [(Method.MemoryRead, JString (str "memory_read")); (Method.MemoryWrite, JString (str "memory_write"));
    (Method.GPURead, JString (str "gpu_read")); (Method.GPUWrite, JString (str "gpu_write"));
    (Method.SpecialRead, JString (str "special_read"));
    (Method.SpecialWrite, JString (str "special_write"))].
Definition method_to_json (m : Method.t) : json := enum_to_json method_rest method_first m.
Definition method_from_json (j : json) : Method.t := enum_from_json method_rest method_first j.

Definition sync_first := (Blocking, JString (str "blocking")).
Definition sync_rest := [(NonBlocking, JString (str "nonblocking"))].
Definition sync_to_json (s : Sync) : json := enum_to_json sync_rest sync_first s.
Definition sync_from_json (j : json) : Sync := enum_from_json sync_rest sync_first j.

Definition function_first := (Once, JString (str "once")).
Definition function_rest :=
  [(Conditional, JString (str "conditional")); (Callback, JString (str "callback"))].
Definition function_to_json (f : Function_) : json := enum_to_json function_rest function_first f.
Definition function_from_json (j : json) : Function_ := enum_from_json function_rest function_first j.

Definition command_type_first := (CommandType.Continue, JString (str "continue")).
Definition command_type_rest :=
  [(CommandType.CancelCallback, JString (str "cancel"));
    (CommandType.ClearCPUCache, JString (str "clear_cpu_cache"));
    (CommandType.SaveState, JString (str "save_state"));
    (CommandType.LoadState, JString (str "load_state"));
    (CommandType.PauseEmu, JString (str "pause_emu"));
    (CommandType.ResumeEmu, JString (str "resume_emu"));
    (CommandType.LoadRom, JString (str "load_rom"));
    (CommandType.CloseRom, JString (str "close_rom"));
    (CommandType.ResetRom, JString (str "reset_rom"));
    (CommandType.CreateOverlay, JString (str "create_overlay"));
    (CommandType.DrawOverlay, JString (str "draw_overlay"))].
Definition command_type_to_json (c : CommandType.t) : json :=
  enum_to_json command_type_rest command_type_first c.
Definition command_type_from_json (j : json) : CommandType.t :=
  enum_from_json command_type_rest command_type_first j.
End Tables.

(** ** Requests *)

Module Req.
Import Request.

(** [FromBasePacket(j, p)]: the base class object and the parameters. *)
Definition FromBasePacket (j : json) : cpp (Packet * json) :=
  let* jid := at_key j (str "id") in
  let* i := from_json_arithmetic 32 jid in
  let* jmethod := at_key j (str "method") in
  let m := method_from_json jmethod in
  let* params := at_key j (str "params") in
  let* jtiming := at_key params (str "timing") in
  let t := timing_from_json jtiming in
  let* jsync := at_key params (str "sync") in
  let s := sync_from_json jsync in
  let* jfunction := at_key params (str "function") in
  let f := function_from_json jfunction in
  Ret (mk_packet i m t s f, params).

(** [ToBasePacket(p)]. *)
Definition ToBasePacket (p : Packet) : json :=
  basic_json_init
  [pair_init (str "jsonrpc") (JString (str "2.0"));
    pair_init (str "method") (method_to_json (method p));
    pair_init (str "id") (JUnsigned (id p));
    pair_init (str "params")
    (basic_json_init
      [pair_init (str "timing") (timing_to_json (timing p));
        pair_init (str "sync") (sync_to_json (sync p));
        pair_init (str "function") (function_to_json (function p))])].

(** [to_json(json& j, const MemoryWrite& p)]: [params] is a copy of
    [j["params"]], and it is the copy that gets the data and the address. *)
Definition to_json_memory_write (p : MemoryWrite) : cpp json :=
  let j := ToBasePacket (mw_packet p) in
  let* (params, j) := operator_index j (str "params") in
  let* data := EncodeBase64 (mw_data p) in
  let* params := assign_index params (str "data") (JString data) in
  let* params := assign_index params (str "address") (JUnsigned (mw_address p)) in
  Ret j.

(** [from_json(const json& j, MemoryWrite& p)]. *)
Definition from_json_memory_write (j : json) : cpp MemoryWrite :=
  let* (base, params) := FromBasePacket j in
  let* jdata := at_key params (str "data") in
  let* s := from_json_string jdata in
  let* data := DecodeBase64 s in
  let* jaddress := at_key params (str "address") in
  let* address := from_json_number_unsigned jaddress in
  Ret (mk_memory_write base address data).

(** [to_json(json& j, const MemoryRead& p)]. *)
Definition to_json_memory_read (p : MemoryRead) : cpp json :=
  let j := ToBasePacket (mr_packet p) in
  let* (params, j) := operator_index j (str "params") in
  let* params := assign_index params (str "length") (JUnsigned (mr_length p)) in
  let* params := assign_index params (str "address") (JUnsigned (mr_address p)) in
  Ret j.

(** [from_json(const json& j, MemoryRead& p)]. *)
Definition from_json_memory_read (j : json) : cpp MemoryRead :=
  let* (base, params) := FromBasePacket j in
  let* jaddress := at_key params (str "address") in
  let* address := from_json_number_unsigned jaddress in
  let* jlength := at_key params (str "length") in
  let* len := from_json_number_unsigned jlength in
  Ret (mk_memory_read base address len).

(** [to_json(json& j, const AnyPacket& p)], on the [j] it is given. *)
Definition to_json_any (j : json) (p : AnyPacket) : cpp json :=
  match which p, p with
  | PacketList.MemoryWrite, AMemoryWrite a => to_json_memory_write a
  | _, _ => Ret j
  end.
End Req.

(** ** Responses *)

Module Res.
Import Response.

(** [FromBasePacket(j, p)]: the error is read and dropped; [p] keeps its own. *)
Definition FromBasePacket (j : json) (p : Packet) : cpp Packet :=
  let* jid := at_key j (str "id") in
  let* i := from_json_arithmetic 32 jid in
  let* err := at_key j (str "error") in
  let* jcode := at_key err (str "code") in
  let* _ := from_json_arithmetic 32 jcode in
  let* jmessage := at_key err (str "message") in
  let* _ := from_json_string jmessage in
  Ret (mk_packet i (error p)).

(** [ToBasePacket(p)]. *)
Definition ToBasePacket (p : Packet) : json :=
  basic_json_init
  [pair_init (str "jsonrpc") (JString (str "2.0")); pair_init (str "id") (JUnsigned (id p))].

(** [EncodeIfError(json& j, const Packet* p)]. *)
Definition EncodeIfError (j : json) (p : Packet) : cpp (bool * json) :=
  if code (error p) =? error_code None_ then Ret (false, j)
  else
    let* j := assign_index j (str "error")
    (basic_json_init [pair_init (str "code") (JUnsigned (code (error p)));
                    pair_init (str "message") (JString (message (error p)))]) in
    Ret (true, j).

(** [to_json(json& j, const MemoryRead& p)]. *)
Definition to_json_memory_read (p : MemoryRead) : cpp json :=
  let j := ToBasePacket (mr_packet p) in
  let* (is_error, j) := EncodeIfError j (mr_packet p) in
  if is_error then Ret j
  else
    let* data := EncodeBase64 (result p) in
    assign_index j (str "result") (JString data).

(** [from_json(const json& j, MemoryRead& p)]. *)
Definition from_json_memory_read (j : json) (p : MemoryRead) : cpp MemoryRead :=
  let* base := FromBasePacket j (mr_packet p) in
  let* params := at_key j (str "params") in
  let* jdata := at_key params (str "data") in
  let* s := from_json_string jdata in
  let* data := DecodeBase64 s in
  Ret (mk_memory_read base data).

(** [to_json(json& j, const MemoryWrite& p)]. *)
Definition to_json_memory_write (p : MemoryWrite) : cpp json :=
  let j := ToBasePacket (mw_packet p) in
  let* (is_error, j) := EncodeIfError j (mw_packet p) in
  if is_error then Ret j else assign_index j (str "result") (JString []).

(** [from_json(const json& j, MemoryWrite& p)]. *)
Definition from_json_memory_write (j : json) (p : MemoryWrite) : cpp MemoryWrite :=
  let* base := FromBasePacket j (mw_packet p) in
  Ret (mk_memory_write base).

(** [to_json(json& j, const AnyPacket& packet)], on the [j] it is given. *)
Definition to_json_any (j : json) (packet : AnyPacket) : cpp json :=
  match packet with
  | AMemoryWrite p => to_json_memory_write p
  | AMemoryRead p => to_json_memory_read p
  | APacket _ => Ret j
  end.
End Res.

(** [json j = packet;]: a null value that [to_json] fills in. *)
Definition response_to_json (packet : Response.AnyPacket) : cpp json := Res.to_json_any JNull packet.

(** The part of [JSONSerializer::DeserializeRequest] after [json::parse]. *)
Definition request_of_json (j : json) : cpp Request.AnyPacket :=
  let* version := at_key j (str "jsonrpc") in
  if negb (json_eqb version (JString (str "2.0"))) then
    Throw (version_mismatch_error (str "Version mismatch."))
  else
    let* jmethod := at_key j (str "method") in
    let m := method_from_json jmethod in
    if bool_decide (m = Request.Method.MemoryWrite) then
      let* a := Req.from_json_memory_write j in Ret (Request.AMemoryWrite a)
    else if bool_decide (m = Request.Method.MemoryRead) then
      let* a := Req.from_json_memory_read j in Ret (Request.AMemoryRead a)
    else Throw (invalid_method_error (str "Invalid method")).

(** [MsgPackSerializer::SerializeResponse] and
    [MsgPackSerializer::DeserializeRequest]; the latter returns a value-initialized
    variant, whose [Packet] has indeterminate members. *)
Definition MsgPack_SerializeResponse (packet : Response.AnyPacket) : cpp bytes := Ret [].
Definition MsgPack_DeserializeRequest (indeterminate : Request.Packet) (raw : bytes)
    : cpp Request.AnyPacket := Ret (Request.APacket indeterminate).

(** ** The enumeration tables *)

Lemma find_enum_none {E : Type} (l : list (E * json)) j :
  (forall p, In p l -> json_eqb (snd p) j = false) -> find (fun p => json_eqb (snd p) j) l = None.
Proof.
  induction l as [|p l IH]; cbn; [done|]. intros H. rewrite (H p) by (by left). eauto.
Qed.

(** A value that is none of a table's strings is read as the first enumerator. *)
Lemma enum_from_json_default {E : Type} `{EqDecision E} (rest : list (E * json)) first j :
  (forall p, In p (first :: rest) -> exists s, snd p = JString s /\ j <> JString s) ->
  enum_from_json rest first j = fst first.
Proof.
  intros Hj. unfold enum_from_json. rewrite find_enum_none; [done|].
  intros p Hp. destruct (Hj p Hp) as (s & -> & Hne). apply not_true_iff_false.
  by rewrite string_json_eqb.
Qed.

(** Unfold the membership in a concrete table. *)
Ltac in_table :=
  intros ? Hin; cbn in Hin; repeat destruct Hin as [<-|Hin]; try done; eexists; (split; [reflexivity|]).

(** Each enumerator is read back from the string it is written as, and any
    other value, of any type, is read as the first enumerator: the conversions
    never reject a header field. *)
Theorem enum_tables :
  (forall t, timing_from_json (timing_to_json t) = t) /\
  (forall m, method_from_json (method_to_json m) = m) /\
  (forall s, sync_from_json (sync_to_json s) = s) /\
  (forall f, function_from_json (function_to_json f) = f) /\
  (forall c, command_type_from_json (command_type_to_json c) = c) /\
  (forall j, (forall t, j <> timing_to_json t) -> timing_from_json j = Request.Immediate) /\
  (forall j, (forall m, j <> method_to_json m) -> method_from_json j = Request.Method.Command) /\
  (forall j, (forall s, j <> sync_to_json s) -> sync_from_json j = Request.Blocking) /\
  (forall j, (forall f, j <> function_to_json f) -> function_from_json j = Request.Once) /\
  (forall j, (forall c, j <> command_type_to_json c) ->
     command_type_from_json j = Request.CommandType.Continue).
Proof.
  repeat split.
  1-5: by intros [].
  all: intros j H; apply enum_from_json_default; in_table.
  all: match goal with |- _ <> JString ?s =>
         first [ exact (H (timing_from_json (JString s))) | exact (H (method_from_json (JString s)))
               | exact (H (sync_from_json (JString s))) | exact (H (function_from_json (JString s)))
               | exact (H (command_type_from_json (JString s))) ]
       end.
Qed.

Lemma enum_tables_witness :
  (forall t, JString (str "gpu") <> timing_to_json t) /\
  timing_from_json (JString (str "gpu")) = Request.Immediate.
Proof.
  assert (forall t, JString (str "gpu") <> timing_to_json t) as H by (by intros []).
  split; [exact H|].
  destruct enum_tables as (_ & _ & _ & _ & _ & Ht & _). exact (Ht _ H).
Defined.

(** ** Requests *)

(** The parameters every request has, and what they are read as. *)
Record header (j : json) (i : Z) (m : Request.Method.t) (t : Request.Timing) (s : Request.Sync)
    (f : Request.Function_) (params : json) : Prop := mk_header {
      header_version : field j (str "jsonrpc") (JString (str "2.0"));
      header_id : field j (str "id") (JUnsigned i);
      header_method : field j (str "method") (method_to_json m);
      header_params : field j (str "params") params;
      header_timing : field params (str "timing") (timing_to_json t);
      header_sync : field params (str "sync") (sync_to_json s);
      header_function : field params (str "function") (function_to_json f)
    }.

Lemma timing_roundtrip t : timing_from_json (timing_to_json t) = t. Proof. by destruct t. Qed.
Lemma method_roundtrip m : method_from_json (method_to_json m) = m. Proof. by destruct m. Qed.
Lemma sync_roundtrip s : sync_from_json (sync_to_json s) = s. Proof. by destruct s. Qed.
Lemma function_roundtrip f : function_from_json (function_to_json f) = f. Proof. by destruct f. Qed.

#[export] Hint Rewrite timing_roundtrip method_roundtrip sync_roundtrip function_roundtrip : emurpc.

(** Read the fields of the context. *)
Ltac fields :=
  repeat match goal with
  | H : field ?j ?k _ |- context [at_key ?j ?k] => rewrite H; cbn [obind]
  end.

Lemma FromBasePacket_header j i m t s f params :
  header j i m t s f params ->
  Req.FromBasePacket j = Ret (Request.mk_packet (wrap 32 i) m t s f, params).
Proof.
  intros []. unfold Req.FromBasePacket. fields. cbn [from_json_arithmetic obind]. fields.
  by autorewrite with emurpc.
Qed.

Lemma request_of_json_header j i m t s f params :
  header j i m t s f params ->
  request_of_json j =
    if bool_decide (m = Request.Method.MemoryWrite) then
      let* a := Req.from_json_memory_write j in Ret (Request.AMemoryWrite a)
    else if bool_decide (m = Request.Method.MemoryRead) then
      let* a := Req.from_json_memory_read j in Ret (Request.AMemoryRead a)
    else Throw (invalid_method_error (str "Invalid method")).
Proof.
  intros []. unfold request_of_json. fields.
  change (json_eqb _ _) with true. cbn [negb]. fields. by autorewrite with emurpc.
Qed.

Lemma read_request_of_json j params i t s f address len :
  header j i Request.Method.MemoryRead t s f params ->
  field params (str "address") (JUnsigned address) ->
  field params (str "length") (JUnsigned len) -> u64 address -> u64 len ->
  request_of_json j =
    Ret (Request.AMemoryRead (Request.new_memory_read (wrap 32 i) t s f address len)).
Proof.
  intros Hh Ha Hl Ra Rl. rewrite (request_of_json_header _ _ _ _ _ _ _ Hh).
  rewrite bool_decide_false, bool_decide_true by done.
  unfold Req.from_json_memory_read. rewrite (FromBasePacket_header _ _ _ _ _ _ _ Hh). cbn [obind].
  fields. unfold from_json_number_unsigned. cbn [get_arithmetic_value obind]. fields.
  cbn [get_arithmetic_value obind]. by rewrite !(wrap_small 64).
Qed.

(** A request with the members of a memory_read is deserialized to that
    packet, whatever other members it has; the id keeps its low 32 bits. *)
Theorem request_of_json_memory_read j params i t s f address len :
  header j i Request.Method.MemoryRead t s f params ->
  field params (str "address") (JUnsigned address) ->
  field params (str "length") (JUnsigned len) -> u64 address -> u64 len ->
  request_of_json j =
    Ret (Request.AMemoryRead (Request.new_memory_read (wrap 32 i) t s f address len)).
Proof. apply read_request_of_json. Qed.

(** A request as a client sends it, with an id that does not fit 32 bits. *)
Definition sample_read_params : json :=
  JObject [(str "address", JUnsigned 4096); (str "function", JString (str "callback"));
           (str "length", JUnsigned 64); (str "sync", JString (str "nonblocking"));
           (str "timing", JString (str "frame_end"))].
Definition sample_read : json :=
  JObject [(str "id", JUnsigned (2 ^ 32 + 5)); (str "jsonrpc", JString (str "2.0"));
           (str "method", JString (str "memory_read")); (str "params", sample_read_params)].

Lemma request_of_json_memory_read_witness :
  request_of_json sample_read =
    Ret (Request.AMemoryRead (Request.new_memory_read 5 Request.FrameEnd Request.NonBlocking
           Request.Callback 4096 64)).
Proof.
  apply (request_of_json_memory_read sample_read sample_read_params (2 ^ 32 + 5) Request.FrameEnd
           Request.NonBlocking Request.Callback 4096 64);
    [split; reflexivity|reflexivity|reflexivity|done|done].
Defined.

Lemma write_request_of_json j params i t s f address v text :
  header j i Request.Method.MemoryWrite t s f params ->
  field params (str "address") (JUnsigned address) -> u64 address ->
  field params (str "data") (JString text) -> Forall u8 v -> EncodeBase64 v = Ret text ->
  request_of_json j =
    Ret (Request.AMemoryWrite (Request.new_memory_write (wrap 32 i) t s f address
           (v ++ repeat 0 (pad_count (length v))))).
Proof.
  intros Hh Ha Ra Hd Hv Ht. rewrite (request_of_json_header _ _ _ _ _ _ _ Hh).
  rewrite bool_decide_true by done.
  unfold Req.from_json_memory_write. rewrite (FromBasePacket_header _ _ _ _ _ _ _ Hh). cbn [obind].
  fields. cbn [from_json_string obind].
  rewrite EncodeBase64_eq in Ht by done. injection Ht as <-.
  rewrite DecodeBase64_eq, decode_rfc4648 by done. cbn [obind]. fields.
  unfold from_json_number_unsigned. cbn [get_arithmetic_value obind]. by rewrite (wrap_small 64).
Qed.

(** A request with the members of a memory_write is deserialized to that
    packet; data sent as the base64 text of [v] arrives as [v] with the zero
    bytes its padding decodes to. *)
Theorem request_of_json_memory_write j params i t s f address v text :
  header j i Request.Method.MemoryWrite t s f params ->
  field params (str "address") (JUnsigned address) -> u64 address ->
  field params (str "data") (JString text) -> Forall u8 v -> EncodeBase64 v = Ret text ->
  request_of_json j =
    Ret (Request.AMemoryWrite (Request.new_memory_write (wrap 32 i) t s f address
           (v ++ repeat 0 (pad_count (length v))))).
Proof. apply write_request_of_json. Qed.

Definition sample_write_params : json :=
  JObject [(str "address", JUnsigned 16); (str "data", JString (str "AQI="));
           (str "function", JString (str "once")); (str "sync", JString (str "blocking"));
           (str "timing", JString (str "immediate"))].
Definition sample_write : json :=
  JObject [(str "id", JUnsigned 1); (str "jsonrpc", JString (str "2.0"));
           (str "method", JString (str "memory_write")); (str "params", sample_write_params)].

Lemma request_of_json_memory_write_witness :
  request_of_json sample_write =
    Ret (Request.AMemoryWrite (Request.new_memory_write 1 Request.Immediate Request.Blocking
           Request.Once 16 [1; 2; 0])).
Proof.
  apply (request_of_json_memory_write sample_write sample_write_params 1 Request.Immediate Request.Blocking Request.Once 16 [1; 2] (str "AQI="));
    [split; reflexivity|reflexivity|done|reflexivity|bytes_ok|reflexivity].
Defined.

(** ** What a request can be deserialized to *)

(** The exceptions of the members of a request. *)
Definition request_exn (e : exn) : Prop :=
  match e with
  | out_of_range 403 _ | type_error 304 _ | type_error 302 _ => True
  | dataflow_exception invalid_base64_character => True
  | version_mismatch_error _ | invalid_method_error _ => True
  | _ => False
  end.

(** No member of the value, however deep, is a floating-point number. *)
Fixpoint no_floats (j : json) : bool :=
  match j with
  | JFloat _ => false
  | JArray a => (fix all (a : list json) := match a with [] => true | x :: a => no_floats x && all a end) a
  | JObject m =>
      (fix all (m : list (bytes * json)) :=
         match m with [] => true | (_, x) :: m => no_floats x && all m end) m
  | _ => true
  end.

(** A computation returns values with [P] or throws one of the exceptions. *)
Definition yields {A} (P : A -> Prop) (m : cpp A) : Prop :=
  match m with Ret a => P a | Throw e => request_exn e | Undef => False end.

Lemma yields_bind {A B} (P : A -> Prop) (Q : B -> Prop) (m : cpp A) (f : A -> cpp B) :
  yields P m -> (forall a, P a -> yields Q (f a)) -> yields Q (obind m f).
Proof. destruct m; cbn; auto. Qed.

Lemma at_key_yields j key : no_floats j = true -> yields (fun v => no_floats v = true) (at_key j key).
Proof.
  destruct j as [|m| | | | | | |]; cbn; try done.
  induction m as [|[k v] m IH]; cbn; [done|]. intros H. bool_prop.
  destruct (key_eqb key k); cbn; auto.
Qed.

Lemma from_json_arithmetic_yields w j :
  0 <= w -> 1 < 2 ^ w -> no_floats j = true -> yields (in_width w) (from_json_arithmetic w j).
Proof.
  intros Hw H1. unfold in_width.
  destruct j; cbn; try done; intros _; try by apply wrap_range. destruct b; lia.
Qed.

Lemma from_json_number_unsigned_yields j :
  no_floats j = true -> yields u64 (from_json_number_unsigned j).
Proof. destruct j; cbn; try done; intros _; by apply wrap_range. Qed.

Lemma from_json_string_yields j : yields (fun _ => True) (from_json_string j).
Proof. by destruct j. Qed.

Lemma DecodeBase64_yields s : yields (Forall u8) (DecodeBase64 s).
Proof.
  rewrite DecodeBase64_eq. pose proof (decode_spec_cases s) as H.
  destruct (decode_spec s); cbn; try done. by subst.
Qed.

#[export] Hint Resolve at_key_yields from_json_arithmetic_yields from_json_number_unsigned_yields
  from_json_string_yields DecodeBase64_yields : emurpc.

(** Step through a sequence of reads. *)
Ltac reads :=
  repeat (eapply yields_bind; [by eauto with emurpc|]; intros ? ?; cbv beta iota zeta).

Lemma FromBasePacket_yields j :
  no_floats j = true ->
  yields (fun '(p, params) => Request.packet_wf p /\ no_floats params = true /\
            forall jm, field j (str "method") jm -> Request.method p = method_from_json jm)
         (Req.FromBasePacket j).
Proof.
  intros Hj. unfold Req.FromBasePacket.
  eapply yields_bind; [by eauto with emurpc|]. intros jid Hid. cbv beta.
  eapply yields_bind; [by apply (from_json_arithmetic_yields 32)|]. intros i Hi. cbv beta.
  destruct (at_key_cases j (str "method")) as [[jm Hm]|[Hm|Hm]]; rewrite Hm; try done.
  cbn [obind]. reads. split; [done|]. split; [done|]. intros jm' Hm'. unfold field in *.
  rewrite Hm in Hm'. by injection Hm' as ->.
Qed.

(** A packet the server may act on: its class is the one its method field says,
    and its members fit their types. *)
Definition packet_ok (p : Request.AnyPacket) : Prop :=
  Request.method_matches p = true /\ Request.any_packet_wf p.

Lemma from_json_memory_write_yields j jm :
  no_floats j = true -> field j (str "method") jm ->
  method_from_json jm = Request.Method.MemoryWrite ->
  yields (fun a => packet_ok (Request.AMemoryWrite a)) (Req.from_json_memory_write j).
Proof.
  intros Hj Hm Em. unfold Req.from_json_memory_write.
  eapply yields_bind; [by apply FromBasePacket_yields|]. intros [p params] (Hp & Hf & Hmp). reads.
  unfold packet_ok, Request.method_matches, Request.any_packet_wf. cbn.
  by rewrite (Hmp jm Hm), Em.
Qed.

Lemma from_json_memory_read_yields j jm :
  no_floats j = true -> field j (str "method") jm ->
  method_from_json jm = Request.Method.MemoryRead ->
  yields (fun a => packet_ok (Request.AMemoryRead a)) (Req.from_json_memory_read j).
Proof.
  intros Hj Hm Em. unfold Req.from_json_memory_read.
  eapply yields_bind; [by apply FromBasePacket_yields|]. intros [p params] (Hp & Hf & Hmp). reads.
  unfold packet_ok, Request.method_matches, Request.any_packet_wf. cbn.
  by rewrite (Hmp jm Hm), Em.
Qed.

(** Reading a request: a packet or one of the exceptions. *)
Lemma request_of_json_yields j : no_floats j = true -> yields packet_ok (request_of_json j).
Proof.
  intros Hj. unfold request_of_json. reads. case_cond; [done|].
  destruct (at_key_cases j (str "method")) as [[jm Hm]|[Hm|Hm]]; rewrite Hm; try done.
  cbn [obind]. cbv zeta. case_bool_decide; [|case_bool_decide; [|done]].
  - eapply yields_bind; [by eapply from_json_memory_write_yields|done].
  - eapply yields_bind; [by eapply from_json_memory_read_yields|done].
Qed.



(** ** Responses *)

(** The JSON value of a response. A read's has the base64 text of its
    result, a write's an empty result; either has the error instead when its
    error code is not 0; and the value of a plain [Packet], the only class that
    carries a predefined error, is null. *)
Theorem response_to_json_shape :
  (forall i v, Forall u8 v ->
     response_to_json (Response.AMemoryRead (Response.new_memory_read i v)) =
       Ret (JObject [(str "id", JUnsigned i); (str "jsonrpc", JString (str "2.0"));
                     (str "result", JString (rfc4648_encode v))])) /\
  (forall i,
     response_to_json (Response.AMemoryWrite (Response.new_memory_write i)) =
       Ret (JObject [(str "id", JUnsigned i); (str "jsonrpc", JString (str "2.0"));
                     (str "result", JString [])])) /\
  (forall i c msg v, c <> 0 ->
     let answer := Ret (JObject [(str "error", JObject [(str "code", JUnsigned c); (str "message", JString msg)]);
                                 (str "id", JUnsigned i); (str "jsonrpc", JString (str "2.0"))]) in
     let base := Response.mk_packet i (Response.mk_error c msg) in
     response_to_json (Response.AMemoryRead (Response.mk_memory_read base v)) = answer /\
     response_to_json (Response.AMemoryWrite (Response.mk_memory_write base)) = answer) /\
  (forall p, response_to_json (Response.APacket p) = Ret JNull).
Proof.
  split; [|split; [done|split; [|done]]].
  - intros i v Hv. unfold response_to_json, Res.to_json_any, Res.to_json_memory_read. cbn [obind].
    rewrite EncodeBase64_eq by done. reflexivity.
  - intros i c msg v Hc. apply Z.eqb_neq in Hc.
    unfold response_to_json, Res.to_json_any, Res.to_json_memory_read, Res.to_json_memory_write,
      Res.EncodeIfError.
    cbn [Response.error Response.code Response.mr_packet Response.mw_packet].
    change (Response.error_code Response.None_) with 0. rewrite Hc. done.
Qed.

Lemma response_to_json_shape_witness :
  response_to_json (Response.AMemoryRead (Response.new_memory_read 5 [1; 2])) =
    Ret (JObject [(str "id", JUnsigned 5); (str "jsonrpc", JString (str "2.0"));
                  (str "result", JString (str "AQI="))]).
Proof.
  apply (proj1 response_to_json_shape 5 [1; 2]). bytes_ok.
Defined.

(** A request object is not read back from the JSON value it is written
    as: the address, length and data go to a copy of the params member, and the
    reader throws out_of_range 403 on the first of them it looks for. *)
Theorem request_to_json_drops_params :
  (forall p, Forall u8 (Request.mw_data p) ->
     (let* j := Req.to_json_memory_write p in Req.from_json_memory_write j) =
       Throw (create_out_of_range 403 (str "key 'data' not found"))) /\
  (forall p,
     (let* j := Req.to_json_memory_read p in Req.from_json_memory_read j) =
       Throw (create_out_of_range 403 (str "key 'address' not found"))).
Proof.
  split.
  - intros [[i m t s f] a v] Hv. cbn in Hv. unfold Req.to_json_memory_write.
    cbn [Request.mw_data]. rewrite EncodeBase64_eq by done. by destruct m, t, s, f.
  - intros [[i m t s f] a l]. by destruct m, t, s, f.
Qed.

Lemma request_to_json_drops_params_witness :
  Forall u8 [1; 2] /\
  (let* j := Req.to_json_memory_write (Request.new_memory_write 1 Request.Immediate Request.Blocking
               Request.Once 16 [1; 2]) in Req.from_json_memory_write j) =
    Throw (create_out_of_range 403 (str "key 'data' not found")).
Proof.
  assert (Forall u8 [1; 2]) as H by bytes_ok.
  split; [exact H|]. by apply (proj1 request_to_json_drops_params).
Defined.

(** A response is not read back from the JSON value it is written as. The
    readers want an error member, which only error responses have; the reader of
    a read response then wants params, which no response has; the reader of a
    write response leaves the error of the object it fills in. *)
Theorem response_not_read_back :
  (forall i v p, Forall u8 v ->
     (let* j := Res.to_json_memory_read (Response.new_memory_read i v) in Res.from_json_memory_read j p) =
       Throw (create_out_of_range 403 (str "key 'error' not found"))) /\
  (forall i p,
     (let* j := Res.to_json_memory_write (Response.new_memory_write i) in Res.from_json_memory_write j p) =
       Throw (create_out_of_range 403 (str "key 'error' not found"))) /\
  (forall i c msg v p p', c <> 0 -> u32 i ->
     let base := Response.mk_packet i (Response.mk_error c msg) in
     (let* j := Res.to_json_memory_read (Response.mk_memory_read base v) in Res.from_json_memory_read j p) =
       Throw (create_out_of_range 403 (str "key 'params' not found")) /\
     (let* j := Res.to_json_memory_write (Response.mk_memory_write base) in Res.from_json_memory_write j p') =
       Ret (Response.mk_memory_write
              (Response.mk_packet i (Response.error (Response.mw_packet p'))))).
Proof.
  split; [|split; [done|]].
  - intros i v p Hv. unfold Res.to_json_memory_read. cbn [obind].
    rewrite EncodeBase64_eq by done. reflexivity.
  - intros i c msg v p p' Hc Hi. apply Z.eqb_neq in Hc.
    unfold Res.to_json_memory_read, Res.to_json_memory_write, Res.EncodeIfError.
    cbn [Response.error Response.code Response.mr_packet Response.mw_packet].
    change (Response.error_code Response.None_) with 0. rewrite Hc. split; [done|].
    rewrite <- (wrap_small 32 i Hi) at 2. done.
Qed.

Lemma response_not_read_back_witness :
  (let* j := Res.to_json_memory_read (Response.new_memory_read 5 [1; 2]) in
    Res.from_json_memory_read j (Response.new_memory_read 0 [])) =
    Throw (create_out_of_range 403 (str "key 'error' not found")).
Proof. apply (proj1 response_not_read_back). bytes_ok. Defined.
