(* ===== verification/RpcServer.v ===== *)
(** * The websocket server

    [Session], [Listener] and [RPCServer] of src/src/rpc_server.cpp and
    rpc_server.h. The asynchronous operations of asio and beast are the
    environment: a handler that starts one leaves it in the [pending] list of its
    session (or sets [accepting]), and an [io_event] completes one, which calls
    the handler that was bound to it.

    A session object lives as long as a pending operation holds its
    [shared_from_this()] pointer; [sessions] holds weak pointers. *)

From Stdlib Require Import ZArith Lia String Ascii.
From stdpp Require Import base list gmap.
From S2P Require Import Prelude Exceptions RingBuffer MultiBuffer Protocol.

(** [ClientRequest] and [ClientResponse]: a client id and a packet. *)
Definition ClientRequest : Type := Z * Request.AnyPacket.
Definition ClientResponse : Type := Z * Response.AnyPacket.

(** [class ProtocolSerializer]. *)
Class ProtocolSerializer := {
  SerializeResponse : Response.AnyPacket -> cpp bytes;
  DeserializeRequest : bytes -> cpp Request.AnyPacket
}.

(** An asynchronous operation of a session that has not completed; a write with
    the bytes of the buffers it was given. *)
Inductive async_op :=
  | AsyncAccept
  | AsyncRead
  | AsyncWrite (data : bytes).

#[export] Instance async_op_eq_dec : EqDecision async_op.
Proof. solve_decision. Defined.

Section Server.
Context {Q : Type -> Type} `{SQ : !SpscQueue Q 1024}.
Context {B : Type} `{DB : !DynamicBuffer B}.
Context `{PS : !ProtocolSerializer}.

(** ** Session *)

Record Session := mk_session {
  session_id : Z;
  read_buffer : B;
  write_buffer : B;
  send_data : bytes;
  pending : list async_op
}.

(** [Session(id, client_emu, socket)]. *)
Definition new_session (i : Z) : Session := mk_session i db_new db_new [] [].

Definition start_op (op : async_op) (s : Session) : Session :=
  mk_session (session_id s) (read_buffer s) (write_buffer s) (send_data s) (pending s ++ [op]).

(** [Session::Run]. *)
Definition Run (s : Session) : Session := start_op AsyncAccept s.

(** [Session::Send]. *)
Definition Send (packet : Response.AnyPacket) (s : Session) : cpp Session :=
  let* data := SerializeResponse packet in
  let* b := db_prepare (length data) (write_buffer s) in
  let (n, b) := db_write data b in
  let b := db_commit n b in
  let* sent := db_copy_out b in
  Ret (start_op (AsyncWrite sent) (mk_session (session_id s) (read_buffer s) b data (pending s))).

(** [Session::DoRead]. *)
Definition DoRead (s : Session) : Session := start_op AsyncRead s.

(** [Session::OnAccept]: the error code is not looked at. *)
Definition OnAccept (ec : bool) (s : Session) : Session := DoRead s.

(** [Session::OnWrite]. *)
Definition OnWrite (ec : bool) (bytes_transferred : nat) (s : Session) : Session :=
  mk_session (session_id s) (read_buffer s) (db_consume (db_size (write_buffer s)) (write_buffer s))
  (send_data s) (pending s).

(** [Session::OnRead]. *)
Definition OnRead (ec : bool) (bytes_transferred : nat) (s : Session) (client_emu : Q ClientRequest)
  : cpp (Session * Q ClientRequest) :=
  if (bytes_transferred =? 0)%nat then Ret (DoRead s, client_emu)
  else
    let* bytes := db_copy_out (read_buffer s) in
    let s := mk_session (session_id s) (db_consume (db_size (read_buffer s)) (read_buffer s))
           (write_buffer s) (send_data s) (pending s) in
    let* packet := DeserializeRequest bytes in
    let (_, client_emu) := sq_push (session_id s, packet) client_emu in
    Ret (DoRead s, client_emu).

(** What [async_read] does to the buffer before its handler runs: the message
    is appended to it. *)
Definition receive (msg : bytes) (s : Session) : cpp Session :=
  let* b := db_prepare (length msg) (read_buffer s) in
  let (n, b) := db_write msg b in
  Ret (mk_session (session_id s) (db_commit n b) (write_buffer s) (send_data s) (pending s)).

(** ** Listener *)

Record Listener := mk_listener {
  is_open : bool;
  accepting : bool;
  next_client_id : Z;
  sessions : gmap Z (option nat);
  objects : list Session
}.

(** [Listener(client_emu, ioc, endpoint)]: the acceptor is open if [open]
    succeeded; the error codes of [open], [set_option], [bind] and [listen]
    are not looked at. *)
Definition new_listener (open_ok : bool) : Listener := mk_listener open_ok false 0 ∅ [].

(** [Listener::DoAccept]. *)
Definition DoAccept (l : Listener) : Listener :=
  mk_listener (is_open l) true (next_client_id l) (sessions l) (objects l).

(** [Listener::Run]. *)
Definition ListenerRun (l : Listener) : Listener := if negb (is_open l) then l else DoAccept l.

(** [Listener::OnAccept]. *)
Definition ListenerOnAccept (ec : bool) (l : Listener) : Listener :=
  let l :=
    if ec then l
  else
    let sess := new_session (next_client_id l) in
    mk_listener (is_open l) (accepting l) (wrap 32 (next_client_id l + 1))
    (<[next_client_id l := Some (length (objects l))]> (sessions l)) (objects l ++ [Run sess]) in
    DoAccept l.

(** [weak_ptr::lock]: the object, while an operation that owns it is pending. *)
Definition lock (p : option nat) (l : Listener) : option (nat * Session) :=
  match p with
  | Some i =>
      match objects l !! i with
      | Some s => if bool_decide (pending s = []) then None else Some (i, s)
      | None => None
      end
  | None => None
  end.

(** [Listener::Send]: [sessions[client_id]] creates a missing entry. *)
Definition ListenerSend (client_id : Z) (packet : Response.AnyPacket) (l : Listener) : cpp Listener :=
  let p := default None (sessions l !! client_id) in
  let l := mk_listener (is_open l) (accepting l) (next_client_id l) (<[client_id := p]> (sessions l)) (objects l) in
  match lock p l with
  | Some (i, s) =>
      let* s := Send packet s in
      Ret (mk_listener (is_open l) (accepting l) (next_client_id l) (sessions l) (<[i := s]> (objects l)))
  | None => Ret l
  end.

(** ** RPCServer *)

(** [RPCServer(client_emu, emu_client, hostname, port)] up to the start of
    [ioc->run()] in its thread. *)
Definition new_server (open_ok : bool) : Listener := ListenerRun (new_listener open_ok).

(** [RPCServer::SendResponse]. *)
Definition SendResponse (client_id : Z) (p : Response.AnyPacket) (l : Listener) : cpp Listener :=
  ListenerSend client_id p l.

(** The completion of one asynchronous operation, [ec] saying that it failed. *)
Inductive io_event :=
| EvAccept (ec : bool)
| EvHandshake (i : nat) (ec : bool)
| EvRead (i : nat) (ec : bool) (msg : bytes)
| EvWrite (i : nat) (ec : bool) (bytes_transferred : nat).

(** The session [i] without the first pending operation that satisfies [p]. *)
Fixpoint take_op (p : async_op -> bool) (ops : list async_op) : option (list async_op) :=
  match ops with
  | [] => None
  | op :: ops => if p op then Some ops else o ← take_op p ops; Some (op :: o)
  end.

Definition complete (p : async_op -> bool) (i : nat) (l : Listener) : option Session :=
  s ← objects l !! i;
  ops ← take_op p (pending s);
  Some (mk_session (session_id s) (read_buffer s) (write_buffer s) (send_data s) ops).

Definition set_session (i : nat) (s : Session) (l : Listener) : Listener :=
  mk_listener (is_open l) (accepting l) (next_client_id l) (sessions l) (<[i := s]> (objects l)).

Definition is_accept (op : async_op) : bool := match op with AsyncAccept => true | _ => false end.
Definition is_read (op : async_op) : bool := match op with AsyncRead => true | _ => false end.
Definition is_write (op : async_op) : bool := match op with AsyncWrite _ => true | _ => false end.

(** One turn of [ioc->run()]: [None] when no such operation is pending. *)
Definition run_one (ev : io_event) (l : Listener) (client_emu : Q ClientRequest)
  : option (cpp (Listener * Q ClientRequest)) :=
  match ev with
  | EvAccept ec =>
      if accepting l then
        Some (Ret (ListenerOnAccept ec
                 (mk_listener (is_open l) false (next_client_id l) (sessions l) (objects l)), client_emu))
      else None
  | EvHandshake i ec =>
      s ← complete is_accept i l;
      Some (Ret (set_session i (OnAccept ec s) l, client_emu))
  | EvRead i ec msg =>
      s ← complete is_read i l;
      Some (let* s := receive msg s in
        let* (s, client_emu) := OnRead ec (length msg) s client_emu in
        Ret (set_session i s l, client_emu))
  | EvWrite i ec n =>
      s ← complete is_write i l;
      Some (Ret (set_session i (OnWrite ec n s) l, client_emu))
  end.

(** ** Session behaviour *)

Lemma take_op_split p ops ops' : take_op p ops = Some ops' ->
  exists a op b, ops = a ++ op :: b /\ ops' = a ++ b /\ p op = true.
Proof.
  revert ops'. induction ops as [|op ops IH]; intros ops' E; cbn in E; [done|].
  destruct (p op) eqn:Ep; [injection E as <-; by exists [], op, ops|].
  destruct (take_op p ops) as [o|]; [|done]. cbn in E. injection E as <-.
  destruct (IH o eq_refl) as (a & op' & b & -> & -> & Hp). by exists (op :: a), op', b.
Qed.

(** A session with an empty read buffer reads a message. *)
Lemma receive_ok msg s : db_holds (read_buffer s) [] -> Z.of_nat (length msg) < 2 ^ 64 ->
  exists b, receive msg s = Ret (mk_session (session_id s) b (write_buffer s) (send_data s) (pending s)) /\
        db_holds b msg.
Proof.
  intros Hr Hl. unfold receive.
  destruct (db_write_holds _ _ msg (length msg) (length msg) Hr) as (b1 & b2 & -> & Hw & Hc); [cbn; lia|lia..|].
  cbn [obind]. rewrite Hw. cbn in Hc. rewrite firstn_all in Hc. eauto.
Qed.

(** [OnRead] on a message that the buffer holds. *)
Lemma OnRead_holds ec msg s q l :
  db_holds (read_buffer s) msg -> sq_holds q l ->
  match msg with
  | [] => OnRead ec (length msg) s q = Ret (DoRead s, q)
  | _ =>
      match DeserializeRequest msg with
      | Ret packet =>
          exists b q',
          OnRead ec (length msg) s q =
          Ret (DoRead (mk_session (session_id s) b (write_buffer s) (send_data s) (pending s)), q') /\
          db_holds b [] /\
          sq_holds q' (if (length l <? 1024)%nat then l ++ [(session_id s, packet)] else l)
      | Throw e => OnRead ec (length msg) s q = Throw e
      | Undef => OnRead ec (length msg) s q = Undef
      end
  end.
Proof.
  intros Hr Hq. unfold OnRead. destruct msg as [|x msg']; [done|].
  remember (x :: msg') as msg eqn:Em.
  replace (length msg =? 0)%nat with false by (by subst).
  rewrite (db_copy_out_holds _ _ Hr). cbn [obind].
  destruct (DeserializeRequest msg) as [packet|e|]; try done. cbn [obind session_id].
  destruct (sq_push_holds (session_id s, packet) q l Hq) as (q' & -> & Hq').
  do 2 eexists. split; [done|]. split; [|done].
  rewrite (db_size_holds _ _ Hr). rewrite <- (drop_all msg). by apply db_consume_holds.
Qed.

(** [Send] starts a write of everything the write buffer holds. *)
Lemma Send_holds packet s v data :
  db_holds (write_buffer s) v -> SerializeResponse packet = Ret data ->
  Z.of_nat (length v + length data) < 2 ^ 64 ->
  exists s', Send packet s = Ret s' /\ session_id s' = session_id s /\
  read_buffer s' = read_buffer s /\
  pending s' = pending s ++ [AsyncWrite (v ++ data)] /\ db_holds (write_buffer s') (v ++ data).
Proof.
  intros Hw Hs Hl. unfold Send. rewrite Hs. cbn [obind].
  destruct (db_write_holds _ _ data (length data) (length data) Hw Hl) as (b1 & b2 & -> & E & Hc); [lia..|].
  cbn [obind]. rewrite E. rewrite firstn_all in Hc. rewrite (db_copy_out_holds _ _ Hc). cbn [obind].
  eexists. repeat split; done.
Qed.

Lemma OnWrite_holds ec n s v : db_holds (write_buffer s) v -> db_holds (write_buffer (OnWrite ec n s)) [].
Proof.
  intros H. cbn. rewrite (db_size_holds _ _ H). rewrite <- (drop_all v). by apply db_consume_holds.
Qed.

Lemma Send_keeps packet s s' : Send packet s = Ret s' ->
  session_id s' = session_id s /\ read_buffer s' = read_buffer s /\
  exists sent, pending s' = pending s ++ [AsyncWrite sent].
Proof.
  unfold Send. intros H.
  destruct (SerializeResponse packet) as [data| |]; try done. cbn [obind] in H.
  destruct (db_prepare _ _) as [b| |]; try done. cbn [obind] in H.
  destruct (db_write data b) as [n b'].
  destruct (db_copy_out _) as [sent| |]; try done. cbn in H. injection H as <-. eauto.
Qed.

(** The completion of a read, by the message. *)
Lemma run_one_read i ec msg l s ops q reqs :
  objects l !! i = Some s -> take_op is_read (pending s) = Some ops ->
  db_holds (read_buffer s) [] -> Z.of_nat (length msg) < 2 ^ 64 -> sq_holds q reqs ->
  let out packet := if (length reqs <? 1024)%nat then reqs ++ [(session_id s, packet)] else reqs in
  let reads s' :=
    session_id s' = session_id s /\ pending s' = ops ++ [AsyncRead] /\
    write_buffer s' = write_buffer s /\ db_holds (read_buffer s') [] in
  match msg with
  | [] =>
      exists s', run_one (EvRead i ec msg) l q = Some (Ret (set_session i s' l, q)) /\ reads s'
  | _ =>
      match DeserializeRequest msg with
      | Ret packet =>
          exists s' q',
          run_one (EvRead i ec msg) l q = Some (Ret (set_session i s' l, q')) /\ reads s' /\
          sq_holds q' (out packet)
      | Throw e => run_one (EvRead i ec msg) l q = Some (Throw e)
      | Undef => run_one (EvRead i ec msg) l q = Some Undef
      end
  end.
Proof.
  intros Hi Ho Hr Hl Hq. cbv zeta. cbn [run_one]. unfold complete. rewrite Hi. cbn. rewrite Ho. cbn.
  set (s0 := mk_session _ _ _ _ ops).
  destruct (receive_ok msg s0 Hr Hl) as (b & -> & Hb). cbn [obind].
  match goal with |- context [OnRead ec _ ?x q] => set (s1 := x) end.
  pose proof (OnRead_holds ec msg s1 q reqs Hb Hq) as H.
  destruct msg as [|x msg]; [rewrite H; cbn; eauto 10|].
  destruct (DeserializeRequest (x :: msg)); [|by rewrite H..].
  destruct H as (b' & q' & -> & Hb' & Hq'). cbn [obind]. eauto 10.
Qed.

(** C34: what a session does with a message. An empty one only starts the next
    read. One the serializer rejects makes the handler throw, so that
    [ioc->run()] throws in the thread of the server. Otherwise the packet goes
    to the end of the request queue with the id of the client, unless the
    queue is full, when it is dropped; and the next read is started. *)
Theorem OnRead_spec i ec msg l s ops q reqs :
  objects l !! i = Some s -> take_op is_read (pending s) = Some ops ->
  db_holds (read_buffer s) [] -> Z.of_nat (length msg) < 2 ^ 64 -> sq_holds q reqs ->
  let out packet := if (length reqs <? 1024)%nat then reqs ++ [(session_id s, packet)] else reqs in
  let reads s' :=
    session_id s' = session_id s /\ pending s' = ops ++ [AsyncRead] /\
    write_buffer s' = write_buffer s /\ db_holds (read_buffer s') [] in
  match msg with
  | [] =>
      exists s', run_one (EvRead i ec msg) l q = Some (Ret (set_session i s' l, q)) /\ reads s'
  | _ =>
      match DeserializeRequest msg with
      | Ret packet =>
          exists s' q',
          run_one (EvRead i ec msg) l q = Some (Ret (set_session i s' l, q')) /\ reads s' /\
          sq_holds q' (out packet)
      | Throw e => run_one (EvRead i ec msg) l q = Some (Throw e)
      | Undef => run_one (EvRead i ec msg) l q = Some Undef
      end
  end.
Proof. apply run_one_read. Qed.

(** A response is sent as the one message of its write only if the writes
    before it have completed. A second [Send] before the first write has
    completed starts a write of both responses, and the completion of the
    first write empties the buffer that the second still sends from. *)
Theorem Send_frames p1 p2 s d1 d2 :
  db_holds (write_buffer s) [] -> SerializeResponse p1 = Ret d1 -> SerializeResponse p2 = Ret d2 ->
  Z.of_nat (length d1 + length d2) < 2 ^ 64 ->
  exists s1, Send p1 s = Ret s1 /\ pending s1 = pending s ++ [AsyncWrite d1] /\
  (forall ec n, exists s2, Send p2 (OnWrite ec n s1) = Ret s2 /\
    pending s2 = pending s1 ++ [AsyncWrite d2]) /\
  (exists s2, Send p2 s1 = Ret s2 /\ pending s2 = pending s1 ++ [AsyncWrite (d1 ++ d2)] /\
    forall ec n, db_holds (write_buffer (OnWrite ec n s2)) []).
Proof.
  intros Hw H1 H2 Hl.
  destruct (Send_holds p1 s [] d1 Hw H1) as (s1 & E1 & Ei & Er & Ep & Hw1); [cbn; lia|]. cbn in Ep, Hw1.
  exists s1. split; [done|]. split; [done|]. split.
  - intros ec n. pose proof (OnWrite_holds ec n s1 d1 Hw1) as Hw0.
    destruct (Send_holds p2 _ [] d2 Hw0 H2) as (s2 & E2 & _ & _ & Ep2 & _); [cbn; lia|]. eauto.
  - destruct (Send_holds p2 s1 d1 d2 Hw1 H2 Hl) as (s2 & E2 & _ & _ & Ep2 & Hw2).
    exists s2. split; [done|]. split; [done|]. intros ec n. by eapply OnWrite_holds.
Qed.

(** ** Reachable states *)

(** The operation of a session that is not a write. *)
Definition is_input (op : async_op) : bool := negb (is_write op).

(** Every accepted client has its session: the map takes an id to the last
    session created with it, and each session waits for its handshake or a
    message, with nothing unread in its buffer. *)
Record server_inv (l : Listener) : Prop := mk_server_inv {
  inv_next : next_client_id l = wrap 32 (Z.of_nat (length (objects l)));
  inv_id : forall i s, objects l !! i = Some s -> session_id s = wrap 32 (Z.of_nat i);
  inv_input : forall i s, objects l !! i = Some s -> exists op, filter is_input (pending s) = [op];
  inv_read : forall i s, objects l !! i = Some s -> db_holds (read_buffer s) [];
  inv_map : forall k i, sessions l !! k = Some (Some i) ->
  (i < length (objects l))%nat /\ wrap 32 (Z.of_nat i) = k /\
  forall j, (i < j < length (objects l))%nat -> wrap 32 (Z.of_nat j) <> k;
  inv_mapped : forall i, (i < length (objects l))%nat ->
  exists j, sessions l !! wrap 32 (Z.of_nat i) = Some (Some j)
}.

Definition event_ok (ev : io_event) : Prop :=
  match ev with EvRead _ _ msg => Z.of_nat (length msg) < 2 ^ 64 | _ => True end.

(** The states the io thread and the calls of [SendResponse] lead to, whatever
    the request queue holds. *)
Inductive reachable : Listener -> Prop :=
| reachable_new open_ok : reachable (new_server open_ok)
| reachable_io l ev q reqs l' q' :
  reachable l -> event_ok ev -> sq_holds q reqs ->
  run_one ev l q = Some (Ret (l', q')) -> reachable l'
| reachable_send l k p l' : reachable l -> SendResponse k p l = Ret l' -> reachable l'.

Lemma new_server_inv open_ok : server_inv (new_server open_ok).
Proof.
  destruct open_ok; split; cbn; intros; try done;
    match goal with
    | H : [] !! _ = Some _ |- _ => by rewrite lookup_nil in H
    | H : ∅ !! _ = Some _ |- _ => by rewrite lookup_empty in H
    | _ => lia
    end.
Qed.

(** Only the sessions and the map matter to the invariant. *)
Lemma server_inv_same l l' :
  next_client_id l' = next_client_id l -> sessions l' = sessions l -> objects l' = objects l ->
  server_inv l -> server_inv l'.
Proof. intros E1 E2 E3 []. split; rewrite ?E1, ?E2, ?E3; done. Qed.

(** Replacing a session by one with the same id that still waits for input. *)
Lemma set_session_inv i s s' l :
  server_inv l -> objects l !! i = Some s -> session_id s' = session_id s ->
  (exists op, filter is_input (pending s') = [op]) -> db_holds (read_buffer s') [] ->
  server_inv (set_session i s' l).
Proof.
  intros [Hn Hid Hin Hr Hm Hmp] Hi E1 E2 E3.
  assert (forall j t, objects (set_session i s' l) !! j = Some t ->
        j = i /\ t = s' \/ objects l !! j = Some t) as Hlk.
  { intros j t Hj. cbn in Hj. apply list_lookup_insert_Some in Hj as [(-> & -> & _)|[_ Hj]]; auto. }
  split; unfold set_session in *; cbn in *; rewrite ?length_insert; try done.
  - intros j t Hj. destruct (Hlk j t Hj) as [[-> ->]|Ht]; [|eauto]. rewrite E1. eauto.
  - intros j t Hj. destruct (Hlk j t Hj) as [[-> ->]|Ht]; eauto.
  - intros j t Hj. destruct (Hlk j t Hj) as [[-> ->]|Ht]; eauto.
Qed.

Lemma take_op_input p ops ops' : take_op p ops = Some ops' ->
  (forall op, p op = true -> is_input op = true) ->
  (exists op, filter is_input ops = [op]) -> filter is_input ops' = [].
Proof.
  intros Ht Hp [op Ho]. destruct (take_op_split _ _ _ Ht) as (a & op' & b & -> & -> & Hop).
  rewrite filter_app, filter_cons in Ho. rewrite filter_app.
  rewrite decide_True in Ho by (by rewrite (Hp _ Hop)).
  destruct (filter is_input a) as [|x [|y a']], (filter is_input b); try done.
Qed.

Lemma take_op_write ops ops' : take_op is_write ops = Some ops' ->
  filter is_input ops' = filter is_input ops.
Proof.
  intros Ht. destruct (take_op_split _ _ _ Ht) as (a & op' & b & -> & -> & Hop).
  rewrite !filter_app, filter_cons. rewrite decide_False; [done|].
  unfold is_input. rewrite Hop. by intros [].

Qed.

Lemma accept_inv ec l : server_inv l -> server_inv (ListenerOnAccept ec l).
Proof.
  intros Hinv. unfold ListenerOnAccept, DoAccept. destruct ec; [by apply (server_inv_same l)|].
  destruct Hinv as [Hn Hid Hin Hr Hm Hmp].
  assert (forall j t, (objects l ++ [Run (new_session (next_client_id l))]) !! j = Some t ->
        j = length (objects l) /\ t = Run (new_session (next_client_id l)) \/
        objects l !! j = Some t) as Hlk.
  { intros j t Hj. apply lookup_app_Some in Hj as [Hj|[Hge Hj]]; [by right|left].
    destruct (j - length (objects l))%nat eqn:E; cbn in Hj; [|done]. injection Hj as <-. split; [lia|done]. }
  split; cbn; rewrite ?length_app; cbn.
  - rewrite Hn. unfold wrap. rewrite Zplus_mod_idemp_l. f_equal. lia.
  - intros i s Hi. destruct (Hlk i s Hi) as [[-> ->]|Ht]; [done|eauto].
  - intros i s Hi. destruct (Hlk i s Hi) as [[-> ->]|Ht]; [|eauto]. by eexists.
  - intros i s Hi. destruct (Hlk i s Hi) as [[-> ->]|Ht]; [|eauto]. apply db_new_holds.
  - intros k i Hk. destruct (decide (k = next_client_id l)) as [->|Hne].
    + rewrite lookup_insert_eq in Hk. injection Hk as <-. split; [lia|]. split; [done|]. intros; lia.
    + rewrite lookup_insert_ne in Hk by done. destruct (Hm k i Hk) as (H1 & H2 & H3).
      split; [lia|]. split; [done|]. intros j Hj.
      destruct (decide (j = length (objects l))) as [->|]; [by rewrite <- Hn|apply H3; lia].
  - intros i Hi. destruct (decide (wrap 32 (Z.of_nat i) = next_client_id l)) as [->|Hne].
    + rewrite lookup_insert_eq. eauto.
    + rewrite lookup_insert_ne by done. apply Hmp.
      destruct (decide (i = length (objects l))) as [->|]; [by rewrite Hn in Hne|lia].
Qed.

Lemma complete_spec p i l s : complete p i l = Some s ->
  exists s0 ops, objects l !! i = Some s0 /\ take_op p (pending s0) = Some ops /\
  s = mk_session (session_id s0) (read_buffer s0) (write_buffer s0) (send_data s0) ops.
Proof.
  unfold complete. intros H. destruct (objects l !! i) as [s0|]; [|done]. cbn in H.
  destruct (take_op p (pending s0)) as [ops|] eqn:E; [|done]. cbn in H. injection H as <-. eauto.
Qed.

Lemma run_one_inv ev l q reqs l' q' :
  server_inv l -> event_ok ev -> sq_holds q reqs -> run_one ev l q = Some (Ret (l', q')) -> server_inv l'.
Proof.
  intros Hinv Hok Hq Hrun. destruct ev as [ec|i ec|i ec msg|i ec n]; cbn [run_one] in Hrun.
  - destruct (accepting l); [|done]. injection Hrun as <- <-. apply accept_inv.
    by apply (server_inv_same l).
  - destruct (complete is_accept i l) as [s|] eqn:E; [|done]. cbn in Hrun. injection Hrun as <- <-.
    destruct (complete_spec _ _ _ _ E) as (s0 & ops & Hi & Ht & ->).
    eapply set_session_inv; [done|done|done| |exact (inv_read l Hinv i s0 Hi)].
    cbn. rewrite filter_app, (take_op_input is_accept _ _ Ht); [by eexists|by intros []|].
    exact (inv_input l Hinv i s0 Hi).
  - destruct (complete is_read i l) as [s|] eqn:E; [|done]. cbn in Hrun. injection Hrun as Hrun.
    destruct (complete_spec _ _ _ _ E) as (s0 & ops & Hi & Ht & ->).
    assert (filter is_input ops = []) as Ho.
    { apply (take_op_input is_read _ _ Ht); [by intros []|]. exact (inv_input l Hinv i s0 Hi). }
    destruct (receive_ok msg (mk_session (session_id s0) (read_buffer s0) (write_buffer s0) (send_data s0) ops))
      as (b & Eb & Hb); [exact (inv_read l Hinv i s0 Hi)|done|].
    rewrite Eb in Hrun. cbn [obind] in Hrun.
    match type of Hrun with context [OnRead ec _ ?x q] => set (s1 := x) in * end.
    pose proof (OnRead_holds ec msg s1 q reqs Hb Hq) as H.
    assert (exists b' q'', OnRead ec (length msg) s1 q =
          Ret (DoRead (mk_session (session_id s0) b' (write_buffer s0) (send_data s0) ops), q'') /\
          db_holds b' []) as (b' & q'' & E' & Hb').
    { destruct msg as [|x msg]; [exists b, q; by rewrite H|].
      destruct (DeserializeRequest (x :: msg)); [|by rewrite H in Hrun..].
      destruct H as (b' & q'' & E' & Hb' & _). eauto. }
    rewrite E' in Hrun. cbn [obind] in Hrun. injection Hrun as <- <-.
    eapply set_session_inv; [done|done|done| |done]. cbn. rewrite filter_app, Ho. by eexists.
  - destruct (complete is_write i l) as [s|] eqn:E; [|done]. cbn in Hrun. injection Hrun as <- <-.
    destruct (complete_spec _ _ _ _ E) as (s0 & ops & Hi & Ht & ->).
    eapply set_session_inv; [done|done|done| |exact (inv_read l Hinv i s0 Hi)].
    cbn. rewrite (take_op_write _ _ Ht). exact (inv_input l Hinv i s0 Hi).
Qed.

(** Sending leaves the map as it is, but for an empty entry. *)
Lemma insert_default_inv l k :
  server_inv l ->
  server_inv (mk_listener (is_open l) (accepting l) (next_client_id l)
            (<[k := default None (sessions l !! k)]> (sessions l)) (objects l)).
Proof.
  intros [Hn Hid Hin Hr Hm Hmp]. split; cbn; try done.
  - intros k' i Hk. apply Hm. destruct (decide (k' = k)) as [->|Hne].
    + rewrite lookup_insert_eq in Hk. destruct (sessions l !! k); cbn in Hk; congruence.
    + by rewrite lookup_insert_ne in Hk by done.
  - intros i Hi. destruct (Hmp i Hi) as [j Hj]. exists j.
    destruct (decide (wrap 32 (Z.of_nat i) = k)) as [<-|Hne].
    + by rewrite lookup_insert_eq, Hj.
    + by rewrite lookup_insert_ne.
Qed.

Lemma lock_spec p l i s : lock p l = Some (i, s) -> p = Some i /\ objects l !! i = Some s.
Proof.
  unfold lock. destruct p as [j|]; [|done]. destruct (objects l !! j) eqn:E; [|done].
  case_bool_decide; [done|]. by intros [= <- <-].
Qed.

Lemma send_inv k p l l' : server_inv l -> SendResponse k p l = Ret l' -> server_inv l'.
Proof.
  intros Hinv H. unfold SendResponse, ListenerSend in H.
  apply (insert_default_inv l k) in Hinv.
  match type of Hinv with server_inv ?x => set (l1 := x) in * end.
  destruct (lock _ l1) as [[i s]|] eqn:E; [|by injection H as <-].
  destruct (lock_spec _ _ _ _ E) as [_ Hi].
  destruct (Send p s) as [s'| |] eqn:Es; try done. cbn [obind] in H. injection H as <-.
  destruct (Send_keeps _ _ _ Es) as (E1 & E2 & sent & E3).
  apply (set_session_inv i s s' l1 Hinv Hi E1).
  - rewrite E3, filter_app. destruct (inv_input l1 Hinv i s Hi) as [op ->]. by exists op.
  - rewrite E2. by eapply inv_read.
Qed.

Lemma reachable_server_inv l : reachable l -> server_inv l.
Proof.
  induction 1; [apply new_server_inv|by eapply run_one_inv|by eapply send_inv].
Qed.

(** ** What an event of the io thread does to the queue and the buffers *)

(** The request that an event brings. *)
Definition delivered (ev : io_event) (l : Listener) : list ClientRequest :=
  match ev with
  | EvRead i _ (x :: msg) =>
      match objects l !! i, DeserializeRequest (x :: msg) with
      | Some s, Ret p => [(session_id s, p)]
      | _, _ => []
      end
  | _ => []
  end.

(** The request queue with the requests that fit. *)
Definition enqueue_requests (reqs new : list ClientRequest) : list ClientRequest :=
  if (length reqs <? 1024)%nat then reqs ++ new else reqs.

(** Every write buffer is one that holds some bytes. *)
Definition writes_ok (l : Listener) : Prop :=
  forall i s, objects l !! i = Some s -> exists v, db_holds (write_buffer s) v.

Lemma writes_ok_set i s s' l :
  writes_ok l -> (exists v, db_holds (write_buffer s') v) -> objects l !! i = Some s ->
  writes_ok (set_session i s' l).
Proof.
  intros Hw Hv Hi j t Hj. cbn in Hj.
  apply list_lookup_insert_Some in Hj as [(-> & -> & _)|[_ Hj]]; [done|by eapply Hw].
Qed.

Lemma accept_writes_ok ec l : writes_ok l -> writes_ok (ListenerOnAccept ec l).
Proof.
  intros Hw i s Hi. unfold ListenerOnAccept, DoAccept in Hi. destruct ec; cbn in Hi; [by eapply Hw|].
  apply lookup_app_Some in Hi as [Hi|[_ Hi]]; [by eapply Hw|].
  destruct (i - length (objects l))%nat; cbn in Hi; [|done]. injection Hi as <-.
  exists []. apply db_new_holds.
Qed.

(** The outcome of an event on a server that keeps its invariant. *)
Lemma run_one_outcome ev l q reqs m :
  server_inv l -> writes_ok l -> event_ok ev -> sq_holds q reqs -> run_one ev l q = Some m ->
  match m with
  | Ret (l', q') =>
      server_inv l' /\ writes_ok l' /\ sq_holds q' (enqueue_requests reqs (delivered ev l))
  | Throw e => exists i ec msg, ev = EvRead i ec msg /\ DeserializeRequest msg = Throw e
  | Undef => exists i ec msg, ev = EvRead i ec msg /\ DeserializeRequest msg = Undef
  end.
Proof.
  intros Hinv Hw Hok Hq Hrun.
  assert (sq_holds q (enqueue_requests reqs [])) as Hq0.
  { unfold enqueue_requests. rewrite app_nil_r. by destruct (_ <? _)%nat. }
  assert (forall l' q', m = Ret (l', q') -> server_inv l') as Hinv'
    by (intros l' q' ->; by eapply run_one_inv).
  destruct ev as [ec|i ec|i ec msg|i ec n]; cbn [run_one delivered] in *.
  - destruct (accepting l); [|done]. injection Hrun as <-. split; [by eapply Hinv'|].
    split; [|done]. by apply accept_writes_ok.
  - destruct (complete is_accept i l) as [s|] eqn:E; [|done]. cbn in Hrun. injection Hrun as <-.
    destruct (complete_spec _ _ _ _ E) as (s0 & ops & Hi & Ht & ->).
    split; [by eapply Hinv'|]. split; [|done]. eapply writes_ok_set; [done|exact (Hw i s0 Hi)|done].
  - destruct (complete is_read i l) as [s|] eqn:E; [|done]. cbn in Hrun. injection Hrun as <-.
    destruct (complete_spec _ _ _ _ E) as (s0 & ops & Hi & Ht & ->).
    destruct (receive_ok msg (mk_session (session_id s0) (read_buffer s0) (write_buffer s0) (send_data s0) ops))
      as (b & Eb & Hb); [exact (inv_read l Hinv i s0 Hi)|done|].
    rewrite Eb in *. cbn [obind] in *.
    match goal with |- context [OnRead ec _ ?x q] => set (s1 := x) in * end.
    pose proof (OnRead_holds ec msg s1 q reqs Hb Hq) as H.
    destruct msg as [|x msg].
    + rewrite H in *. cbn [obind] in *. split; [by eapply Hinv'|]. split; [|done].
      eapply writes_ok_set; [done|exact (Hw i s0 Hi)|done].
    + rewrite Hi. destruct (DeserializeRequest (x :: msg)) as [p| |] eqn:Ed.
      * destruct H as (b' & q' & E' & Hb' & Hq'). rewrite E' in *. cbn [obind] in *.
        split; [by eapply Hinv'|]. split; [|exact Hq'].
        eapply writes_ok_set; [done|exact (Hw i s0 Hi)|done].
      * rewrite H. cbn [obind]. eauto.
      * rewrite H. cbn [obind]. eauto.
  - destruct (complete is_write i l) as [s|] eqn:E; [|done]. cbn in Hrun. injection Hrun as <-.
    destruct (complete_spec _ _ _ _ E) as (s0 & ops & Hi & Ht & ->).
    split; [by eapply Hinv'|]. split; [|done]. eapply writes_ok_set; [done| |done].
    destruct (Hw i s0 Hi) as [v Hv]. exists []. by eapply (OnWrite_holds ec n (mk_session _ _ _ _ _)).
Qed.

(** No write buffer has 2^63 bytes, and neither has the response to send. *)
Definition memory_ok (p : Response.AnyPacket) (l : Listener) : Prop :=
  (forall n s v, objects l !! n = Some s -> db_holds (write_buffer s) v ->
    Z.of_nat (length v) < 2 ^ 63) /\
  (forall data, SerializeResponse p = Ret data -> Z.of_nat (length data) < 2 ^ 63).

(** Sending only fails when the serializer does. *)
Lemma SendResponse_outcome k p l :
  server_inv l -> writes_ok l -> memory_ok p l ->
  match SendResponse k p l with
  | Ret l' => server_inv l' /\ writes_ok l'
  | Throw e => SerializeResponse p = Throw e
  | Undef => SerializeResponse p = Undef
  end.
Proof.
  intros Hinv Hw [Hm Hd].
  assert (forall l', SendResponse k p l = Ret l' -> server_inv l') as Hinv' by (intros; by eapply send_inv).
  unfold SendResponse, ListenerSend in *.
  match goal with |- context [lock _ ?x] => set (l1 := x) in * end.
  assert (writes_ok l1) as Hw1 by exact Hw.
  destruct (lock _ l1) as [[i s]|] eqn:E; [|split; [by apply Hinv'|done]].
  destruct (lock_spec _ _ _ _ E) as [_ Hi].
  destruct (SerializeResponse p) as [data|e|] eqn:Ed.
  - destruct (Hw1 i s Hi) as [v Hv]. specialize (Hm i s v Hi Hv). specialize (Hd data eq_refl).
    destruct (Send_holds p s v data Hv Ed) as (s' & Es & _ & _ & _ & Hv'); [lia|].
    rewrite Es in *. cbn [obind] in *. split; [by apply Hinv'|].
    eapply (writes_ok_set i s s' l1); eauto.
  - unfold Send. rewrite Ed. done.
  - unfold Send. rewrite Ed. done.
Qed.

(** C35: in every state of the server each accepted client has a session that
    waits for its handshake or its next message, so that no session object is
    ever destroyed, not even after its connection has closed; session ids
    count up modulo 2^32, and the map takes each id to the newest of the
    sessions that have it. *)
Theorem server_invariant l : reachable l -> server_inv l.
Proof. apply reachable_server_inv. Qed.

(** The greatest index below [n] of the sessions created with the id [k]. *)
Definition newest (k : Z) (n : nat) : option nat :=
  last (filter (fun i => wrap 32 (Z.of_nat i) = k) (seq 0 n)).

Lemma newest_spec k n :
  match newest k n with
  | Some i => (i < n)%nat /\ wrap 32 (Z.of_nat i) = k /\
          forall j, (i < j < n)%nat -> wrap 32 (Z.of_nat j) <> k
  | None => forall j, (j < n)%nat -> wrap 32 (Z.of_nat j) <> k
  end.
Proof.
  unfold newest. induction n as [|n IH]; [cbn; intros; lia|].
  rewrite seq_S, filter_app, filter_cons, filter_nil. cbn [Nat.add].
  destruct (decide (wrap 32 (Z.of_nat n) = k)) as [E|E].
  - rewrite last_snoc. split; [lia|]. split; [done|]. intros; lia.
  - rewrite app_nil_r. destruct (last _) as [i|].
    + destruct IH as (H1 & H2 & H3). split; [lia|]. split; [done|]. intros j Hj.
      destruct (decide (j = n)) as [->|]; [done|apply H3; lia].
    + intros j Hj. destruct (decide (j = n)) as [->|]; [done|apply IH; lia].
Qed.

(** [SendResponse] gives the response to the newest session with that
    client id and touches no other session; without such a session it drops
    the response and returns. *)
Theorem SendResponse_routes l k p :
  reachable l ->
  match newest k (length (objects l)) with
  | Some i =>
      exists s, objects l !! i = Some s /\ session_id s = k /\
      (forall s', Send p s = Ret s' ->
        exists l', SendResponse k p l = Ret l' /\ objects l' = <[i := s']> (objects l)) /\
      (forall e, Send p s = Throw e -> SendResponse k p l = Throw e)
  | None => exists l', SendResponse k p l = Ret l' /\ objects l' = objects l
  end.
Proof.
  intros Hr. pose proof (reachable_server_inv l Hr) as Hinv.
  pose proof (newest_spec k (length (objects l))) as Hn.
  unfold SendResponse, ListenerSend. destruct (newest k (length (objects l))) as [i|].
  - destruct Hn as (Hi & Hk & Hmax).
    destruct (inv_mapped l Hinv i Hi) as [j Hj]. rewrite Hk in Hj.
    destruct (inv_map l Hinv k j Hj) as (Hj1 & Hj2 & Hj3).
    assert (j = i) as ->.
    { destruct (Nat.lt_total i j) as [Hlt|[->|Hlt]]; [|done|].
      - destruct (Hmax j); [lia|done].
      - destruct (Hj3 i); [lia|done]. }
    destruct (lookup_lt_is_Some_2 (objects l) i Hi) as [s Hs].
    exists s. split; [done|]. split; [by rewrite (inv_id l Hinv i s Hs)|].
    destruct (inv_input l Hinv i s Hs) as [op Hop].
    rewrite Hj. cbn [default id lock objects]. rewrite Hs.
    rewrite bool_decide_false by (intros E; by rewrite E in Hop).
    split; [intros s' ->|intros e ->]; cbn; eauto.
  - destruct (sessions l !! k) as [[i|]|] eqn:E; cbn [default id lock]; eauto.
    destruct (inv_map l Hinv k i E) as (H1 & H2 & _). by destruct (Hn i H1).
Qed.

(** The state after [n] failed reads of the session [i]. *)
Fixpoint failed_reads (n : nat) (i : nat) (l : Listener) (q : Q ClientRequest)
  : option (cpp (Listener * Q ClientRequest)) :=
  match n with
  | O => Some (Ret (l, q))
  | S n =>
      match run_one (EvRead i true []) l q with
      | Some (Ret (l, q)) => failed_reads n i l q
      | r => r
      end
  end.

(** Errors never end anything. A session whose connection has closed,
    so that each read fails at once with no bytes, starts the next read every
    time, for ever; and a listener whose [bind] failed accepts again after each
    failed accept. Neither reports the error or gives up. *)
Theorem failures_are_retried l i s q :
  objects l !! i = Some s -> pending s = [AsyncRead] -> db_holds (read_buffer s) [] ->
  (forall n, exists l' s', failed_reads n i l q = Some (Ret (l', q)) /\
    objects l' !! i = Some s' /\ pending s' = [AsyncRead]) /\
  (accepting l = true -> run_one (EvAccept true) l q = Some (Ret (l, q))).
Proof.
  intros Hi Hp Hr. split.
  - intros n. revert l s Hi Hp Hr. induction n as [|n IH]; intros l s Hi Hp Hr; [cbn; eauto|].
    cbn [failed_reads run_one]. unfold complete. rewrite Hi. cbn [mbind option_bind]. rewrite Hp.
    cbn [take_op is_read mbind option_bind].
    destruct (receive_ok [] (mk_session (session_id s) (read_buffer s) (write_buffer s) (send_data s) []))
      as (b & -> & Hb); [done|done|].
    cbn [obind OnRead length Nat.eqb].
    apply (IH _ (mk_session (session_id s) b (write_buffer s) (send_data s) [AsyncRead]));
      [|done|exact Hb].
    cbn. apply list_lookup_insert_eq. by eapply lookup_lt_Some.
  - intros Ha. cbn [run_one]. rewrite Ha. unfold ListenerOnAccept, DoAccept. cbn. do 3 f_equal.
    destruct l. cbn in Ha. by subst.
Qed.
End Server.

Arguments Session B : clear implicits.
Arguments Listener B : clear implicits.

(** ** Instances for the witnesses *)

(** A serializer with one-byte messages: the id of a request or of a response. *)
Definition sample_serializer : ProtocolSerializer := {|
  SerializeResponse p := Ret [Response.response_id p];
  DeserializeRequest raw :=
    match raw with
    | [i] => Ret (Request.AMemoryRead (Request.new_memory_read i Request.Immediate Request.NonBlocking
                    Request.Once 16 4))
    | _ => Throw (invalid_method_error (str "Invalid method"))
    end
|}.

#[local] Existing Instance sample_serializer.

Definition sample_session : Session multi_buffer := DoRead (new_session 0).
Definition sample_listener : Listener multi_buffer := mk_listener true true 1 {[0 := Some 0%nat]} [sample_session].
Definition sample_queue : ringbuffer ClientRequest := sq_new.

Lemma sample_queue_holds : sq_holds sample_queue [].
Proof. apply sq_new_holds. Qed.

Lemma OnRead_spec_witness :
  exists s' q', run_one (EvRead 0 false [7]) sample_listener sample_queue =
    Some (Ret (set_session 0 s' sample_listener, q')) /\
    (session_id s' = 0 /\ pending s' = [AsyncRead] /\ write_buffer s' = db_new /\
      db_holds (read_buffer s') []) /\
    sq_holds q' [(0, Request.AMemoryRead (Request.new_memory_read 7 Request.Immediate
                       Request.NonBlocking Request.Once 16 4))].
Proof.
  exact (OnRead_spec 0 false [7] sample_listener sample_session [] sample_queue []
           eq_refl eq_refl db_new_holds eq_refl sample_queue_holds).
Defined.

Lemma Send_frames_witness :
  exists s1, Send (Response.APacket (Response.new_packet 1)) sample_session = Ret s1 /\
    pending s1 = [AsyncRead; AsyncWrite [1]] /\
    exists s2, Send (Response.APacket (Response.new_packet 2)) s1 = Ret s2 /\
      pending s2 = pending s1 ++ [AsyncWrite [1; 2]].
Proof.
  destruct (Send_frames (PS := sample_serializer) (Response.APacket (Response.new_packet 1)) (Response.APacket (Response.new_packet 2))
              sample_session [1] [2] db_new_holds eq_refl eq_refl eq_refl)
    as (s1 & E1 & P1 & _ & s2 & E2 & P2 & _).
  exists s1. split; [exact E1|]. split; [exact P1|]. exists s2. split; [exact E2|exact P2].
Defined.

(** The state after one client has been accepted. *)
Definition accepted_listener : Listener multi_buffer :=
  ListenerOnAccept false (mk_listener true false 0 ∅ []).

Lemma accepted_reachable : reachable (Q := ringbuffer) accepted_listener.
Proof.
  eapply (reachable_io (new_server true) (EvAccept false) sample_queue [] _ sample_queue);
    [apply reachable_new|done|apply sample_queue_holds|reflexivity].
Qed.

Lemma server_invariant_witness : server_inv accepted_listener.
Proof. exact (server_invariant (Q := ringbuffer) accepted_listener accepted_reachable). Defined.

Lemma SendResponse_routes_witness :
  exists s, objects accepted_listener !! 0%nat = Some s /\ session_id s = 0 /\
    (forall s', Send (Response.APacket (Response.new_packet 1)) s = Ret s' ->
       exists l', SendResponse 0 (Response.APacket (Response.new_packet 1)) accepted_listener = Ret l' /\
         objects l' = <[0%nat := s']> (objects accepted_listener)) /\
    (forall e, Send (Response.APacket (Response.new_packet 1)) s = Throw e ->
       SendResponse 0 (Response.APacket (Response.new_packet 1)) accepted_listener = Throw e).
Proof.
  exact (SendResponse_routes (Q := ringbuffer) accepted_listener 0 (Response.APacket (Response.new_packet 1))
           accepted_reachable).
Defined.

Lemma failures_are_retried_witness :
  (forall n, exists l' s', failed_reads n 0 sample_listener sample_queue = Some (Ret (l', sample_queue)) /\
     objects l' !! 0%nat = Some s' /\ pending s' = [AsyncRead]) /\
  run_one (EvAccept true) sample_listener sample_queue = Some (Ret (sample_listener, sample_queue)).
Proof.
  destruct (failures_are_retried sample_listener 0 sample_session sample_queue eq_refl eq_refl db_new_holds)
    as [H1 H2].
  split; [exact H1|exact (H2 eq_refl)].
Defined.
