(* ===== verification/EmuRpc.v ===== *)
(** * The emulator side

    [EmuRPC::Impl], [EmuRPC] and the C API of src/src/emurpc.cpp,
    src/include/emurpc.hpp and src/include/emurpc.h. The host's callbacks are
    parameters: state transformers on the type [U] of what [user_data] points to.
    The memory allocator is one too: [can_allocate n] says whether a vector of
    [n] bytes can be allocated. *)

From Stdlib Require Import ZArith Lia String Ascii.
From stdpp Require Import base list gmap.
From S2P Require Import Prelude Exceptions RingBuffer MultiBuffer Protocol RpcServer.

(** ** Configuration *)

Section Config.
Context {U : Type}.

(** The callback types of [EmuRPC] and of the C API. *)
Definition MemoryReadCallback : Type := U -> Z -> Z -> bytes -> U * bytes.
Definition MemoryWriteCallback : Type := U -> Z -> Z -> bytes -> U.
Definition GPUReadCallback : Type := U -> bytes -> bytes -> U * bytes.
Definition GPUWriteCallback : Type := U -> bytes -> Z -> bytes -> U.
Definition SpecialReadCallback : Type := U -> bytes -> bytes -> U * bytes.
Definition SpecialWriteCallback : Type := U -> bytes -> Z -> bytes -> U.
Definition LoadStateCallback : Type := U -> Z -> U * bool.
Definition SaveStateCallback : Type := U -> Z -> U * bool.
Definition LoadRomCallback : Type := U -> bytes -> U * bool.
Definition CreateOverlayCallback : Type := U -> Z -> Z -> Z -> Z -> Z -> U * bool.
Definition DrawOverlayTextCallback : Type := U -> Z -> Z -> Z -> bytes -> U * bool.

(** [struct EmuRPC::Config]. *)
Record Config := mk_config {
  user_data : U;
  memory_read_callback : MemoryReadCallback;
  memory_write_callback : MemoryWriteCallback;
  gpu_read_callback : GPUReadCallback;
  gpu_write_callback : GPUWriteCallback;
  special_read_callback : SpecialReadCallback;
  special_write_callback : SpecialWriteCallback;
  save_state_callback : SaveStateCallback;
  load_state_callback : LoadStateCallback;
  load_rom_callback : LoadRomCallback;
  create_overlay_callback : CreateOverlayCallback;
  draw_overlay_text_callback : DrawOverlayTextCallback;
  enable_memory_access_timing : bool;
  enable_gpu_access_timing : bool;
  enable_special_access_timing : bool
}.

(** [struct emurpc_config]. *)
Record emurpc_config := mk_emurpc_config {
  c_user_data : U;
  c_memory_read_callback : MemoryReadCallback;
  c_memory_write_callback : MemoryWriteCallback;
  c_gpu_read_callback : GPUReadCallback;
  c_gpu_write_callback : GPUWriteCallback;
  c_special_read_callback : SpecialReadCallback;
  c_special_write_callback : SpecialWriteCallback;
  c_save_state_callback : SaveStateCallback;
  c_load_state_callback : LoadStateCallback;
  c_load_rom_callback : LoadRomCallback;
  c_create_overlay_callback : CreateOverlayCallback;
  c_draw_overlay_text_callback : DrawOverlayTextCallback;
  c_enable_memory_access_timing : bool;
  c_enable_gpu_access_timing : bool;
  c_enable_special_access_timing : bool
}.

(** The conversion at the start of [emurpc_start]. *)
Definition to_config (config : emurpc_config) : Config :=
  mk_config (c_user_data config) (c_memory_read_callback config) (c_memory_write_callback config)
  (c_gpu_read_callback config) (c_gpu_write_callback config) (c_special_read_callback config)
  (c_special_write_callback config) (c_save_state_callback config) (c_load_state_callback config)
  (c_load_rom_callback config) (c_create_overlay_callback config)
  (c_draw_overlay_text_callback config) (c_enable_memory_access_timing config)
  (c_enable_gpu_access_timing config) (c_enable_special_access_timing config).
End Config.

Arguments Config U : clear implicits.
Arguments emurpc_config U : clear implicits.

(** [enum class AccessType] and [enum emurpc_access_type]. *)
Inductive AccessType := Read | Write.

Section Impl.
Context {Q : Type -> Type} `{SQ : !SpscQueue Q 1024}.
Context {B : Type} `{DB : !DynamicBuffer B}.
Context `{PS : !ProtocolSerializer}.
Context {U : Type} (can_allocate : Z -> bool).

(** ** EmuRPC::Impl *)

(** The data members; [user] is what [config.user_data] points to now. *)
Record Impl := mk_impl {
  config : Config U;
  stopped : bool;
  blocking_emu : bool;
  callbacks : gmap Request.Timing (list ClientRequest);
  client_emu : Q ClientRequest;
  emu_client : Q ClientResponse;
  server : Listener B;
  user : U
}.

(** [Impl(config)] and the creation of the server. [blocking_emu] has no
    initializer: it has the value its storage happens to have. *)
Definition new_impl (conf : Config U) (indeterminate : bool) (open_ok : bool) : Impl :=
  mk_impl conf false indeterminate ∅ sq_new sq_new (new_server open_ok) (user_data conf).

Definition set_user (u : U) (i : Impl) : Impl :=
  mk_impl (config i) (stopped i) (blocking_emu i) (callbacks i) (client_emu i) (emu_client i) (server i) u.
Definition set_client_emu (q : Q ClientRequest) (i : Impl) : Impl :=
  mk_impl (config i) (stopped i) (blocking_emu i) (callbacks i) q (emu_client i) (server i) (user i).
Definition set_emu_client (q : Q ClientResponse) (i : Impl) : Impl :=
  mk_impl (config i) (stopped i) (blocking_emu i) (callbacks i) (client_emu i) q (server i) (user i).
Definition set_server (l : Listener B) (i : Impl) : Impl :=
  mk_impl (config i) (stopped i) (blocking_emu i) (callbacks i) (client_emu i) (emu_client i) l (user i).
Definition set_blocking (b : bool) (i : Impl) : Impl :=
  mk_impl (config i) (stopped i) b (callbacks i) (client_emu i) (emu_client i) (server i) (user i).
Definition set_callbacks (c : gmap Request.Timing (list ClientRequest)) (i : Impl) : Impl :=
  mk_impl (config i) (stopped i) (blocking_emu i) c (client_emu i) (emu_client i) (server i) (user i).

(** [stopped = true], the start of [~Impl()]. *)
Definition stop (i : Impl) : Impl :=
  mk_impl (config i) true (blocking_emu i) (callbacks i) (client_emu i) (emu_client i) (server i) (user i).

(** [std::vector<u8> data(n)]. *)
Definition new_vector (n : Z) : cpp bytes :=
  if 2 ^ 63 <=? n then Throw std_length_error
  else if can_allocate n then Ret (replicate (Z.to_nat n) 0)
  else Throw std_bad_alloc.

(** [emu_client.push(response)]: the result is not looked at. *)
Definition push_response (r : ClientResponse) (i : Impl) : Impl :=
  set_emu_client (snd (sq_push r (emu_client i))) i.

(** [Impl::HandleCommand]. *)
Definition HandleCommand (c : Request.Command) (i : Impl) : cpp Impl := Ret i.

(** [Impl::HandleRequest]; the packet is the object its [Packet*] points into. *)
Definition HandleRequest (id : Z) (r : Request.AnyPacket) (i : Impl) : cpp Impl :=
  match Request.method (Request.base_packet r) with
  | Request.Method.Command =>
      let* c := Request.as_command r in HandleCommand c i
  | Request.Method.MemoryRead =>
      let* p := Request.as_memory_read r in
      let* data := new_vector (Request.mr_length p) in
      let (u, data) := memory_read_callback (config i) (user i) (Request.mr_address p) (Request.mr_length p) data in
      Ret (push_response
         (id, Response.AMemoryRead (Response.new_memory_read (Request.id (Request.mr_packet p)) data))
         (set_user u i))
  | Request.Method.MemoryWrite =>
      let* p := Request.as_memory_write r in
      let u := memory_write_callback (config i) (user i) (Request.mw_address p)
             (Z.of_nat (length (Request.mw_data p))) (Request.mw_data p) in
      Ret (push_response
         (id, Response.AMemoryWrite (Response.new_memory_write (Request.id (Request.mw_packet p))))
         (set_user u i))
  | _ => Ret i
  end.

(** ** The server thread *)

(** One evaluation of [emu_client.pop(res)] with the body of its loop. *)
Definition poll_response (i : Impl) : cpp (bool * Impl) :=
  let* (res, q) := sq_pop (emu_client i) in
  let i := set_emu_client q i in
  match res with
  | None => Ret (false, i)
  | Some (id, packet) =>
      let* l := SendResponse id packet (server i) in
      Ret (true, set_server l i)
  end.

(** One evaluation of [client_emu.pop(req)] with the body of its loop. *)
Definition poll_request (i : Impl) : cpp (bool * Impl) :=
  let* (req, q) := sq_pop (client_emu i) in
  let i := set_client_emu q i in
  match req with
  | None => Ret (false, i)
  | Some (id, packet) =>
      let* i := HandleRequest id packet i in
      Ret (true, i)
  end.

(** A loop [while (pop) ...]; [None] when the fuel does not suffice. *)
Fixpoint drain (poll : Impl -> cpp (bool * Impl)) (fuel : nat) (i : Impl) : option (cpp Impl) :=
  match fuel with
  | O => None
  | S fuel =>
      match poll i with
      | Ret (true, i) => drain poll fuel i
      | Ret (false, i) => Some (Ret i)
      | Throw e => Some (Throw e)
      | Undef => Some Undef
      end
  end.

(** The body of the loop of [Impl::ProcessEvents], without interference. A
    queue holds at most 1024 elements, and nothing is pushed to [emu_client]
    by the first loop nor to [client_emu] by the second. *)
Definition queue_fuel : nat := 1025.

Definition process_events_body (i : Impl) : option (cpp Impl) :=
  match drain poll_response queue_fuel i with
  | Some (Ret i) => drain poll_request queue_fuel i
  | r => r
  end.

(** [Impl::ProcessEvents]; [None] when the fuel does not suffice. *)
Fixpoint ProcessEvents (fuel : nat) (i : Impl) : option (cpp Impl) :=
  match fuel with
  | O => None
  | S fuel =>
      if stopped i then Some (Ret i)
      else
        match process_events_body i with
        | Some (Ret i) => ProcessEvents fuel i
        | r => r
        end
  end.

(** ** The emulator thread *)

(** The functor [process] of [Impl::HandleTiming]. *)
Definition process (req : ClientRequest) : cpp bool :=
  let (id, message) := req in
  match Request.method (Request.base_packet message) with
  | Request.Method.Command =>
      let* m := Request.as_command message in
      Ret (negb (bool_decide (Request.command_type m = Request.CommandType.Continue)))
  | _ => Ret true
  end.

(** The loop over [callbacks[t]]. *)
Fixpoint run_callbacks (reqs : list ClientRequest) (i : Impl) : cpp Impl :=
  match reqs with
  | [] => Ret i
  | (id, cb) :: reqs =>
      let i := if bool_decide (Request.sync (Request.base_packet cb) = Request.Blocking)
           then set_blocking true i else i in
      let* i := HandleRequest id cb i in
      run_callbacks reqs i
  end.

(** Requests the io thread pushes while the emulator thread waits. *)
Definition push_requests (reqs : list ClientRequest) (q : Q ClientRequest) : Q ClientRequest :=
  foldl (fun q r => snd (sq_push r q)) q reqs.

(** The loop [while (client_emu.pop(&message))], with the requests that arrive
    before each [pop]; [None] when it still runs after the last of them.
    [&message] is an output iterator: [pop] writes every element of the queue
    through it, and a second one lands past [message]. *)
Fixpoint blocked_loop (arrivals : list (list ClientRequest)) (q : Q ClientRequest)
  : option (cpp (Q ClientRequest)) :=
  match arrivals with
  | [] => None
  | a :: arrivals =>
      match sq_pop_to_output_iterator (push_requests a q) with
      | Ret ([], q) => Some (Ret q)
      | Ret ([message], q) =>
          match process message with
          | Ret is_blocked => blocked_loop arrivals q
          | Throw e => Some (Throw e)
          | Undef => Some Undef
          end
      | Ret (_, _) => Some Undef
      | Throw e => Some (Throw e)
      | Undef => Some Undef
      end
  end.

(** [Impl::HandleTiming]. *)
Definition HandleTiming (t : Request.Timing) (arrivals : list (list ClientRequest)) (i : Impl)
  : option (cpp Impl) :=
  let reqs := default [] (callbacks i !! t) in
  let i := set_callbacks (<[t := reqs]> (callbacks i)) i in
  match run_callbacks reqs i with
  | Ret i =>
      match sq_consume_all (fun (r : cpp unit) req => let* _ := r in let* _ := process req in Ret tt)
          (Ret tt) (client_emu i) with
      | Ret (_, Ret _, q) =>
          let i := set_client_emu q i in
          if blocking_emu i then
            match blocked_loop arrivals q with
            | Some (Ret q) => Some (Ret (set_client_emu q i))
            | Some (Throw e) => Some (Throw e)
            | Some Undef => Some Undef
            | None => None
            end
          else Some (Ret i)
      | Ret (_, Throw e, _) => Some (Throw e)
      | Ret (_, Undef, _) => Some Undef
      | Throw e => Some (Throw e)
      | Undef => Some Undef
      end
  | Throw e => Some (Throw e)
  | Undef => Some Undef
  end.

(** ** EmuRPC and the C API *)

(** [EmuRPC(config)]. *)
Definition new_EmuRPC (conf : Config U) (indeterminate open_ok : bool) : Impl :=
  new_impl conf indeterminate open_ok.

Definition OnFrameEnd (arrivals : list (list ClientRequest)) (i : Impl) : option (cpp Impl) :=
  HandleTiming Request.FrameEnd arrivals i.

Definition OnMemoryAccess (a : AccessType) (address size : Z) (arrivals : list (list ClientRequest))
  (i : Impl) : option (cpp Impl) :=
  HandleTiming Request.MemoryAccess arrivals i.

Definition OnGPUAccess (a : AccessType) (field : bytes) (i : Impl) : Impl := i.
Definition OnSpecialAccess (a : AccessType) (field : bytes) (i : Impl) : Impl := i.
Definition CheckRange (addr size : Z) (i : Impl) : bool := true.

(** [emurpc_start]. *)
Definition emurpc_start (conf : emurpc_config U) (indeterminate open_ok : bool) : Impl :=
  new_EmuRPC (to_config conf) indeterminate open_ok.

Definition emurpc_on_frame_end (state : Impl) (arrivals : list (list ClientRequest)) : option (cpp Impl) :=
  OnFrameEnd arrivals state.

(** [struct emurpc_memory_access], [emurpc_gpu_access], [emurpc_special_access]. *)
Record emurpc_memory_access := mk_memory_access { ma_type : AccessType; ma_address : Z; ma_size : Z }.
Record emurpc_gpu_access := mk_gpu_access { ga_type : AccessType; ga_field_name : bytes }.
Record emurpc_special_access := mk_special_access { sa_type : AccessType; sa_field_name : bytes }.

Definition emurpc_on_memory_access (state : Impl) (conf : emurpc_memory_access)
  (arrivals : list (list ClientRequest)) : option (cpp Impl) :=
  OnMemoryAccess (ma_type conf) (ma_address conf) (ma_size conf) arrivals state.

Definition emurpc_on_gpu_access (state : Impl) (conf : emurpc_gpu_access) : Impl :=
  OnGPUAccess (ga_type conf) (ga_field_name conf) state.

Definition emurpc_on_special_access (state : Impl) (conf : emurpc_special_access) : Impl :=
  OnSpecialAccess (sa_type conf) (sa_field_name conf) state.

Definition emurpc_check_addr_range (state : Impl) (addr size : Z) : bool := false.

Lemma drain_S poll fuel i : drain poll (S fuel) i =
  match poll i with
  | Ret (true, i) => drain poll fuel i
  | Ret (false, i) => Some (Ret i)
  | Throw e => Some (Throw e)
  | Undef => Some Undef
  end.
Proof. done. Qed.

Lemma poll_response_pop i o q : sq_pop (emu_client i) = Ret (o, q) ->
  poll_response i =
  match o with
  | None => Ret (false, set_emu_client q i)
  | Some (id, packet) =>
      let* l := SendResponse id packet (server i) in Ret (true, set_server l (set_emu_client q i))
  end.
Proof. intros E. unfold poll_response. by rewrite E. Qed.

Lemma poll_request_pop i o q : sq_pop (client_emu i) = Ret (o, q) ->
  poll_request i =
  match o with
  | None => Ret (false, set_client_emu q i)
  | Some (id, packet) => let* i := HandleRequest id packet (set_client_emu q i) in Ret (true, i)
  end.
Proof. intros E. unfold poll_request. by rewrite E. Qed.

(** ** Handling a request *)

(** A request the server can serve: its packet is of the class its method
    says, and the memory for its answer can be allocated. *)
Definition servable (req : ClientRequest) : Prop :=
  Request.method_matches (snd req) = true /\
  match snd req with
  | Request.AMemoryRead p =>
      Request.method (Request.mr_packet p) = Request.Method.MemoryRead ->
      Request.mr_length p < 2 ^ 63 /\ can_allocate (Request.mr_length p) = true
  | _ => True
  end.

(** What serving a request does to the host, and the response to it: a read
    gets what the callback leaves in a buffer of zeros, a write an empty
    response, and any other method no response at all. *)
Definition serve (conf : Config U) (u : U) (req : ClientRequest) : U * option ClientResponse :=
  let (id, r) := req in
  match Request.method (Request.base_packet r), r with
  | Request.Method.MemoryRead, Request.AMemoryRead p =>
      let (u, data) := memory_read_callback conf u (Request.mr_address p) (Request.mr_length p)
                     (replicate (Z.to_nat (Request.mr_length p)) 0) in
      (u, Some (id, Response.AMemoryRead (Response.new_memory_read (Request.id (Request.mr_packet p)) data)))
  | Request.Method.MemoryWrite, Request.AMemoryWrite p =>
      (memory_write_callback conf u (Request.mw_address p) (Z.of_nat (length (Request.mw_data p)))
        (Request.mw_data p),
        Some (id, Response.AMemoryWrite (Response.new_memory_write (Request.id (Request.mw_packet p)))))
  | _, _ => (u, None)
  end.

(** The response queue after a response: a full queue drops it. *)
Definition enqueue (rs : list ClientResponse) (r : option ClientResponse) : list ClientResponse :=
  match r with
  | Some r => if (length rs <? 1024)%nat then rs ++ [r] else rs
  | None => rs
  end.

Lemma push_response_holds r i rs : sq_holds (emu_client i) rs ->
  exists q, push_response r i = set_emu_client q i /\ sq_holds q (enqueue rs (Some r)).
Proof.
  intros H. unfold push_response. destruct (sq_push_holds r _ _ H) as (q & -> & Hq). eauto.
Qed.

Lemma set_emu_client_same i : set_emu_client (emu_client i) i = i.
Proof. by destruct i. Qed.

Lemma set_user_same i : set_user (user i) i = i.
Proof. by destruct i. Qed.

Lemma HandleRequest_serve req i rs :
  servable req -> sq_holds (emu_client i) rs ->
  let (u, res) := serve (config i) (user i) req in
  exists q, HandleRequest (fst req) (snd req) i = Ret (set_emu_client q (set_user u i)) /\
        sq_holds q (enqueue rs res).
Proof.
  destruct req as [id r]. intros [Hm Ha] Hq. unfold serve, HandleRequest, Request.method_matches in *.
  cbn [fst snd] in *.
  assert (exists q, Ret i = Ret (set_emu_client q (set_user (user i) i)) :> cpp Impl /\
                sq_holds q (enqueue rs None)) as Hsame.
  { exists (emu_client i). by rewrite set_user_same, set_emu_client_same. }
  destruct (Request.method (Request.base_packet r)) eqn:Em; [|..|done|done|done|done].
  - by destruct r.
  - destruct r as [|p| | |]; try done. cbn [Request.as_memory_read obind]. cbn in Em.
    destruct (Ha Em) as [Hl Hc]. unfold new_vector.
    destruct (Z.leb_spec (2 ^ 63) (Request.mr_length p)); [lia|]. rewrite Hc. cbn [obind].
    destruct (memory_read_callback _ _ _ _ _) as [u data].
    match goal with |- context [push_response ?x (set_user u i)] =>
      destruct (push_response_holds x (set_user u i) rs Hq) as (q & -> & Hq') end. eauto.
  - destruct r as [| |p| |]; try done. cbn [Request.as_memory_write obind].
    match goal with |- context [push_response ?x ?y] =>
      destruct (push_response_holds x y rs Hq) as (q & -> & Hq') end. eauto.
Qed.

(** The response answers the request: same client, same request id. *)
Lemma serve_key conf u id r res :
  snd (serve conf u (id, r)) = Some res ->
  fst res = id /\ Response.response_id (snd res) = Request.id (Request.base_packet r).
Proof.
  unfold serve. destruct r, (Request.method _); cbn; try done.
  - destruct (memory_read_callback _ _ _ _ _). cbn. by intros [= <-].
  - by intros [= <-].
Qed.

(** A request of the right class either can be served or throws. *)
Lemma HandleRequest_throws id r i :
  Request.method_matches r = true ->
  servable (id, r) \/ HandleRequest id r i = Throw std_length_error \/
  HandleRequest id r i = Throw std_bad_alloc.
Proof.
  intros Hm. destruct r as [p|p|p|p|p]; try by left.
  destruct (decide (Request.method (Request.mr_packet p) = Request.Method.MemoryRead)) as [Em|Em];
    [|by left].
  unfold servable, HandleRequest. cbn [Request.base_packet snd]. rewrite Em.
  cbn [Request.as_memory_read obind]. unfold new_vector.
  destruct (Z.leb_spec (2 ^ 63) (Request.mr_length p)); [by right; left|].
  destruct (can_allocate (Request.mr_length p)); [by left|by right; right].
Qed.

(** C33: serving a request runs the callback of its method exactly once, on
    the memory the request names, and queues the response for the client it
    came from with the id of the request; a response to a full queue is
    dropped, and the methods without a handler get no response. *)
Theorem HandleRequest_spec id r i rs :
  servable (id, r) -> sq_holds (emu_client i) rs ->
  let (u, res) := serve (config i) (user i) (id, r) in
  exists q, HandleRequest id r i = Ret (set_emu_client q (set_user u i)) /\ sq_holds q (enqueue rs res).
Proof. apply (HandleRequest_serve (id, r)). Qed.

(** A client can end the server: a read of 2^63 bytes or more throws
    [std::length_error], and one the allocator refuses [std::bad_alloc], out of
    the loop of the server thread, before the callback is called. *)
Theorem ProcessEvents_huge_read id p i reqs fuel :
  Request.method (Request.mr_packet p) = Request.Method.MemoryRead ->
  stopped i = false -> sq_holds (emu_client i) [] ->
  sq_holds (client_emu i) ((id, Request.AMemoryRead p) :: reqs) ->
  (2 ^ 63 <= Request.mr_length p -> ProcessEvents (S fuel) i = Some (Throw std_length_error)) /\
  (Request.mr_length p < 2 ^ 63 -> can_allocate (Request.mr_length p) = false ->
    ProcessEvents (S fuel) i = Some (Throw std_bad_alloc)).
Proof.
  intros Hm Hs He Hc.
  destruct (sq_pop_holds _ _ He) as (q1 & E1 & _). cbn in E1.
  destruct (sq_pop_holds _ _ Hc) as (q2 & E2 & _). cbn in E2.
  assert (forall e, new_vector (Request.mr_length p) = Throw e -> ProcessEvents (S fuel) i = Some (Throw e)) as H.
  { intros e He'. cbn [ProcessEvents]. rewrite Hs. unfold process_events_body.
    change queue_fuel with (S 1024). rewrite drain_S, (poll_response_pop _ _ _ E1).
    rewrite drain_S, (poll_request_pop (set_emu_client q1 i) _ _ E2).
    unfold HandleRequest. cbn [Request.base_packet]. rewrite Hm. cbn [Request.as_memory_read obind].
    by rewrite He'. }
  unfold new_vector in H. split.
  - intros Hl. apply H. destruct (Z.leb_spec (2 ^ 63) (Request.mr_length p)); [done|lia].
  - intros Hl Ha. apply H. destruct (Z.leb_spec (2 ^ 63) (Request.mr_length p)); [lia|]. by rewrite Ha.
Qed.

(** ** The server thread *)

(** Sending a list of responses in order. *)
Fixpoint send_all (rs : list ClientResponse) (l : Listener B) : cpp (Listener B) :=
  match rs with
  | [] => Ret l
  | (id, packet) :: rs => let* l := SendResponse id packet l in send_all rs l
  end.

(** Serving a list of requests in order, starting with the responses [rs]. *)
Fixpoint serve_all (conf : Config U) (u : U) (rs : list ClientResponse) (reqs : list ClientRequest)
  : U * list ClientResponse :=
  match reqs with
  | [] => (u, rs)
  | req :: reqs => let (u, res) := serve conf u req in serve_all conf u (enqueue rs res) reqs
  end.

Lemma drain_responses rs : forall fuel i,
  sq_holds (emu_client i) rs -> (length rs < fuel)%nat ->
  match send_all rs (server i) with
  | Ret l => exists q, drain poll_response fuel i = Some (Ret (set_server l (set_emu_client q i))) /\ sq_holds q []
  | Throw e => drain poll_response fuel i = Some (Throw e)
  | Undef => drain poll_response fuel i = Some Undef
  end.
Proof.
  induction rs as [|[id packet] rs IH]; intros [|fuel] i Hq Hf; cbn [length] in Hf; try lia;
    destruct (sq_pop_holds _ _ Hq) as (q & E & Hq'); cbn in E, Hq'; cbn [send_all];
    rewrite drain_S, (poll_response_pop _ _ _ E).
  - exists q. split; [by destruct i|done].
  - destruct (SendResponse id packet (server i)) as [l| |] eqn:Es; try done.
    cbn [obind]. apply (IH fuel (set_server l (set_emu_client q i)) Hq'). lia.
Qed.

Lemma drain_requests reqs : forall fuel i rs,
  sq_holds (client_emu i) reqs -> sq_holds (emu_client i) rs -> Forall servable reqs ->
  (length reqs < fuel)%nat ->
  let (u, rs') := serve_all (config i) (user i) rs reqs in
  exists q q', drain poll_request fuel i = Some (Ret (set_client_emu q (set_emu_client q' (set_user u i)))) /\
  sq_holds q [] /\ sq_holds q' rs'.
Proof.
  induction reqs as [|req reqs IH]; intros [|fuel] i rs Hq Hr Hs Hf; cbn [length] in Hf; try lia;
    destruct (sq_pop_holds _ _ Hq) as (q & E & Hq'); cbn in E, Hq'; cbn [serve_all];
    rewrite drain_S, (poll_request_pop _ _ _ E).
  - exists q, (emu_client i). split; [by destruct i|done].
  - apply Forall_cons in Hs as [Hreq Hs].
    pose proof (HandleRequest_serve req (set_client_emu q i) rs Hreq Hr) as H.
    destruct req as [id r]. cbn [fst snd] in H.
    change (config (set_client_emu q i)) with (config i) in H.
    change (user (set_client_emu q i)) with (user i) in H.
    destruct (serve (config i) (user i) (id, r)) as [u res]. destruct H as (q2 & -> & Hq2). cbn [obind].
    specialize (IH fuel (set_emu_client q2 (set_user u (set_client_emu q i))) _ Hq' Hq2 Hs ltac:(lia)).
    cbn [config user set_emu_client set_user set_client_emu] in IH.
    destruct (serve_all (config i) u (enqueue rs res) reqs) as [u' rs'].
    destruct IH as (q3 & q4 & -> & H3 & H4). exists q3, q4. done.
Qed.

(** One turn of the loop. *)
Lemma process_events_body_ok i rs reqs :
  sq_holds (emu_client i) rs -> sq_holds (client_emu i) reqs -> Forall servable reqs ->
  (length rs <= 1024)%nat -> (length reqs <= 1024)%nat ->
  match send_all rs (server i) with
  | Ret l =>
      let (u, rs') := serve_all (config i) (user i) [] reqs in
      exists q q', process_events_body i =
      Some (Ret (set_server l (set_client_emu q (set_emu_client q' (set_user u i))))) /\
      sq_holds q [] /\ sq_holds q' rs'
  | Throw e => process_events_body i = Some (Throw e)
  | Undef => process_events_body i = Some Undef
  end.
Proof.
  intros Hr Hq Hs Lr Lq. unfold process_events_body.
  assert (length rs < queue_fuel /\ length reqs < queue_fuel)%nat as [Fr Fq] by (unfold queue_fuel; lia).
  pose proof (drain_responses rs queue_fuel i Hr Fr) as H1.
  destruct (send_all rs (server i)) as [l| |]; [|by rewrite H1..].
  destruct H1 as (q1 & -> & Hq1).
  pose proof (drain_requests reqs queue_fuel (set_server l (set_emu_client q1 i)) [] Hq Hq1 Hs Fq) as H2.
  cbn [config user set_emu_client set_server] in H2.
  destruct (serve_all (config i) (user i) [] reqs) as [u rs'].
  destruct H2 as (q & q' & -> & H3 & H4). exists q, q'. done.
Qed.

(** C32: one turn of the loop of [ProcessEvents] on queues that hold at most
    their capacity, without interference. It ends; it sends every response that
    was queued, oldest first; it serves every request in the order they came;
    and it leaves the requests empty and their responses queued for the next
    turn, as far as there is room for them. *)
Theorem process_events_body_spec i rs reqs :
  sq_holds (emu_client i) rs -> sq_holds (client_emu i) reqs -> Forall servable reqs ->
  (length rs <= 1024)%nat -> (length reqs <= 1024)%nat ->
  match send_all rs (server i) with
  | Ret l =>
      let (u, rs') := serve_all (config i) (user i) [] reqs in
      exists q q', process_events_body i =
      Some (Ret (set_server l (set_client_emu q (set_emu_client q' (set_user u i))))) /\
      sq_holds q [] /\ sq_holds q' rs'
  | Throw e => process_events_body i = Some (Throw e)
  | Undef => process_events_body i = Some Undef
  end.
Proof. apply process_events_body_ok. Qed.

(** ** The emulator thread *)

Lemma push_requests_holds reqs : forall q l,
  sq_holds q l -> (length l <= 1024)%nat ->
  sq_holds (push_requests reqs q) (take 1024 (l ++ reqs)).
Proof.
  induction reqs as [|r reqs IH]; intros q l Hq Hl.
  - rewrite app_nil_r, firstn_all2 by done. done.
  - unfold push_requests. cbn [foldl].
    destruct (sq_push_holds r q l Hq) as (q' & E & Hq'). rewrite E. cbn [snd].
    destruct (Nat.ltb_spec (length l) 1024) as [Hlt|Hge].
    + replace (l ++ r :: reqs) with ((l ++ [r]) ++ reqs) by (by rewrite <- app_assoc).
      apply IH; [done|]. rewrite length_app. cbn. lia.
    + rewrite take_app_le by lia. rewrite <- (take_app_le l reqs) by lia. by apply IH.
Qed.

Lemma process_returns req : Request.method_matches (snd req) = true -> exists b, process req = Ret b.
Proof.
  destruct req as [id r]. unfold process, Request.method_matches. cbn [snd].
  destruct (Request.method (Request.base_packet r)); eauto. destruct r; cbn; try done; eauto.
Qed.

Lemma consume_process reqs :
  Forall (fun req => Request.method_matches (snd req) = true) reqs ->
  foldl (fun (r : cpp unit) req => let* _ := r in let* _ := process req in Ret tt) (Ret tt) reqs = Ret tt.
Proof.
  induction 1 as [|req reqs H _ IH]; [done|]. cbn [foldl].
  destruct (process_returns req H) as [b E]. cbn [obind]. rewrite E. exact IH.
Qed.

(** No callback has been installed. *)
Definition no_callbacks (i : Impl) : Prop := forall t, default [] (callbacks i !! t) = [].

Lemma HandleTiming_eq t arrivals i reqs :
  no_callbacks i -> sq_holds (client_emu i) reqs ->
  Forall (fun req => Request.method_matches (snd req) = true) reqs ->
  exists q, sq_holds q [] /\
  let i' := set_client_emu q (set_callbacks (<[t := []]> (callbacks i)) i) in
  HandleTiming t arrivals i =
  if blocking_emu i then
    match blocked_loop arrivals q with
    | Some (Ret q) => Some (Ret (set_client_emu q i'))
    | Some (Throw e) => Some (Throw e)
    | Some Undef => Some Undef
    | None => None
    end
  else Some (Ret i').
Proof.
  intros Hn Hq Hm. unfold HandleTiming. rewrite (Hn t). cbn [run_callbacks client_emu set_callbacks].
  destruct (sq_consume_all_holds (fun (r : cpp unit) req => let* _ := r in let* _ := process req in Ret tt)
          (Ret tt) _ _ Hq) as (q & -> & Hq').
  rewrite consume_process by done. exists q. split; [done|]. done.
Qed.

(** Every [OnFrameEnd] and [OnMemoryAccess] of the host empties the queue
    of requests: the requests that the server thread has not popped yet are
    neither served nor answered, and nothing else changes. *)
Theorem HandleTiming_discards t arrivals i reqs rs :
  no_callbacks i -> blocking_emu i = false ->
  sq_holds (client_emu i) reqs -> sq_holds (emu_client i) rs ->
  Forall (fun req => Request.method_matches (snd req) = true) reqs ->
  exists i', HandleTiming t arrivals i = Some (Ret i') /\ no_callbacks i' /\
  sq_holds (client_emu i') [] /\ sq_holds (emu_client i') rs /\
  user i' = user i /\ server i' = server i.
Proof.
  intros Hn Hb Hq Hr Hm. destruct (HandleTiming_eq t arrivals i reqs Hn Hq Hm) as (q & Hq' & ->).
  rewrite Hb. eexists. split; [done|]. split; [|done].
  intros t'. cbn. destruct (decide (t' = t)) as [->|Hne].
  - by rewrite lookup_insert_eq.
  - rewrite lookup_insert_ne by done. apply Hn.
Qed.

(** The wait for a [Continue] command. It ends as soon as no request is
    queued; a request that is alone in the queue, a [Continue] like any other,
    is thrown away and the wait goes on; and two requests in the queue are
    written past the one [message], which is undefined behaviour. *)
Theorem HandleTiming_blocking t arrivals i reqs :
  no_callbacks i -> blocking_emu i = true -> sq_holds (client_emu i) reqs ->
  Forall (fun req => Request.method_matches (snd req) = true) reqs ->
  (exists i', HandleTiming t ([] :: arrivals) i = Some (Ret i') /\ sq_holds (client_emu i') [] /\
    user i' = user i /\ server i' = server i) /\
  (forall r, Request.method_matches (snd r) = true -> HandleTiming t [[r]] i = None) /\
  (forall r1 r2 more, HandleTiming t ((r1 :: r2 :: more) :: arrivals) i = Some Undef).
Proof.
  intros Hn Hb Hq Hm.
  split; [|split].
  - destruct (HandleTiming_eq t ([] :: arrivals) i reqs Hn Hq Hm) as (q & Hq' & ->). rewrite Hb.
    cbn [blocked_loop push_requests foldl].
    destruct (sq_pop_to_output_iterator_holds q [] Hq') as (q' & -> & Hq2).
    eexists. split; [done|]. done.
  - intros r Hr. destruct (HandleTiming_eq t [[r]] i reqs Hn Hq Hm) as (q & Hq' & ->). rewrite Hb.
    cbn [blocked_loop].
    pose proof (push_requests_holds [r] q [] Hq' ltac:(cbn; lia)) as Hp. cbn [app take firstn] in Hp.
    destruct (sq_pop_to_output_iterator_holds _ _ Hp) as (q' & -> & Hq2).
    by destruct (process_returns r Hr) as [b ->].
  - intros r1 r2 more.
    destruct (HandleTiming_eq t ((r1 :: r2 :: more) :: arrivals) i reqs Hn Hq Hm) as (q & Hq' & ->). rewrite Hb.
    cbn [blocked_loop].
    pose proof (push_requests_holds (r1 :: r2 :: more) q [] Hq' ltac:(cbn; lia)) as Hp.
    destruct (sq_pop_to_output_iterator_holds _ _ Hp) as (q' & -> & Hq2). done.
Qed.
End Impl.

(** ** Instances for the witnesses *)

#[local] Existing Instance sample_serializer.

(** A host whose memory is a list of bytes. *)
Definition sample_config : Config bytes := {|
  user_data := [10; 11; 12; 13; 14; 15; 16; 17; 18; 19; 20; 21; 22; 23; 24; 25; 26; 27; 28; 29];
  memory_read_callback u address size out := (u, map (wrap 8) (take (Z.to_nat size) (drop (Z.to_nat address) u)));
  memory_write_callback u address size data :=
    take (Z.to_nat address) u ++ data ++ drop (Z.to_nat (address + size)) u;
  gpu_read_callback u field out := (u, out);
  gpu_write_callback u field size data := u;
  special_read_callback u field out := (u, out);
  special_write_callback u field size data := u;
  save_state_callback u slot := (u, false);
  load_state_callback u slot := (u, false);
  load_rom_callback u filename := (u, false);
  create_overlay_callback u bg_color x y width height := (u, false);
  draw_overlay_text_callback u color x y text := (u, false);
  enable_memory_access_timing := true;
  enable_gpu_access_timing := false;
  enable_special_access_timing := false
|}.

Definition sample_allocator (n : Z) : bool := n <? 2 ^ 32.

(** The request that [sample_serializer] reads from [[7]]. *)
Definition sample_request : Request.AnyPacket :=
  Request.AMemoryRead (Request.new_memory_read 7 Request.Immediate Request.NonBlocking Request.Once 16 4).

Definition sample_impl : @Impl ringbuffer multi_buffer bytes :=
  set_server sample_listener (new_EmuRPC sample_config false true).

Lemma sample_servable id : servable sample_allocator (id, sample_request).
Proof. split; [reflexivity|]. intros _. split; reflexivity. Qed.

Lemma HandleRequest_spec_witness :
  exists q, HandleRequest sample_allocator 3 sample_request sample_impl =
      Ret (set_emu_client q (set_user (user_data sample_config) sample_impl)) /\
    sq_holds q [(3, Response.AMemoryRead (Response.new_memory_read 7 [26; 27; 28; 29]))].
Proof.
  exact (HandleRequest_spec sample_allocator 3 sample_request sample_impl [] (sample_servable 3) sq_new_holds).
Defined.

(** The state after [sample_request] and the others have been queued. *)
Definition with_requests (reqs : list ClientRequest) : @Impl ringbuffer multi_buffer bytes :=
  set_client_emu (push_requests reqs sq_new) sample_impl.

Lemma with_requests_holds reqs : (length reqs <= 1024)%nat ->
  sq_holds (client_emu (with_requests reqs)) reqs.
Proof.
  intros H. pose proof (push_requests_holds (Q := ringbuffer) reqs sq_new [] sq_new_holds) as Hp.
  rewrite firstn_all2 in Hp by done. apply Hp. cbn. lia.
Qed.

Definition huge_read : Request.MemoryRead :=
  Request.new_memory_read 1 Request.Immediate Request.NonBlocking Request.Once 0 (2 ^ 63).

Lemma ProcessEvents_huge_read_witness :
  ProcessEvents sample_allocator 1 (with_requests [(0, Request.AMemoryRead huge_read)]) =
    Some (Throw std_length_error).
Proof.
  apply (ProcessEvents_huge_read sample_allocator 0 huge_read (with_requests [(0, Request.AMemoryRead huge_read)]) [] 0);
    [reflexivity|reflexivity|apply sq_new_holds|apply with_requests_holds; cbn; lia|].
  unfold huge_read. cbn. lia.
Defined.

Lemma process_events_body_spec_witness :
  exists q q', process_events_body sample_allocator (with_requests [(3, sample_request)]) =
      Some (Ret (set_server sample_listener (set_client_emu q (set_emu_client q'
        (set_user (user_data sample_config) (with_requests [(3, sample_request)])))))) /\
    sq_holds q [] /\
    sq_holds q' [(3, Response.AMemoryRead (Response.new_memory_read 7 [26; 27; 28; 29]))].
Proof.
  refine (process_events_body_spec sample_allocator (with_requests [(3, sample_request)]) []
           [(3, sample_request)] sq_new_holds _ _ _ _).
  - apply with_requests_holds. cbn. lia.
  - apply Forall_singleton, sample_servable.
  - cbn. lia.
  - cbn. lia.
Defined.

Lemma HandleTiming_discards_witness :
  exists i', HandleTiming sample_allocator Request.FrameEnd [] (with_requests [(3, sample_request)]) = Some (Ret i') /\
    no_callbacks i' /\ sq_holds (client_emu i') [] /\ sq_holds (emu_client i') [] /\
    user i' = user_data sample_config /\ server i' = sample_listener.
Proof.
  refine (HandleTiming_discards sample_allocator Request.FrameEnd [] (with_requests [(3, sample_request)])
           [(3, sample_request)] [] _ _ _ sq_new_holds _).
  - intros t. reflexivity.
  - reflexivity.
  - apply with_requests_holds. cbn. lia.
  - by apply Forall_singleton.
Defined.

Lemma HandleTiming_blocking_witness :
  HandleTiming sample_allocator Request.FrameEnd [[(0, sample_request); (1, sample_request)]]
    (set_blocking true sample_impl) = Some Undef.
Proof.
  refine (proj2 (proj2 (HandleTiming_blocking sample_allocator Request.FrameEnd [] (set_blocking true sample_impl)
           [] _ _ sq_new_holds _)) (0, sample_request) (1, sample_request) []).
  - intros t. reflexivity.
  - reflexivity.
  - constructor.
Defined.
