(* ===== verification/System.v ===== *)
(** * The threads together

    The io thread ([ioc->run()]), the server thread ([Impl::ProcessEvents]) and
    the host's emulator thread ([OnFrameEnd], [OnMemoryAccess], [~EmuRPC]) as a
    step relation on the shared [Impl]. A step is one handler of the io thread,
    one evaluation of a [pop] with the body of its loop in the server thread, or
    one call of the host. An exception that leaves a thread ends the program, and
    so does undefined behaviour. *)

From Stdlib Require Import ZArith Lia String Ascii.
From stdpp Require Import base list gmap.
From S2P Require Import Prelude Exceptions RingBuffer MultiBuffer Protocol RpcServer EmuRpc.

(** Where the loop of [ProcessEvents] is. *)
Inductive server_pc := CheckStopped | PollResponses | PollRequests | Finished.

Section System.
Context {Q : Type -> Type} `{SQ : !SpscQueue Q 1024}.
Context {B : Type} `{DB : !DynamicBuffer B}.
Context `{PS : !ProtocolSerializer}.
Context {U : Type} (can_allocate : Z -> bool).

#[local] Abbreviation Impl := (@Impl Q B U).

(** The program, with the (client id, request id) pairs of the requests received
    and of the responses given to [Session::Send] so far. *)
Record system := mk_system {
  impl : Impl;
  pc : server_pc;
  received : list (Z * Z);
  sent : list (Z * Z)
}.

(** [Crashed]: [std::terminate] was called for an exception. *)
Inductive state :=
| Running (s : system)
| Crashed (e : exn)
| Undefined.

Definition finish {A} (m : cpp A) (k : A -> system) : state :=
  match m with
  | Ret a => Running (k a)
  | Throw e => Crashed e
  | Undef => Undefined
  end.

Definition request_key (r : ClientRequest) : Z * Z := (fst r, Request.id (Request.base_packet (snd r))).
Definition response_key (r : ClientResponse) : Z * Z := (fst r, Response.response_id (snd r)).

(** The response that the next [poll_response] takes from the queue. *)
Definition next_response (i : Impl) : list ClientResponse :=
  match sq_pop (emu_client i) with
  | Ret (Some r, _) => [r]
  | _ => []
  end.

(** The messages clients send. *)
Context (client : bytes -> Prop).

Definition from_client (ev : io_event) : Prop :=
  match ev with
  | EvRead _ _ msg => Z.of_nat (length msg) < 2 ^ 64 /\ (msg = [] \/ client msg)
  | _ => True
  end.

Inductive step : state -> state -> Prop :=
| step_io s ev m :
  from_client ev -> run_one ev (server (impl s)) (client_emu (impl s)) = Some m ->
  step (Running s)
    (finish m (fun '(l, q) =>
       mk_system (set_server l (set_client_emu q (impl s))) (pc s)
         (received s ++ map request_key (delivered ev (server (impl s)))) (sent s)))
| step_check s :
  pc s = CheckStopped ->
  step (Running s)
    (Running (mk_system (impl s) (if stopped (impl s) then Finished else PollResponses)
                (received s) (sent s)))
| step_response s :
  pc s = PollResponses ->
  Forall (fun r => memory_ok (snd r) (server (impl s))) (next_response (impl s)) ->
  step (Running s)
    (finish (poll_response (impl s)) (fun '(more, i) =>
       mk_system i (if more : bool then PollResponses else PollRequests) (received s)
         (sent s ++ map response_key (next_response (impl s)))))
| step_request s :
  pc s = PollRequests ->
  step (Running s)
    (finish (poll_request can_allocate (impl s)) (fun '(more, i) =>
       mk_system i (if more : bool then PollRequests else CheckStopped) (received s) (sent s)))
| step_timing s t arrivals m :
  HandleTiming can_allocate t arrivals (impl s) = Some m ->
  (blocking_emu (impl s) = false -> arrivals = []) ->
  step (Running s) (finish m (fun i => mk_system i (pc s) (received s) (sent s)))
| step_destroy s :
  step (Running s) (Running (mk_system (stop (impl s)) (pc s) (received s) (sent s))).

(** The states reached after [EmuRPC(conf)]. *)
Inductive system_reachable (conf : Config U) (indeterminate : bool) : state -> Prop :=
| reach_start open_ok :
  system_reachable conf indeterminate
    (Running (mk_system (new_EmuRPC conf indeterminate open_ok) CheckStopped [] []))
| reach_step st st' :
  system_reachable conf indeterminate st -> step st st' ->
  system_reachable conf indeterminate st'.

(** ** The invariant of the program *)

(** What the server relies on: a packet deserialized from what a client sends is
    of the class its method says, and its members are in the range of their
    types. *)
Definition request_ok (p : Request.AnyPacket) : Prop :=
  Request.method_matches p = true /\ Request.any_packet_wf p.

Definition deserializer_ok : Prop :=
  forall msg p, client msg -> DeserializeRequest msg = Ret p -> request_ok p.

(** The responses the server makes. *)
Definition answer (p : Response.AnyPacket) : Prop :=
  (exists i data, p = Response.AMemoryRead (Response.new_memory_read i data) /\ u32 i /\ Forall u8 data) \/
  (exists i, p = Response.AMemoryWrite (Response.new_memory_write i) /\ u32 i).

Context (conf : Config U) (indeterminate : bool).

(** The read callback leaves bytes in the buffer it is given. *)
Definition host_ok : Prop :=
  forall u address len data, Forall u8 data -> Forall u8 (snd (memory_read_callback conf u address len data)).

(** The queues hold requests of the right classes and responses that the server
    makes, and the keys of what was
    sent, what is queued to be sent and what is queued to be served are a
    subsequence of the keys of what was received. *)
Record queues_inv (i : Impl) (received sent : list (Z * Z)) (rs : list ClientResponse)
  (reqs : list ClientRequest) : Prop := mk_queues_inv {
    q_responses : sq_holds (emu_client i) rs;
    q_requests : sq_holds (client_emu i) reqs;
    q_classes : Forall (fun r => request_ok (snd r)) reqs;
    q_answers : Forall (fun r => answer (snd r)) rs;
    q_keys : sublist (sent ++ map response_key rs ++ map request_key reqs) received
  }.

Record system_inv (s : system) : Prop := mk_system_inv {
  s_config : config (impl s) = conf;
  s_blocking : blocking_emu (impl s) = indeterminate;
  s_callbacks : no_callbacks (impl s);
  s_server : server_inv (server (impl s));
  s_writes : writes_ok (server (impl s));
  s_queues : exists rs reqs, queues_inv (impl s) (received s) (sent s) rs reqs
}.

Lemma start_inv open_ok : system_inv (mk_system (new_EmuRPC conf indeterminate open_ok) CheckStopped [] []).
Proof.
  split; try done.
  - apply new_server_inv.
  - intros i s Hi. destruct open_ok; cbn in Hi; by rewrite lookup_nil in Hi.
  - exists [], []. split; cbn; try constructor; apply sq_new_holds.
Qed.

Lemma io_inv s ev l q reqs' :
  system_inv s -> deserializer_ok -> from_client ev -> server_inv l -> writes_ok l ->
  (forall rs reqs, queues_inv (impl s) (received s) (sent s) rs reqs ->
    sq_holds q (enqueue_requests reqs reqs')) ->
  reqs' = delivered ev (server (impl s)) ->
  system_inv (mk_system (set_server l (set_client_emu q (impl s))) (pc s)
            (received s ++ map request_key reqs') (sent s)).
Proof.
  intros [H1 H2 H3 H4 H5 (rs & reqs & Hqs)] Hd Hev Hl Hw Hq ->. split; try done.
  specialize (Hq rs reqs Hqs). destruct Hqs as [Q1 Q2 Q3 Qa Q4].
  exists rs, (enqueue_requests reqs (delivered ev (server (impl s)))).
  split; try done; cbn; unfold enqueue_requests; destruct (_ <? _)%nat; try done.
  - apply Forall_app. split; [done|].
    destruct ev as [| |i ec [|x msg]|]; cbn; try done.
    destruct (objects _ !! i); [|done]. destruct (DeserializeRequest (x :: msg)) eqn:E; try done.
    constructor; [|done]. destruct Hev as [_ [?|Hc]]; [done|]. by apply (Hd (x :: msg)).
  - rewrite map_app, !app_assoc. apply sublist_app; [|done]. by rewrite <- !app_assoc.
  - by apply sublist_inserts_r.
Qed.

Lemma response_inv s l q id packet rs reqs :
  system_inv s -> queues_inv (impl s) (received s) (sent s) ((id, packet) :: rs) reqs ->
  server_inv l -> writes_ok l -> sq_holds q rs ->
  system_inv (mk_system (set_server l (set_emu_client q (impl s))) PollResponses (received s)
            (sent s ++ map response_key [(id, packet)])).
Proof.
  intros [H1 H2 H3 H4 H5 _] [Q1 Q2 Q3 Qa Q4] Hl Hw Hq. split; try done.
  exists rs, reqs. split; try done; [exact (Forall_inv_tail Qa)|]. cbn in *. by rewrite <- app_assoc.
Qed.

Lemma request_inv s q q' u res req rs reqs :
  system_inv s -> queues_inv (impl s) (received s) (sent s) rs (req :: reqs) ->
  sq_holds q reqs -> sq_holds q' (enqueue rs res) ->
  (forall r, res = Some r -> response_key r = request_key req /\ answer (snd r)) ->
  system_inv (mk_system (set_emu_client q' (set_user u (set_client_emu q (impl s)))) PollRequests
            (received s) (sent s)).
Proof.
  intros [H1 H2 H3 H4 H5 _] [Q1 Q2 Q3 Qa Q4] Hq Hq' Hk. split; try done.
  apply Forall_cons in Q3 as [_ Q3]. exists (enqueue rs res), reqs. split; try done.
  { unfold enqueue. destruct res as [r|]; [destruct (_ <? _)%nat|]; try done.
    apply Forall_app. split; [done|]. constructor; [by apply Hk|done]. }
  cbn [map] in *.
  etransitivity; [|exact Q4]. apply sublist_app; [done|].
  unfold enqueue. destruct res as [r|]; [destruct (_ <? _)%nat|].
  - rewrite map_app, <- app_assoc. cbn. by rewrite (proj1 (Hk r eq_refl)).
  - by apply sublist_app, sublist_cons.
  - by apply sublist_app, sublist_cons.
Qed.

Lemma stop_inv s : system_inv s -> system_inv (mk_system (stop (impl s)) (pc s) (received s) (sent s)).
Proof.
  intros [H1 H2 H3 H4 H5 (rs & reqs & [Q1 Q2 Q3 Qa Q4])]. split; try done. by exists rs, reqs.
Qed.

(** What can end the program: a message the deserializer rejects, a response
    the serializer rejects, and a read that cannot be allocated. *)
Definition crash_cause (e : exn) : Prop :=
  (exists msg, client msg /\ DeserializeRequest msg = Throw e) \/
  (exists p, answer p /\ SerializeResponse p = Throw e) \/ e = std_length_error \/ e = std_bad_alloc.

(** A read that brought no bytes ends normally. *)
Lemma empty_read_returns i ec l q m :
  server_inv l -> run_one (EvRead i ec []) l q = Some m -> exists a, m = Ret a.
Proof.
  intros Hinv Hrun. cbn in Hrun. destruct (complete is_read i l) as [s|] eqn:Ec; [|done]. cbn in Hrun.
  destruct (complete_spec _ _ _ _ Ec) as (s1 & ops & Hi & _ & ->). injection Hrun as <-.
  destruct (receive_ok [] (mk_session (session_id s1) (read_buffer s1) (write_buffer s1) (send_data s1) ops))
    as (b & Eb & Hb'); [exact (inv_read _ Hinv i s1 Hi)|done|].
  rewrite Eb. cbn. eauto.
Qed.

(** The response to a request that may be served. *)
Lemma serve_answer u id r res :
  host_ok -> request_ok r -> snd (serve conf u (id, r)) = Some res -> answer (snd res).
Proof.
  intros Hh [_ [Hid _]]. unfold serve. destruct r as [|p|p| |], (Request.method _); cbn in *; try done.
  - pose proof (Hh u (Request.mr_address p) (Request.mr_length p) (replicate (Z.to_nat (Request.mr_length p)) 0)) as Hb.
    destruct (memory_read_callback _ _ _ _ _) as [u' data]. cbn in *. intros [= <-]. left. do 2 eexists.
    split; [done|]. split; [done|]. apply Hb, Forall_replicate. done.
  - intros [= <-]. right. by eexists.
Qed.

(** One step of a program that keeps its invariant. *)
Lemma step_inv s st :
  system_inv s -> deserializer_ok -> host_ok -> indeterminate = false ->
  (forall msg, client msg -> DeserializeRequest msg <> Undef) ->
  (forall p, answer p -> SerializeResponse p <> Undef) ->
  step (Running s) st ->
  match st with Running s' => system_inv s' | Crashed e => crash_cause e | Undefined => False end.
Proof.
  intros Hinv Hd Hh Hb Hcl Hser Hstep. pose proof Hinv as [H1 H2 H3 H4 H5 (rs & reqs & Hqs)].
  pose proof Hqs as [Q1 Q2 Q3 Qa Q4].
  inversion Hstep as [? ev m Hev Hrun|? Hpc|? Hpc Hmem|? Hpc|? t arrivals m Ht Ha|?]; subst.
  - assert (event_ok ev) as Hok by (destruct ev; [done..|exact (proj1 Hev)|done]).
    pose proof (run_one_outcome ev _ _ reqs m H4 H5 Hok Q2 Hrun) as Ho.
    assert (forall i ec msg, ev = EvRead i ec msg -> (exists a, m = Ret a) \/ client msg) as Hmsg.
    { intros i ec msg ->. destruct Hev as [_ [->|Hc]]; [left|by right]. by eapply empty_read_returns. }
    destruct m as [[l q]|e|]; cbn.
    + destruct Ho as (Ho1 & Ho2 & _). eapply io_inv; try done. intros rs' reqs2 Hqs'.
      by apply (run_one_outcome ev _ _ reqs2 _ H4 H5 Hok (q_requests _ _ _ _ _ Hqs') Hrun).
    + destruct Ho as (i & ec & msg & E & Ed). destruct (Hmsg i ec msg E) as [[? ?]|Hc]; [done|]. left. eauto.
    + destruct Ho as (i & ec & msg & E & Ed). destruct (Hmsg i ec msg E) as [[? ?]|Hc]; [done|].
      by apply (Hcl msg).
  - split; try done. exists rs, reqs. by split.
  - destruct (sq_pop_holds _ _ Q1) as (q & E & Hq).
    rewrite (poll_response_pop _ _ _ E). unfold next_response in Hmem |- *. rewrite E in *.
    destruct rs as [|[id packet] rs]; cbn [head tail] in *.
    + cbn. rewrite app_nil_r. split; try done. exists [], reqs. by split.
    + apply Forall_cons in Hmem as [Hmem _]. cbn [snd] in Hmem.
      pose proof (SendResponse_outcome id packet _ H4 H5 Hmem) as Ho.
      destruct (SendResponse id packet (server (impl s))) as [l|e|]; cbn;
        [|right; left; exists packet; split; [exact (Forall_inv Qa)|done]|by apply (Hser packet); [exact (Forall_inv Qa)|]].
      destruct Ho as [Ho1 Ho2]. by eapply response_inv.
  - destruct (sq_pop_holds _ _ Q2) as (q & E & Hq). rewrite (poll_request_pop _ _ _ _ E).
    destruct reqs as [|[id r] reqs]; cbn [head tail] in *.
    + cbn. split; try done. exists rs, []. by split.
    + apply Forall_cons in Q3 as [Hr Q3']. cbn [snd] in Hr.
      destruct (HandleRequest_throws can_allocate id r (set_client_emu q (impl s)) (proj1 Hr)) as [Hsv|[-> | ->]];
        [|unfold crash_cause; cbn; auto..].
      pose proof (HandleRequest_serve can_allocate (id, r) (set_client_emu q (impl s)) rs Hsv Q1) as Hs.
      pose proof (serve_key (config (set_client_emu q (impl s))) (user (set_client_emu q (impl s))) id r) as Hk.
      pose proof (fun res => serve_answer (user (set_client_emu q (impl s))) id r res Hh Hr) as Ha.
      change (config (set_client_emu q (impl s))) with (config (impl s)) in *. rewrite H1 in *.
      destruct (serve _ _ (id, r)) as [u res]. cbn [fst snd] in Hs. destruct Hs as (q' & -> & Hq'). cbn.
      eapply request_inv; try done. intros [rid rp] ->. destruct (Hk _ eq_refl) as [E1 E2]. cbn in E1, E2.
      split; [|exact (Ha _ eq_refl)]. unfold response_key, request_key. cbn. by rewrite E1, E2.
  - assert (Forall (fun r => Request.method_matches (snd r) = true) reqs) as Hm by by (eapply Forall_impl; [exact Q3|]; intros r []).
    destruct (HandleTiming_eq can_allocate t arrivals (impl s) reqs H3 Q2 Hm) as (q & Hq & E).
    rewrite E, H2, Hb in Ht. injection Ht as <-. cbn.
    split; try done.
    + intros t'. cbn. destruct (decide (t' = t)) as [->|Hne].
      * by rewrite lookup_insert_eq.
      * rewrite lookup_insert_ne by done. apply H3.
    + exists rs, []. split; try done. etransitivity; [|exact Q4]. cbn. rewrite app_nil_r.
      by apply sublist_app, sublist_inserts_r.
  - by apply stop_inv.
Qed.

(** ** The properties of the program *)

(** The program starts with [blocking_emu] false, and clients send what the
    deserializer can read or rejects. *)
Record good_start : Prop := mk_good_start {
  g_blocking : indeterminate = false;
  g_classes : deserializer_ok;
  g_client : forall msg, client msg -> DeserializeRequest msg <> Undef;
  g_host : host_ok;
  g_serializer : forall p, answer p -> SerializeResponse p <> Undef
}.

Lemma reachable_inv st :
  good_start -> system_reachable conf indeterminate st ->
  match st with Running s => system_inv s | Crashed e => crash_cause e | Undefined => False end.
Proof.
  intros [G1 G2 G3 G4 G5]. induction 1 as [open_ok|st st' _ IH Hstep]; [apply start_inv|].
  destruct st as [s| |]; [|by inversion Hstep..]. by eapply step_inv.
Qed.



(** The only exceptions that end the program are the ones the serializer
    throws for a message or a response and the failed allocations of a read. *)
Theorem crashes_are_caused e :
  good_start -> system_reachable conf indeterminate (Crashed e) -> crash_cause e.
Proof. intros Hg Hr. exact (reachable_inv (Crashed e) Hg Hr). Qed.

(** ** A request and its response *)

(** An event of the io thread on the shared state. *)
Definition deliver (ev : io_event) (i : Impl) : option (cpp Impl) :=
  m ← run_one ev (server i) (client_emu i);
  Some (let* (l, q) := m in Ret (set_server l (set_client_emu q i))).

(** The client of the session [n] is connected, waits for no other response,
    and nothing is queued. *)
Record idle_client (n : nat) (s : Session B) (i : Impl) : Prop := mk_idle {
  id_session : objects (server i) !! n = Some s;
  id_entry : sessions (server i) !! session_id s = Some (Some n);
  id_pending : pending s = [AsyncRead];
  id_read : db_holds (read_buffer s) [];
  id_write : db_holds (write_buffer s) [];
  id_requests : sq_holds (client_emu i) [];
  id_responses : sq_holds (emu_client i) []
}.

Lemma SendResponse_to n s l packet data :
  objects l !! n = Some s -> sessions l !! session_id s = Some (Some n) -> pending s <> [] ->
  db_holds (write_buffer s) [] -> SerializeResponse packet = Ret data -> Z.of_nat (length data) < 2 ^ 64 ->
  exists l' s', SendResponse (session_id s) packet l = Ret l' /\ objects l' !! n = Some s' /\
  pending s' = pending s ++ [AsyncWrite data].
Proof.
  intros Hs He Hp Hw Hd Hl.
  destruct (Send_holds packet s [] data Hw Hd) as (s' & Es & _ & _ & Ep & _); [cbn; lia|].
  unfold SendResponse, ListenerSend. rewrite He. cbn [default id lock objects]. rewrite Hs.
  rewrite bool_decide_false by done. rewrite Es. cbn [obind].
  eexists _, s'. split; [done|]. split; [|done]. cbn. apply list_lookup_insert_eq. by eapply lookup_lt_Some.
Qed.

(** Receiving one request from an idle client. *)
Lemma deliver_request n s i ec x msg p :
  idle_client n s i -> Z.of_nat (length (x :: msg)) < 2 ^ 64 -> DeserializeRequest (x :: msg) = Ret p ->
  exists i1 s1, deliver (EvRead n ec (x :: msg)) i = Some (Ret i1) /\
  objects (server i1) !! n = Some s1 /\ session_id s1 = session_id s /\ pending s1 = [AsyncRead] /\
  db_holds (write_buffer s1) [] /\
  sessions (server i1) !! session_id s = Some (Some n) /\
  sq_holds (client_emu i1) [(session_id s, p)] /\ emu_client i1 = emu_client i /\
  config i1 = config i /\ user i1 = user i /\ callbacks i1 = callbacks i /\
  blocking_emu i1 = blocking_emu i.
Proof.
  intros [H1 H2 H3 H4 H5 H6 H7] Hl Hd.
  assert (take_op is_read (pending s) = Some []) as Ht by (by rewrite H3).
  pose proof (run_one_read n ec (x :: msg) (server i) s [] (client_emu i) [] H1 Ht H4 Hl H6) as H.
  cbv zeta in H. rewrite Hd in H. destruct H as (s' & q' & E & (E1 & E2 & E3 & E4) & Hq).
  unfold deliver. rewrite E. cbn. eexists _, s'. split; [done|]. cbn.
  rewrite list_lookup_insert_eq by (by eapply lookup_lt_Some). repeat split; try done. by rewrite E3.
Qed.

(** The two turns of the server thread after the request has arrived. *)
Lemma read_answered n s i ec x msg p out :
  idle_client n s i -> Z.of_nat (length (x :: msg)) < 2 ^ 64 ->
  DeserializeRequest (x :: msg) = Ret (Request.AMemoryRead p) ->
  Request.method (Request.mr_packet p) = Request.Method.MemoryRead ->
  Request.mr_length p < 2 ^ 63 -> can_allocate (Request.mr_length p) = true ->
  let (u, data) := memory_read_callback (config i) (user i) (Request.mr_address p) (Request.mr_length p)
                 (replicate (Z.to_nat (Request.mr_length p)) 0) in
  SerializeResponse (Response.AMemoryRead
    (Response.new_memory_read (Request.id (Request.mr_packet p)) data)) = Ret out ->
  Z.of_nat (length out) < 2 ^ 64 ->
  exists i1 i2 i3 s3, deliver (EvRead n ec (x :: msg)) i = Some (Ret i1) /\
  process_events_body can_allocate i1 = Some (Ret i2) /\
  process_events_body can_allocate i2 = Some (Ret i3) /\
  user i3 = u /\ objects (server i3) !! n = Some s3 /\ pending s3 = [AsyncRead; AsyncWrite out].
Proof.
  intros Hidle Hl Hd Hm Hlen Ha. pose proof (id_responses _ _ _ Hidle) as Hr0.
  destruct (deliver_request n s i ec x msg _ Hidle Hl Hd)
    as (i1 & s1 & E1 & Hs1 & Hid1 & Hp1 & Hw1 & He1 & Hq1 & Hr1 & Hc1 & Hu1 & _ & _).
  destruct (memory_read_callback _ _ _ _ _) as [u data] eqn:Ecb. intros Hser Hout.
  set (res := (session_id s, Response.AMemoryRead
    (Response.new_memory_read (Request.id (Request.mr_packet p)) data))).
  assert (servable can_allocate (session_id s, Request.AMemoryRead p)) as Hsv.
  { split; [|done]. unfold Request.method_matches. cbn. by rewrite Hm. }
  rewrite <- Hr1 in Hr0.
  pose proof (process_events_body_ok can_allocate i1 [] _ Hr0 Hq1 (proj2 (Forall_singleton _ _) Hsv)
    ltac:(cbn; lia) ltac:(cbn; lia)) as B1.
  cbn [send_all serve_all serve Request.base_packet] in B1. rewrite Hc1, Hu1, Hm, Ecb in B1.
  destruct B1 as (q & q' & B1 & Hq & Hq'). cbn [enqueue length Nat.ltb app] in Hq'.
  change (0 <? 1024)%nat with true in Hq'. cbn [app] in Hq'.
  match type of B1 with _ = Some (Ret ?x) => set (i2 := x) in * end.
  pose proof (process_events_body_ok can_allocate i2 [res] [] Hq' Hq (Forall_nil_2 _)
    ltac:(cbn; lia) ltac:(cbn; lia)) as B2.
  destruct (SendResponse_to n s1 (server i2) (snd res) out) as (l' & s3 & Es & Hs3 & Hp3);
    [done|by rewrite Hid1|by rewrite Hp1|done|done|done|].
  cbn [send_all] in B2. unfold res in B2, Es. rewrite Hid1 in Es. cbn [snd] in Es. rewrite Es in B2.
  cbn [obind serve_all] in B2. destruct B2 as (q3 & q4 & B2 & _ & _).
  do 4 eexists. split; [done|]. split; [done|]. split; [done|]. split; [done|].
  split; [exact Hs3|]. by rewrite Hp3, Hp1.
Qed.

(** C17: a memory_read of an idle client is answered. Once its message has
    arrived, two turns of the server thread call the read callback once, with
    the address and the length of the request, and start the write of the
    serialized response, with the id of the request, on the client's
    connection. *)
Theorem read_is_answered n s i ec x msg p out :
  idle_client n s i -> Z.of_nat (length (x :: msg)) < 2 ^ 64 ->
  DeserializeRequest (x :: msg) = Ret (Request.AMemoryRead p) ->
  Request.method (Request.mr_packet p) = Request.Method.MemoryRead ->
  Request.mr_length p < 2 ^ 63 -> can_allocate (Request.mr_length p) = true ->
  let (u, data) := memory_read_callback (config i) (user i) (Request.mr_address p) (Request.mr_length p)
                 (replicate (Z.to_nat (Request.mr_length p)) 0) in
  SerializeResponse (Response.AMemoryRead
    (Response.new_memory_read (Request.id (Request.mr_packet p)) data)) = Ret out ->
  Z.of_nat (length out) < 2 ^ 64 ->
  exists i1 i2 i3 s3, deliver (EvRead n ec (x :: msg)) i = Some (Ret i1) /\
  process_events_body can_allocate i1 = Some (Ret i2) /\
  process_events_body can_allocate i2 = Some (Ret i3) /\
  user i3 = u /\ objects (server i3) !! n = Some s3 /\ pending s3 = [AsyncRead; AsyncWrite out].
Proof. apply read_answered. Qed.

(** The same memory_read is lost when the host's [OnFrameEnd] or
    [OnMemoryAccess] runs between its arrival and the turn of the server
    thread: the callback is not called, no response is ever written, and the
    queues are empty again. *)
Theorem frame_end_loses_read n s i ec x msg p t arrivals :
  idle_client n s i -> Z.of_nat (length (x :: msg)) < 2 ^ 64 ->
  DeserializeRequest (x :: msg) = Ret p -> Request.method_matches p = true ->
  no_callbacks i -> blocking_emu i = false ->
  exists i1 i2 i3 s3, deliver (EvRead n ec (x :: msg)) i = Some (Ret i1) /\
  HandleTiming can_allocate t arrivals i1 = Some (Ret i2) /\
  process_events_body can_allocate i2 = Some (Ret i3) /\
  user i3 = user i /\ objects (server i3) !! n = Some s3 /\ pending s3 = [AsyncRead] /\
  sq_holds (client_emu i3) [] /\ sq_holds (emu_client i3) [].
Proof.
  intros Hidle Hl Hd Hm Hn Hb. pose proof (id_responses _ _ _ Hidle) as Hr0.
  destruct (deliver_request n s i ec x msg _ Hidle Hl Hd)
    as (i1 & s1 & E1 & Hs1 & Hid1 & Hp1 & Hw1 & He1 & Hq1 & Hr1 & Hc1 & Hu1 & Hcb1 & Hb1).
  assert (no_callbacks i1) as Hn1 by (intros t'; rewrite Hcb1; apply Hn).
  destruct (HandleTiming_eq can_allocate t arrivals i1 _ Hn1 Hq1 (proj2 (Forall_singleton _ (session_id s, p)) Hm))
    as (q & Hq & E2). rewrite Hb1, Hb in E2. cbv zeta in E2.
  match type of E2 with _ = Some (Ret ?x) => set (i2 := x) in * end.
  assert (sq_holds (emu_client i2) []) as Hr2 by (cbn; by rewrite Hr1).
  pose proof (process_events_body_ok can_allocate i2 [] [] Hr2 Hq (Forall_nil_2 _)
    ltac:(cbn; lia) ltac:(cbn; lia)) as B2.
  cbn [send_all serve_all] in B2. destruct B2 as (q3 & q4 & B2 & H3 & H4).
  exists i1, i2. do 2 eexists. split; [done|]. split; [done|]. split; [done|]. cbn.
  split; [done|]. split; [done|]. done.
Qed.

(** ** Shutdown *)

(** The next step of the server thread. *)
Definition server_step (s : system) : state :=
  match pc s with
  | CheckStopped =>
      Running (mk_system (impl s) (if stopped (impl s) then Finished else PollResponses) (received s) (sent s))
  | PollResponses =>
      finish (poll_response (impl s)) (fun '(more, i) =>
        mk_system i (if more : bool then PollResponses else PollRequests) (received s)
        (sent s ++ map response_key (next_response (impl s))))
  | PollRequests =>
      finish (poll_request can_allocate (impl s)) (fun '(more, i) =>
        mk_system i (if more : bool then PollRequests else CheckStopped) (received s) (sent s))
  | Finished => Running s
  end.

Fixpoint server_steps (n : nat) (st : state) : state :=
  match n, st with
  | S n, Running s => server_steps n (server_step s)
  | _, _ => st
  end.

(** Whether the server thread has ended, normally or not. *)
Definition ended (st : state) : Prop :=
  match st with Running s => pc s = Finished | _ => True end.

(** The steps a stopped server thread still makes. *)
Definition steps_left (pc : server_pc) (rs reqs : nat) : nat :=
  match pc with
  | PollResponses => rs + reqs + 3
  | PollRequests => reqs + 2
  | CheckStopped => 1
  | Finished => 0
  end.

Lemma server_steps_end n : forall st, ended st -> ended (server_steps n st).
Proof.
  induction n as [|n IH]; intros st H; [by destruct st|].
  destruct st as [s| |]; [|done..]. cbn. apply IH. unfold server_step. cbn in H. by rewrite H.
Qed.

Lemma stopped_server_ends n : forall s rs reqs,
  stopped (impl s) = true -> sq_holds (emu_client (impl s)) rs -> sq_holds (client_emu (impl s)) reqs ->
  Forall (fun r => Request.method_matches (snd r) = true) reqs ->
  (steps_left (pc s) (length rs) (length reqs) <= n)%nat ->
  ended (server_steps n (Running s)).
Proof.
  induction n as [|n IH]; intros s rs reqs Hst Hr Hq Hm Hn.
  { destruct (pc s) eqn:E; cbn in Hn; try lia. exact E. }
  cbn [server_steps]. unfold server_step. destruct (pc s) eqn:E; cbn in Hn.
  - rewrite Hst. by apply server_steps_end.
  - destruct (sq_pop_holds _ _ Hr) as (q & Eq & Hq'). rewrite (poll_response_pop _ _ _ Eq).
    destruct rs as [|[id packet] rs]; cbn [head tail length] in *.
    + cbn [finish]. eapply (IH _ [] reqs); try done. cbn. lia.
    + destruct (SendResponse id packet (server (impl s))) as [l| |]; cbn [obind finish];
        try (apply server_steps_end; done).
      eapply (IH _ rs reqs); try done. cbn. lia.
  - destruct (sq_pop_holds _ _ Hq) as (q & Eq & Hq'). rewrite (poll_request_pop _ _ _ _ Eq).
    destruct reqs as [|[id r] reqs]; cbn [head tail length] in *.
    + cbn [finish]. eapply (IH _ rs []); try done. cbn. lia.
    + apply Forall_cons in Hm as [Hr1 Hm].
      destruct (HandleRequest_throws can_allocate id r (set_client_emu q (impl s)) Hr1) as [Hsv|[-> | ->]];
        [|cbn [obind finish]; by apply server_steps_end..].
      pose proof (HandleRequest_serve can_allocate (id, r) (set_client_emu q (impl s)) rs Hsv Hr) as Hs.
      destruct (serve _ _ (id, r)) as [u res]. cbn [fst snd] in Hs. destruct Hs as (q' & -> & Hq2).
      cbn [obind finish]. eapply (IH _ (enqueue rs res) reqs); try done. cbn. lia.
  - by apply server_steps_end.
Qed.

(** ** Runs *)

(** What happens in a run: events of the io thread and steps of the server. *)
Inductive happening := IoEvent (ev : io_event) | ServerStep.

Definition happen (h : happening) (st : state) : state :=
  match st with
  | Running s =>
      match h with
      | IoEvent ev =>
          match run_one ev (server (impl s)) (client_emu (impl s)) with
          | Some m =>
              finish m (fun '(l, q) =>
                mk_system (set_server l (set_client_emu q (impl s))) (pc s)
                (received s ++ map request_key (delivered ev (server (impl s)))) (sent s))
          | None => st
          end
      | ServerStep => server_step s
      end
  | _ => st
  end.

(** No response is sent by this step. *)
Definition sends_nothing (h : happening) (st : state) : Prop :=
  match h, st with
  | ServerStep, Running s => pc s = PollResponses -> next_response (impl s) = []
  | IoEvent ev, _ => from_client ev
  | _, _ => True
  end.

Lemma happen_reachable h st :
  system_reachable conf indeterminate st -> sends_nothing h st -> system_reachable conf indeterminate (happen h st).
Proof.
  intros Hr Hs. destruct st as [s| |]; [|done..]. destruct h as [ev|]; cbn [happen].
  - destruct (run_one ev _ _) as [m|] eqn:E; [|done]. eapply reach_step; [exact Hr|]. by apply step_io.
  - unfold server_step. cbn in Hs. destruct (pc s) eqn:E.
    + eapply reach_step; [exact Hr|]. by apply step_check.
    + eapply reach_step; [exact Hr|]. apply step_response; [done|]. rewrite Hs by done. constructor.
    + eapply reach_step; [exact Hr|]. by apply step_request.
    + done.
Qed.

End System.

(** ** Instances for the witnesses *)

#[local] Existing Instance sample_serializer.

(** Clients that send a request, or something that is none. *)
Definition sample_client (msg : bytes) : Prop := msg = [7] \/ msg = [1; 2].

Lemma sample_good_start : good_start sample_client sample_config false.
Proof.
  split; [done| | | |done].
  - intros msg p [-> | ->]; [|done]. intros [= <-]. split; [done|]. by repeat split.
  - intros msg [-> | ->]; done.
  - intros u address len data _. cbn. apply Forall_forall. intros x Hx.
    apply list_elem_of_In, in_map_iff in Hx as (y & <- & _). by apply (wrap_range 8).
Qed.

(** The states of a program with the modelled queues and buffers. *)
Definition sample_state : Type := state (Q := ringbuffer) (B := multi_buffer) (U := bytes).

Definition sample_start : sample_state :=
  Running (mk_system (new_EmuRPC sample_config false true) CheckStopped [] []).

Definition sample_reachable : sample_state -> Prop := system_reachable sample_allocator sample_client sample_config false.

Definition sample_accepted : sample_state := happen sample_allocator (IoEvent (EvHandshake 0 false)) (happen sample_allocator (IoEvent (EvAccept false)) sample_start).

Lemma sample_accepted_reachable : sample_reachable sample_accepted.
Proof. apply happen_reachable; [apply happen_reachable; [apply reach_start|done]|done]. Qed.

Definition sample_received : sample_state := happen sample_allocator (IoEvent (EvRead 0 false [7])) sample_accepted.

Lemma sample_received_reachable : sample_reachable sample_received.
Proof. apply happen_reachable; [apply sample_accepted_reachable|]. split; [done|]. right. by left. Qed.

(** The request has been served: the state before its response is sent. *)
Definition sample_served : sample_state :=
  Nat.iter 5 (happen sample_allocator ServerStep) sample_received.

Lemma sample_served_reachable : sample_reachable sample_served.
Proof.
  unfold sample_served. cbn [Nat.iter].
  do 5 (apply happen_reachable; [|vm_compute; done]). apply sample_received_reachable.
Qed.

(** The response is the only thing in the write buffer. *)
Lemma sample_sent_reachable : sample_reachable (happen sample_allocator ServerStep sample_served).
Proof.
  destruct sample_served as [s| |] eqn:E; [|by vm_compute in E..].
  pose proof sample_served_reachable as Hr. rewrite E in Hr.
  eapply reach_step; [exact Hr|]. cbn [happen]. unfold server_step.
  assert (pc s = PollResponses /\ (exists r, next_response (impl s) = [r]) /\
          exists t, objects (server (impl s)) = [t] /\ write_buffer t = db_new) as (Hpc & (r & Hn) & t & Ho & Hw).
  { vm_compute in E. injection E as <-. split; [done|]. split; eexists; [reflexivity|]. by split. }
  rewrite Hpc. apply step_response; [done|]. rewrite Hn. constructor; [|constructor]. split.
  - intros n t' v Ht Hv. rewrite Ho in Ht. destruct n; cbn in Ht; [|done]. injection Ht as <-.
    rewrite Hw in Hv. pose proof (db_size_holds _ _ Hv) as Hsz. cbn in Hsz. lia.
  - intros data [= <-]. done.
Qed.

Lemma sample_sent : exists s, happen sample_allocator ServerStep sample_served = Running s /\ sent s = [(0, 7)].
Proof. eexists. split; vm_compute; reflexivity. Qed.



Lemma sample_crash : happen sample_allocator (IoEvent (EvRead 0 false [1; 2])) sample_accepted =
  Crashed (invalid_method_error (str "Invalid method")).
Proof. vm_compute. reflexivity. Qed.

Lemma crashes_are_caused_witness :
  crash_cause sample_client (invalid_method_error (str "Invalid method")).
Proof.
  apply (crashes_are_caused sample_allocator sample_client sample_config false _ sample_good_start).
  rewrite <- sample_crash. apply happen_reachable; [apply sample_accepted_reachable|].
  split; [done|]. right. by right.
Defined.

Lemma sample_idle : idle_client 0 sample_session sample_impl.
Proof. split; try reflexivity; try apply db_new_holds; apply sq_new_holds. Qed.

Lemma read_is_answered_witness :
  exists i1 i2 i3 s3, deliver (EvRead 0 false [7]) sample_impl = Some (Ret i1) /\
    process_events_body sample_allocator i1 = Some (Ret i2) /\
    process_events_body sample_allocator i2 = Some (Ret i3) /\
    user i3 = user_data sample_config /\ objects (server i3) !! 0%nat = Some s3 /\
    pending s3 = [AsyncRead; AsyncWrite [7]].
Proof.
  refine (read_is_answered sample_allocator 0 sample_session sample_impl false 7 []
    (Request.new_memory_read 7 Request.Immediate Request.NonBlocking Request.Once 16 4) [7]
    sample_idle _ _ _ _ _ _ _); reflexivity.
Defined.

Lemma frame_end_loses_read_witness :
  exists i1 i2 i3 s3, deliver (EvRead 0 false [7]) sample_impl = Some (Ret i1) /\
    HandleTiming sample_allocator Request.FrameEnd [] i1 = Some (Ret i2) /\
    process_events_body sample_allocator i2 = Some (Ret i3) /\
    user i3 = user_data sample_config /\ objects (server i3) !! 0%nat = Some s3 /\ pending s3 = [AsyncRead] /\
    sq_holds (client_emu i3) [] /\ sq_holds (emu_client i3) [].
Proof.
  refine (frame_end_loses_read sample_allocator 0 sample_session sample_impl false 7 [] sample_request
    Request.FrameEnd [] sample_idle _ _ _ _ _); try reflexivity. intros t. reflexivity.
Defined.

