(* ===== verification/TestEmulator.v ===== *)
(** * The emulator of the tests

    [MemoryOnlyEmu] of src/test/emulator.h, the one host of the library in the
    repository: a memory of 64 KiB whose accesses are reported to EmuRPC, those of
    the library's own callbacks included. A callback is called by the server
    thread in the middle of [Impl::HandleRequest]; with this host it calls back
    into [HandleTiming], so that [HandleRequest] is given here again, with the
    host's callbacks in the place of the ones that only change [user_data].

    The memory is what [user_data] points to: [user] of the [Impl]. *)

From Stdlib Require Import ZArith Lia String Ascii.
From stdpp Require Import base list gmap.
From S2P Require Import Prelude Exceptions RingBuffer MultiBuffer Protocol RpcServer EmuRpc.

(** ** Copying memory *)

(** [std::copy(memory.begin() + addr, memory.begin() + addr + size, out)]. *)
Definition copy_out (memory : bytes) (addr size : Z) : cpp bytes :=
  if addr + size <=? Z.of_nat (length memory)
  then Ret (take (Z.to_nat size) (drop (Z.to_nat addr) memory))
  else Undef.

(** [std::copy(data, data + size, memory.begin() + addr)], of [size] bytes that
    [data] points to. *)
Definition copy_in (memory : bytes) (addr size : Z) (data : bytes) : cpp bytes :=
  if addr + size <=? Z.of_nat (length memory)
  then Ret (take (Z.to_nat addr) memory ++ take (Z.to_nat size) data ++ drop (Z.to_nat (addr + size)) memory)
  else Undef.

Section Emulator.
Context {Q : Type -> Type} `{SQ : !SpscQueue Q 1024}.
Context {B : Type} `{DB : !DynamicBuffer B}.
Context `{PS : !ProtocolSerializer}.
Context (can_allocate : Z -> bool).

#[local] Abbreviation Impl := (@Impl Q B bytes).

(** What may wait for ever, throw or be undefined. *)
#[local] Abbreviation run A := (option (cpp A)).

Definition rbind {A C} (m : run A) (f : A -> run C) : run C :=
  match m with
  | Some (Ret a) => f a
  | Some (Throw e) => Some (Throw e)
  | Some Undef => Some Undef
  | None => None
  end.

(** ** MemoryOnlyEmu *)

(** The data members; [memory] is [user emurpc]. *)
Record MemoryOnlyEmu := mk_emu { frame_count : Z; emurpc : Impl }.

(** The host's side of the library's two callbacks: what they do to the memory
    alone. The others are null pointers, which the library never calls. *)
Definition emulator_config : Config bytes := {|
  user_data := replicate (Z.to_nat 65536) 0;
  memory_read_callback u addr size out := (u, match copy_out u addr size with Ret d => d | _ => out end);
  memory_write_callback u addr size data := match copy_in u addr size data with Ret u => u | _ => u end;
  gpu_read_callback u field out := (u, out);
  gpu_write_callback u field size data := u;
  special_read_callback u field out := (u, out);
  special_write_callback u field size data := u;
  save_state_callback u slot := (u, false);
  load_state_callback u slot := (u, false);
  load_rom_callback u filename := (u, false);
  create_overlay_callback u bg_color x y width height := (u, false);
  draw_overlay_text_callback u color x y text := (u, false);
  enable_memory_access_timing := true;
  enable_gpu_access_timing := false;
  enable_special_access_timing := false
|}.

(** [MemoryOnlyEmu()]. *)
Definition new_MemoryOnlyEmu (indeterminate open_ok : bool) : MemoryOnlyEmu :=
  mk_emu 0 (new_EmuRPC emulator_config indeterminate open_ok).

(** [ReadMemory(addr, size, out)]: what is put at [out]. *)
Definition ReadMemory (addr size : Z) (arrivals : list (list ClientRequest)) (i : Impl) : run (bytes * Impl) :=
  rbind (Some (copy_out (user i) addr size)) (fun out =>
    rbind (OnMemoryAccess can_allocate Read addr size arrivals i) (fun i => Some (Ret (out, i)))).

(** [WriteMemory(addr, size, data)]. *)
Definition WriteMemory (addr size : Z) (data : bytes) (arrivals : list (list ClientRequest)) (i : Impl) : run Impl :=
  rbind (Some (copy_in (user i) addr size data)) (fun memory =>
    OnMemoryAccess can_allocate Write addr size arrivals (set_user memory i)).

(** The loops of [RunCPU] over the addresses; the random data are an argument. *)
Definition access_size : Z := 16.
Definition cpu_addresses : list Z := map (fun k => access_size * (16 * access_size * Z.of_nat k)) (seq 0 16).

Fixpoint cpu_writes (accesses : list (Z * bytes)) (i : Impl) : run Impl :=
  match accesses with
  | [] => Some (Ret i)
  | (addr, data) :: accesses =>
      rbind (WriteMemory addr access_size data [] i) (cpu_writes accesses)
  end.

Fixpoint cpu_reads (addrs : list Z) (i : Impl) : run Impl :=
  match addrs with
  | [] => Some (Ret i)
  | addr :: addrs => rbind (ReadMemory addr access_size [] i) (fun '(_, i) => cpu_reads addrs i)
  end.

Definition RunCPU (rand_data : list bytes) (e : MemoryOnlyEmu) : run MemoryOnlyEmu :=
  rbind (cpu_writes (zip cpu_addresses rand_data) (emurpc e)) (fun i =>
    rbind (cpu_reads cpu_addresses i) (fun i => Some (Ret (mk_emu (frame_count e) i)))).

Definition AdvanceFrame (e : MemoryOnlyEmu) : run MemoryOnlyEmu :=
  rbind (OnFrameEnd can_allocate [] (emurpc e)) (fun i => Some (Ret (mk_emu (wrap 32 (frame_count e + 1)) i))).

(** [Run(num_frames)], with the random data of each frame. *)
Fixpoint Run (frames : list (list bytes)) (e : MemoryOnlyEmu) : run MemoryOnlyEmu :=
  match frames with
  | [] => Some (Ret e)
  | rand_data :: frames => rbind (rbind (RunCPU rand_data e) AdvanceFrame) (Run frames)
  end.

(** ** The server thread with this host *)

(** [Impl::HandleRequest] where the callbacks are [ReadMemory] and [WriteMemory]. *)
Definition HandleRequest_reentrant (id : Z) (r : Request.AnyPacket) (arrivals : list (list ClientRequest)) (i : Impl)
  : run Impl :=
  match Request.method (Request.base_packet r) with
  | Request.Method.MemoryRead =>
      rbind (Some (Request.as_memory_read r)) (fun p =>
        rbind (Some (new_vector can_allocate (Request.mr_length p))) (fun _ =>
          rbind (ReadMemory (Request.mr_address p) (Request.mr_length p) arrivals i) (fun '(data, i) =>
            Some (Ret (push_response
              (id, Response.AMemoryRead (Response.new_memory_read (Request.id (Request.mr_packet p)) data)) i)))))
  | Request.Method.MemoryWrite =>
      rbind (Some (Request.as_memory_write r)) (fun p =>
        rbind (WriteMemory (Request.mw_address p) (Z.of_nat (length (Request.mw_data p))) (Request.mw_data p) arrivals i)
        (fun i =>
          Some (Ret (push_response
            (id, Response.AMemoryWrite (Response.new_memory_write (Request.id (Request.mw_packet p)))) i))))
  | _ => Some (HandleRequest can_allocate id r i)
  end.

(** One evaluation of [client_emu.pop(req)] with the body of its loop. *)
Definition poll_request_reentrant (arrivals : list (list ClientRequest)) (i : Impl) : run (bool * Impl) :=
  rbind (Some (sq_pop (client_emu i))) (fun '(req, q) =>
    let i := set_client_emu q i in
    match req with
    | None => Some (Ret (false, i))
    | Some (id, packet) => rbind (HandleRequest_reentrant id packet arrivals i) (fun i => Some (Ret (true, i)))
    end).

(** ** What an access does to the library *)

(** No callback is installed and the emulator is not blocked; the queues hold the
    requests and the responses given; and the memory is [memory]. *)
Record quiet (reqs : list ClientRequest) (rs : list ClientResponse) (memory : bytes) (i : Impl) : Prop := mk_quiet {
  quiet_callbacks : no_callbacks i;
  quiet_blocking : blocking_emu i = false;
  quiet_requests : sq_holds (client_emu i) reqs;
  quiet_classes : Forall (fun req => Request.method_matches (snd req) = true) reqs;
  quiet_responses : sq_holds (emu_client i) rs;
  quiet_memory : user i = memory
}.

Lemma timing_quiet t arrivals i reqs rs memory :
  quiet reqs rs memory i -> exists i', HandleTiming can_allocate t arrivals i = Some (Ret i') /\ quiet [] rs memory i'.
Proof.
  intros [H1 H2 H3 H4 H5 H6]. destruct (HandleTiming_eq can_allocate t arrivals i reqs H1 H3 H4) as (q & Hq & ->).
  rewrite H2. eexists. split; [done|]. split; try done. intros t'. cbn.
  destruct (decide (t' = t)) as [->|Hne]; [by rewrite lookup_insert_eq|rewrite lookup_insert_ne by done; apply H1].
Qed.

Lemma set_user_quiet memory' i reqs rs memory : quiet reqs rs memory i -> quiet reqs rs memory' (set_user memory' i).
Proof. intros [H1 H2 H3 H4 H5 H6]. by split. Qed.

Lemma push_response_quiet r i reqs rs memory :
  quiet reqs rs memory i -> quiet reqs (enqueue rs (Some r)) memory (push_response r i).
Proof.
  intros [H1 H2 H3 H4 H5 H6]. destruct (push_response_holds r i rs H5) as (q & -> & Hq). by split.
Qed.

Lemma ReadMemory_quiet addr size arrivals i reqs rs memory :
  quiet reqs rs memory i ->
  match copy_out memory addr size with
  | Ret data => exists i', ReadMemory addr size arrivals i = Some (Ret (data, i')) /\ quiet [] rs memory i'
  | _ => ReadMemory addr size arrivals i = Some Undef
  end.
Proof.
  intros Hq. unfold ReadMemory. rewrite (quiet_memory _ _ _ _ Hq). unfold copy_out. case_cond; [|done].
  cbn [rbind]. destruct (timing_quiet Request.MemoryAccess arrivals i _ _ _ Hq) as (i' & E & Hq').
  unfold OnMemoryAccess. rewrite E. by exists i'.
Qed.

Lemma WriteMemory_quiet addr size data arrivals i reqs rs memory :
  quiet reqs rs memory i ->
  match copy_in memory addr size data with
  | Ret memory' => exists i', WriteMemory addr size data arrivals i = Some (Ret i') /\ quiet [] rs memory' i'
  | _ => WriteMemory addr size data arrivals i = Some Undef
  end.
Proof.
  intros Hq. unfold WriteMemory. rewrite (quiet_memory _ _ _ _ Hq). unfold copy_in. case_cond; [|done].
  cbn [rbind].
  match goal with |- context [set_user ?m i] => pose proof (set_user_quiet m i _ _ _ Hq) as Hu end.
  destruct (timing_quiet Request.MemoryAccess arrivals _ _ _ _ Hu) as (i' & E & Hq').
  unfold OnMemoryAccess. rewrite E. by exists i'.
Qed.

(** ** Serving requests *)

(** The memory a packet of a read or a write is about lies in the emulator's. *)
Definition in_memory (memory : bytes) (r : Request.AnyPacket) : Prop :=
  match r with
  | Request.AMemoryRead p => Request.mr_address p + Request.mr_length p <= Z.of_nat (length memory)
  | Request.AMemoryWrite p => Request.mw_address p + Z.of_nat (length (Request.mw_data p)) <= Z.of_nat (length memory)
  | _ => True
  end.

(** What serving a request does to the memory, and the response to it. *)
Definition emulate (memory : bytes) (req : ClientRequest) : bytes * option ClientResponse :=
  let (id, r) := req in
  match Request.method (Request.base_packet r), r with
  | Request.Method.MemoryRead, Request.AMemoryRead p =>
      (memory, Some (id, Response.AMemoryRead (Response.new_memory_read (Request.id (Request.mr_packet p))
        (take (Z.to_nat (Request.mr_length p)) (drop (Z.to_nat (Request.mr_address p)) memory)))))
  | Request.Method.MemoryWrite, Request.AMemoryWrite p =>
      (take (Z.to_nat (Request.mw_address p)) memory ++ Request.mw_data p ++
        drop (Z.to_nat (Request.mw_address p + Z.of_nat (length (Request.mw_data p)))) memory,
        Some (id, Response.AMemoryWrite (Response.new_memory_write (Request.id (Request.mw_packet p)))))
  | _, _ => (memory, None)
  end.

(** Whether the request makes the host access its memory. *)
Definition accesses (r : Request.AnyPacket) : bool :=
  match Request.method (Request.base_packet r) with
  | Request.Method.MemoryRead | Request.Method.MemoryWrite => true
  | _ => false
  end.

Lemma reentrant_ok req arrivals i reqs rs memory :
  servable can_allocate req -> quiet reqs rs memory i -> in_memory memory (snd req) ->
  let (memory', res) := emulate memory req in
  exists i', HandleRequest_reentrant (fst req) (snd req) arrivals i = Some (Ret i') /\
  quiet (if accesses (snd req) then [] else reqs) (enqueue rs res) memory' i'.
Proof.
  destruct req as [id r]. intros [Hm Ha] Hq Hin. unfold emulate, HandleRequest_reentrant, accesses, Request.method_matches in *.
  cbn [fst snd] in *. destruct (Request.method (Request.base_packet r)) eqn:Em.
  1: { destruct r; try done; unfold HandleRequest; rewrite Em; by eexists. }
  3-6: unfold HandleRequest; rewrite Em; by eexists.
  - destruct r as [|p| | |]; try done. cbn in Em, Hin. destruct (Ha Em) as [Hl Hc].
    cbn [Request.as_memory_read rbind]. unfold new_vector.
    destruct (Z.leb_spec (2 ^ 63) (Request.mr_length p)); [lia|]. rewrite Hc. cbn [rbind].
    pose proof (ReadMemory_quiet (Request.mr_address p) (Request.mr_length p) arrivals i _ _ _ Hq) as Hr.
    unfold copy_out in Hr. replace (_ <=? _) with true in Hr by lia. destruct Hr as (i' & -> & Hq').
    cbn [rbind]. eexists. split; [done|]. by apply push_response_quiet.
  - destruct r as [| |p| |]; try done. cbn in Hin. cbn [Request.as_memory_write rbind].
    pose proof (WriteMemory_quiet (Request.mw_address p) (Z.of_nat (length (Request.mw_data p))) (Request.mw_data p) arrivals
      i _ _ _ Hq) as Hw.
    unfold copy_in in Hw. replace (_ <=? _) with true in Hw by lia. destruct Hw as (i' & -> & Hq').
    cbn [rbind]. eexists. split; [done|]. rewrite Nat2Z.id, (take_ge (Request.mw_data p)) in Hq' by done. by apply push_response_quiet.
Qed.

(** With the emulator of the tests as host, serving the first request of a
    queue reads or writes the memory and queues the response; but the host reports
    the access of its own callback with [OnMemoryAccess], which throws away every
    other request that is queued. The server thread then finds the queue empty: of
    the requests that arrive together only the first is answered. *)
Theorem nested_access_loses_requests id r reqs rs memory i arrivals :
  servable can_allocate (id, r) -> quiet ((id, r) :: reqs) rs memory i -> in_memory memory r -> accesses r = true ->
  let (memory', res) := emulate memory (id, r) in
  exists i' i'', poll_request_reentrant arrivals i = Some (Ret (true, i')) /\
  quiet [] (enqueue rs res) memory' i' /\
  poll_request_reentrant arrivals i' = Some (Ret (false, i'')) /\ quiet [] (enqueue rs res) memory' i''.
Proof.
  intros Hs [H1 H2 H3 H4 H5 H6] Hin Hacc. apply Forall_cons in H4 as [_ H4].
  destruct (sq_pop_holds _ _ H3) as (q & Eq & Hq). cbn [head tail] in Eq, Hq.
  assert (quiet reqs rs memory (set_client_emu q i)) as Hquiet by by split.
  pose proof (reentrant_ok (id, r) arrivals _ _ _ _ Hs Hquiet Hin) as Hok. cbn [fst snd] in Hok. rewrite Hacc in Hok.
  destruct (emulate memory (id, r)) as [memory' res]. destruct Hok as (i' & E & Hi).
  pose proof Hi as [J1 J2 J3 J4 J5 J6]. destruct (sq_pop_holds _ _ J3) as (q' & Eq' & Hq').
  exists i', (set_client_emu q' i'). split; [unfold poll_request_reentrant; rewrite Eq; cbn [rbind]; by rewrite E|].
  split; [done|]. split; [unfold poll_request_reentrant; by rewrite Eq'|by split].
Qed.

(** The range of a request is checked by nobody: an access that ends after the
    emulator's memory copies from or to memory that is not the emulator's. *)
Lemma out_of_range_undefined id r reqs rs memory i arrivals :
  servable can_allocate (id, r) -> quiet reqs rs memory i -> accesses r = true -> ~ in_memory memory r ->
  HandleRequest_reentrant id r arrivals i = Some Undef.
Proof.
  intros [Hm Ha] Hq Hacc Hin. unfold HandleRequest_reentrant, accesses, Request.method_matches in *.
  cbn [snd] in *. destruct (Request.method (Request.base_packet r)) eqn:Em; try done.
  - destruct r as [|p| | |]; try done. cbn in Em, Hin. destruct (Ha Em) as [Hl Hc].
    cbn [Request.as_memory_read rbind]. unfold new_vector.
    destruct (Z.leb_spec (2 ^ 63) (Request.mr_length p)); [lia|]. rewrite Hc. cbn [rbind].
    pose proof (ReadMemory_quiet (Request.mr_address p) (Request.mr_length p) arrivals i _ _ _ Hq) as Hr.
    unfold copy_out in Hr. replace (_ <=? _) with false in Hr by lia. by rewrite Hr.
  - destruct r as [| |p| |]; try done. cbn in Hin. cbn [Request.as_memory_write rbind].
    pose proof (WriteMemory_quiet (Request.mw_address p) (Z.of_nat (length (Request.mw_data p))) (Request.mw_data p) arrivals
      i _ _ _ Hq) as Hw.
    unfold copy_in in Hw. replace (_ <=? _) with false in Hw by lia. by rewrite Hw.
Qed.

(** ** Frames *)

(** The random data of a frame. *)
Definition frame_data (rand_data : list bytes) : Prop :=
  length rand_data = 16%nat /\ Forall (fun d => length d = 16%nat) rand_data.

Lemma cpu_writes_quiet accesses i reqs rs memory :
  quiet reqs rs memory i -> length memory = Z.to_nat 65536 ->
  Forall (fun a => 0 <= fst a /\ fst a + access_size <= 65536 /\ length (snd a) = 16%nat) accesses ->
  exists i' memory', cpu_writes accesses i = Some (Ret i') /\ length memory' = Z.to_nat 65536 /\
  quiet (match accesses with [] => reqs | _ => [] end) rs memory' i'.
Proof.
  intros Hq Hlen Ha. revert i reqs memory Hq Hlen.
  induction Ha as [|[addr data] accesses (H1 & H2 & H3) _ IH]; intros i reqs memory Hq Hlen; [by exists i, memory|].
  cbn [cpu_writes fst snd] in *. pose proof (WriteMemory_quiet addr access_size data [] i _ _ _ Hq) as Hw.
  unfold copy_in in Hw. unfold access_size in *. replace (_ <=? _) with true in Hw by lia.
  destruct Hw as (i1 & -> & Hq1). cbn [rbind].
  destruct (IH i1 _ _ Hq1) as (i' & memory' & E & Hl & Hq').
  { rewrite !length_app, !length_take, length_drop. lia. }
  exists i', memory'. split; [done|]. split; [done|]. by destruct accesses.
Qed.

Lemma cpu_reads_quiet addrs i reqs rs memory :
  quiet reqs rs memory i -> length memory = Z.to_nat 65536 ->
  Forall (fun a => a + access_size <= 65536) addrs ->
  exists i', cpu_reads addrs i = Some (Ret i') /\ quiet (match addrs with [] => reqs | _ => [] end) rs memory i'.
Proof.
  intros Hq Hlen Ha. revert i reqs Hq.
  induction Ha as [|addr addrs H _ IH]; intros i reqs Hq; [by exists i|].
  cbn [cpu_reads]. pose proof (ReadMemory_quiet addr access_size [] i _ _ _ Hq) as Hr.
  unfold copy_out in Hr. unfold access_size in *. replace (_ <=? _) with true in Hr by lia.
  destruct Hr as (i1 & -> & Hq1). cbn [rbind]. destruct (IH i1 _ Hq1) as (i' & E & Hq').
  exists i'. split; [done|]. by destruct addrs.
Qed.

Lemma frame_quiet rand_data e reqs rs memory :
  quiet reqs rs memory (emurpc e) -> length memory = Z.to_nat 65536 -> frame_data rand_data ->
  exists e' memory', rbind (RunCPU rand_data e) AdvanceFrame = Some (Ret e') /\ length memory' = Z.to_nat 65536 /\
  quiet [] rs memory' (emurpc e') /\ frame_count e' = wrap 32 (frame_count e + 1).
Proof.
  intros Hq Hlen [Hd Hd16]. unfold RunCPU.
  assert (Forall (fun a => 0 <= a /\ a + access_size <= 65536) cpu_addresses) as Haddr.
  { apply Forall_forall. intros a Ha. apply list_elem_of_In, in_map_iff in Ha as (k & <- & Hk%in_seq).
    unfold access_size. lia. }
  destruct (cpu_writes_quiet (zip cpu_addresses rand_data) (emurpc e) _ _ _ Hq Hlen) as (i1 & memory' & -> & Hl & Hq1).
  { pose proof (proj1 (Forall_forall _ _) Haddr) as Ha. pose proof (proj1 (Forall_forall _ _) Hd16) as H16.
    apply Forall_forall. intros [a d] Hin. cbn. split; [apply Ha|split; [apply Ha|apply H16]];
      by eauto using elem_of_zip_l, elem_of_zip_r. }
  cbn [rbind]. destruct (cpu_reads_quiet cpu_addresses i1 _ _ _ Hq1 Hl) as (i2 & -> & Hq2).
  { eapply Forall_impl; [exact Haddr|]. intros a Ha. apply Ha. }
  cbn [rbind]. unfold AdvanceFrame, OnFrameEnd. cbn [emurpc].
  destruct (timing_quiet Request.FrameEnd [] i2 _ _ _ Hq2) as (i3 & -> & Hq3). cbn [rbind frame_count].
  eexists _, memory'. by repeat split; try apply Hq3.
Qed.

(** Running the emulator ends, counts its frames modulo 2^32 and keeps the
    size of the memory; but the first access of the first frame already throws
    away every request that the server thread has not taken from the queue. A test
    that sends a request and runs a frame waits for a response that may never
    come. *)
Theorem Run_discards frames e reqs rs memory :
  quiet reqs rs memory (emurpc e) -> length memory = Z.to_nat 65536 -> u32 (frame_count e) -> Forall frame_data frames ->
  exists e' memory', Run frames e = Some (Ret e') /\ length memory' = Z.to_nat 65536 /\
  quiet (match frames with [] => reqs | _ => [] end) rs memory' (emurpc e') /\
  frame_count e' = wrap 32 (frame_count e + Z.of_nat (length frames)).
Proof.
  intros Hq Hlen Hc Hf. revert e reqs memory Hq Hlen Hc.
  induction Hf as [|rand_data frames Hd _ IH]; intros e reqs memory Hq Hlen Hc.
  - exists e, memory. rewrite Z.add_0_r, wrap_small by done. done.
  - cbn [Run]. destruct (frame_quiet rand_data e _ _ _ Hq Hlen Hd) as (e1 & memory1 & -> & Hl1 & Hq1 & Hc1).
    cbn [rbind]. destruct (IH e1 _ _ Hq1 Hl1) as (e' & memory' & E & Hl & Hq' & Hc').
    { rewrite Hc1. by apply (wrap_range 32). }
    exists e', memory'. split; [done|]. split; [done|]. split; [by destruct frames|].
    rewrite Hc', Hc1. cbn [length]. unfold wrap. rewrite Zplus_mod_idemp_l. f_equal. lia.
Qed.

(** On the memory: a read of what a write wrote, and of other addresses. *)
Lemma emulate_read_after_write id id' w p memory :
  Request.method (Request.mw_packet w) = Request.Method.MemoryWrite ->
  Request.method (Request.mr_packet p) = Request.Method.MemoryRead ->
  0 <= Request.mw_address w -> 0 <= Request.mr_address p -> 0 <= Request.mr_length p ->
  in_memory memory (Request.AMemoryWrite w) -> in_memory memory (Request.AMemoryRead p) ->
  let memory' := fst (emulate memory (id, Request.AMemoryWrite w)) in
  let answer data := Some (id', Response.AMemoryRead (Response.new_memory_read (Request.id (Request.mr_packet p)) data)) in
  (Request.mr_address p = Request.mw_address w -> Request.mr_length p = Z.of_nat (length (Request.mw_data w)) ->
    emulate memory' (id', Request.AMemoryRead p) = (memory', answer (Request.mw_data w))) /\
  (Request.mr_address p + Request.mr_length p <= Request.mw_address w \/
    Request.mw_address w + Z.of_nat (length (Request.mw_data w)) <= Request.mr_address p ->
    snd (emulate memory' (id', Request.AMemoryRead p)) = snd (emulate memory (id', Request.AMemoryRead p))) /\
  length memory' = length memory.
Proof.
  destruct w as [pw aw data], p as [pp ap lp]. cbn. intros -> -> Haw Hap Hlp Hw Hp. cbn [fst snd].
  set (n := length data) in *.
  assert (length (take (Z.to_nat aw) memory) = Z.to_nat aw) as Ltake by (rewrite length_take; lia).
  split; [|split].
  - intros -> ->. rewrite drop_app_length', take_app_length' by lia. done.
  - intros H. do 4 f_equal. destruct H as [Hb|Ha].
    + rewrite drop_app_le, take_app_le by (rewrite ?length_drop; lia).
      rewrite !take_drop_commute, take_take. do 2 f_equal. lia.
    + rewrite app_assoc, drop_app_ge by (rewrite length_app; lia). rewrite drop_drop. do 2 f_equal.
      rewrite length_app. lia.
  - rewrite !length_app, length_drop. lia.
Qed.
(** After a memory_write has been served, a memory_read of the same range is
    answered with the data written, and one of other addresses with what was there
    before; the write does not change the size of the memory. *)
Theorem read_after_write id id' w p reqs rs memory i arrivals arrivals' :
  servable can_allocate (id, Request.AMemoryWrite w) -> servable can_allocate (id', Request.AMemoryRead p) ->
  Request.method (Request.mw_packet w) = Request.Method.MemoryWrite ->
  Request.method (Request.mr_packet p) = Request.Method.MemoryRead ->
  0 <= Request.mw_address w -> 0 <= Request.mr_address p -> 0 <= Request.mr_length p ->
  in_memory memory (Request.AMemoryWrite w) -> in_memory memory (Request.AMemoryRead p) ->
  quiet reqs rs memory i ->
  exists i1 i2 memory' data,
  HandleRequest_reentrant id (Request.AMemoryWrite w) arrivals i = Some (Ret i1) /\
  HandleRequest_reentrant id' (Request.AMemoryRead p) arrivals' i1 = Some (Ret i2) /\
  quiet [] (enqueue (enqueue rs
      (Some (id, Response.AMemoryWrite (Response.new_memory_write (Request.id (Request.mw_packet w))))))
      (Some (id', Response.AMemoryRead (Response.new_memory_read (Request.id (Request.mr_packet p)) data)))) memory' i2 /\
  length memory' = length memory /\
  (Request.mr_address p = Request.mw_address w -> Request.mr_length p = Z.of_nat (length (Request.mw_data w)) ->
     data = Request.mw_data w) /\
  (Request.mr_address p + Request.mr_length p <= Request.mw_address w \/
    Request.mw_address w + Z.of_nat (length (Request.mw_data w)) <= Request.mr_address p ->
     data = take (Z.to_nat (Request.mr_length p)) (drop (Z.to_nat (Request.mr_address p)) memory)).
Proof.
  intros Hsw Hsp Hmw Hmp Haw Hap Hlp Hw Hp Hq.
  destruct (emulate_read_after_write id id' w p memory Hmw Hmp Haw Hap Hlp Hw Hp) as (Hsame & Hother & Hlen).
  pose proof (reentrant_ok (id, Request.AMemoryWrite w) arrivals _ _ _ _ Hsw Hq Hw) as H1.
  unfold emulate, accesses in *. cbn [fst snd Request.base_packet] in *. rewrite Hmw, Hmp in *. cbn [fst snd] in *.
  destruct H1 as (i1 & E1 & Hq1).
  pose proof (reentrant_ok (id', Request.AMemoryRead p) arrivals' _ _ _ _ Hsp Hq1) as H2.
  unfold emulate, accesses, in_memory in *. cbn [fst snd Request.base_packet] in *. rewrite Hmp in *.
  destruct H2 as (i2 & E2 & Hq2); [lia|].
  exists i1, i2. eexists _, _. split; [done|]. split; [done|]. split; [exact Hq2|]. split; [lia|]. split.
  - intros Ha Hl. specialize (Hsame Ha Hl). by injection Hsame.
  - intros H. specialize (Hother H). by injection Hother.
Qed.
End Emulator.

(** ** Instances for the witnesses *)

#[local] Existing Instance sample_serializer.

Definition queued (id : Z) (address len : Z) : ClientRequest :=
  (0, Request.AMemoryRead (Request.new_memory_read id Request.Immediate Request.NonBlocking Request.Once address len)).

(** An emulator that two requests have just arrived at. *)
Definition two_requests : list ClientRequest := [queued 1 1000 64; queued 2 0 64].

Definition busy_emulator : MemoryOnlyEmu (Q := ringbuffer) (B := multi_buffer) :=
  let e := new_MemoryOnlyEmu false true in
  mk_emu (frame_count e) (set_client_emu (push_requests two_requests sq_new) (emurpc e)).

Definition null_memory : bytes := replicate (Z.to_nat 65536) 0.

Lemma null_memory_length : length null_memory = Z.to_nat 65536.
Proof. apply length_replicate. Qed.

Lemma busy_quiet : quiet two_requests [] null_memory (emurpc busy_emulator).
Proof.
  split; try done.
  - exact (push_requests_holds two_requests sq_new [] sq_new_holds ltac:(cbn; lia)).
  - by repeat constructor.
  - apply sq_new_holds.
Qed.

Lemma nested_access_loses_requests_witness :
  exists i' i'', poll_request_reentrant sample_allocator [] (emurpc busy_emulator) = Some (Ret (true, i')) /\
    quiet [] [(0, Response.AMemoryRead (Response.new_memory_read 1 (take 64 (drop 1000 null_memory))))] null_memory i' /\
    poll_request_reentrant sample_allocator [] i' = Some (Ret (false, i'')) /\
    quiet [] [(0, Response.AMemoryRead (Response.new_memory_read 1 (take 64 (drop 1000 null_memory))))] null_memory i''.
Proof.
  assert (in_memory null_memory (snd (queued 1 1000 64))) as Hin
    by (unfold in_memory, queued; cbn [snd]; rewrite null_memory_length; cbn; lia).
  exact (nested_access_loses_requests sample_allocator 0 (snd (queued 1 1000 64)) [queued 2 0 64] [] null_memory
    (emurpc busy_emulator) [] (conj eq_refl (fun _ => conj eq_refl eq_refl)) busy_quiet Hin eq_refl).
Defined.

Lemma Run_discards_witness :
  exists e' memory', Run sample_allocator [replicate 16 (replicate 16 7)] busy_emulator = Some (Ret e') /\
    length memory' = Z.to_nat 65536 /\ quiet [] [] memory' (emurpc e') /\ frame_count e' = 1.
Proof.
  exact (Run_discards sample_allocator [replicate 16 (replicate 16 7)] busy_emulator two_requests [] null_memory busy_quiet
    null_memory_length ltac:(done) ltac:(repeat constructor)).
Defined.

Definition written : Request.MemoryWrite :=
  Request.new_memory_write 1 Request.Immediate Request.Blocking Request.Once 16 [1; 2; 3].
Definition read_back : Request.MemoryRead :=
  Request.new_memory_read 2 Request.Immediate Request.Blocking Request.Once 16 3.

Definition small_emulator : @Impl ringbuffer multi_buffer bytes :=
  set_user (replicate 32 0) (set_client_emu (push_requests [] sq_new) (emurpc busy_emulator)).

Lemma small_quiet : quiet [] [] (replicate 32 0) small_emulator.
Proof.
  apply (set_user_quiet _ _ _ _ null_memory). split; try done; apply sq_new_holds.
Qed.

Lemma read_after_write_witness :
  exists i1 i2 memory',
    HandleRequest_reentrant sample_allocator 0 (Request.AMemoryWrite written) [] small_emulator = Some (Ret i1) /\
    HandleRequest_reentrant sample_allocator 0 (Request.AMemoryRead read_back) [] i1 = Some (Ret i2) /\
    quiet [] [(0, Response.AMemoryWrite (Response.new_memory_write 1));
      (0, Response.AMemoryRead (Response.new_memory_read 2 [1; 2; 3]))] memory' i2.
Proof.
  assert (in_memory (replicate 32 0) (Request.AMemoryWrite written)) as Hw by (cbn; lia).
  assert (in_memory (replicate 32 0) (Request.AMemoryRead read_back)) as Hr by (cbn; lia).
  destruct (read_after_write sample_allocator 0 0 written read_back [] [] (replicate 32 0) small_emulator [] []
    (conj eq_refl I) (conj eq_refl (fun _ => conj eq_refl eq_refl)) eq_refl eq_refl ltac:(done) ltac:(done) ltac:(done)
    Hw Hr small_quiet) as (i1 & i2 & memory' & data & E1 & E2 & Hq & _ & Hd & _).
  exists i1, i2, memory'. split; [exact E1|]. split; [exact E2|]. rewrite (Hd eq_refl eq_refl) in Hq. exact Hq.
Defined.
