(* ===== verification/JsonLexer.v ===== *)
(** * The lexer of nlohmann::json

    [detail::lexer] and [input_buffer_adapter] of
    src/externals/json/nlohmann/json.hpp, which turn the bytes of a message into
    tokens. The members that a function changes are the lexer it returns.

    The loops run on fuel, the number of characters that are left and two more:
    every turn reads a character, and the end of the input ends every loop.
    [strtoull], [strtoll] and [strtod] are the C library's, in the "C" locale,
    on the texts the scanner hands to them. *)

From Stdlib Require Import ZArith Lia String Ascii SpecFloat.
From stdpp Require Import base list.
From S2P Require Import Prelude Utf8 Exceptions JsonValue.

(** ** Tokens *)

(** [enum class token_type]. *)
Inductive token_type :=
  | uninitialized | literal_true | literal_false | literal_null | tok_value_string
  | value_unsigned | value_integer | value_float | begin_array | begin_object
  | end_array | end_object | name_separator | value_separator | tok_parse_error
  | end_of_input | literal_or_value.

#[export] Instance token_type_eq_dec : EqDecision token_type.
Proof. solve_decision. Defined.

Definition token_type_name (t : token_type) : bytes :=
  match t with
  | uninitialized => str "<uninitialized>"
  | literal_true => str "true literal"
  | literal_false => str "false literal"
  | literal_null => str "null literal"
  | tok_value_string => str "string literal"
  | value_unsigned | value_integer | value_float => str "number literal"
  | begin_array => str "'['"
  | begin_object => str "'{'"
  | end_array => str "']'"
  | end_object => str "'}'"
  | name_separator => str "':'"
  | value_separator => str "','"
  | tok_parse_error => str "<parse error>"
  | end_of_input => str "end of input"
  | literal_or_value => str "'[', '{', or a literal"
  end.

(** [std::char_traits<char>::eof()]. *)
Definition eof : Z := -1.

(** The data members; [ia] is what the input adapter has not handed out. *)
Record lexer := mk_lexer {
  ia : bytes;
  current : Z;
  next_unget : bool;
  position : position_t;
  token_string : bytes;
  token_buffer : bytes;
  error_message : bytes;
  number_integer : Z;
  number_unsigned : Z;
  number_float : number_float_t
}.

(** [lexer(adapter)]. *)
Definition new_lexer (input : bytes) : lexer :=
  mk_lexer input eof false (mk_position 0 0 0) [] [] [] 0 0 (S754_zero false).

Definition set_error (msg : bytes) (l : lexer) : lexer :=
  mk_lexer (ia l) (current l) (next_unget l) (position l) (token_string l) (token_buffer l) msg
    (number_integer l) (number_unsigned l) (number_float l).

(** ** Input management *)

(** [input_buffer_adapter::get_character]. *)
Definition get_character (input : bytes) : Z * bytes :=
  match input with
  | c :: input => (c, input)
  | [] => (eof, [])
  end.

(** [reset]. *)
Definition reset (l : lexer) : lexer :=
  mk_lexer (ia l) (current l) (next_unget l) (position l) [wrap 8 (current l)] [] (error_message l)
    (number_integer l) (number_unsigned l) (number_float l).

(** [get]; the character it returns is [current] of the result. *)
Definition get (l : lexer) : lexer :=
  let p := mk_position (chars_read_total (position l) + 1) (chars_read_current_line (position l) + 1)
             (lines_read (position l)) in
  let (c, input) := if next_unget l then (current l, ia l) else get_character (ia l) in
  let ts := if c =? eof then token_string l else token_string l ++ [c] in
  let p := if c =? 10 then mk_position (chars_read_total p) 0 (lines_read p + 1) else p in
  mk_lexer input c false p ts (token_buffer l) (error_message l)
    (number_integer l) (number_unsigned l) (number_float l).

(** [unget]. *)
Definition unget (l : lexer) : lexer :=
  let p := position l in
  let p :=
    if chars_read_current_line p =? 0
    then mk_position (chars_read_total p - 1) 0
           (if 0 <? lines_read p then lines_read p - 1 else lines_read p)
    else mk_position (chars_read_total p - 1) (chars_read_current_line p - 1) (lines_read p) in
  mk_lexer (ia l) (current l) true p
    (if current l =? eof then token_string l else removelast (token_string l))
    (token_buffer l) (error_message l) (number_integer l) (number_unsigned l) (number_float l).

(** [add]. *)
Definition add (c : Z) (l : lexer) : lexer :=
  mk_lexer (ia l) (current l) (next_unget l) (position l) (token_string l) (token_buffer l ++ [wrap 8 c])
    (error_message l) (number_integer l) (number_unsigned l) (number_float l).

(** [get_token_string]. A [char] is signed: the bytes from 128 are negative. *)
Definition get_token_string (l : lexer) : bytes :=
  flat_map (fun c => if (0 <=? c) && (c <=? 31) then str "<U+" ++ hex_upper 4 c ++ str ">" else [c])
    (token_string l).

(** ** Strings *)

(** The loop of [get_codepoint] over the shifts that are left. *)
Fixpoint get_codepoint_loop (factors : list Z) (codepoint : Z) (l : lexer) : Z * lexer :=
  match factors with
  | [] => (codepoint, l)
  | factor :: factors =>
      let l := get l in
      let c := current l in
      if in_range 48 57 c then get_codepoint_loop factors (codepoint + Z.shiftl (c - 48) factor) l
      else if in_range 65 70 c then get_codepoint_loop factors (codepoint + Z.shiftl (c - 55) factor) l
      else if in_range 97 102 c then get_codepoint_loop factors (codepoint + Z.shiftl (c - 87) factor) l
      else (-1, l)
  end.

(** [get_codepoint]. *)
Definition get_codepoint (l : lexer) : Z * lexer := get_codepoint_loop [12; 8; 4; 0] 0 l.

(** The loop of [next_byte_in_range]. *)
Fixpoint byte_in_range_loop (ranges : list (Z * Z)) (l : lexer) : bool * lexer :=
  match ranges with
  | [] => (true, l)
  | (lo, hi) :: ranges =>
      let l := get l in
      if in_range lo hi (current l) then byte_in_range_loop ranges (add (current l) l)
      else (false, set_error (str "invalid string: ill-formed UTF-8 byte") l)
  end.

(** [next_byte_in_range]. *)
Definition next_byte_in_range (ranges : list (Z * Z)) (l : lexer) : bool * lexer :=
  byte_in_range_loop ranges (add (current l) l).

(** The bytes of a code point, as they are added to [token_buffer]. *)
Definition add_codepoint (codepoint : Z) (l : lexer) : lexer :=
  let low k := Z.lor 128 (Z.land (Z.shiftr codepoint k) 63) in
  if codepoint <? 128 then add codepoint l
  else if codepoint <=? 2047 then add (low 0) (add (Z.lor 192 (Z.shiftr codepoint 6)) l)
  else if codepoint <=? 65535 then add (low 0) (add (low 6) (add (Z.lor 224 (Z.shiftr codepoint 12)) l))
  else add (low 0) (add (low 6) (add (low 12) (add (Z.lor 240 (Z.shiftr codepoint 18)) l))).

Definition hex_digits_message : bytes := str "invalid string: '\u' must be followed by 4 hex digits".
Definition low_surrogate_message : bytes :=
  str "invalid string: surrogate U+DC00..U+DFFF must be followed by U+DC00..U+DFFF".
Definition high_surrogate_message : bytes :=
  str "invalid string: surrogate U+DC00..U+DFFF must follow U+D800..U+DBFF".

(** The case ['u'] after a backslash: whether the scan goes on. *)
Definition scan_unicode_escape (l : lexer) : bool * lexer :=
  let (codepoint1, l) := get_codepoint l in
  if codepoint1 =? -1 then (false, set_error hex_digits_message l)
  else if in_range 55296 56319 codepoint1 then
    let l := get l in
    if negb (current l =? 92) then (false, set_error low_surrogate_message l)
    else
      let l := get l in
      if negb (current l =? 117) then (false, set_error low_surrogate_message l)
      else
        let (codepoint2, l) := get_codepoint l in
        if codepoint2 =? -1 then (false, set_error hex_digits_message l)
        else if in_range 56320 57343 codepoint2 then
          let codepoint := wrap 32 (wrap 32 (Z.shiftl codepoint1 10) + codepoint2 - 56613888) in
          (true, add_codepoint codepoint l)
        else (false, set_error low_surrogate_message l)
  else if in_range 56320 57343 codepoint1 then (false, set_error high_surrogate_message l)
  else (true, add_codepoint codepoint1 l).

(** The case of a backslash: whether the scan goes on. *)
Definition scan_escape (l : lexer) : bool * lexer :=
  let l := get l in
  let c := current l in
  if c =? 34 then (true, add 34 l)
  else if c =? 92 then (true, add 92 l)
  else if c =? 47 then (true, add 47 l)
  else if c =? 98 then (true, add 8 l)
  else if c =? 102 then (true, add 12 l)
  else if c =? 110 then (true, add 10 l)
  else if c =? 114 then (true, add 13 l)
  else if c =? 116 then (true, add 9 l)
  else if c =? 117 then scan_unicode_escape l
  else (false, set_error (str "invalid string: forbidden character after backslash") l).

(** The names of the control characters in the error messages. *)
Definition control_names : list string :=
  ["NUL"; "SOH"; "STX"; "ETX"; "EOT"; "ENQ"; "ACK"; "BEL"; "BS"; "HT"; "LF"; "VT"; "FF"; "CR"; "SO"; "SI";
    "DLE"; "DC1"; "DC2"; "DC3"; "DC4"; "NAK"; "SYN"; "ETB"; "CAN"; "EM"; "SUB"; "ESC"; "FS"; "GS"; "RS";
    "US"]%string.

(** The short escape that the message of a control character names. *)
Definition control_escape (c : Z) : bytes :=
  if c =? 0 then str "0000"
  else if c =? 8 then str "0008 or \b"
  else if c =? 9 then str "0009 or \t"
  else if c =? 10 then str "000A or \n"
  else if c =? 12 then str "000C or \f"
  else if c =? 13 then str "000D or \r"
  else hex_upper 4 c.

Definition control_message (c : Z) : bytes :=
  str "invalid string: control character U+" ++ hex_upper 4 c ++ str " (" ++
  str (default EmptyString (control_names !! Z.to_nat c)) ++ str ") must be escaped to \u" ++ control_escape c.

(** The ranges of the bytes that follow a first byte of UTF-8. *)
Definition utf8_ranges (c : Z) : option (list (Z * Z)) :=
  if in_range 194 223 c then Some [(128, 191)]
  else if c =? 224 then Some [(160, 191); (128, 191)]
  else if in_range 225 236 c || in_range 238 239 c then Some [(128, 191); (128, 191)]
  else if c =? 237 then Some [(128, 159); (128, 191)]
  else if c =? 240 then Some [(144, 191); (128, 191); (128, 191)]
  else if in_range 241 243 c then Some [(128, 191); (128, 191); (128, 191)]
  else if c =? 244 then Some [(128, 143); (128, 191); (128, 191)]
  else None.

(** One turn of the loop of [scan_string]: the token it returns, or [None] when
    it goes on. *)
Definition scan_string_step (l : lexer) : option token_type * lexer :=
  let l := get l in
  let c := current l in
  let go (r : bool * lexer) := (if fst r then None else Some tok_parse_error, snd r) in
  if c =? eof then (Some tok_parse_error, set_error (str "invalid string: missing closing quote") l)
  else if c =? 34 then (Some tok_value_string, l)
  else if c =? 92 then go (scan_escape l)
  else if in_range 0 31 c then (Some tok_parse_error, set_error (control_message c) l)
  else if in_range 32 127 c then (None, add c l)
  else
    match utf8_ranges c with
    | Some ranges => go (next_byte_in_range ranges l)
    | None => (Some tok_parse_error, set_error (str "invalid string: ill-formed UTF-8 byte") l)
    end.

Fixpoint scan_string_loop (fuel : nat) (l : lexer) : option (token_type * lexer) :=
  match fuel with
  | O => None
  | S fuel =>
      match scan_string_step l with
      | (Some t, l) => Some (t, l)
      | (None, l) => scan_string_loop fuel l
      end
  end.

(** The fuel of the loops. *)
Definition lexer_fuel (l : lexer) : nat := (2 + length (ia l))%nat.

(** [scan_string]. *)
Definition scan_string (l : lexer) : option (token_type * lexer) :=
  let l := reset l in scan_string_loop (lexer_fuel l) l.

(** ** Numbers *)

(** The labels of [scan_number]; [number_error] stands for its returns of
    [token_type::parse_error]. *)
Inductive number_state :=
  | number_minus | number_zero | number_any1 | number_decimal1 | number_decimal2
  | number_exponent | number_sign | number_any2 | number_done | number_error.

Definition is_digit (c : Z) : bool := in_range 48 57 c.
Definition is_digit19 (c : Z) : bool := in_range 49 57 c.
Definition is_exponent (c : Z) : bool := (c =? 101) || (c =? 69).

(** The state (init): the switch on the character already read. *)
Definition scan_number_init (l : lexer) : number_state * lexer :=
  let c := current l in
  if c =? 45 then (number_minus, add c l)
  else if c =? 48 then (number_zero, add c l)
  else if is_digit19 c then (number_any1, add c l)
  else (number_error, l).

Definition scan_number_minus (l : lexer) : number_state * lexer :=
  let l := get l in
  let c := current l in
  if c =? 48 then (number_zero, add c l)
  else if is_digit19 c then (number_any1, add c l)
  else (number_error, set_error (str "invalid number; expected digit after '-'") l).

Definition scan_number_zero (l : lexer) : number_state * lexer :=
  let l := get l in
  let c := current l in
  if c =? 46 then (number_decimal1, add 46 l)
  else if is_exponent c then (number_exponent, add c l)
  else (number_done, l).

Definition scan_number_any1 (l : lexer) : number_state * lexer :=
  let l := get l in
  let c := current l in
  if is_digit c then (number_any1, add c l)
  else if c =? 46 then (number_decimal1, add 46 l)
  else if is_exponent c then (number_exponent, add c l)
  else (number_done, l).

Definition scan_number_decimal1 (l : lexer) : number_state * lexer :=
  let l := get l in
  let c := current l in
  if is_digit c then (number_decimal2, add c l)
  else (number_error, set_error (str "invalid number; expected digit after '.'") l).

Definition scan_number_decimal2 (l : lexer) : number_state * lexer :=
  let l := get l in
  let c := current l in
  if is_digit c then (number_decimal2, add c l)
  else if is_exponent c then (number_exponent, add c l)
  else (number_done, l).

Definition scan_number_exponent (l : lexer) : number_state * lexer :=
  let l := get l in
  let c := current l in
  if (c =? 43) || (c =? 45) then (number_sign, add c l)
  else if is_digit c then (number_any2, add c l)
  else (number_error, set_error (str "invalid number; expected '+', '-', or digit after exponent") l).

Definition scan_number_sign (l : lexer) : number_state * lexer :=
  let l := get l in
  let c := current l in
  if is_digit c then (number_any2, add c l)
  else (number_error, set_error (str "invalid number; expected digit after exponent sign") l).

Definition scan_number_any2 (l : lexer) : number_state * lexer :=
  let l := get l in
  let c := current l in
  if is_digit c then (number_any2, add c l) else (number_done, l).

(** The value of a text of decimal digits. *)
Definition decimal (digits : bytes) : Z := fold_left (fun v c => v * 10 + (c - 48)) digits 0.

(** [strtoull] and [strtoll] on a scanned number: [None] for [ERANGE]. *)
Definition strtoull (s : bytes) : option Z :=
  let v := decimal s in if v <? 2 ^ 64 then Some v else None.

Definition strtoll (s : bytes) : option Z :=
  match s with
  | 45 :: s => let v := decimal s in if v <=? 2 ^ 63 then Some (- v) else None
  | _ => let v := decimal s in if v <? 2 ^ 63 then Some v else None
  end.

(** The nearest [double], ties to even, to [m * 10^e], [m] having [n] digits. A
    decimal exponent beyond the range of [double] gives infinity or zero. *)
Definition round_decimal (negative : bool) (m : Z) (n : Z) (e : Z) : number_float_t :=
  match m with
  | Zpos p =>
      if 310 <? n + e then S754_infinity negative
      else if n + e <? -330 then S754_zero negative
      else if 0 <=? e then binary_normalize 53 1024 (if negative then - (m * 10 ^ e) else m * 10 ^ e) 0 negative
      else
        let '(q, e', loc) := SFdiv_core_binary 53 1024 m 0 (10 ^ (- e)) 0 in
        binary_round_aux 53 1024 negative q e' loc
  | _ => S754_zero negative
  end.

(** The digits at the start of a text, and the rest. *)
Fixpoint span_digits (s : bytes) : bytes * bytes :=
  match s with
  | c :: s' =>
      if is_digit c then let (d, r) := span_digits s' in (c :: d, r) else ([], s)
  | [] => ([], [])
  end.

(** A text of digits without its leading zeros. *)
Fixpoint strip_zeros (s : bytes) : bytes :=
  match s with
  | 48 :: s => strip_zeros s
  | _ => s
  end.

(** [strtod] on a scanned number. *)
Definition strtod (s : bytes) : number_float_t :=
  let (negative, s) := match s with 45 :: s => (true, s) | _ => (false, s) end in
  let (ipart, s) := span_digits s in
  let (fpart, s) := match s with 46 :: s => span_digits s | _ => ([], s) end in
  let e :=
    match s with
    | c :: s =>
        if is_exponent c then
          match s with
          | 45 :: s => - decimal (fst (span_digits s))
          | 43 :: s => decimal (fst (span_digits s))
          | _ => decimal (fst (span_digits s))
          end
        else 0
    | [] => 0
    end in
  let m := decimal (ipart ++ fpart) in
  round_decimal negative m (Z.of_nat (length (strip_zeros (ipart ++ fpart)))) (e - Z.of_nat (length fpart)).

Definition set_integer (v : Z) (l : lexer) : lexer :=
  mk_lexer (ia l) (current l) (next_unget l) (position l) (token_string l) (token_buffer l)
    (error_message l) v (number_unsigned l) (number_float l).
Definition set_unsigned (v : Z) (l : lexer) : lexer :=
  mk_lexer (ia l) (current l) (next_unget l) (position l) (token_string l) (token_buffer l)
    (error_message l) (number_integer l) v (number_float l).
Definition set_float (v : number_float_t) (l : lexer) : lexer :=
  mk_lexer (ia l) (current l) (next_unget l) (position l) (token_string l) (token_buffer l)
    (error_message l) (number_integer l) (number_unsigned l) v.

(** The label [scan_number_done], with the type found so far. *)
Definition scan_number_done (number_type : token_type) (l : lexer) : token_type * lexer :=
  let l := unget l in
  let as_float := (value_float, set_float (strtod (token_buffer l)) l) in
  match number_type with
  | value_unsigned =>
      match strtoull (token_buffer l) with
      | Some x => (value_unsigned, set_unsigned x l)
      | None => as_float
      end
  | value_integer =>
      match strtoll (token_buffer l) with
      | Some x => (value_integer, set_integer x l)
      | None => as_float
      end
  | _ => as_float
  end.

(** The [goto]s between the labels, and what they do to [number_type]. *)
Fixpoint scan_number_loop (fuel : nat) (st : number_state) (number_type : token_type) (l : lexer)
    : option (token_type * lexer) :=
  match fuel with
  | O => None
  | S fuel =>
      let next nt (r : number_state * lexer) := scan_number_loop fuel (fst r) nt (snd r) in
      match st with
      | number_minus => next value_integer (scan_number_minus l)
      | number_zero => next number_type (scan_number_zero l)
      | number_any1 => next number_type (scan_number_any1 l)
      | number_decimal1 => next value_float (scan_number_decimal1 l)
      | number_decimal2 => next number_type (scan_number_decimal2 l)
      | number_exponent => next value_float (scan_number_exponent l)
      | number_sign => next number_type (scan_number_sign l)
      | number_any2 => next number_type (scan_number_any2 l)
      | number_done => Some (scan_number_done number_type l)
      | number_error => Some (tok_parse_error, l)
      end
  end.

(** [scan_number]. *)
Definition scan_number (l : lexer) : option (token_type * lexer) :=
  let l := reset l in
  let (st, l) := scan_number_init l in
  scan_number_loop (lexer_fuel l) st value_unsigned l.

(** ** The scanner *)

(** The loop of [scan_literal] over the characters after the first. *)
Fixpoint scan_literal_loop (text : bytes) (return_type : token_type) (l : lexer) : token_type * lexer :=
  match text with
  | [] => (return_type, l)
  | c :: text =>
      let l := get l in
      if negb (current l =? c) then (tok_parse_error, set_error (str "invalid literal") l)
      else scan_literal_loop text return_type l
  end.

(** [scan_literal(literal_text, length, return_type)]. *)
Definition scan_literal (literal_text : bytes) (return_type : token_type) (l : lexer) : token_type * lexer :=
  scan_literal_loop (tail literal_text) return_type l.

(** [skip_bom]. *)
Definition skip_bom (l : lexer) : bool * lexer :=
  let l := get l in
  if current l =? 239 then
    let l := get l in
    if current l =? 187 then let l := get l in (current l =? 191, l)
    else (false, l)
  else (true, unget l).

Definition is_space (c : Z) : bool := (c =? 32) || (c =? 9) || (c =? 10) || (c =? 13).

(** The loop [do get(); while (...)] of [scan]. *)
Fixpoint skip_space (fuel : nat) (l : lexer) : option lexer :=
  match fuel with
  | O => None
  | S fuel =>
      let l := get l in
      if is_space (current l) then skip_space fuel l else Some l
  end.

(** The switch of [scan] on the first character of a token. *)
Definition scan_token (l : lexer) : option (token_type * lexer) :=
  let c := current l in
  if c =? 91 then Some (begin_array, l)
  else if c =? 93 then Some (end_array, l)
  else if c =? 123 then Some (begin_object, l)
  else if c =? 125 then Some (end_object, l)
  else if c =? 58 then Some (name_separator, l)
  else if c =? 44 then Some (value_separator, l)
  else if c =? 116 then Some (scan_literal (str "true") literal_true l)
  else if c =? 102 then Some (scan_literal (str "false") literal_false l)
  else if c =? 110 then Some (scan_literal (str "null") literal_null l)
  else if c =? 34 then scan_string l
  else if (c =? 45) || is_digit c then scan_number l
  else if (c =? 0) || (c =? eof) then Some (end_of_input, l)
  else Some (tok_parse_error, set_error (str "invalid literal") l).

(** [scan]. *)
Definition scan (l : lexer) : option (token_type * lexer) :=
  let (bom_ok, l) := if chars_read_total (position l) =? 0 then skip_bom l else (true, l) in
  if negb bom_ok then
    Some (tok_parse_error, set_error (str "invalid BOM; must be 0xEF 0xBB 0xBF if given") l)
  else
    match skip_space (lexer_fuel l) l with
    | Some l => scan_token l
    | None => None
    end.

(** ** What the lexer has read *)

(** The characters that the next calls of [get] return. *)
Definition pending (l : lexer) : bytes :=
  if next_unget l then if current l =? eof then [] else current l :: ia l else ia l.

(** Between tokens: [r] is left of the input, [b] is the token buffer, and [get]
    was called at least [n] times more often than [unget]. *)
Record lex_at (n : Z) (r b : bytes) (l : lexer) : Prop := mk_lex_at {
  at_pending : pending l = r;
  at_buffer : token_buffer l = b;
  at_total : n <= chars_read_total (position l);
  at_unget : next_unget l = true -> current l = eof -> ia l = [];
  at_chars : Forall u8 r
}.

(** After a [get] that returned [c]. *)
Record lex_got (n c : Z) (r b : bytes) (l : lexer) : Prop := mk_lex_got {
  got_current : current l = c;
  got_unget : next_unget l = false;
  got_rest : ia l = r;
  got_buffer : token_buffer l = b;
  got_total : n <= chars_read_total (position l);
  got_chars : Forall u8 r;
  got_eof : c = eof -> r = []
}.

Create HintDb lexer.

Lemma get_got n c r b l : lex_at n (c :: r) b l -> lex_got (n + 1) c r b (get l).
Proof.
  intros [H1 H2 H3 H4 H5]. apply Forall_cons in H5 as [Hc Hr]. unfold in_width in Hc.
  unfold pending in H1. unfold get, get_character.
  destruct (next_unget l); [destruct (Z.eqb_spec (current l) eof); [done|]|];
    [injection H1 as -> ->|rewrite H1]; zcases; split; cbn; try done; try lia; unfold eof in *; lia.
Qed.

Lemma get_end n b l : lex_at n [] b l -> lex_got (n + 1) eof [] b (get l).
Proof.
  intros [H1 H2 H3 H4 H5]. unfold pending in H1. unfold get, get_character.
  destruct (next_unget l); [destruct (Z.eqb_spec (current l) eof) as [E|]; [|done]; rewrite E, H4 by done|rewrite H1];
    split; cbn; try done; lia.
Qed.

Lemma got_at n c r b l : lex_got n c r b l -> lex_at n r b l.
Proof. intros [H1 H2 H3 H4 H5 H6 H7]. split; unfold pending; rewrite ?H2; done. Qed.

Lemma got_add n c r b l z : lex_got n c r b l -> lex_got n c r (b ++ [wrap 8 z]) (add z l).
Proof. intros [H1 H2 H3 H4 H5 H6 H7]. split; cbn; try done. by rewrite H4. Qed.

Lemma got_error n c r b l msg : lex_got n c r b l -> lex_got n c r b (set_error msg l).
Proof. intros [H1 H2 H3 H4 H5 H6 H7]. by split. Qed.

Lemma got_reset n c r b l : lex_got n c r b l -> lex_got n c r [] (reset l).
Proof. intros [H1 H2 H3 H4 H5 H6 H7]. by split. Qed.

Lemma got_le n m c r b l : lex_got n c r b l -> m <= n -> lex_got m c r b l.
Proof. intros [H1 H2 H3 H4 H5 H6 H7] Hm. split; try done. lia. Qed.

Lemma at_le n m r b l : lex_at n r b l -> m <= n -> lex_at m r b l.
Proof. intros [H1 H2 H3 H4 H5] Hm. split; try done. lia. Qed.

Lemma unget_at n c r b l : lex_got (n + 1) c r b l -> u8 c -> lex_at n (c :: r) b (unget l).
Proof.
  intros [H1 H2 H3 H4 H5 H6 H7] Hc. unfold in_width in Hc.
  split; unfold pending, unget; cbn; try done; rewrite ?H1; zcases; try (unfold eof in *; lia).
  all: try (by rewrite H3); try (by constructor); cbn; lia.
Qed.

Lemma unget_end n b l : lex_got (n + 1) eof [] b l -> lex_at n [] b (unget l).
Proof.
  intros [H1 H2 H3 H4 H5 H6 H7].
  split; unfold pending, unget; cbn; try done; rewrite ?H1; zcases; cbn; lia.
Qed.

(** The next [get], forgetting how many there were. *)
Lemma got_get n c0 c r b l : lex_got n c0 (c :: r) b l -> lex_got n c r b (get l).
Proof.
  intros H. apply (got_le (n + 1)); [|lia]. by apply get_got, (got_at _ c0).
Qed.

Lemma at_get n c r b l : lex_at n (c :: r) b l -> lex_got n c r b (get l).
Proof. intros H. apply (got_le (n + 1)); [|lia]. by apply get_got. Qed.

Lemma at_get_end n b l : lex_at n [] b l -> lex_got n eof [] b (get l).
Proof. intros H. apply (got_le (n + 1)); [|lia]. by apply get_end. Qed.

#[export] Hint Resolve got_get at_get at_get_end get_got get_end got_at got_add got_error got_reset unget_end : lexer.

(** What a [get] reads. *)
Lemma get_cases n r b l :
  lex_at n r b l ->
  exists c r', lex_got n c r' b (get l) /\ ((c = eof /\ r = [] /\ r' = []) \/ (u8 c /\ r = c :: r')).
Proof.
  intros H. destruct r as [|c r].
  - exists eof, []. split; [by apply at_get_end|by left].
  - exists c, r. split; [by apply at_get|right]. split; [exact (Forall_inv (at_chars _ _ _ _ H))|done].
Qed.
