(* ===== verification/JsonStrings.v ===== *)
(** * The strings of the lexer

    The strings of RFC 8259 in UTF-8, as a grammar that relates the text between
    the quotes to the bytes it denotes, and the proof that [lexer::scan_string]
    accepts the strings of that grammar and no others, with that value. *)

From Stdlib Require Import ZArith Lia String Ascii.
From stdpp Require Import base list.
From S2P Require Import Prelude Utf8 JsonLexer.

(** ** The grammar *)

Definition hex_value (c : Z) : option Z :=
  if in_range 48 57 c then Some (c - 48)
  else if in_range 65 70 c then Some (c - 55)
  else if in_range 97 102 c then Some (c - 87)
  else None.

(** Four hexadecimal digits. *)
Definition hex4 (h : bytes) : option Z :=
  match h with
  | [a; b; c; d] =>
      a ← hex_value a; b ← hex_value b; c ← hex_value c; d ← hex_value d;
      Some (a * 4096 + b * 256 + c * 16 + d)
  | _ => None
  end.

(** The characters after a backslash and what they denote. *)
Definition short_escape (c : Z) : option Z :=
  if c =? 34 then Some 34 else if c =? 92 then Some 92 else if c =? 47 then Some 47
  else if c =? 98 then Some 8 else if c =? 102 then Some 12 else if c =? 110 then Some 10
  else if c =? 114 then Some 13 else if c =? 116 then Some 9 else None.

Definition high_surrogate (c : Z) : Prop := 55296 <= c <= 56319.
Definition low_surrogate (c : Z) : Prop := 56320 <= c <= 57343.
Definition surrogate_pair (hi lo : Z) : Z := 65536 + (hi - 55296) * 1024 + (lo - 56320).

(** A code point that stands for itself. *)
Definition plain (a : bytes) : bool :=
  well_formed a &&
  match a with [c] => (32 <=? c) && negb (c =? 34) && negb (c =? 92) | _ => true end.

(** One character of a string: its text and its value. *)
Inductive string_char : bytes -> bytes -> Prop :=
  | char_plain a : plain a = true -> string_char a a
  | char_escape c v : short_escape c = Some v -> string_char [92; c] [v]
  | char_unicode h c : hex4 h = Some c -> scalar c -> string_char (92 :: 117 :: h) (utf8_encode c)
  | char_surrogates h h' hi lo :
      hex4 h = Some hi -> hex4 h' = Some lo -> high_surrogate hi -> low_surrogate lo ->
      string_char (92 :: 117 :: h ++ 92 :: 117 :: h') (utf8_encode (surrogate_pair hi lo)).

Inductive string_text : bytes -> bytes -> Prop :=
  | text_nil : string_text [] []
  | text_cons e v s w : string_char e v -> string_text s w -> string_text (e ++ s) (v ++ w).

Lemma hex_value_range c d : hex_value c = Some d -> 0 <= d < 16 /\ u8 c.
Proof. unfold hex_value, in_width. intros H. range_cases; simplify_eq; lia. Qed.

Lemma hex4_inv h v :
  hex4 h = Some v ->
  0 <= v < 65536 /\ exists a b c d a' b' c' d', h = [a; b; c; d] /\
    hex_value a = Some a' /\ hex_value b = Some b' /\ hex_value c = Some c' /\ hex_value d = Some d' /\
    v = a' * 4096 + b' * 256 + c' * 16 + d'.
Proof.
  intros H. destruct h as [|a [|b [|c [|d [|? ?]]]]]; try done. cbn in H.
  destruct (hex_value a) as [a'|] eqn:Ea, (hex_value b) as [b'|] eqn:Eb, (hex_value c) as [c'|] eqn:Ec,
    (hex_value d) as [d'|] eqn:Ed; try done. cbn in H. injection H as <-.
  pose proof (hex_value_range _ _ Ea). pose proof (hex_value_range _ _ Eb).
  pose proof (hex_value_range _ _ Ec). pose proof (hex_value_range _ _ Ed).
  split; [lia|]. by exists a, b, c, d, a', b', c', d'.
Qed.

Lemma surrogate_pair_scalar hi lo : high_surrogate hi -> low_surrogate lo -> scalar (surrogate_pair hi lo).
Proof. unfold high_surrogate, low_surrogate, scalar, surrogate_pair. lia. Qed.

(** The value of a string is valid UTF-8. *)
Lemma string_char_valid e v : string_char e v -> valid_utf8 v.
Proof.
  assert (forall c, scalar c -> valid_utf8 (utf8_encode c)) as Hs.
  { intros c Hc. exists [c]. split; [by constructor|]. cbn. by rewrite app_nil_r. }
  destruct 1 as [a H|c v H|h c _ H|h h' hi lo _ _ H1 H2].
  - rewrite <- (app_nil_r a). apply valid_utf8_char, valid_utf8_nil. unfold plain in H. by bool_prop.
  - apply ascii_valid. unfold short_escape in H. constructor; [|done].
    repeat (case_cond; [injection H as <-; lia|]). done.
  - by apply Hs.
  - by apply Hs, surrogate_pair_scalar.
Qed.

Lemma string_text_valid s v : string_text s v -> valid_utf8 v.
Proof.
  induction 1 as [|e v s w Hc _ IH]; [apply valid_utf8_nil|].
  apply valid_utf8_app; [by eapply string_char_valid|done].
Qed.

Lemma string_text_app s v s' v' : string_text s v -> string_text s' v' -> string_text (s ++ s') (v ++ v').
Proof.
  induction 1 as [|e w s0 w0 Hc _ IH]; intros H'; [done|]. rewrite <- !app_assoc. constructor; auto.
Qed.

(** ** The scanner accepts the grammar *)

Lemma utf8_ranges_trail c : 128 <= c < 256 -> utf8_ranges c = trail_ranges c.
Proof.
  intros Hc. pose (p c := (c <? 128) || bool_decide (utf8_ranges c = trail_ranges c)).
  assert (p c = true) as H by (apply (all_below_spec 256); [by vm_compute|lia]).
  unfold p in H. apply orb_true_iff in H as [H|H]; [lia|]. by apply bool_decide_eq_true in H.
Qed.

Lemma byte_in_range_loop_ok n c0 ranges s r b l :
  in_ranges ranges s = true -> lex_got n c0 (s ++ r) b l ->
  exists l' c', byte_in_range_loop ranges l = (true, l') /\ lex_got n c' r (b ++ s) l'.
Proof.
  revert c0 s b l. induction ranges as [|[lo hi] ranges IH]; intros c0 [|c s] b l Hs Hl; try done.
  - exists l, c0. rewrite app_nil_r. by split.
  - cbn in Hs. apply andb_true_iff in Hs as [Hc Hs].
    pose proof (get_got _ _ _ _ _ (got_at _ _ _ _ _ Hl)) as Hg. cbn [byte_in_range_loop].
    rewrite (got_current _ _ _ _ _ Hg), Hc.
    assert (u8 c) as Hu by exact (Forall_inv (got_chars _ _ _ _ _ Hl)).
    pose proof (got_add _ _ _ _ _ c Hg) as Ha. rewrite wrap_small in Ha by done.
    destruct (IH c s (b ++ [c]) _ Hs (got_le _ n _ _ _ _ Ha ltac:(lia))) as (l' & c' & -> & Hl').
    exists l', c'. split; [done|]. by rewrite <- app_assoc in Hl'.
Qed.

Lemma next_byte_in_range_ok n c ranges s r b l :
  u8 c -> in_ranges ranges s = true -> lex_got n c (s ++ r) b l ->
  exists l' c', next_byte_in_range ranges l = (true, l') /\ lex_got n c' r (b ++ c :: s) l'.
Proof.
  intros Hc Hs Hl. unfold next_byte_in_range.
  pose proof (got_add _ _ _ _ _ c Hl) as Ha. rewrite wrap_small in Ha by done.
  rewrite (got_current _ _ _ _ _ Hl).
  destruct (byte_in_range_loop_ok n c ranges s r _ _ Hs Ha) as (l' & c' & -> & Hl').
  exists l', c'. split; [done|]. by rewrite <- app_assoc in Hl'.
Qed.

(** A turn of [get_codepoint]. *)
Lemma get_codepoint_loop_cons factor factors cp l :
  get_codepoint_loop (factor :: factors) cp l =
    match hex_value (current (get l)) with
    | Some d => get_codepoint_loop factors (cp + Z.shiftl d factor) (get l)
    | None => (-1, get l)
    end.
Proof. cbn [get_codepoint_loop]. unfold hex_value. by range_cases. Qed.

Lemma get_codepoint_ok n h v r b l :
  hex4 h = Some v -> lex_at n (h ++ r) b l ->
  exists l' c', get_codepoint l = (v, l') /\ lex_got n c' r b l'.
Proof.
  intros H Hl. destruct (hex4_inv h v H) as (_ & x & y & z & w & x' & y' & z' & w' & -> & Hx & Hy & Hz & Hw & ->).
  cbn [app] in Hl.
  pose proof (get_got _ _ _ _ _ Hl) as H1. pose proof (get_got _ _ _ _ _ (got_at _ _ _ _ _ H1)) as H2.
  pose proof (get_got _ _ _ _ _ (got_at _ _ _ _ _ H2)) as H3.
  pose proof (get_got _ _ _ _ _ (got_at _ _ _ _ _ H3)) as H4.
  unfold get_codepoint.
  rewrite !get_codepoint_loop_cons, (got_current _ _ _ _ _ H1), Hx, !get_codepoint_loop_cons,
    (got_current _ _ _ _ _ H2), Hy, !get_codepoint_loop_cons, (got_current _ _ _ _ _ H3), Hz,
    !get_codepoint_loop_cons, (got_current _ _ _ _ _ H4), Hw.
  cbn [get_codepoint_loop]. eexists _, w. split; [|exact (got_le _ n _ _ _ _ H4 ltac:(lia))].
  f_equal. rewrite !Z.shiftl_mul_pow2 by lia. lia.
Qed.

Lemma low_bits c k : 0 <= k -> wrap 8 (Z.lor 128 (Z.land (Z.shiftr c k) 63)) = 128 + c / 2 ^ k mod 64.
Proof.
  intros Hk. rewrite Z.shiftr_div_pow2 by done. change 63 with (2 ^ 6 - 1). rewrite land_low by lia.
  change 128 with (2 * 2 ^ 6) at 1. assert (0 <= (c / 2 ^ k) mod 2 ^ 6 < 2 ^ 6) by (apply Z.mod_pos_bound; lia).
  rewrite lor_disjoint by lia. rewrite wrap_small; [reflexivity|]. unfold in_width. lia.
Qed.

Lemma add_codepoint_ok n c0 c r b l :
  scalar c -> lex_got n c0 r b l -> lex_got n c0 r (b ++ utf8_encode c) (add_codepoint c l).
Proof.
  intros Hc Hl. unfold scalar in Hc. unfold add_codepoint, utf8_encode.
  assert (forall a k e, 0 <= k -> 0 <= c / 2 ^ k < 2 ^ e -> 0 <= e -> 0 <= a -> (a + 1) * 2 ^ e <= 256 ->
    wrap 8 (Z.lor (a * 2 ^ e) (Z.shiftr c k)) = a * 2 ^ e + c / 2 ^ k) as Hlead.
  { intros a k e Hk Hck He Ha Hae. rewrite Z.shiftr_div_pow2, lor_disjoint by done.
    apply wrap_small. unfold in_width. lia. }
  assert (forall a d e f : Z, b ++ [a; d] = (b ++ [a]) ++ [d] /\ b ++ [a; d; e] = ((b ++ [a]) ++ [d]) ++ [e] /\
    b ++ [a; d; e; f] = (((b ++ [a]) ++ [d]) ++ [e]) ++ [f]) as Happ
    by (intros; by rewrite <- !app_assoc).
  destruct (Z.ltb_spec c 128).
  { pose proof (got_add _ _ _ _ _ c Hl) as H1. by rewrite wrap_small in H1 by (unfold in_width; lia). }
  destruct (Z.leb_spec c 2047); [|destruct (Z.leb_spec c 65535)].
  - replace (c <? 2048) with true by lia. rewrite (proj1 (Happ _ _ 0 0)).
    change (192 + c / 64) with (6 * 2 ^ 5 + c / 2 ^ 6). replace (c mod 64) with (c / 2 ^ 0 mod 64) by by rewrite Z.div_1_r.
    rewrite <- (Hlead 6 6 5), <- low_bits by first [lia | split; [apply Z.div_le_lower_bound|apply Z.div_lt_upper_bound]; lia].
    by repeat apply got_add.
  - replace (c <? 2048) with false by lia. replace (c <? 65536) with true by lia.
    rewrite (proj1 (proj2 (Happ _ _ _ 0))).
    change (224 + c / 4096) with (14 * 2 ^ 4 + c / 2 ^ 12).
    replace (c mod 64) with (c / 2 ^ 0 mod 64) by by rewrite Z.div_1_r. change (c / 64) with (c / 2 ^ 6).
    rewrite <- (Hlead 14 12 4), <- !low_bits by first [lia | split; [apply Z.div_le_lower_bound|apply Z.div_lt_upper_bound]; lia].
    by repeat apply got_add.
  - replace (c <? 2048) with false by lia. replace (c <? 65536) with false by lia.
    rewrite (proj2 (proj2 (Happ _ _ _ _))).
    change (240 + c / 262144) with (30 * 2 ^ 3 + c / 2 ^ 18).
    replace (c mod 64) with (c / 2 ^ 0 mod 64) by by rewrite Z.div_1_r. change (c / 64) with (c / 2 ^ 6).
    change (c / 4096) with (c / 2 ^ 12).
    rewrite <- (Hlead 30 18 3), <- !low_bits by first [lia | split; [apply Z.div_le_lower_bound|apply Z.div_lt_upper_bound]; lia].
    by repeat apply got_add.
Qed.

(** A character of the grammar is read by one turn of the loop. *)
Lemma scan_unicode_escape_ok n c0 h c r b l :
  hex4 h = Some c -> scalar c -> lex_got n c0 (h ++ r) b l ->
  exists l' c', scan_unicode_escape l = (true, l') /\ lex_got n c' r (b ++ utf8_encode c) l'.
Proof.
  intros Hh Hc Hl. destruct (hex4_inv h c Hh) as [Hv _].
  destruct (get_codepoint_ok n h c r b l Hh (got_at _ _ _ _ _ Hl)) as (l' & c' & E & Hl').
  unfold scan_unicode_escape. rewrite E. unfold scalar in Hc.
  replace (c =? -1) with false by lia.
  replace (in_range 55296 56319 c) with false by (symmetry; apply in_range_false; lia).
  replace (in_range 56320 57343 c) with false by (symmetry; apply in_range_false; lia).
  exists (add_codepoint c l'), c'. split; [done|]. by apply add_codepoint_ok.
Qed.

Lemma scan_surrogates_ok n c0 h h' hi lo r b l :
  hex4 h = Some hi -> hex4 h' = Some lo -> high_surrogate hi -> low_surrogate lo ->
  lex_got n c0 (h ++ 92 :: 117 :: h' ++ r) b l ->
  exists l' c', scan_unicode_escape l = (true, l') /\
    lex_got n c' r (b ++ utf8_encode (surrogate_pair hi lo)) l'.
Proof.
  intros Hh Hh' Hhi Hlo Hl.
  destruct (get_codepoint_ok n h hi _ b l Hh (got_at _ _ _ _ _ Hl)) as (l1 & c1 & E1 & H1).
  pose proof (got_get _ _ _ _ _ _ H1) as H2. pose proof (got_get _ _ _ _ _ _ H2) as H3.
  destruct (get_codepoint_ok n h' lo r b _ Hh' (got_at _ _ _ _ _ H3)) as (l' & c' & E2 & H4).
  unfold scan_unicode_escape. rewrite E1.
  pose proof (surrogate_pair_scalar hi lo Hhi Hlo) as Hs.
  unfold high_surrogate, low_surrogate, surrogate_pair in *.
  replace (hi =? -1) with false by lia. rewrite (proj2 (in_range_spec 55296 56319 hi)) by done.
  rewrite (got_current _ _ _ _ _ H2), (got_current _ _ _ _ _ H3). cbn [negb Z.eqb Pos.eqb]. rewrite E2.
  replace (lo =? -1) with false by lia. rewrite (proj2 (in_range_spec 56320 57343 lo)) by done.
  replace (wrap 32 (wrap 32 (Z.shiftl hi 10) + lo - 56613888)) with (65536 + (hi - 55296) * 1024 + (lo - 56320)).
  - eexists _, c'. split; [reflexivity|]. by apply add_codepoint_ok.
  - rewrite Z.shiftl_mul_pow2 by lia. change (2 ^ 10) with 1024.
    rewrite (wrap_small 32 (hi * 1024)) by (unfold in_width; lia).
    rewrite wrap_small by (unfold in_width; lia). lia.
Qed.

Lemma scan_escape_ok n c v r b l :
  short_escape c = Some v -> lex_at n (c :: r) b l ->
  exists l', scan_escape l = (true, l') /\ lex_got n c r (b ++ [v]) l'.
Proof.
  intros Hc Hl. pose proof (at_get _ _ _ _ _ Hl) as Hg.
  unfold scan_escape. rewrite (got_current _ _ _ _ _ Hg). unfold short_escape in Hc.
  assert (forall z, u8 z -> lex_got n c r (b ++ [z]) (add z (get l))) as Ha.
  { intros z Hz. pose proof (got_add _ _ _ _ _ z Hg) as Hz'. by rewrite wrap_small in Hz'. }
  repeat (case_cond; [injection Hc as <-; eexists; split; [done|]; apply Ha; unfold in_width; lia|]).
  done.
Qed.

Lemma scan_string_step_plain n a r b l :
  plain a = true -> lex_at n (a ++ r) b l ->
  exists l' c', scan_string_step l = (None, l') /\ lex_got n c' r (b ++ a) l'.
Proof.
  intros Hp Hl. unfold plain in Hp. apply andb_true_iff in Hp as [Hw Hp].
  destruct a as [|c s]; [done|]. cbn [app] in Hl. pose proof (at_get _ _ _ _ _ Hl) as Hg.
  pose proof (Forall_inv (well_formed_u8 _ Hw)) as Hu. cbn in Hu. unfold in_width in Hu.
  unfold scan_string_step. rewrite (got_current _ _ _ _ _ Hg). unfold eof.
  replace (c =? -1) with false by lia. cbn in Hw.
  destruct (Z.ltb_spec c 128).
  - assert (s = []) as ->.
    { unfold trail_ranges in Hw. rewrite (proj2 (in_range_spec 0 127 c)) in Hw by lia. by destruct s. }
    bool_prop. replace (c =? 34) with false by lia. replace (c =? 92) with false by lia.
    replace (in_range 0 31 c) with false by (symmetry; apply in_range_false; lia).
    rewrite (proj2 (in_range_spec 32 127 c)) by lia.
    eexists _, c. split; [done|]. pose proof (got_add _ _ _ _ _ c Hg) as Ha. by rewrite wrap_small in Ha.
  - rewrite <- utf8_ranges_trail in Hw by lia.
    replace (c =? 34) with false by lia. replace (c =? 92) with false by lia.
    replace (in_range 0 31 c) with false by (symmetry; apply in_range_false; lia).
    replace (in_range 32 127 c) with false by (symmetry; apply in_range_false; lia).
    destruct (utf8_ranges c) as [ranges|]; [|done].
    destruct (next_byte_in_range_ok n c ranges s r b (get l) Hu Hw Hg) as (l' & c' & E & Hl').
    rewrite E. by exists l', c'.
Qed.

Lemma scan_string_step_complete n e v r b l :
  string_char e v -> lex_at n (e ++ r) b l ->
  exists l' c', scan_string_step l = (None, l') /\ lex_got n c' r (b ++ v) l'.
Proof.
  intros He Hl. destruct He as [a H|c v H|h c H Hc|h h' hi lo H H' Hhi Hlo].
  - by apply (scan_string_step_plain n a).
  - cbn [app] in Hl. pose proof (at_get _ _ _ _ _ Hl) as Hg.
    unfold scan_string_step. rewrite (got_current _ _ _ _ _ Hg). cbn.
    destruct (scan_escape_ok n c v r b _ H (got_at _ _ _ _ _ Hg)) as (l' & E & Hl'). rewrite E. by exists l', c.
  - cbn [app] in Hl. pose proof (at_get _ _ _ _ _ Hl) as Hg. pose proof (got_get _ _ _ _ _ _ Hg) as Hg2.
    unfold scan_string_step. rewrite (got_current _ _ _ _ _ Hg). cbn. unfold scan_escape.
    rewrite (got_current _ _ _ _ _ Hg2). cbn.
    destruct (scan_unicode_escape_ok n _ h c r b _ H Hc Hg2) as (l' & c' & E & Hl'). rewrite E. by exists l', c'.
  - cbn [app] in Hl. rewrite <- app_assoc in Hl. cbn [app] in Hl.
    pose proof (at_get _ _ _ _ _ Hl) as Hg. pose proof (got_get _ _ _ _ _ _ Hg) as Hg2.
    unfold scan_string_step. rewrite (got_current _ _ _ _ _ Hg). cbn. unfold scan_escape.
    rewrite (got_current _ _ _ _ _ Hg2). cbn.
    destruct (scan_surrogates_ok n _ h h' hi lo r b _ H H' Hhi Hlo Hg2) as (l' & c' & E & Hl').
    rewrite E. by exists l', c'.
Qed.

(** ** The scanner accepts nothing else *)

Lemma trail_ranges_bytes c ranges :
  trail_ranges c = Some ranges -> Forall (fun '(lo, hi) => 0 <= lo) ranges.
Proof. unfold trail_ranges. intros H. range_cases; simplify_eq; repeat (constructor; [cbn; lia|]); constructor. Qed.

Lemma byte_in_range_loop_sound n c0 ranges r b l l' :
  Forall (fun '(lo, hi) => 0 <= lo) ranges -> lex_got n c0 r b l -> byte_in_range_loop ranges l = (true, l') ->
  exists s r' c', r = s ++ r' /\ in_ranges ranges s = true /\ lex_got n c' r' (b ++ s) l'.
Proof.
  intros Hr. revert c0 r b l. induction Hr as [|[lo hi] ranges Hlo _ IH]; intros c0 r b l Hl E.
  - injection E as <-. exists [], r, c0. by rewrite app_nil_r.
  - cbn in E. destruct (get_cases _ _ _ _ (got_at _ _ _ _ _ Hl)) as (c & r' & Hg & Hc).
    rewrite (got_current _ _ _ _ _ Hg) in E. destruct (in_range lo hi c) eqn:Hin; [|done].
    destruct Hc as [(-> & _)|[Hc ->]]; [apply in_range_spec in Hin; unfold eof in *; lia|].
    pose proof (got_add _ _ _ _ _ c Hg) as Ha. rewrite wrap_small in Ha by done.
    destruct (IH _ _ _ _ Ha E) as (s & r2 & c' & -> & Hs & Hl').
    exists (c :: s), r2, c'. split; [done|]. split; [cbn; by rewrite Hin|]. by rewrite <- app_assoc in Hl'.
Qed.

Lemma get_codepoint_sound n r b l v l' :
  lex_at n r b l -> get_codepoint l = (v, l') ->
  v = -1 \/ exists h r' c', r = h ++ r' /\ hex4 h = Some v /\ lex_got n c' r' b l'.
Proof.
  intros Hl E. unfold get_codepoint in E.
  assert (forall r l, lex_at n r b l -> forall d, hex_value (current (get l)) = Some d ->
    exists c r', r = c :: r' /\ hex_value c = Some d /\ lex_got n c r' b (get l)) as Hdigit.
  { intros r0 l0 H0 d Hd. destruct (get_cases _ _ _ _ H0) as (c & r' & Hg & Hc).
    rewrite (got_current _ _ _ _ _ Hg) in Hd. destruct Hc as [(-> & _)|[_ ->]]; [done|]. by exists c, r'. }
  rewrite get_codepoint_loop_cons in E. destruct (hex_value _) as [d1|] eqn:E1; [|left; by injection E].
  destruct (Hdigit _ _ Hl _ E1) as (c1 & r1 & -> & H1 & G1).
  rewrite get_codepoint_loop_cons in E. destruct (hex_value (current (get (get l)))) as [d2|] eqn:E2; [|left; by injection E].
  destruct (Hdigit _ _ (got_at _ _ _ _ _ G1) _ E2) as (c2 & r2 & -> & H2 & G2).
  rewrite get_codepoint_loop_cons in E. destruct (hex_value (current (get (get (get l))))) as [d3|] eqn:E3; [|left; by injection E].
  destruct (Hdigit _ _ (got_at _ _ _ _ _ G2) _ E3) as (c3 & r3 & -> & H3 & G3).
  rewrite get_codepoint_loop_cons in E. destruct (hex_value (current (get (get (get (get l)))))) as [d4|] eqn:E4; [|left; by injection E].
  destruct (Hdigit _ _ (got_at _ _ _ _ _ G3) _ E4) as (c4 & r4 & -> & H4 & G4).
  injection E as <- <-. right. exists [c1; c2; c3; c4], r4, c4. split; [done|]. split; [|done].
  cbn. rewrite H1, H2, H3, H4. cbn. f_equal. rewrite !Z.shiftl_mul_pow2 by lia. lia.
Qed.

Lemma scan_unicode_escape_sound n c0 r b l l' :
  lex_got n c0 r b l -> scan_unicode_escape l = (true, l') ->
  exists e v r' c', r = e ++ r' /\ string_char (92 :: 117 :: e) v /\ lex_got n c' r' (b ++ v) l'.
Proof.
  intros Hl E. pose proof E as Er. unfold scan_unicode_escape in E. destruct (get_codepoint l) as [v1 l1] eqn:E1.
  destruct (get_codepoint_sound _ _ _ _ _ _ (got_at _ _ _ _ _ Hl) E1) as [->|(h & r1 & c1 & -> & Hh & H1)]; [done|].
  destruct (hex4_inv h v1 Hh) as [Hv1 _]. replace (v1 =? -1) with false in E by lia.
  destruct (in_range 55296 56319 v1) eqn:Ehi.
  - apply in_range_spec in Ehi.
    destruct (get_cases _ _ _ _ (got_at _ _ _ _ _ H1)) as (c2 & r2 & H2 & Hc2).
    rewrite (got_current _ _ _ _ _ H2) in E. destruct (Z.eqb_spec c2 92) as [Ec2|]; [subst c2|done]. cbn [negb] in E.
    destruct Hc2 as [(? & _)|[_ ->]]; [done|].
    destruct (get_cases _ _ _ _ (got_at _ _ _ _ _ H2)) as (c3 & r3 & H3 & Hc3).
    rewrite (got_current _ _ _ _ _ H3) in E. destruct (Z.eqb_spec c3 117) as [Ec3|]; [subst c3|done]. cbn [negb] in E.
    destruct Hc3 as [(? & _)|[_ ->]]; [done|].
    destruct (get_codepoint (get (get l1))) as [v2 l2] eqn:E2.
    destruct (get_codepoint_sound _ _ _ _ _ _ (got_at _ _ _ _ _ H3) E2) as [->|(h' & r4 & c4 & -> & Hh' & H4)]; [done|].
    destruct (in_range 56320 57343 v2) eqn:Elo; [|by destruct (v2 =? -1)]. apply in_range_spec in Elo.
    destruct (scan_surrogates_ok n c0 h h' v1 v2 r4 b l Hh Hh' Ehi Elo Hl) as (l3 & c5 & E3 & H5).
    rewrite Er in E3. injection E3 as ->.
    exists (h ++ 92 :: 117 :: h'), (utf8_encode (surrogate_pair v1 v2)), r4, c5.
    split; [by rewrite <- app_assoc|]. split; [by constructor|done].
  - destruct (in_range 56320 57343 v1) eqn:Elo; [done|]. apply in_range_false in Ehi, Elo.
    assert (scalar v1) as Hs by (unfold scalar; lia).
    destruct (scan_unicode_escape_ok n c0 h v1 r1 b l Hh Hs Hl) as (l3 & c5 & E3 & H5).
    rewrite Er in E3. injection E3 as ->. exists h, (utf8_encode v1), r1, c5.
    split; [done|]. split; [by constructor|done].
Qed.

Lemma scan_escape_sound n c0 r b l l' :
  lex_got n c0 r b l -> scan_escape l = (true, l') ->
  exists e v r' c', r = e ++ r' /\ string_char (92 :: e) v /\ lex_got n c' r' (b ++ v) l'.
Proof.
  intros Hl E. destruct (get_cases _ _ _ _ (got_at _ _ _ _ _ Hl)) as (c & r1 & H1 & Hc).
  pose proof E as Er. unfold scan_escape in E. rewrite (got_current _ _ _ _ _ H1) in E.
  destruct (Z.eqb_spec c 117) as [Ec|Hu]; [subst c|].
  - destruct Hc as [(? & _)|[_ ->]]; [done|]. cbn in E.
    destruct (scan_unicode_escape_sound _ _ _ _ _ _ H1 E) as (e & v & r' & c' & -> & Hs & Hl').
    by exists (117 :: e), v, r', c'.
  - assert (exists v, short_escape c = Some v) as [v Hv].
    { unfold short_escape. repeat (case_cond; [by eexists|]). done. }
    destruct Hc as [(-> & _)|[_ ->]]; [done|].
    destruct (scan_escape_ok n c v r1 b l Hv (got_at _ _ _ _ _ Hl)) as (l2 & E2 & H2).
    rewrite Er in E2. injection E2 as ->. exists [c], [v], r1, c. split; [done|]. split; [by constructor|done].
Qed.

Lemma scan_string_step_sound n r b l :
  lex_at n r b l ->
  match scan_string_step l with
  | (None, l') => exists e v r' c', r = e ++ r' /\ string_char e v /\ lex_got n c' r' (b ++ v) l'
  | (Some t, l') =>
      t = tok_parse_error \/ (t = tok_value_string /\ exists r', r = 34 :: r' /\ lex_got n 34 r' b l')
  end.
Proof.
  intros Hl. destruct (get_cases _ _ _ _ Hl) as (c & r1 & H1 & Hc). unfold scan_string_step.
  rewrite (got_current _ _ _ _ _ H1). destruct (Z.eqb_spec c eof) as [Ec|He]; [by left|].
  destruct Hc as [(? & _)|[Hu ->]]; [done|]. unfold in_width in Hu.
  destruct (Z.eqb_spec c 34) as [Ec|Hq]; [subst c; right; eauto|].
  destruct (Z.eqb_spec c 92) as [Ec|Hb].
  { subst c. destruct (scan_escape (get l)) as [[] l'] eqn:E; cbn; [|by left].
    destruct (scan_escape_sound _ _ _ _ _ _ H1 E) as (e & v & r' & c' & -> & Hs & Hl').
    by exists (92 :: e), v, r', c'. }
  destruct (in_range 0 31 c) eqn:E0; [by left|]. apply in_range_false in E0.
  destruct (in_range 32 127 c) eqn:E1.
  { apply in_range_spec in E1. exists [c], [c], r1, c. split; [done|]. split.
    - constructor. unfold plain, well_formed, trail_ranges. rewrite (proj2 (in_range_spec 0 127 c)) by lia.
      cbn. zcases.
    - pose proof (got_add _ _ _ _ _ c H1) as Ha. by rewrite wrap_small in Ha by (unfold in_width; lia). }
  apply in_range_false in E1. destruct (utf8_ranges c) as [ranges|] eqn:Er; [|by left].
  destruct (next_byte_in_range ranges (get l)) as [[] l'] eqn:E; cbn; [|by left].
  rewrite utf8_ranges_trail in Er by lia. unfold next_byte_in_range in E.
  pose proof (got_add _ _ _ _ _ c H1) as Ha. rewrite (got_current _ _ _ _ _ H1) in E.
  rewrite wrap_small in Ha by (unfold in_width; lia).
  destruct (byte_in_range_loop_sound _ _ _ _ _ _ _ (trail_ranges_bytes c ranges Er) Ha E)
    as (s & r' & c' & -> & Hs & Hl').
  exists (c :: s), (c :: s), r', c'. split; [done|]. rewrite <- app_assoc in Hl'. split; [|done].
  constructor. unfold plain, well_formed. rewrite Er, Hs. cbn. destruct s as [|x s]; [|done].
  zcases.
Qed.

(** ** scan_string *)

Lemma string_char_not_nil e v : string_char e v -> (1 <= length e)%nat.
Proof.
  destruct 1 as [a H|c v H|h c H|h h' hi lo H H']; cbn; try lia.
  destruct a; [done|cbn; lia].
Qed.

Lemma scan_string_loop_complete n s v r b l fuel :
  string_text s v -> lex_at n (s ++ 34 :: r) b l -> (length s < fuel)%nat ->
  exists l', scan_string_loop fuel l = Some (tok_value_string, l') /\ lex_got n 34 r (b ++ v) l'.
Proof.
  intros Hs. revert b l fuel. induction Hs as [|e v s w He Hs IH]; intros b l [|fuel] Hl Hf; cbn in Hf; try lia.
  - cbn in Hl. pose proof (at_get _ _ _ _ _ Hl) as Hg. exists (get l). rewrite app_nil_r. split; [|done].
    cbn. unfold scan_string_step. by rewrite (got_current _ _ _ _ _ Hg).
  - rewrite <- app_assoc in Hl.
    destruct (scan_string_step_complete n e v (s ++ 34 :: r) b l He Hl) as (l1 & c1 & E & H1).
    pose proof (string_char_not_nil e v He). rewrite length_app in Hf.
    destruct (IH (b ++ v) l1 fuel (got_at _ _ _ _ _ H1) ltac:(lia)) as (l' & E' & Hl').
    exists l'. cbn. rewrite E. split; [done|]. by rewrite app_assoc.
Qed.

Lemma scan_string_loop_sound n r b l fuel :
  lex_at n r b l -> (length r < fuel)%nat ->
  exists t l', scan_string_loop fuel l = Some (t, l') /\
    (t = tok_parse_error \/
      t = tok_value_string /\ exists s v r', r = s ++ 34 :: r' /\ string_text s v /\ lex_got n 34 r' (b ++ v) l').
Proof.
  revert r b l. induction fuel as [|fuel IH]; intros r b l Hl Hf; [lia|]. cbn [scan_string_loop].
  pose proof (scan_string_step_sound n r b l Hl) as Hs. destruct (scan_string_step l) as [[t|] l1].
  - exists t, l1. split; [done|]. destruct Hs as [->|[-> (r' & -> & H1)]]; [by left|right].
    split; [done|]. exists [], [], r'. rewrite app_nil_r. split; [done|]. split; [constructor|done].
  - destruct Hs as (e & v & r1 & c1 & -> & He & H1). pose proof (string_char_not_nil e v He).
    rewrite length_app in Hf.
    destruct (IH r1 (b ++ v) l1 (got_at _ _ _ _ _ H1) ltac:(lia)) as (t & l' & E & Ht).
    exists t, l'. split; [done|]. destruct Ht as [->|[-> (s & w & r' & -> & Hs & Hl')]]; [by left|right].
    split; [done|]. exists (e ++ s), (v ++ w), r'. rewrite <- app_assoc in Hl'.
    split; [by rewrite <- app_assoc|]. split; [by constructor|done].
Qed.

(** The scanner after an opening quote. *)
Lemma scan_string_sound n r b l :
  lex_got n 34 r b l ->
  exists t l', scan_string l = Some (t, l') /\
    (t = tok_parse_error \/
      t = tok_value_string /\ exists s v r', r = s ++ 34 :: r' /\ string_text s v /\ lex_got n 34 r' v l').
Proof.
  intros Hl. pose proof (got_reset _ _ _ _ _ Hl) as Hr.
  destruct (scan_string_loop_sound n r [] (reset l) (lexer_fuel (reset l)) (got_at _ _ _ _ _ Hr)) as (t & l' & E & Ht).
  - unfold lexer_fuel. rewrite (got_rest _ _ _ _ _ Hr). lia.
  - by exists t, l'.
Qed.

Lemma scan_string_complete n s v r b l :
  string_text s v -> lex_got n 34 (s ++ 34 :: r) b l ->
  exists l', scan_string l = Some (tok_value_string, l') /\ lex_got n 34 r v l'.
Proof.
  intros Hs Hl. pose proof (got_reset _ _ _ _ _ Hl) as Hr.
  destruct (scan_string_loop_complete n s v r [] (reset l) (lexer_fuel (reset l)) Hs (got_at _ _ _ _ _ Hr))
    as (l' & E & Hl').
  - unfold lexer_fuel. rewrite (got_rest _ _ _ _ _ Hr), length_app. cbn. lia.
  - by exists l'.
Qed.
