(* ===== verification/JsonNumbers.v ===== *)
(** * The numbers of the lexer

    The labels of [lexer::scan_number] as an automaton, and the texts that lead it
    from its first label to one where a number may end: they are the numbers of RFC
    8259. [scan_number] returns on every input, takes the longest such text, and
    gives an integer of 64 bits its value and every other number what [strtod]
    makes of its text. *)

From Stdlib Require Import ZArith Lia String Ascii SpecFloat.
From stdpp Require Import base list.
From S2P Require Import Prelude Utf8 Exceptions JsonValue JsonLexer JsonStrings.

(** ** The texts of numbers *)

Definition digits (s : bytes) : Prop := Forall (fun c => is_digit c = true) s.

(** The text of a natural number: no leading zero. *)
Definition natural (s : bytes) : Prop :=
  match s with
  | [] => False
  | c :: ds => digits s /\ (c = 48 -> ds = [])
  end.

(** A fraction and an exponent, or nothing. *)
Inductive fraction_text : bytes -> bytes -> Prop :=
  | no_fraction : fraction_text [] []
  | some_fraction fp : digits fp -> fp <> [] -> fraction_text (46 :: fp) fp.

Inductive exponent_text : bytes -> Z -> Prop :=
  | no_exponent : exponent_text [] 0
  | plain_exponent c ds : is_exponent c = true -> digits ds -> ds <> [] -> exponent_text (c :: ds) (decimal ds)
  | plus_exponent c ds : is_exponent c = true -> digits ds -> ds <> [] -> exponent_text (c :: 43 :: ds) (decimal ds)
  | minus_exponent c ds : is_exponent c = true -> digits ds -> ds <> [] -> exponent_text (c :: 45 :: ds) (- decimal ds).

(** A number of RFC 8259: its sign, the digits before and after the point, and the
    exponent. *)
Inductive number_text : bytes -> bool -> bytes -> bytes -> Z -> Prop :=
  | number_parts (neg : bool) ip fr fp ex x :
      natural ip -> fraction_text fr fp -> exponent_text ex x ->
      number_text ((if neg then [45] else []) ++ ip ++ fr ++ ex) neg ip fp x.

(** A number with a fraction or an exponent. *)
Inductive float_text : bytes -> bool -> bytes -> bytes -> Z -> Prop :=
  | float_parts (neg : bool) ip fr fp ex x :
      natural ip -> fraction_text fr fp -> exponent_text ex x -> fr ++ ex <> [] ->
      float_text ((if neg then [45] else []) ++ ip ++ fr ++ ex) neg ip fp x.

Lemma float_number s neg ip fp x : float_text s neg ip fp x -> number_text s neg ip fp x.
Proof. by destruct 1. Qed.

(** The text of a number that is read as floating-point: it has a fraction or an
    exponent, or it is an integer that does not fit its type. *)
Inductive float_literal : bytes -> Prop :=
  | literal_float s neg ip fp x : float_text s neg ip fp x -> float_literal s
  | literal_unsigned s : natural s -> 2 ^ 64 <= decimal s -> float_literal s
  | literal_integer s : natural s -> 2 ^ 63 < decimal s -> float_literal (45 :: s).

Lemma digits_snoc b c : digits b -> is_digit c = true -> digits (b ++ [c]).
Proof. intros Hb Hc. apply Forall_app. by split; [|constructor]. Qed.

Lemma digit19_digit c : is_digit19 c = true -> is_digit c = true.
Proof. unfold is_digit19, is_digit, in_range. intros. bool_prop. zcases. Qed.

Lemma natural_digits s : natural s -> digits s.
Proof. by destruct s; [|intros [H _]]. Qed.

Lemma natural_first c ds : natural (c :: ds) -> 48 <= c <= 57 /\ ((c =? 48) = false -> is_digit19 c = true).
Proof.
  intros [Hd _]. apply Forall_cons in Hd as [Hc _]. unfold is_digit in Hc. apply in_range_spec in Hc.
  split; [done|]. intros H. apply in_range_spec. lia.
Qed.

Lemma decimal_fold ds v : digits ds -> 0 <= v -> 0 <= fold_left (fun v c => v * 10 + (c - 48)) ds v.
Proof.
  intros Hd. revert v. induction Hd as [|c ds Hc _ IH]; intros v Hv; [done|]. cbn. apply IH.
  unfold is_digit in Hc. apply in_range_spec in Hc. lia.
Qed.

Lemma decimal_nonneg ds : digits ds -> 0 <= decimal ds.
Proof. intros H. by apply decimal_fold. Qed.

(** ** The automaton *)

(** The label after the first character. *)
Definition first_label (c : Z) : number_state :=
  if c =? 45 then number_minus else if c =? 48 then number_zero
  else if is_digit19 c then number_any1 else number_error.

(** The label a label goes to on a character. *)
Definition label_reads (st : number_state) (c : Z) : number_state :=
  match st with
  | number_minus => if c =? 48 then number_zero else if is_digit19 c then number_any1 else number_error
  | number_zero => if c =? 46 then number_decimal1 else if is_exponent c then number_exponent else number_done
  | number_any1 =>
      if is_digit c then number_any1 else if c =? 46 then number_decimal1
      else if is_exponent c then number_exponent else number_done
  | number_decimal1 => if is_digit c then number_decimal2 else number_error
  | number_decimal2 => if is_digit c then number_decimal2 else if is_exponent c then number_exponent else number_done
  | number_exponent => if (c =? 43) || (c =? 45) then number_sign else if is_digit c then number_any2 else number_error
  | number_sign => if is_digit c then number_any2 else number_error
  | number_any2 => if is_digit c then number_any2 else number_done
  | number_done | number_error => number_error
  end.

(** What a label does to the type. *)
Definition label_type (st : number_state) (nt : token_type) : token_type :=
  match st with
  | number_minus => value_integer
  | number_decimal1 | number_exponent => value_float
  | _ => nt
  end.

Definition label_done (st : number_state) : bool :=
  match st with number_done | number_error => true | _ => false end.

(** The labels at which a number may end. *)
Definition final_label (st : number_state) : bool :=
  match st with number_zero | number_any1 | number_decimal2 | number_any2 => true | _ => false end.

(** The labels a text leads through, none of which ends the number. *)
Fixpoint label_run (st : number_state) (nt : token_type) (text : bytes) : option (number_state * token_type) :=
  match text with
  | [] => Some (st, nt)
  | c :: text =>
      if label_done (label_reads st c) then None else label_run (label_reads st c) (label_type st nt) text
  end.

Lemma label_run_app st nt a b :
  label_run st nt (a ++ b) = match label_run st nt a with Some (st, nt) => label_run st nt b | None => None end.
Proof.
  revert st nt. induction a as [|c a IH]; intros st nt; [done|]. cbn [app label_run]. by case_cond.
Qed.

(** The character that [get] reads before a text. *)
Definition next_char (r : bytes) : Z := match r with c :: _ => c | [] => eof end.

(** A number does not go on with what follows its text. *)
Definition stops (st : number_state) (r : bytes) : Prop := label_reads st (next_char r) = number_done.

Lemma stops_final st r : stops st r -> final_label st = true.
Proof. unfold stops. destruct st; cbn; repeat case_cond; done. Qed.

Definition number_ends (text r : bytes) : Prop :=
  match text with
  | c :: rest =>
      match label_run (first_label c) value_unsigned rest with
      | Some (st, _) => if final_label st then stops st r else True
      | None => True
      end
  | [] => True
  end.

(** What may follow every number for it to end there. *)
Definition ends_number (r : bytes) : Prop :=
  match r with c :: _ => is_digit c = false /\ c <> 46 /\ is_exponent c = false | [] => True end.

Lemma ends_stops st r : final_label st = true -> ends_number r -> stops st r.
Proof.
  intros Hf Hr. unfold stops. destruct r as [|c r]; cbn [next_char]; [by destruct st|].
  destruct Hr as (H1 & H2%Z.eqb_neq & H3). by destruct st; cbn; rewrite ?H1, ?H2, ?H3.
Qed.

Lemma ends_number_ends text r : ends_number r -> number_ends text r.
Proof.
  intros Hr. destruct text as [|c rest]; [done|]. cbn. destruct (label_run _ _ _) as [[st nt]|]; [|done].
  destruct (final_label st) eqn:E; [by apply ends_stops|done].
Qed.

(** ** The texts the automaton accepts *)

Lemma run_digits st nt ds :
  st = number_any1 \/ st = number_decimal2 \/ st = number_any2 -> digits ds -> label_run st nt ds = Some (st, nt).
Proof.
  intros Hst Hd. induction Hd as [|c ds Hc _ IH]; [done|].
  destruct Hst as [->|[->| ->]]; cbn [label_run label_reads label_type] in *; by rewrite Hc.
Qed.

Lemma exponent_char c : is_exponent c = true -> c = 101 \/ c = 69.
Proof. intros H. apply orb_true_iff in H as [H|H]; lia. Qed.

Lemma run_exponent st nt ex x :
  final_label st = true -> st <> number_any2 -> exponent_text ex x -> ex <> [] ->
  label_run st nt ex = Some (number_any2, value_float).
Proof.
  intros Hf Hn He Hne.
  assert (forall c rest, is_exponent c = true ->
    label_run st nt (c :: rest) = label_run number_exponent (label_type st nt) rest) as Hstart.
  { intros c rest Hc. assert (label_reads st c = number_exponent) as E; [|cbn [label_run]; by rewrite E].
    destruct (exponent_char c Hc) as [-> | ->]; by destruct st. }
  assert (forall nt ds, digits ds -> ds <> [] -> label_run number_exponent nt ds = Some (number_any2, value_float)) as Hplain.
  { intros nt' ds Hd Hds. destruct ds as [|d ds]; [done|]. apply Forall_cons in Hd as [Hd Hds'].
    cbn [label_run label_reads label_type]. pose proof Hd as Hr. apply in_range_spec in Hr.
    replace ((d =? 43) || (d =? 45)) with false by lia. rewrite Hd. cbn [label_done]. apply run_digits; [tauto|done]. }
  assert (forall nt ds, digits ds -> ds <> [] -> label_run number_sign nt ds = Some (number_any2, nt)) as Hsigned.
  { intros nt' ds Hd Hds. destruct ds as [|d ds]; [done|]. apply Forall_cons in Hd as [Hd Hds'].
    cbn [label_run label_reads label_type]. rewrite Hd. cbn [label_done]. apply run_digits; [tauto|done]. }
  destruct He as [|c ds Hc Hd Hds|c ds Hc Hd Hds|c ds Hc Hd Hds]; [done| | |]; rewrite Hstart by done.
  - by apply Hplain.
  - cbn. by apply Hsigned.
  - cbn. by apply Hsigned.
Qed.

Lemma run_fraction st nt fr fp :
  st = number_zero \/ st = number_any1 -> fraction_text fr fp -> fr <> [] ->
  label_run st nt fr = Some (number_decimal2, value_float).
Proof.
  intros Hst Hf Hne. destruct Hf as [|fp Hd Hfp]; [done|]. destruct fp as [|d fp]; [done|].
  apply Forall_cons in Hd as [Hd Hds]. destruct Hst as [-> | ->]; cbn; rewrite Hd; cbn; apply run_digits; tauto.
Qed.

(** The label of the first digit of a natural number. *)
Definition natural_label (c : Z) : number_state := if c =? 48 then number_zero else number_any1.

Lemma natural_label_final c : final_label (natural_label c) = true.
Proof. unfold natural_label. by case_cond. Qed.

Lemma run_natural nt c ds : natural (c :: ds) -> label_run (natural_label c) nt ds = Some (natural_label c, nt).
Proof.
  intros [Hd Hz]. unfold natural_label. destruct (Z.eqb_spec c 48) as [Hc|Hc]; [by rewrite (Hz Hc)|].
  apply run_digits; [by left|]. by apply Forall_cons in Hd as [_ Hd].
Qed.

(** The rest of a number after its first digit. *)
Lemma run_number nt c ds fr fp ex x :
  natural (c :: ds) -> fraction_text fr fp -> exponent_text ex x -> fr ++ ex <> [] ->
  exists st, final_label st = true /\ label_run (natural_label c) nt (ds ++ fr ++ ex) = Some (st, value_float).
Proof.
  intros Hn Hfr Hex Hne. assert (natural_label c = number_zero \/ natural_label c = number_any1) as Hst
    by (unfold natural_label; case_cond; tauto).
  rewrite label_run_app, (run_natural nt c ds Hn), label_run_app.
  destruct (decide (fr = [])) as [->|Hfn].
  - exists number_any2. split; [done|]. apply (run_exponent _ _ ex x); [by destruct Hst as [-> | ->]..|done|done].
  - rewrite (run_fraction _ nt fr fp Hst Hfr Hfn).
    destruct (decide (ex = [])) as [->|Hen]; [by exists number_decimal2|].
    exists number_any2. split; [done|]. by apply (run_exponent _ _ ex x).
Qed.

(** The type that is found for a text. *)
Definition number_typed (nt : token_type) (text : bytes) : Prop :=
  (nt = value_unsigned /\ natural text) \/ (nt = value_integer /\ exists ds, text = 45 :: ds /\ natural ds) \/
  (nt = value_float /\ exists neg ip fp x, float_text text neg ip fp x).

(** The first digit of a number, with a sign or without. *)
Lemma run_first (neg : bool) c ds rest st nt :
  natural (c :: ds) -> label_run (natural_label c) (if neg then value_integer else value_unsigned) rest = Some (st, nt) ->
  exists c0 rest0, (if neg then [45] else []) ++ c :: rest = c0 :: rest0 /\ u8 c0 /\ label_done (first_label c0) = false /\
    label_run (first_label c0) value_unsigned rest0 = Some (st, nt).
Proof.
  intros Hn Hr. destruct (natural_first c ds Hn) as [Hc H19]. unfold natural_label in Hr. destruct neg; cbn [app].
  - exists 45, (c :: rest). do 3 (split; [done|]). change (first_label 45) with number_minus.
    cbn [label_run label_reads label_type]. destruct (c =? 48) eqn:E; [done|]. by rewrite (H19 eq_refl).
  - exists c, rest. split; [done|]. split; [unfold in_width; lia|]. unfold first_label.
    replace (c =? 45) with false by lia. destruct (c =? 48) eqn:E; [done|]. by rewrite (H19 eq_refl).
Qed.

Lemma typed_run nt text :
  number_typed nt text ->
  exists c rest st, text = c :: rest /\ u8 c /\ label_done (first_label c) = false /\
    label_run (first_label c) value_unsigned rest = Some (st, nt) /\ final_label st = true.
Proof.
  intros [[-> Hn]|[[-> (s & -> & Hn)]|[-> (neg & ip & fp & x & Hf)]]].
  - destruct text as [|c ds]; [done|].
    destruct (run_first false c ds ds _ _ Hn (run_natural _ c ds Hn)) as (c0 & rest & E & H1 & H2 & H3).
    exists c0, rest, (natural_label c). repeat (split; [done|]). apply natural_label_final.
  - destruct s as [|c ds]; [done|].
    destruct (run_first true c ds ds _ _ Hn (run_natural _ c ds Hn)) as (c0 & rest & E & H1 & H2 & H3).
    exists c0, rest, (natural_label c). repeat (split; [done|]). apply natural_label_final.
  - destruct Hf as [neg ip fr fp ex x Hip Hfr Hex Hne]. destruct ip as [|c ds]; [done|].
    destruct (run_number (if neg then value_integer else value_unsigned) c ds fr fp ex x Hip Hfr Hex Hne) as (st & Hf & E).
    destruct (run_first neg c ds _ _ _ Hip E) as (c0 & rest & E' & H1 & H2 & H3).
    by exists c0, rest, st.
Qed.

Definition not_digit_first (r : bytes) : Prop := match r with c :: _ => is_digit c = false | [] => True end.

Lemma digits_split text : exists ds rest, text = ds ++ rest /\ digits ds /\ not_digit_first rest.
Proof.
  induction text as [|c text (ds & rest & -> & Hd & Hr)]; [by exists [], []; repeat constructor|].
  destruct (is_digit c) eqn:Hc; [|by exists [], (c :: ds ++ rest); repeat constructor].
  exists (c :: ds), rest. split; [done|]. split; [by constructor|done].
Qed.

(** After digits a label goes on with what is not a digit. *)
Lemma run_after_digits st nt text st' nt' :
  st = number_any1 \/ st = number_decimal2 \/ st = number_any2 -> label_run st nt text = Some (st', nt') ->
  exists ds rest, text = ds ++ rest /\ digits ds /\ not_digit_first rest /\ label_run st nt rest = Some (st', nt').
Proof.
  intros Hst Hr. destruct (digits_split text) as (ds & rest & -> & Hd & Hrest). exists ds, rest.
  do 3 (split; [done|]). by rewrite label_run_app, (run_digits st nt ds Hst Hd) in Hr.
Qed.

Lemma any2_inv nt text st' nt' : label_run number_any2 nt text = Some (st', nt') -> digits text /\ nt' = nt.
Proof.
  intros Hr. destruct (run_after_digits number_any2 _ _ _ _ ltac:(tauto) Hr) as (ds & rest & -> & Hd & Hn & Hr').
  destruct rest as [|c rest]; [rewrite app_nil_r; by injection Hr'|].
  cbn in Hn, Hr'. by rewrite Hn in Hr'.
Qed.

(** An exponent after its letter. *)
Lemma exponent_inv c nt text st' nt' :
  is_exponent c = true -> label_run number_exponent nt text = Some (st', nt') -> final_label st' = true ->
  nt' = value_float /\ exists x, exponent_text (c :: text) x.
Proof.
  intros Hc Hr Hf. destruct text as [|d text]; [injection Hr as <- <-; done|].
  cbn [label_run label_reads label_type] in Hr. destruct ((d =? 43) || (d =? 45)) eqn:Hs.
  - cbn [label_done] in Hr. destruct text as [|d' text]; [injection Hr as <- <-; done|].
    cbn [label_run label_reads label_type] in Hr. destruct (is_digit d') eqn:Hd; [|done]. cbn [label_done] in Hr.
    destruct (any2_inv _ _ _ _ Hr) as [Hds ->]. split; [done|].
    apply orb_true_iff in Hs as [->%Z.eqb_eq| ->%Z.eqb_eq].
    + exists (decimal (d' :: text)). apply plus_exponent; [done|by constructor|done].
    + exists (- decimal (d' :: text)). apply minus_exponent; [done|by constructor|done].
  - destruct (is_digit d) eqn:Hd; [|done]. cbn [label_done] in Hr. destruct (any2_inv _ _ _ _ Hr) as [Hds ->].
    split; [done|]. exists (decimal (d :: text)). apply plain_exponent; [done|by constructor|done].
Qed.

(** The digits of a fraction and an exponent. *)
Lemma decimal2_inv nt text st' nt' :
  label_run number_decimal2 nt text = Some (st', nt') -> final_label st' = true ->
  exists ds ex x, text = ds ++ ex /\ digits ds /\ exponent_text ex x /\ (nt = value_float -> nt' = value_float).
Proof.
  intros Hr Hf. destruct (run_after_digits number_decimal2 _ _ _ _ ltac:(tauto) Hr) as (ds & rest & -> & Hd & Hn & Hr').
  exists ds, rest. destruct rest as [|c rest].
  - injection Hr' as _ <-. exists 0. do 2 (split; [done|]). split; [constructor|done].
  - cbn in Hn. cbn [label_run label_reads label_type] in Hr'. rewrite Hn in Hr'.
    destruct (is_exponent c) eqn:Hc; [|done]. cbn [label_done] in Hr'.
    destruct (exponent_inv c _ _ _ _ Hc Hr' Hf) as [-> [x Hx]]. by exists x.
Qed.

(** What follows the digits before the point. *)
Lemma after_natural_inv st nt text st' nt' :
  st = number_zero \/ st = number_any1 -> not_digit_first text \/ st = number_zero ->
  label_run st nt text = Some (st', nt') -> final_label st' = true ->
  text = [] /\ nt' = nt \/
  nt' = value_float /\ exists fr fp ex x, text = fr ++ ex /\ fraction_text fr fp /\ exponent_text ex x /\ fr ++ ex <> [].
Proof.
  intros Hst Hn Hr Hf. destruct text as [|c text]; [left; by injection Hr as _ <-|right].
  assert ((c = 46 /\ label_run number_decimal1 nt text = Some (st', nt')) \/
          (is_exponent c = true /\ label_run number_exponent nt text = Some (st', nt'))) as [[-> Hr']|[Hc Hr']].
  { destruct Hst as [-> | ->]; cbn [label_run label_reads label_type] in Hr;
      [|destruct Hn as [Hn|?]; [cbn in Hn; rewrite Hn in Hr|done]];
      (destruct (Z.eqb_spec c 46); [by left|destruct (is_exponent c); [by right|done]]). }
  - destruct text as [|d text]; [injection Hr' as <- <-; done|].
    cbn [label_run label_reads label_type] in Hr'. destruct (is_digit d) eqn:Hd; [|done]. cbn [label_done] in Hr'.
    destruct (decimal2_inv _ _ _ _ Hr' Hf) as (ds & ex & x & -> & Hds & Hx & Hnt). split; [by apply Hnt|].
    exists (46 :: d :: ds), (d :: ds), ex, x. split; [done|]. split; [|done].
    constructor; [by constructor|done].
  - destruct (exponent_inv c _ _ _ _ Hc Hr' Hf) as [-> [x Hx]]. split; [done|].
    exists [], [], (c :: text), x. split; [done|]. split; [constructor|done].
Qed.

(** The text from the first digit on. *)
Lemma natural_label_inv c nt text st' nt' :
  is_digit c = true -> label_run (natural_label c) nt text = Some (st', nt') -> final_label st' = true ->
  exists ds rest, text = ds ++ rest /\ natural (c :: ds) /\
    (rest = [] /\ nt' = nt \/
     nt' = value_float /\ exists fr fp ex x, rest = fr ++ ex /\ fraction_text fr fp /\ exponent_text ex x /\ fr ++ ex <> []).
Proof.
  intros Hc Hr Hf. unfold natural_label in Hr. destruct (Z.eqb_spec c 48) as [->|Hne].
  - exists [], text. split; [done|]. split; [by repeat constructor|].
    by apply (after_natural_inv number_zero nt text st'); [tauto|tauto|..].
  - destruct (run_after_digits number_any1 _ _ _ _ ltac:(tauto) Hr) as (ds & rest & -> & Hd & Hn & Hr').
    exists ds, rest. split; [done|]. split; [split; [by constructor|done]|].
    by apply (after_natural_inv number_any1 nt rest st'); [tauto|tauto|..].
Qed.

(** The texts the automaton accepts are the numbers of the grammar. *)
Lemma run_typed c rest st nt :
  label_run (first_label c) value_unsigned rest = Some (st, nt) -> final_label st = true -> number_typed nt (c :: rest).
Proof.
  intros Hr Hf.
  assert (forall (neg : bool) c rest, is_digit c = true ->
    label_run (natural_label c) (if neg then value_integer else value_unsigned) rest = Some (st, nt) ->
    number_typed nt ((if neg then [45] else []) ++ c :: rest)) as Hgo.
  { intros neg c' rest' Hc Hr'. destruct (natural_label_inv _ _ _ _ _ Hc Hr' Hf)
      as (ds & rest2 & -> & Hn & [[-> ->]|[-> (fr & fp & ex & x & -> & Hfr & Hex & Hne)]]).
    - rewrite app_nil_r. destruct neg; [right; left|by left]. split; [done|]. by exists (c' :: ds).
    - right; right. split; [done|]. exists neg, (c' :: ds), fp, x. by apply (float_parts neg (c' :: ds) fr fp ex x). }
  assert (forall c, is_digit19 c = true -> natural_label c = number_any1 /\ is_digit c = true) as H19.
  { intros d Hd. pose proof Hd as Hd'%in_range_spec. split; [|by apply digit19_digit].
    unfold natural_label. by replace (d =? 48) with false by lia. }
  unfold first_label in Hr. destruct (Z.eqb_spec c 45) as [->|].
  - destruct rest as [|d rest]; [injection Hr as <- <-; done|]. cbn [label_run label_reads label_type] in Hr.
    destruct (Z.eqb_spec d 48) as [->|]; [by apply (Hgo true 48)|].
    destruct (is_digit19 d) eqn:Hd; [|done]. destruct (H19 d Hd) as [E Hd']. apply (Hgo true d); [done|]. by rewrite E.
  - destruct (Z.eqb_spec c 48) as [->|]; [by apply (Hgo false 48)|].
    destruct (is_digit19 c) eqn:Hd.
    + destruct (H19 c Hd) as [E Hd']. apply (Hgo false c); [done|]. by rewrite E.
    + destruct rest as [|d rest]; [injection Hr as <- <-; done|]. done.
Qed.

(** ** The code of the labels *)

Definition label_code (st : number_state) (l : lexer) : number_state * lexer :=
  match st with
  | number_minus => scan_number_minus l
  | number_zero => scan_number_zero l
  | number_any1 => scan_number_any1 l
  | number_decimal1 => scan_number_decimal1 l
  | number_decimal2 => scan_number_decimal2 l
  | number_exponent => scan_number_exponent l
  | number_sign => scan_number_sign l
  | number_any2 => scan_number_any2 l
  | number_done | number_error => (st, l)
  end.

Lemma scan_number_loop_S fuel st nt l :
  label_done st = false ->
  scan_number_loop (S fuel) st nt l =
    scan_number_loop fuel (fst (label_code st l)) (label_type st nt) (snd (label_code st l)).
Proof. by destruct st. Qed.

(** A label goes where the automaton goes on the character it gets, and adds it to
    the text of the number unless it ends it. *)
Lemma label_code_reads st l c :
  label_done st = false -> current (get l) = c ->
  fst (label_code st l) = label_reads st c /\
  (label_reads st c = number_done -> snd (label_code st l) = get l) /\
  (label_done (label_reads st c) = false -> snd (label_code st l) = add c (get l)).
Proof.
  intros Hst Hc. destruct st; try done; cbn [label_code label_reads];
    unfold scan_number_minus, scan_number_zero, scan_number_any1, scan_number_decimal1,
      scan_number_decimal2, scan_number_exponent, scan_number_sign, scan_number_any2; rewrite Hc;
    repeat case_cond; (split; [done|split; intros; try done; bool_prop; cbn; congruence]).
Qed.

Lemma get_next n r b l : lex_at n r b l -> current (get l) = next_char r.
Proof.
  intros Hl. destruct r as [|c r].
  - exact (got_current _ _ _ _ _ (at_get_end _ _ _ Hl)).
  - exact (got_current _ _ _ _ _ (at_get _ _ _ _ _ Hl)).
Qed.

(** The labels that a text leads through. *)
Lemma loop_run fuel text st nt st' nt' n r b l :
  lex_at n (text ++ r) b l -> label_done st = false -> label_run st nt text = Some (st', nt') ->
  exists l0, scan_number_loop (length text + fuel) st nt l = scan_number_loop fuel st' nt' l0 /\ lex_at n r (b ++ text) l0.
Proof.
  revert st nt b l. induction text as [|c text IH]; intros st nt b l Hl Hst Hr; cbn [label_run] in Hr.
  - injection Hr as <- <-. exists l. by rewrite app_nil_r.
  - destruct (label_done (label_reads st c)) eqn:Hd; [done|]. cbn [app length Nat.add] in *.
    destruct (label_code_reads st l c Hst (get_next _ _ _ _ Hl)) as (E1 & _ & E2).
    rewrite scan_number_loop_S, E1, (E2 Hd) by done.
    pose proof (got_add _ _ _ _ _ c (at_get _ _ _ _ _ Hl)) as Ha.
    rewrite wrap_small in Ha by exact (Forall_inv (at_chars _ _ _ _ Hl)).
    destruct (IH (label_reads st c) (label_type st nt) (b ++ [c]) _ (got_at _ _ _ _ _ Ha) Hd Hr) as (l0 & E & H0).
    exists l0. rewrite <- app_assoc in H0. by split.
Qed.

(** The end of a number. *)
Lemma loop_stops fuel st nt n r b l :
  stops st r -> lex_at n r b l -> scan_number_loop (S (S fuel)) st nt l = Some (scan_number_done nt (get l)).
Proof.
  intros Hr Hl. pose proof (stops_final _ _ Hr) as Hf. assert (label_done st = false) as Hst by by destruct st.
  destruct (label_code_reads st l _ Hst (get_next _ _ _ _ Hl)) as (E1 & E2 & _). unfold stops in Hr.
  rewrite scan_number_loop_S, E1, (E2 Hr), Hr by done. by destruct st.
Qed.

(** Every run of the loop is one of the automaton to the end of a number, or an
    error. *)
Lemma loop_sound fuel st nt n r b l :
  label_done st = false -> lex_at n r b l -> (S (length r) < fuel)%nat ->
  exists t l', scan_number_loop fuel st nt l = Some (t, l') /\
    (t = tok_parse_error \/
      exists text r' st' nt' l0, r = text ++ r' /\ label_run st nt text = Some (st', nt') /\ stops st' r' /\
        lex_at n r' (b ++ text) l0 /\ (t, l') = scan_number_done nt' (get l0)).
Proof.
  revert st nt r b l. induction fuel as [|fuel IH]; intros st nt r b l Hst Hl Hf; [lia|].
  destruct (label_code_reads st l _ Hst (get_next _ _ _ _ Hl)) as (E1 & E2 & E3).
  destruct (label_done (label_reads st (next_char r))) eqn:Hd.
  - destruct fuel as [|fuel]; [lia|]. destruct (label_reads st (next_char r)) eqn:E; try done.
    + rewrite (loop_stops fuel st nt n r b l E Hl). destruct (scan_number_done nt (get l)) as [t l'] eqn:Ed.
      exists t, l'. split; [done|]. right. exists [], r, st, nt, l. by rewrite app_nil_r, Ed.
    + rewrite scan_number_loop_S, E1 by done. eexists _, _. split; [done|by left].
  - rewrite scan_number_loop_S, E1, (E3 eq_refl) by done. destruct r as [|c r].
    { cbn in Hd. destruct st; done. }
    cbn [next_char] in *. pose proof (got_add _ _ _ _ _ c (at_get _ _ _ _ _ Hl)) as Ha.
    rewrite wrap_small in Ha by exact (Forall_inv (at_chars _ _ _ _ Hl)).
    destruct (IH (label_reads st c) (label_type st nt) r (b ++ [c]) _ Hd (got_at _ _ _ _ _ Ha) ltac:(cbn in Hf; lia))
      as (t & l' & El & Ht).
    exists t, l'. split; [exact El|]. destruct Ht as [->|(text & r' & st' & nt' & l0 & -> & Hr & Hs & H0 & Ed)]; [by left|right].
    exists (c :: text), r', st', nt', l0. split; [done|]. split; [cbn [label_run]; by rewrite Hd|].
    rewrite <- app_assoc in H0. done.
Qed.

(** ** scan_number *)

(** The token of a number's text, and the value it carries. *)
Inductive number_literal : token_type -> bytes -> Prop :=
  | unsigned_literal s : natural s -> decimal s < 2 ^ 64 -> number_literal value_unsigned s
  | integer_literal s : natural s -> decimal s <= 2 ^ 63 -> number_literal value_integer (45 :: s)
  | other_literal s : float_literal s -> number_literal value_float s.

Definition number_value (t : token_type) (text : bytes) (l : lexer) : Prop :=
  match t with
  | value_unsigned => number_unsigned l = decimal text
  | value_integer => number_integer l = - decimal (tail text)
  | _ => number_float l = strtod text
  end.

(** The token that [scan_number_done] decides on. *)
Definition done_type (nt : token_type) (text : bytes) : token_type :=
  match nt with
  | value_unsigned => match strtoull text with Some _ => value_unsigned | None => value_float end
  | value_integer => match strtoll text with Some _ => value_integer | None => value_float end
  | _ => value_float
  end.

Lemma typed_literal nt text : number_typed nt text -> number_literal (done_type nt text) text.
Proof.
  intros [[-> Hd]|[[-> (ds & -> & Hd)]|[-> (neg & ip & fp & x & Hf)]]]; cbn [done_type].
  - unfold strtoull. destruct (Z.ltb_spec (decimal text) (2 ^ 64)); constructor; [done..|]. by apply literal_unsigned.
  - unfold strtoll. destruct (Z.leb_spec (decimal ds) (2 ^ 63)); constructor; [done..|]. by apply literal_integer.
  - constructor. by eapply literal_float.
Qed.

Lemma literal_typed t text : number_literal t text -> exists nt, number_typed nt text /\ t = done_type nt text.
Proof.
  destruct 1 as [s Hn Hv|s Hn Hv|s [s' neg ip fp x Hf|s' Hn Hv|s' Hn Hv]].
  - exists value_unsigned. split; [by left|]. cbn. unfold strtoull. by replace (decimal s <? 2 ^ 64) with true by lia.
  - exists value_integer. split; [by right; left; eauto|]. cbn [done_type]. unfold strtoll.
    by replace (decimal s <=? 2 ^ 63) with true by lia.
  - exists value_float. split; [|done]. right; right. split; [done|]. by exists neg, ip, fp, x.
  - exists value_unsigned. split; [by left|]. cbn. unfold strtoull. by replace (decimal s' <? 2 ^ 64) with false by lia.
  - exists value_integer. split; [by right; left; eauto|]. cbn [done_type]. unfold strtoll.
    by replace (decimal s' <=? 2 ^ 63) with false by lia.
Qed.

Lemma unget_get n r b l : lex_at n r b l -> lex_at n r b (unget (get l)).
Proof.
  intros Hl. destruct r as [|c r].
  - by apply unget_end, get_end.
  - apply unget_at; [by apply get_got|]. exact (Forall_inv (at_chars _ _ _ _ Hl)).
Qed.

Lemma scan_number_done_ok nt n r b l :
  lex_at n r b l -> number_typed nt b ->
  exists l', scan_number_done nt (get l) = (done_type nt b, l') /\ lex_at n r b l' /\ number_value (done_type nt b) b l'.
Proof.
  intros Hl Ht. apply unget_get in Hl. unfold scan_number_done.
  rewrite (at_buffer _ _ _ _ Hl). destruct Ht as [[-> Hd]|[[-> (ds & -> & Hd)]|[-> (neg & ip & fp & x & Hf)]]];
    cbn [done_type].
  - unfold strtoull. destruct (Z.ltb_spec (decimal b) (2 ^ 64)); (eexists; split; [done|]);
      (split; [by destruct Hl|done]).
  - unfold strtoll. destruct (Z.leb_spec (decimal ds) (2 ^ 63)); (eexists; split; [done|]);
      (split; [by destruct Hl|done]).
  - eexists. split; [done|]. split; [by destruct Hl|done].
Qed.

(** The scanner at the first character of a number. *)
Lemma scan_number_init_reads n c r b l :
  lex_got n c r b l -> u8 c -> label_done (first_label c) = false ->
  scan_number_init (reset l) = (first_label c, add c (reset l)) /\ lex_at n r [c] (add c (reset l)) /\
  lexer_fuel (add c (reset l)) = S (S (length r)).
Proof.
  intros Hl Hu Hd. pose proof (got_reset _ _ _ _ _ Hl) as Hs.
  pose proof (got_add _ _ _ _ _ c Hs) as Ha. rewrite wrap_small in Ha by done. cbn [app] in Ha.
  split; [|split; [by apply (got_at _ c)|unfold lexer_fuel; by rewrite (got_rest _ _ _ _ _ Ha)]].
  unfold scan_number_init, first_label in *. rewrite (got_current _ _ _ _ _ Hs). by repeat case_cond.
Qed.

(** [scan_number] returns on every input: an error, or the token of the longest
    number that the input starts with. *)
Lemma scan_number_sound n c r b l :
  lex_got n c r b l -> u8 c -> (c =? 45) || is_digit c = true ->
  exists t l', scan_number l = Some (t, l') /\
    (t = tok_parse_error \/
      exists text r', r = text ++ r' /\ lex_at n r' (c :: text) l' /\ number_literal t (c :: text) /\
        number_value t (c :: text) l' /\ number_ends (c :: text) r').
Proof.
  intros Hl Hu Hc. assert (label_done (first_label c) = false) as Hd.
  { unfold first_label, is_digit, is_digit19 in *. apply orb_true_iff in Hc. destruct (c =? 45) eqn:E45; [done|].
    destruct Hc as [|Hc%in_range_spec]; [done|]. destruct (c =? 48) eqn:E48; [done|].
    by rewrite (proj2 (in_range_spec 49 57 c)) by lia. }
  destruct (scan_number_init_reads _ _ _ _ _ Hl Hu Hd) as (Ei & Ha & Ef). unfold scan_number. rewrite Ei, Ef.
  destruct (loop_sound (S (S (length r))) (first_label c) value_unsigned n r [c] _ Hd Ha ltac:(lia)) as (t & l' & E & Ht).
  exists t, l'. split; [done|]. destruct Ht as [->|(text & r' & st & nt & l0 & -> & Hr & Hs & H0 & Ed)]; [by left|right].
  exists text, r'. pose proof (stops_final _ _ Hs) as Hf.
  destruct (scan_number_done_ok nt n r' (c :: text) l0 H0 (run_typed _ _ _ _ Hr Hf)) as (l2 & E2 & H2 & Hv).
  rewrite E2 in Ed. injection Ed as -> ->. do 2 (split; [done|]). split; [by apply typed_literal, (run_typed _ _ st)|].
  split; [done|]. cbn. by rewrite Hr, Hf.
Qed.

(** Every number that does not go on is read. *)
Lemma scan_number_complete t n c rest r b l :
  number_literal t (c :: rest) -> number_ends (c :: rest) r -> lex_got n c (rest ++ r) b l ->
  exists l', scan_number l = Some (t, l') /\ lex_at n r (c :: rest) l' /\ number_value t (c :: rest) l'.
Proof.
  intros Ht He Hl. apply literal_typed in Ht as (nt & Ht & ->).
  destruct (typed_run nt _ Ht) as (c' & rest' & st & [= <- <-] & Hu & Hd & Hr & Hf).
  cbn in He. rewrite Hr, Hf in He.
  destruct (scan_number_init_reads _ _ _ _ _ Hl Hu Hd) as (Ei & Ha & Ef). unfold scan_number. rewrite Ei, Ef.
  replace (S (S (length (rest ++ r)))) with (length rest + S (S (length r)))%nat by (rewrite length_app; lia).
  destruct (loop_run (S (S (length r))) rest _ _ st nt n r [c] _ Ha Hd Hr) as (l0 & -> & H0).
  rewrite (loop_stops (length r) st nt n r _ l0 He H0).
  destruct (scan_number_done_ok nt n r (c :: rest) l0 H0 Ht) as (l' & -> & H' & Hv). by exists l'.
Qed.
