(* ===== verification/JsonScan.v ===== *)
(** * The tokens of the lexer

    [lexer::scan] returns on every input; a token it accepts consumes its text,
    and carries a value in the range of its type: a valid UTF-8 string, or an
    integer of 64 bits. The integers that [scan_number] reads have the value of
    their decimal digits. *)

From Stdlib Require Import ZArith Lia String Ascii.
From stdpp Require Import base list.
From S2P Require Import Prelude Utf8 Exceptions JsonValue JsonLexer JsonStrings JsonNumbers.

(** ** The start of a token *)

Definition spaces (s : bytes) : Prop := Forall (fun c => is_space c = true) s.

Lemma skip_space_spec fuel n r b l :
  lex_at n r b l -> (length r < fuel)%nat ->
  exists ws c r' l', skip_space fuel l = Some l' /\ lex_got (n + 1) c r' b l' /\ spaces ws /\ is_space c = false /\
    ((c = eof /\ r = ws /\ r' = []) \/ (u8 c /\ r = ws ++ c :: r')).
Proof.
  revert n r l. induction fuel as [|fuel IH]; intros n r l Hl Hf; [lia|]. cbn [skip_space].
  destruct r as [|c r].
  - pose proof (get_end _ _ _ Hl) as Hg. rewrite (got_current _ _ _ _ _ Hg). cbn.
    exists [], eof, [], (get l). repeat (split; [done|]). split; [constructor|]. split; [done|by left].
  - pose proof (get_got _ _ _ _ _ Hl) as Hg. rewrite (got_current _ _ _ _ _ Hg).
    destruct (is_space c) eqn:Es.
    + destruct (IH (n + 1) r (get l) (got_at _ _ _ _ _ Hg) ltac:(cbn in Hf; lia))
        as (ws & c' & r' & l' & -> & H1 & Hws & Hc & Hr).
      exists (c :: ws), c', r', l'. split; [done|]. split; [by apply (got_le (n + 1 + 1)); [|lia]|].
      split; [by constructor|]. split; [done|]. destruct Hr as [(-> & -> & ->)|[Hu ->]]; [by left|by right].
    + exists [], c, r, (get l). repeat (split; [done|]). split; [constructor|]. split; [done|right].
      split; [exact (Forall_inv (at_chars _ _ _ _ Hl))|done].
Qed.

(** What [skip_bom] takes. *)
Lemma skip_bom_spec r b l :
  lex_at 0 r b l ->
  ((exists l', skip_bom l = (false, l')) /\ exists r', r = 239 :: r') \/
  (exists r' l', skip_bom l = (true, l') /\ lex_at 0 r' b l' /\ (r' = r \/ r = [239; 187; 191] ++ r')).
Proof.
  intros Hl. unfold skip_bom. destruct (get_cases _ _ _ _ Hl) as (c & r1 & H1 & Hc).
  rewrite (got_current _ _ _ _ _ H1). destruct (Z.eqb_spec c 239) as [Ec|].
  - destruct Hc as [(? & _)|[_ ->]]; [subst c; done|]. subst c.
    destruct (get_cases _ _ _ _ (got_at _ _ _ _ _ H1)) as (c2 & r2 & H2 & Hc2).
    rewrite (got_current _ _ _ _ _ H2). destruct (Z.eqb_spec c2 187) as [Ec|]; [subst c2|left; split; eauto].
    destruct Hc2 as [(? & _)|[_ ->]]; [done|].
    destruct (get_cases _ _ _ _ (got_at _ _ _ _ _ H2)) as (c3 & r3 & H3 & Hc3).
    rewrite (got_current _ _ _ _ _ H3). destruct (Z.eqb_spec c3 191) as [Ec|]; [subst c3|left; split; eauto].
    destruct Hc3 as [(? & _)|[_ ->]]; [done|].
    right. exists r3, (get (get (get l))). split; [done|]. split; [by apply (got_at _ 191)|by right].
  - right. exists r, (unget (get l)). split; [done|]. split; [by apply unget_get|by left].
Qed.

Lemma lexer_fuel_pending n r b l : lex_at n r b l -> (length r < lexer_fuel l)%nat.
Proof.
  intros [H1 _ _ _ _]. unfold pending in H1. unfold lexer_fuel. subst r.
  destruct (next_unget l); [destruct (_ =? _)|]; cbn; lia.
Qed.

(** [scan] is [scan_token] at the first character after the white space. *)
Lemma scan_start n r b l :
  0 <= n -> lex_at n r b l ->
  ((exists l', scan l = Some (tok_parse_error, l')) /\ exists r', r = 239 :: r') \/
  (exists bom ws c r' l1, scan l = scan_token l1 /\ lex_got 1 c r' b l1 /\ is_space c = false /\ spaces ws /\
     (bom = [] \/ bom = [239; 187; 191] /\ n = 0) /\
     ((c = eof /\ r = bom ++ ws /\ r' = []) \/ (u8 c /\ r = bom ++ ws ++ c :: r'))).
Proof.
  intros Hn Hl. unfold scan.
  assert (forall r l, lex_at 0 r b l -> exists ws c r' l1,
    match skip_space (lexer_fuel l) l with Some l => scan_token l | None => None end = scan_token l1 /\
    lex_got 1 c r' b l1 /\ is_space c = false /\ spaces ws /\
    ((c = eof /\ r = ws /\ r' = []) \/ (u8 c /\ r = ws ++ c :: r'))) as Hgo.
  { intros r0 l0 H0. destruct (skip_space_spec (lexer_fuel l0) 0 r0 b l0 H0 (lexer_fuel_pending _ _ _ _ H0))
      as (ws & c & r' & l' & -> & Hg & Hws & Hc & Hr).
    by exists ws, c, r', l'. }
  destruct (Z.eqb_spec (chars_read_total (position l)) 0).
  - destruct (skip_bom_spec r b l (at_le _ 0 _ _ _ Hl Hn)) as [[[l' ->] Hr]|(r1 & l' & -> & H1 & Hr)]; [left; split; eauto|].
    right. cbn [negb]. destruct (Hgo r1 l' H1) as (ws & c & r' & l1 & -> & Hg & Hc & Hws & Hr1).
    destruct Hr as [-> | ->].
    + exists [], ws, c, r', l1. cbn [app]. repeat (split; [done|]). split; [by left|done].
    + exists [239; 187; 191], ws, c, r', l1. repeat (split; [done|]). pose proof (at_total _ _ _ _ Hl).
      split; [right; split; [done|lia]|].
      destruct Hr1 as [(-> & -> & ->)|[? ->]]; [by left|by right].
  - right. cbn [negb]. destruct (Hgo r l (at_le _ 0 _ _ _ Hl Hn)) as (ws & c & r' & l1 & -> & Hg & Hc & Hws & Hr1).
    exists [], ws, c, r', l1. cbn [app]. repeat (split; [done|]). split; [by left|done].
Qed.

(** ** The tokens *)

Definition punctuation (c : Z) : option token_type :=
  if c =? 91 then Some begin_array else if c =? 93 then Some end_array
  else if c =? 123 then Some begin_object else if c =? 125 then Some end_object
  else if c =? 58 then Some name_separator else if c =? 44 then Some value_separator else None.

(** A token with its text and what follows it; the lexer holds its value. *)
Inductive token_text (l : lexer) : token_type -> bytes -> bytes -> Prop :=
  | token_punctuation c t r : punctuation c = Some t -> token_text l t [c] r
  | token_true r : token_text l literal_true (str "true") r
  | token_false r : token_text l literal_false (str "false") r
  | token_null r : token_text l literal_null (str "null") r
  | token_string s r : string_text s (token_buffer l) -> token_text l tok_value_string (34 :: s ++ [34]) r
  | token_number t s r : number_literal t s -> number_value t s l -> number_ends s r -> token_text l t s r.

(** The end of the input: the lexer takes a NUL character for it. *)
Definition input_end (r : bytes) : Prop := r = [] \/ exists rest, r = 0 :: rest.

(** A token carries a value of its type. *)
Definition token_ok (t : token_type) (l : lexer) : Prop :=
  match t with
  | tok_value_string => valid_utf8 (token_buffer l)
  | value_unsigned => u64 (number_unsigned l)
  | value_integer => - 2 ^ 63 <= number_integer l <= 0
  | value_float => exists text, number_float l = strtod text
  | _ => True
  end.

Lemma token_text_ok l t s r : token_text l t s r -> token_ok t l.
Proof.
  destruct 1 as [c t r Ht| | | |s r Hs|t s r Ht Hv _]; try done.
  - unfold punctuation in Ht. repeat (case_cond; [by injection Ht as <-|]). done.
  - by eapply string_text_valid.
  - destruct Ht as [s Hn Hd|s Hn Hd|s _]; cbn [number_value token_ok tail] in *; [| |by exists s];
      pose proof (decimal_nonneg s (natural_digits s Hn)); unfold in_width; lia.
Qed.

Lemma token_nonempty l t s r : token_text l t s r -> s <> [].
Proof.
  destruct 1 as [| | | | |t s r Ht _ _]; try done. apply literal_typed in Ht as (nt & Ht & _).
  by destruct (typed_run _ _ Ht) as (c & rest & st & -> & _).
Qed.

Lemma scan_literal_loop_sound n c r b l text t t' l' :
  Forall (fun z => 0 <= z) text -> lex_got n c r b l -> scan_literal_loop text t l = (t', l') ->
  t' = tok_parse_error \/ (t' = t /\ exists c' r', r = text ++ r' /\ lex_got n c' r' b l').
Proof.
  intros Ht. revert c r l. induction Ht as [|z text Hz Ht IH]; intros c r l Hl E; cbn in E.
  - injection E as <- <-. right. split; [done|]. by exists c, r.
  - destruct (get_cases _ _ _ _ (got_at _ _ _ _ _ Hl)) as (c1 & r1 & H1 & Hc).
    rewrite (got_current _ _ _ _ _ H1) in E. destruct (Z.eqb_spec c1 z) as [Ez|]; [|injection E as <- <-; by left].
    destruct Hc as [(-> & _)|[_ ->]]; [unfold eof in *; lia|]. subst c1.
    destruct (IH _ _ _ H1 E) as [->|(-> & c' & r' & -> & H2)]; [by left|right].
    split; [done|]. by exists c', r'.
Qed.

Lemma scan_literal_complete n c text t r b l :
  lex_got n c (tail text ++ r) b l ->
  exists c' l', scan_literal text t l = (t, l') /\ lex_got n c' r b l'.
Proof.
  unfold scan_literal. generalize (tail text) as s. intros s. revert c l.
  induction s as [|z s IH]; intros c l Hl; [by exists c, l|]. cbn [scan_literal_loop].
  pose proof (got_get _ _ _ _ _ _ Hl) as Hg. rewrite (got_current _ _ _ _ _ Hg), Z.eqb_refl. by apply (IH z).
Qed.

(** What a scan from the text [r] returns: an error, the end of the input, or a
    token at the start of the text. *)
Definition scanned (r : bytes) (o : option (token_type * lexer)) : Prop :=
  exists t l', o = Some (t, l') /\
    (t = tok_parse_error \/
     (t = end_of_input /\ input_end r /\ exists r' b', lex_at 1 r' b' l' /\ (length r' <= length r)%nat) \/
     exists s r' b', r = s ++ r' /\ lex_at 1 r' b' l' /\ token_text l' t s r').

Lemma scan_literal_scanned c text t r b l :
  Forall (fun z => 0 <= z) text -> lex_got 1 c r b l -> (forall l r, token_text l t (c :: text) r) ->
  scanned (c :: r) (Some (scan_literal (c :: text) t l)).
Proof.
  intros Ht Hl Htok. destruct (scan_literal (c :: text) t l) as [t' l'] eqn:E. exists t', l'. split; [done|].
  destruct (scan_literal_loop_sound _ _ _ _ _ _ _ _ _ Ht Hl E) as [->|(-> & c' & r' & -> & H')]; [by left|].
  right; right. exists (c :: text), r', b. split; [done|]. split; [by apply (got_at _ c')|apply Htok].
Qed.

Lemma scan_token_end r b l : lex_got 1 eof r b l -> scanned [] (scan_token l).
Proof.
  intros Hl. unfold scan_token. rewrite (got_current _ _ _ _ _ Hl). exists end_of_input, l. split; [done|].
  right; left. split; [done|]. split; [by left|]. rewrite (got_eof _ _ _ _ _ Hl eq_refl) in Hl.
  exists [], b. split; [by apply (got_at _ eof)|done].
Qed.

Lemma scan_token_scanned c r b l : lex_got 1 c r b l -> u8 c -> scanned (c :: r) (scan_token l).
Proof.
  intros Hl Hu. unfold scan_token. rewrite (got_current _ _ _ _ _ Hl).
  assert (forall t, punctuation c = Some t -> scanned (c :: r) (Some (t, l))) as Hpunct.
  { intros t Ht. exists t, l. split; [done|]. right; right. exists [c], r, b. split; [done|].
    split; [by apply (got_at _ c)|by constructor]. }
  unfold punctuation in Hpunct.
  do 6 (case_cond; [by apply Hpunct|]).
  destruct (Z.eqb_spec c 116) as [->|]; [apply scan_literal_scanned with b; [by repeat constructor|done|constructor]|].
  destruct (Z.eqb_spec c 102) as [->|]; [apply scan_literal_scanned with b; [by repeat constructor|done|constructor]|].
  destruct (Z.eqb_spec c 110) as [->|]; [apply scan_literal_scanned with b; [by repeat constructor|done|constructor]|].
  destruct (Z.eqb_spec c 34) as [->|].
  { destruct (scan_string_sound 1 r b l Hl) as (t & l' & E & Ht). exists t, l'. split; [done|].
    destruct Ht as [->|[-> (s & v & r' & -> & Hs & Hl')]]; [by left|right; right].
    exists (34 :: s ++ [34]), r', v. split; [cbn; by rewrite <- app_assoc|]. split; [by apply (got_at _ 34)|].
    constructor. by rewrite (got_buffer _ _ _ _ _ Hl'). }
  destruct ((c =? 45) || is_digit c) eqn:En.
  { destruct (scan_number_sound 1 c r b l Hl Hu En) as (t & l' & E & Ht). exists t, l'. split; [done|].
    destruct Ht as [->|(text & r' & -> & Hl' & Hlit & Hv & He)]; [by left|right; right].
    exists (c :: text), r', (c :: text). split; [done|]. split; [done|by constructor]. }
  destruct ((c =? 0) || (c =? eof)) eqn:E0; eexists _, _; (split; [done|]); [right; left|by left].
  unfold in_width in Hu. apply orb_true_iff in E0 as [->%Z.eqb_eq|E0%Z.eqb_eq]; [|unfold eof in E0; lia].
  split; [done|]. split; [right; by eexists|]. exists r, b. split; [by apply (got_at _ 0)|cbn; lia].
Qed.

(** [scan] returns on every input: an error, or a token after white space and, at
    the start of the input, after a byte order mark. *)
Lemma scan_scanned n r b l :
  0 <= n -> lex_at n r b l ->
  (exists l', scan l = Some (tok_parse_error, l')) \/
  exists bom ws r0, r = bom ++ ws ++ r0 /\ (bom = [] \/ bom = [239; 187; 191] /\ n = 0) /\ spaces ws /\ scanned r0 (scan l).
Proof.
  intros Hn Hl.
  destruct (scan_start n r b l Hn Hl) as [[[l' E] _]|(bom & ws & c & r1 & l1 & -> & H1 & _ & Hws & Hbom & Hr)];
    [left; by exists l'|right].
  destruct Hr as [(-> & -> & ->)|[Hu ->]].
  - exists bom, ws, []. rewrite app_nil_r. do 3 (split; [done|]). by eapply scan_token_end.
  - exists bom, ws, (c :: r1). do 3 (split; [done|]). by apply (scan_token_scanned c r1 b).
Qed.

(** What it accepts has been read, and is in the range of its type. *)
Lemma scan_sound n r b l :
  0 <= n -> lex_at n r b l ->
  exists t l', scan l = Some (t, l') /\
    (t = tok_parse_error \/
      exists r' b', lex_at 1 r' b' l' /\ token_ok t l' /\
       (length r' < length r \/ t = end_of_input /\ length r' <= length r)%nat).
Proof.
  intros Hn Hl. destruct (scan_scanned n r b l Hn Hl) as [[l' E]|(bom & ws & r0 & -> & _ & _ & t & l' & E & Ht)];
    [exists tok_parse_error, l'; split; [done|by left]|].
  exists t, l'. split; [done|]. destruct Ht as [->|[(-> & _ & r' & b' & H' & Hlen)|(s & r' & b' & -> & H' & Ht)]]; [by left|..];
    right; exists r', b'; (split; [done|]); rewrite !length_app.
  - split; [done|]. right. split; [done|lia].
  - split; [by eapply token_text_ok|]. left. apply token_nonempty in Ht. destruct s; [done|cbn; lia].
Qed.

(** ** Reading a given token *)

Lemma spaces_unique ws c r ws' c' r' :
  spaces ws -> spaces ws' -> is_space c = false -> is_space c' = false ->
  ws ++ c :: r = ws' ++ c' :: r' -> c = c' /\ r = r'.
Proof.
  intros H. revert ws'. induction H as [|x ws Hx H IH]; intros ws' H' Hc Hc' E.
  - destruct H' as [|y ws' Hy H']; cbn in E; [by injection E|]. injection E as -> ->. by rewrite Hc in Hy.
  - destruct H' as [|y ws' Hy H']; cbn in E; injection E as -> E; [by rewrite Hc' in Hx|]. by apply (IH ws').
Qed.

(** [scan] where the next token starts with [c]. *)
Lemma scan_at n ws c r b l :
  0 <= n -> spaces ws -> is_space c = false -> c <> 239 -> lex_at n (ws ++ c :: r) b l ->
  exists l1, scan l = scan_token l1 /\ lex_got 1 c r b l1.
Proof.
  intros Hn Hws Hc H239 Hl.
  assert (forall r', ws ++ c :: r <> 239 :: r') as Hbom.
  { intros r' E. destruct Hws as [|x ws Hx _]; cbn in E; injection E as -> _; [done|]. by vm_compute in Hx. }
  destruct (scan_start n _ b l Hn Hl) as [[_ [r' E]]|(bom & ws' & c' & r' & l1 & E & H1 & Hc' & Hws' & Hbom' & Hr)];
    [by destruct (Hbom r')|].
  destruct Hbom' as [-> |[-> _]]; cbn [app] in Hr.
  - destruct Hr as [(-> & E' & ->)|[_ E']].
    + exfalso. assert (spaces (ws ++ c :: r)) as Hs by by rewrite E'.
      apply Forall_app in Hs as [_ Hs]. apply Forall_inv in Hs. by rewrite Hc in Hs.
    + destruct (spaces_unique ws c r ws' c' r' Hws Hws' Hc Hc' E') as [-> ->]. by exists l1.
  - by destruct Hr as [(_ & E' & _)|[_ E']]; edestruct Hbom.
Qed.

Lemma new_lexer_at input : Forall u8 input -> lex_at 0 input [] (new_lexer input).
Proof. intros H. by split. Qed.

(** C24: after an opening quote the lexer accepts the strings of RFC 8259 and
    nothing else: it always returns, a string token exactly when the input goes on
    with the text of a string, in valid UTF-8 and with correctly paired surrogate
    escapes, and a closing quote; the value is the one the text denotes. *)
Theorem scan_string_rfc8259 input :
  Forall u8 input ->
  exists t l, scan (new_lexer (34 :: input)) = Some (t, l) /\ (t = tok_value_string \/ t = tok_parse_error) /\
    forall v rest, (t = tok_value_string /\ token_buffer l = v /\ pending l = rest) <->
      exists s, input = s ++ 34 :: rest /\ string_text s v.
Proof.
  intros Hu. assert (Forall u8 (34 :: input)) as Hu' by by constructor.
  destruct (scan_at 0 [] 34 input [] (new_lexer (34 :: input)) ltac:(done) ltac:(constructor) eq_refl
    ltac:(done) (new_lexer_at _ Hu')) as (l1 & -> & H1).
  assert (scan_token l1 = scan_string l1) as -> by (unfold scan_token; by rewrite (got_current _ _ _ _ _ H1)).
  destruct (scan_string_sound 1 input [] l1 H1) as (t & l & E & Ht). exists t, l. split; [done|].
  split; [destruct Ht as [->|[-> _]]; auto|]. intros v rest. split.
  - intros (-> & <- & <-). destruct Ht as [|[_ (s & v & r & -> & Hs & Hl)]]; [done|].
    exists s. pose proof (got_at _ _ _ _ _ Hl) as Ha.
    by rewrite (at_pending _ _ _ _ Ha), (at_buffer _ _ _ _ Ha).
  - intros (s & -> & Hs). destruct (scan_string_complete 1 s v rest [] l1 Hs H1) as (l' & E' & Hl').
    rewrite E in E'. injection E' as -> ->. pose proof (got_at _ _ _ _ _ Hl') as Ha.
    by rewrite (at_pending _ _ _ _ Ha), (at_buffer _ _ _ _ Ha).
Qed.

Lemma scan_string_rfc8259_witness :
  Forall u8 (str "\u0041" ++ [34; 44]) /\
  exists t l, scan (new_lexer (34 :: str "\u0041" ++ [34; 44])) = Some (t, l) /\
    (t = tok_value_string \/ t = tok_parse_error) /\
    forall v rest, (t = tok_value_string /\ token_buffer l = v /\ pending l = rest) <->
      exists s, str "\u0041" ++ [34; 44] = s ++ 34 :: rest /\ string_text s v.
Proof. split; [bytes_ok|apply scan_string_rfc8259; bytes_ok]. Defined.
