(* ===== verification/JsonParser.v ===== *)
(** * The parser of nlohmann::json

    [detail::parser], [detail::json_sax_dom_parser] and [basic_json::parse] of
    src/externals/json/nlohmann/json.hpp. The DOM parser builds the value in
    place and keeps pointers into it: a pointer is modelled as the path from the
    root to the element. *)

From Stdlib Require Import ZArith Lia String Ascii SpecFloat.
From stdpp Require Import base list.
From S2P Require Import Prelude Exceptions JsonValue JsonLexer.

(** ** Pointers into a value *)

Inductive selector := SIndex (n : nat) | SKey (k : bytes).
Abbreviation path := (list selector).

(** The element a path leads to. *)
Fixpoint get_at (p : path) (j : json) : option json :=
  match p with
  | [] => Some j
  | SIndex n :: p => match j with JArray a => a !! n ≫= get_at p | _ => None end
  | SKey k :: p => match j with JObject m => map_find k m ≫= get_at p | _ => None end
  end.

(** Assigning to the element a path leads to. *)
Fixpoint set_at (p : path) (v : json) (j : json) : json :=
  match p with
  | [] => v
  | SIndex n :: p =>
      match j with
      | JArray a => match a !! n with Some x => JArray (<[n := set_at p v x]> a) | None => j end
      | _ => j
      end
  | SKey k :: p =>
      match j with
      | JObject m => match map_find k m with Some x => JObject (map_set k (set_at p v x) m) | None => j end
      | _ => j
      end
  end.

(** ** json_sax_dom_parser *)

(** The data members; the back of [ref_stack] is the head of the list. *)
Record dom := mk_dom {
  root : json;
  ref_stack : list path;
  object_element : option path
}.

(** [json_sax_dom_parser(r)] on a null value. *)
Definition new_dom : dom := mk_dom JNull [] None.

(** [handle_value]: the pointer it returns and the parser after it. A failed
    [assert] is undefined behaviour. *)
Definition handle_value (v : json) (d : dom) : cpp (path * dom) :=
  match ref_stack d with
  | [] => Ret ([], mk_dom v (ref_stack d) (object_element d))
  | p :: _ =>
      match get_at p (root d) with
      | Some (JArray a) =>
          Ret (p ++ [SIndex (length a)],
               mk_dom (set_at p (JArray (a ++ [v])) (root d)) (ref_stack d) (object_element d))
      | Some (JObject _) =>
          match object_element d with
          | Some q => Ret (q, mk_dom (set_at q v (root d)) (ref_stack d) (object_element d))
          | None => Undef
          end
      | _ => Undef
      end
  end.

Definition sax_value (v : json) (d : dom) : cpp dom := let* (_, d) := handle_value v d in Ret d.

(** [start_object] and [start_array], with the unknown length the parser passes. *)
Definition start_container (v : json) (d : dom) : cpp dom :=
  let* (p, d) := handle_value v d in Ret (mk_dom (root d) (p :: ref_stack d) (object_element d)).
Definition start_object (d : dom) : cpp dom := start_container (JObject []) d.
Definition start_array (d : dom) : cpp dom := start_container (JArray []) d.

(** [key]: [operator[]] of the map adds a null element unless the key is there. *)
Definition sax_key (val : bytes) (d : dom) : cpp dom :=
  match ref_stack d with
  | p :: _ =>
      match get_at p (root d) with
      | Some (JObject m) =>
          Ret (mk_dom (set_at p (JObject (map_emplace val JNull m)) (root d)) (ref_stack d)
                 (Some (p ++ [SKey val])))
      | _ => Undef
      end
  | [] => Undef
  end.

(** [end_object] and [end_array]. *)
Definition end_container (d : dom) : cpp dom :=
  match ref_stack d with
  | _ :: ps => Ret (mk_dom (root d) ps (object_element d))
  | [] => Undef
  end.

(** ** parser *)

(** The data members, and the local variables of [sax_parse_internal]: the back
    of [states] is the head of the list. *)
Record parser := mk_parser {
  last_token : token_type;
  m_lexer : lexer;
  sax : dom;
  states : list bool;
  skip_to_state_evaluation : bool
}.

Definition set_sax (d : dom) (p : parser) : parser :=
  mk_parser (last_token p) (m_lexer p) d (states p) (skip_to_state_evaluation p).
Definition set_states (s : list bool) (p : parser) : parser :=
  mk_parser (last_token p) (m_lexer p) (sax p) s (skip_to_state_evaluation p).
Definition set_skip (b : bool) (p : parser) : parser :=
  mk_parser (last_token p) (m_lexer p) (sax p) (states p) b.

(** [get_token]; the scanner always returns, so that [Undef] does not arise. *)
Definition get_token (p : parser) : cpp parser :=
  match scan (m_lexer p) with
  | Some (t, l) => Ret (mk_parser t l (sax p) (states p) (skip_to_state_evaluation p))
  | None => Undef
  end.

(** [exception_message]. *)
Definition exception_message (expected : token_type) (context : bytes) (p : parser) : bytes :=
  str "syntax error " ++
  (match context with [] => [] | _ => str "while parsing " ++ context ++ str " " end) ++
  str "- " ++
  (if bool_decide (last_token p = tok_parse_error)
    then error_message (m_lexer p) ++ str "; last read: '" ++ get_token_string (m_lexer p) ++ str "'"
    else str "unexpected " ++ token_type_name (last_token p)) ++
  (if bool_decide (expected = uninitialized) then [] else str "; expected " ++ token_type_name expected).

(** [sax->parse_error] with a [parse_error] 101: with exceptions allowed it
    throws the exception. *)
Definition syntax_error {A} (expected : token_type) (context : bytes) (p : parser) : cpp A :=
  Throw (create_parse_error 101 (position (m_lexer p)) (exception_message expected context p)).

(** A SAX event that may only fail by undefined behaviour. *)
Definition event (f : dom -> cpp dom) (p : parser) : cpp parser :=
  let* d := f (sax p) in Ret (set_sax d p).

(** A key, the separator after it and the first token of its value, when the key
    is the last token. *)
Definition parse_key (p : parser) : cpp parser :=
  if negb (bool_decide (last_token p = tok_value_string)) then syntax_error tok_value_string (str "object key") p
  else
    let* p := event (sax_key (token_buffer (m_lexer p))) p in
    let* p := get_token p in
    if negb (bool_decide (last_token p = name_separator)) then
      syntax_error name_separator (str "object separator") p
    else Ret p.

(** What a turn of the loop does next: [continue], or leave the switch. *)
Inductive flow := Continue (p : parser) | Break (p : parser).

(** The cases of the switch on [last_token] that read no token. *)
Definition parse_scalar (p : parser) : cpp flow :=
  let value v := let* p := event (sax_value v) p in Ret (Break p) in
  match last_token p with
  | value_float =>
      let res := number_float (m_lexer p) in
      if negb (is_finite res) then
        Throw (create_out_of_range 406
                 (str "number overflow parsing '" ++ get_token_string (m_lexer p) ++ str "'"))
      else value (JFloat res)
  | literal_false => value (JBoolean false)
  | literal_null => value JNull
  | literal_true => value (JBoolean true)
  | value_integer => value (JInteger (number_integer (m_lexer p)))
  | tok_value_string => value (JString (token_buffer (m_lexer p)))
  | value_unsigned => value (JUnsigned (number_unsigned (m_lexer p)))
  | tok_parse_error => syntax_error uninitialized (str "value") p
  | _ => syntax_error literal_or_value (str "value") p
  end.

(** The switch on [last_token]. *)
Definition parse_value (p : parser) : cpp flow :=
  match last_token p with
  | begin_object =>
      let* p := event start_object p in
      let* p := get_token p in
      if bool_decide (last_token p = end_object) then
        let* p := event end_container p in Ret (Break p)
      else
        let* p := parse_key p in
        let p := set_states (false :: states p) p in
        let* p := get_token p in
        Ret (Continue p)
  | begin_array =>
      let* p := event start_array p in
      let* p := get_token p in
      if bool_decide (last_token p = end_array) then
        let* p := event end_container p in Ret (Break p)
      else Ret (Continue (set_states (true :: states p) p))
  | _ => parse_scalar p
  end.

(** The evaluation of the state after a value: [None] at the end of the
    hierarchy. *)
Definition evaluate_state (p : parser) : cpp (option parser) :=
  match states p with
  | [] => Ret None
  | true :: rest =>
      let* p := get_token p in
      if bool_decide (last_token p = value_separator) then
        let* p := get_token p in Ret (Some p)
      else if bool_decide (last_token p = end_array) then
        let* p := event end_container p in
        Ret (Some (set_skip true (set_states rest p)))
      else syntax_error end_array (str "array") p
  | false :: rest =>
      let* p := get_token p in
      if bool_decide (last_token p = value_separator) then
        let* p := get_token p in
        let* p := parse_key p in
        let* p := get_token p in Ret (Some p)
      else if bool_decide (last_token p = end_object) then
        let* p := event end_container p in
        Ret (Some (set_skip true (set_states rest p)))
      else syntax_error end_object (str "object") p
  end.

(** One turn of the loop of [sax_parse_internal]: the parser for the next turn,
    or the one it returns with. *)
Definition sax_parse_step (p : parser) : cpp (parser * bool) :=
  let* f :=
    if skip_to_state_evaluation p then Ret (Break (set_skip false p))
    else parse_value p in
  match f with
  | Continue p => Ret (p, false)
  | Break p =>
      let* next := evaluate_state p in
      match next with
      | Some p => Ret (p, false)
      | None => Ret (p, true)
      end
  end.

(** [sax_parse_internal]; [None] when the fuel does not suffice. *)
Fixpoint sax_parse_internal (fuel : nat) (p : parser) : option (cpp parser) :=
  match fuel with
  | O => None
  | S fuel =>
      match sax_parse_step p with
      | Ret (p, false) => sax_parse_internal fuel p
      | Ret (p, true) => Some (Ret p)
      | Throw e => Some (Throw e)
      | Undef => Some Undef
      end
  end.

(** Every turn but the last reads a token, and every token but the last has a
    character. *)
Definition parse_fuel (input : bytes) : nat := (3 + length input)%nat.

(** [basic_json::parse(input)], without a callback and with exceptions, that is
    the constructor of [parser] and [parser::parse(true, result)]. *)
Definition parse_with (fuel : nat) (input : bytes) : option (cpp json) :=
  match get_token (mk_parser uninitialized (new_lexer input) new_dom [] false) with
  | Ret p =>
      match sax_parse_internal fuel p with
      | Some (Ret p) =>
          Some (let* p := get_token p in
                if negb (bool_decide (last_token p = end_of_input))
                then syntax_error end_of_input (str "value") p
                else Ret (root (sax p)))
      | Some (Throw e) => Some (Throw e)
      | Some Undef => Some Undef
      | None => None
      end
  | Throw e => Some (Throw e)
  | Undef => Some Undef
  end.

Definition parse (input : bytes) : cpp json :=
  match parse_with (parse_fuel input) input with
  | Some r => r
  | None => Undef
  end.
