(* ===== verification/JsonDom.v ===== *)
(** * The value under construction

    The pointers of [json_sax_dom_parser] into the value it builds, as paths:
    what is read and written through them, which containers are open, and that
    every value built is a JSON value the library can produce. *)

From Stdlib Require Import ZArith Lia String Ascii SpecFloat.
From stdpp Require Import base list.
From S2P Require Import Prelude Utf8 Exceptions JsonValue JsonLexer JsonParser.

(** ** Well-formed values *)

(** The values the parser makes: integers of 64 bits, the signed ones not
    positive, finite [double]s, strings in UTF-8, and maps with increasing keys. *)
Fixpoint json_ok (j : json) : Prop :=
  match j with
  | JNull | JBoolean _ => True
  | JInteger z => - 2 ^ 63 <= z <= 0
  | JUnsigned z => u64 z
  | JFloat f => is_finite f = true /\ valid_binary 53 1024 f = true
  | JString s => valid_utf8 s
  | JArray a => (fix all (a : list json) := match a with [] => True | v :: a => json_ok v /\ all a end) a
  | JObject m =>
      keys_sorted m = true /\
      (fix all (m : list (bytes * json)) :=
         match m with [] => True | (k, v) :: m => (valid_utf8 k /\ json_ok v) /\ all m end) m
  | JDiscarded => False
  end.

Definition member_ok (kv : bytes * json) : Prop := valid_utf8 (fst kv) /\ json_ok (snd kv).

Lemma json_ok_array a : json_ok (JArray a) <-> Forall json_ok a.
Proof. induction a as [|v a IH]; cbn in *; [by split|]. by rewrite Forall_cons, IH. Qed.

Lemma json_ok_object m : json_ok (JObject m) <-> keys_sorted m = true /\ Forall member_ok m.
Proof.
  cbn. apply and_iff_compat_l. induction m as [|[k v] m IH]; cbn; [by split|]. by rewrite Forall_cons, IH.
Qed.

Lemma map_set_members k v m : valid_utf8 k -> json_ok v -> Forall member_ok m -> Forall member_ok (map_set k v m).
Proof.
  intros Hk Hv Hm. induction Hm as [|[k1 v1] m [H1 H2] Hm IH]; cbn; [by repeat constructor|].
  destruct (key_compare k k1); constructor; try done; by constructor.
Qed.

Lemma map_set_set {V} k (v w : V) m : map_set k v (map_set k w m) = map_set k v m.
Proof.
  induction m as [|[k1 v1] m IH]; cbn; [by rewrite key_compare_refl|].
  destruct (key_compare k k1) eqn:E; cbn; rewrite ?E, ?key_compare_refl; try done. by rewrite IH.
Qed.

Lemma keys_sorted_tail {V} (kv : bytes * V) m : keys_sorted (kv :: m) = true -> keys_sorted m = true.
Proof. destruct kv as [k v], m as [|[k1 v1] m]; [done|]. cbn [keys_sorted]. by destruct (key_compare k k1). Qed.

(** The keys after the first are above it. *)
Lemma keys_sorted_above {V} k (v : V) m :
  keys_sorted ((k, v) :: m) = true -> Forall (fun kv => key_compare k (fst kv) = Lt) m.
Proof.
  revert k v. induction m as [|[k1 v1] m IH]; intros k v H; [constructor|].
  assert (key_compare k k1 = Lt) as E by (cbn in H; by destruct (key_compare k k1)).
  constructor; [done|]. apply keys_sorted_tail in H. specialize (IH k1 v1 H).
  eapply Forall_impl; [exact IH|]. intros kv Hkv. by eapply key_compare_trans.
Qed.

Lemma map_find_below {V} k (m : list (bytes * V)) :
  Forall (fun kv => key_compare k (fst kv) = Lt) m -> map_find k m = None.
Proof.
  induction 1 as [|[k1 v1] m Hk _ IH]; [done|]. cbn in *. unfold key_eqb. by rewrite Hk.
Qed.

(** Setting what is there. *)
Lemma map_set_find {V} k (v : V) m : keys_sorted m = true -> map_find k m = Some v -> map_set k v m = m.
Proof.
  induction m as [|[k1 v1] m IH]; intros Hs H; [done|]. cbn in *. unfold key_eqb in H.
  destruct (key_compare k k1) eqn:E; [by injection H as ->| |].
  - exfalso. rewrite map_find_below in H; [done|]. pose proof (keys_sorted_above k1 v1 m Hs) as Ha.
    eapply Forall_impl; [exact Ha|]. intros kv Hkv. by eapply key_compare_trans.
  - rewrite IH; [done| |done]. exact (keys_sorted_tail (k1, v1) m Hs).
Qed.

(** The key that a map has for [k] is [k] itself. *)
Lemma map_find_key {V} k (v : V) m : map_find k m = Some v -> (k, v) ∈ m.
Proof.
  induction m as [|[k1 v1] m IH]; cbn; [done|]. destruct (key_eqb k k1) eqn:E.
  - apply key_eqb_eq in E as ->. intros [= ->]. constructor.
  - intros H. constructor. by apply IH.
Qed.

(** ** Paths *)

Lemma get_at_app p q j : get_at (p ++ q) j = get_at p j ≫= get_at q.
Proof.
  revert j. induction p as [|[n|k] p IH]; intros j; [done|..]; destruct j; try done; cbn.
  - destruct (_ !! n); cbn; [apply IH|done].
  - destruct (map_find k _); cbn; [apply IH|done].
Qed.

Lemma set_at_app p q w j x : get_at p j = Some x -> set_at (p ++ q) w j = set_at p (set_at q w x) j.
Proof.
  revert j. induction p as [|[n|k] p IH]; intros j H; cbn in *.
  - by injection H as ->.
  - destruct j; try done. destruct (_ !! n) eqn:E; [|done]. cbn in H. by rewrite IH.
  - destruct j; try done. destruct (map_find k _) eqn:E; [|done]. cbn in H. by rewrite IH.
Qed.

Lemma get_at_set p v j x : get_at p j = Some x -> get_at p (set_at p v j) = Some v.
Proof.
  revert j. induction p as [|[n|k] p IH]; intros j H; cbn in *; [done|..].
  - destruct j; try done. destruct (_ !! n) eqn:E; [|done]. cbn in *.
    rewrite list_lookup_insert_eq by (by eapply lookup_lt_Some). cbn. by apply IH.
  - destruct j; try done. destruct (map_find k _) eqn:E; [|done]. cbn in *.
    rewrite map_find_set. cbn. by apply IH.
Qed.

Lemma set_at_set p v w j x : get_at p j = Some x -> set_at p v (set_at p w j) = set_at p v j.
Proof.
  revert j. induction p as [|[n|k] p IH]; intros j H; cbn in *; [done|..].
  - destruct j as [| |a| | | | | |]; try done. destruct (a !! n) eqn:E; [|done]. cbn in *.
    rewrite list_lookup_insert_eq by (by eapply lookup_lt_Some). rewrite list_insert_insert_eq, IH by done. done.
  - destruct j as [|m| | | | | | |]; try done. destruct (map_find k m) eqn:E; [|done]. cbn in *.
    rewrite map_find_set, map_set_set, IH by done. done.
Qed.

(** Assigning a well-formed value keeps a value well-formed. *)
Lemma set_at_ok p v j : json_ok v -> json_ok j -> json_ok (set_at p v j).
Proof.
  intros Hv. revert j. induction p as [|[n|k] p IH]; intros j Hj; [done|..]; cbn [set_at].
  - destruct j as [| |a| | | | | |]; try done. destruct (a !! n) as [x|] eqn:E; [|done].
    apply json_ok_array. apply json_ok_array in Hj. apply Forall_insert; [done|]. apply IH.
    rewrite Forall_lookup in Hj. by apply (Hj n).
  - destruct j as [|m| | | | | | |]; try done. destruct (map_find k m) as [x|] eqn:E; [|done].
    apply json_ok_object. apply json_ok_object in Hj as [Hs Hm]. split; [by apply map_set_sorted|].
    apply map_find_key in E. rewrite Forall_forall in Hm. destruct (Hm _ E) as [H1 H2].
    apply map_set_members; [done|by apply IH|by apply Forall_forall].
Qed.

(** What a path leads to in a well-formed value. *)
Lemma get_at_json_ok p j x : json_ok j -> get_at p j = Some x -> json_ok x.
Proof.
  revert j. induction p as [|[n|k] p IH]; intros j Hj H; cbn in *; [by injection H as <-|..].
  - destruct j as [| |a| | | | | |]; try done. destruct (a !! n) as [y|] eqn:E; [|done]. cbn in H.
    apply json_ok_array in Hj. rewrite Forall_lookup in Hj. by apply (IH y); [apply (Hj n)|].
  - destruct j as [|m| | | | | | |]; try done. destruct (map_find k m) as [y|] eqn:E; [|done]. cbn in H.
    apply json_ok_object in Hj as [_ Hm]. apply map_find_key in E. rewrite Forall_forall in Hm.
    by apply (IH y); [apply (Hm _ E)|].
Qed.

Lemma set_at_get p j x : json_ok j -> get_at p j = Some x -> set_at p x j = j.
Proof.
  revert j. induction p as [|[n|k] p IH]; intros j Hj H; cbn in *; [by injection H|..].
  - destruct j as [| |a| | | | | |]; try done. destruct (a !! n) as [y|] eqn:E; [|done]. cbn in H.
    rewrite IH; [by rewrite list_insert_id| |done]. apply json_ok_array in Hj. rewrite Forall_lookup in Hj. by apply (Hj n).
  - destruct j as [|m| | | | | | |]; try done. destruct (map_find k m) as [y|] eqn:E; [|done]. cbn in H.
    apply json_ok_object in Hj as [Hs Hm]. rewrite IH; [by rewrite map_set_find| |done].
    apply map_find_key in E. rewrite Forall_forall in Hm. apply (Hm _ E).
Qed.

(** ** Open containers *)

(** Whether a value is an array, for [true], or an object, for [false]. *)
Definition container (b : bool) (j : json) : Prop :=
  match b, j with true, JArray _ | false, JObject _ => True | _, _ => False end.

(** The containers on the stack: each is inside the one below it. *)
Fixpoint stack_ok (sts : list bool) (stk : list path) (rt : json) : Prop :=
  match sts, stk with
  | [], [] => True
  | b :: sts, p :: stk =>
      (exists c, get_at p rt = Some c /\ container b c) /\
      Forall (fun p' => exists s q, p = p' ++ s :: q) stk /\ stack_ok sts stk rt
  | _, _ => False
  end.

Record dom_ok (sts : list bool) (d : dom) : Prop := mk_dom_ok {
  ok_stack : stack_ok sts (ref_stack d) (root d);
  ok_root : json_ok (root d)
}.

(** A value can be stored: in an object, after its key. *)
Definition value_ok (sts : list bool) (d : dom) : Prop :=
  dom_ok sts d /\
  match sts, ref_stack d with
  | false :: _, p :: _ =>
      exists k x, object_element d = Some (p ++ [SKey k]) /\ get_at (p ++ [SKey k]) (root d) = Some x
  | _, _ => True
  end.

(** Writing through a path keeps the containers above it. *)
Lemma set_at_container b s q w j : container b j -> container b (set_at (s :: q) w j).
Proof.
  intros H. destruct b, j as [|m|a| | | | | |]; try done; destruct s; cbn; try done;
    [by destruct (a !! n)|by destruct (map_find k m)].
Qed.

Lemma container_above b p s q w rt c :
  get_at p rt = Some c -> container b c ->
  exists c', get_at p (set_at (p ++ s :: q) w rt) = Some c' /\ container b c'.
Proof.
  intros Hc Hb. exists (set_at (s :: q) w c). split; [|by apply set_at_container].
  rewrite (set_at_app p (s :: q) w rt c Hc). by eapply get_at_set.
Qed.

Lemma stack_ok_below sts stk rt p w :
  stack_ok sts stk rt -> Forall (fun p' => exists s q, p = p' ++ s :: q) stk -> stack_ok sts stk (set_at p w rt).
Proof.
  revert stk. induction sts as [|b sts IH]; intros [|p' stk] H Hp; try done.
  cbn in *. destruct H as ((c & Hc & Hb) & Habove & H). apply Forall_cons in Hp as [(s & q & ->) Hp].
  split; [by eapply container_above|]. split; [done|]. by apply IH.
Qed.

Lemma below_extend (p : path) s stk :
  Forall (fun p' => exists s q, p = p' ++ s :: q) stk ->
  Forall (fun p' => exists s' q, p ++ [s] = p' ++ s' :: q) (p :: stk).
Proof.
  intros H. constructor; [by exists s, []|]. eapply Forall_impl; [exact H|].
  intros p' (s' & q & ->). exists s', (q ++ [s]). by rewrite <- app_assoc.
Qed.

(** Storing a value: the pointer returned leads to it, and what was open is open. *)
Lemma handle_value_ok sts d v :
  value_ok sts d -> json_ok v ->
  exists p d', handle_value v d = Ret (p, d') /\ dom_ok sts d' /\ ref_stack d' = ref_stack d /\
    get_at p (root d') = Some v /\
    Forall (fun p' => exists s q, p = p' ++ s :: q) (ref_stack d).
Proof.
  intros [[Hs Hr] Hv] Hj. unfold handle_value. destruct sts as [|b sts], (ref_stack d) as [|p stk] eqn:Estk; try done.
  - exists [], (mk_dom v [] (object_element d)). split; [done|]. split; [by split|]. split; [done|]. by split.
  - cbn in Hs. destruct Hs as ((c & Hc & Hb) & Hp & Hs). rewrite Hc.
    destruct b, c as [|m|a| | | | | |]; try done.
    + exists (p ++ [SIndex (length a)]). eexists. split; [done|]. cbn.
      assert (get_at p (set_at p (JArray (a ++ [v])) (root d)) = Some (JArray (a ++ [v]))) as Hg by by eapply get_at_set.
      split; [|split; [done|]; split; [|by apply below_extend]].
      * split; cbn; [split; [by eexists|split; [done|]; by apply stack_ok_below]|].
        apply set_at_ok; [|done]. apply json_ok_array, Forall_app. split; [|by constructor].
        by apply (proj1 (json_ok_array a)), (get_at_json_ok p (root d)).
      * rewrite get_at_app, Hg. cbn. by rewrite lookup_app_r, Nat.sub_diag by lia.
    + destruct Hv as (k & x & -> & Hx). exists (p ++ [SKey k]). eexists. split; [done|]. cbn.
      split; [|split; [done|]; split; [by eapply get_at_set|by apply below_extend]].
      split; cbn; [|by apply set_at_ok]. split; [by apply (container_above false p (SKey k) [] v (root d) (JObject m))|]. split; [done|].
      apply stack_ok_below; [done|]. exact (Forall_inv_tail (below_extend p (SKey k) stk Hp)).
Qed.

(** ** The events *)

Lemma sax_value_ok sts d v :
  value_ok sts d -> json_ok v -> exists d', sax_value v d = Ret d' /\ dom_ok sts d'.
Proof.
  intros Hd Hv. destruct (handle_value_ok sts d v Hd Hv) as (p & d' & E & Hd' & _).
  exists d'. unfold sax_value. by rewrite E.
Qed.

(** A container is opened as the next value. *)
Lemma start_container_ok sts d b v :
  value_ok sts d -> json_ok v -> container b v ->
  exists d', start_container v d = Ret d' /\ dom_ok (b :: sts) d'.
Proof.
  intros Hd Hv Hb. destruct (handle_value_ok sts d v Hd Hv) as (p & d' & E & [Hs Hr] & Estk & Hp & Hbelow).
  unfold start_container. rewrite E. cbn. eexists. split; [done|]. rewrite Estk in *.
  split; cbn; [|done]. split; [by exists v|]. by split.
Qed.

Lemma end_container_ok b sts d : dom_ok (b :: sts) d -> exists d', end_container d = Ret d' /\ dom_ok sts d'.
Proof.
  intros [Hs Hr]. unfold end_container. cbn in Hs. destruct (ref_stack d) as [|p stk] eqn:E; [done|].
  destruct Hs as (_ & _ & Hs). eexists. split; [done|]. by split.
Qed.

(** An array that is open waits for a value. *)
Lemma array_value_ok sts d : dom_ok (true :: sts) d -> value_ok (true :: sts) d.
Proof. by split. Qed.

Lemma root_value_ok d : dom_ok [] d -> value_ok [] d.
Proof. by split. Qed.

(** A key makes its place in the object. *)
Lemma sax_key_ok sts d k :
  dom_ok (false :: sts) d -> valid_utf8 k -> exists d', sax_key k d = Ret d' /\ value_ok (false :: sts) d'.
Proof.
  intros [Hs Hr] Hk. unfold sax_key. cbn in Hs. destruct (ref_stack d) as [|p stk] eqn:Estk; [done|].
  destruct Hs as ((c & Hc & Hb) & Hp & Hs). rewrite Hc. destruct c as [|m| | | | | | |]; try done.
  eexists. split; [done|].
  pose proof (get_at_json_ok _ _ _ Hr Hc) as Hm. apply json_ok_object in Hm as [Hsort Hm].
  assert (get_at p (set_at p (JObject (map_emplace k JNull m)) (root d)) = Some (JObject (map_emplace k JNull m))) as Hg
    by by eapply get_at_set.
  split; [split|]; cbn.
  - split; [by eexists|]. split; [done|]. by apply stack_ok_below.
  - apply set_at_ok; [|done]. apply json_ok_object. split; [by apply map_emplace_sorted|].
    unfold map_emplace. destruct (map_find k m); [done|]. by apply map_set_members.
  - assert (exists x, map_find k (map_emplace k JNull m) = Some x) as [x Hx].
    { unfold map_emplace. destruct (map_find k m) as [x|] eqn:E; [by exists x|]. exists JNull. apply map_find_set. }
    exists k, x. split; [done|]. rewrite get_at_app, Hg. cbn. by rewrite Hx.
Qed.
