(* ===== verification/JsonSerializer.v ===== *)
(** * The serializer of nlohmann::json

    [detail::serializer] and [basic_json::dump] of
    src/externals/json/nlohmann/json.hpp. The output adapter appends to a string:
    each function returns what it writes. *)

From Stdlib Require Import ZArith Lia String Ascii SpecFloat.
From stdpp Require Import base list.
From S2P Require Import Prelude Exceptions JsonValue ToChars JsonLexer JsonParser.

(** [enum class error_handler_t]. *)
Inductive error_handler_t := strict | replace_ | ignore.

#[export] Instance error_handler_eq_dec : EqDecision error_handler_t.
Proof. solve_decision. Defined.

Definition UTF8_ACCEPT : Z := 0.
Definition UTF8_REJECT : Z := 1.

(** ** UTF-8 *)

(** The table of [decode]: 256 byte classes and 9 rows of 16 transitions. *)
Definition utf8d : list Z :=
  [0; 0; 0; 0; 0; 0; 0; 0; 0; 0; 0; 0; 0; 0; 0; 0; 0; 0; 0; 0; 0; 0; 0; 0; 0; 0; 0; 0; 0; 0; 0; 0;
    0; 0; 0; 0; 0; 0; 0; 0; 0; 0; 0; 0; 0; 0; 0; 0; 0; 0; 0; 0; 0; 0; 0; 0; 0; 0; 0; 0; 0; 0; 0; 0;
    0; 0; 0; 0; 0; 0; 0; 0; 0; 0; 0; 0; 0; 0; 0; 0; 0; 0; 0; 0; 0; 0; 0; 0; 0; 0; 0; 0; 0; 0; 0; 0;
    0; 0; 0; 0; 0; 0; 0; 0; 0; 0; 0; 0; 0; 0; 0; 0; 0; 0; 0; 0; 0; 0; 0; 0; 0; 0; 0; 0; 0; 0; 0; 0;
    1; 1; 1; 1; 1; 1; 1; 1; 1; 1; 1; 1; 1; 1; 1; 1; 9; 9; 9; 9; 9; 9; 9; 9; 9; 9; 9; 9; 9; 9; 9; 9;
    7; 7; 7; 7; 7; 7; 7; 7; 7; 7; 7; 7; 7; 7; 7; 7; 7; 7; 7; 7; 7; 7; 7; 7; 7; 7; 7; 7; 7; 7; 7; 7;
    8; 8; 2; 2; 2; 2; 2; 2; 2; 2; 2; 2; 2; 2; 2; 2; 2; 2; 2; 2; 2; 2; 2; 2; 2; 2; 2; 2; 2; 2; 2; 2;
    10; 3; 3; 3; 3; 3; 3; 3; 3; 3; 3; 3; 3; 4; 3; 3;
    11; 6; 6; 6; 5; 8; 8; 8; 8; 8; 8; 8; 8; 8; 8; 8;
    0; 1; 2; 3; 5; 8; 7; 1; 1; 1; 4; 6; 1; 1; 1; 1;
    1; 1; 1; 1; 1; 1; 1; 1; 1; 1; 1; 1; 1; 1; 1; 1; 1; 0; 1; 1; 1; 1; 1; 0; 1; 0; 1; 1; 1; 1; 1; 1;
    1; 2; 1; 1; 1; 1; 1; 2; 1; 2; 1; 1; 1; 1; 1; 1; 1; 1; 1; 1; 1; 1; 1; 2; 1; 1; 1; 1; 1; 1; 1; 1;
    1; 2; 1; 1; 1; 1; 1; 1; 1; 2; 1; 1; 1; 1; 1; 1; 1; 1; 1; 1; 1; 1; 1; 3; 1; 3; 1; 1; 1; 1; 1; 1;
    1; 3; 1; 1; 1; 1; 1; 3; 1; 3; 1; 1; 1; 1; 1; 1; 1; 3; 1; 1; 1; 1; 1; 1; 1; 1; 1; 1; 1; 1; 1; 1].

(** [decode]: the new state and code point; [None] past the end of the table. *)
Definition decode (state codep byte : Z) : option (Z * Z) :=
  type ← utf8d !! Z.to_nat byte;
  let codep :=
    if negb (state =? UTF8_ACCEPT)
    then Z.lor (Z.land byte 63) (wrap 32 (Z.shiftl codep 6))
    else Z.land (Z.shiftr 255 type) byte in
  state ← utf8d !! Z.to_nat (256 + state * 16 + type);
  Some (state, codep).

(** ** dump_escaped *)

(** The local variables of [dump_escaped] and what it has written: [buf] is the
    part of [string_buffer] below [bytes]. *)
Record escaper := mk_escaper {
  e_state : Z;
  e_codepoint : Z;
  buf : bytes;
  out : bytes;
  bytes_after_last_accept : nat;
  undumped_chars : nat
}.

(** The size of [string_buffer]. *)
Definition string_buffer_size : nat := 512.

(** The [\u] escapes of a code point. *)
Definition unicode_escape (codepoint : Z) : bytes :=
  if codepoint <=? 65535 then str "\u" ++ hex_lower 4 (wrap 16 codepoint)
  else str "\u" ++ hex_lower 4 (wrap 16 (wrap 32 (55232 + Z.shiftr codepoint 10))) ++
       str "\u" ++ hex_lower 4 (wrap 16 (56320 + Z.land codepoint 1023)).

(** What is put into the buffer for a code point, of which [byte] is the last
    byte; the bytes before it are there already. *)
Definition escape_codepoint (ensure_ascii : bool) (codepoint byte : Z) : bytes :=
  if codepoint =? 8 then str "\b"
  else if codepoint =? 9 then str "\t"
  else if codepoint =? 10 then str "\n"
  else if codepoint =? 12 then str "\f"
  else if codepoint =? 13 then str "\r"
  else if codepoint =? 34 then [92; 34]
  else if codepoint =? 92 then [92; 92]
  else if (codepoint <=? 31) || (ensure_ascii && (127 <=? codepoint)) then unicode_escape codepoint
  else [byte].

(** Putting characters at the end of the buffer, and [nul] terminating NULs that
    are not counted. *)
Definition store (nul : nat) (s : bytes) (e : escaper) : cpp escaper :=
  if (length (buf e) + length s + nul <=? string_buffer_size)%nat
  then Ret (mk_escaper (e_state e) (e_codepoint e) (buf e ++ s) (out e) (bytes_after_last_accept e) (undumped_chars e))
  else Undef.

(** Writing the buffer out when fewer than 13 bytes are left in it. *)
Definition flush (e : escaper) : escaper :=
  if (string_buffer_size - length (buf e) <? 13)%nat
  then mk_escaper (e_state e) (e_codepoint e) [] (out e ++ buf e) (bytes_after_last_accept e) (undumped_chars e)
  else e.

(** After a flush, [bytes_after_last_accept = bytes] and [undumped_chars = 0]. *)
Definition mark (e : escaper) : escaper :=
  mk_escaper (e_state e) (e_codepoint e) (buf e) (out e) (length (buf e)) 0.

(** The case [UTF8_ACCEPT]; the [\u] escapes, of 6 or 12 characters, are written
    by [snprintf] with a NUL after them. *)
Definition accept_codepoint (ensure_ascii : bool) (byte : Z) (e : escaper) : cpp escaper :=
  let s := escape_codepoint ensure_ascii (e_codepoint e) byte in
  let* e := store (if (6 <=? length s)%nat then 1 else 0) s e in Ret (mark (flush e)).

Definition replacement (ensure_ascii : bool) : bytes :=
  if ensure_ascii then str "\ufffd" else [239; 191; 189].

(** The case [UTF8_REJECT] at the index [i]: whether the byte is read again. *)
Definition reject_byte (handler : error_handler_t) (ensure_ascii : bool) (i : nat) (byte : Z) (e : escaper)
    : cpp (bool * escaper) :=
  match handler with
  | strict =>
      Throw (create_type_error 316
        (str "invalid UTF-8 byte at index " ++ to_string (Z.of_nat i) ++ str ": 0x" ++ hex_upper 2 byte ++ [0]))
  | _ =>
      let again := (0 <? undumped_chars e)%nat in
      let e := mk_escaper UTF8_ACCEPT (e_codepoint e) (take (bytes_after_last_accept e) (buf e)) (out e)
                 (bytes_after_last_accept e) 0 in
      if bool_decide (handler = replace_) then
        let* e := store 0 (replacement ensure_ascii) e in Ret (again, mark (flush e))
      else Ret (again, e)
  end.

(** One turn of the loop, at the byte with the index [i]. *)
Definition escape_byte (handler : error_handler_t) (ensure_ascii : bool) (i : nat) (byte : Z) (e : escaper)
    : cpp (bool * escaper) :=
  match decode (e_state e) (e_codepoint e) byte with
  | None => Undef
  | Some (state, codepoint) =>
      let e := mk_escaper state codepoint (buf e) (out e) (bytes_after_last_accept e) (undumped_chars e) in
      if state =? UTF8_ACCEPT then let* e := accept_codepoint ensure_ascii byte e in Ret (false, e)
      else if state =? UTF8_REJECT then reject_byte handler ensure_ascii i byte e
      else
        let* e := if ensure_ascii then Ret e else store 0 [byte] e in
        Ret (false, mk_escaper state codepoint (buf e) (out e) (bytes_after_last_accept e) (S (undumped_chars e)))
  end.

(** The loop over the bytes. A byte is read again at most once, with
    [undumped_chars] 0. *)
Fixpoint escape_loop (handler : error_handler_t) (ensure_ascii : bool) (i : nat) (s : bytes) (e : escaper)
    : cpp escaper :=
  match s with
  | [] => Ret e
  | c :: s =>
      let byte := wrap 8 c in
      let* (again, e) := escape_byte handler ensure_ascii i byte e in
      let* e :=
        if again : bool then
          let* (_, e) := escape_byte handler ensure_ascii i byte e in Ret e
        else Ret e in
      escape_loop handler ensure_ascii (S i) s e
  end.

(** What follows the loop. *)
Definition escape_end (handler : error_handler_t) (ensure_ascii : bool) (s : bytes) (e : escaper) : cpp bytes :=
  if e_state e =? UTF8_ACCEPT then Ret (out e ++ buf e)
  else
    match handler with
    | strict =>
        Throw (create_type_error 316
          (str "incomplete UTF-8 string; last byte: 0x" ++ hex_upper 2 (wrap 8 (List.last s 0)) ++ [0]))
    | ignore => Ret (out e ++ take (bytes_after_last_accept e) (buf e))
    | replace_ => Ret (out e ++ take (bytes_after_last_accept e) (buf e) ++ replacement ensure_ascii)
    end.

(** [dump_escaped]. *)
Definition dump_escaped (handler : error_handler_t) (ensure_ascii : bool) (s : bytes) : cpp bytes :=
  let* e := escape_loop handler ensure_ascii 0 s (mk_escaper UTF8_ACCEPT 0 [] [] 0 0) in
  escape_end handler ensure_ascii s e.

(** ** dump_integer *)

(** The loop of [count_digits]; [x] has fewer than [4 * fuel] digits. *)
Fixpoint count_digits_loop (fuel : nat) (x n_digits : Z) : Z :=
  match fuel with
  | O => n_digits
  | S fuel =>
      if x <? 10 then n_digits
      else if x <? 100 then n_digits + 1
      else if x <? 1000 then n_digits + 2
      else if x <? 10000 then n_digits + 3
      else count_digits_loop fuel (x / 10000) (n_digits + 4)
  end.

(** [count_digits] of a 64-bit number: at most 20 digits. *)
Definition count_digits (x : Z) : Z := count_digits_loop 6 x 1.

(** The two characters of [digits_to_99[i]]. *)
Definition digits_to_99 (i : Z) : Z * Z := (48 + i / 10, 48 + i mod 10).

(** [*(--buffer_ptr) = c]. *)
Definition put_back (c : Z) (b : bytes * nat) : bytes * nat :=
  let (number_buffer, ptr) := b in (<[pred ptr := c]> number_buffer, pred ptr).

Definition put_pair (i : Z) (b : bytes * nat) : bytes * nat :=
  let (d0, d1) := digits_to_99 i in put_back d0 (put_back d1 b).

(** The loop [while (abs_value >= 100)]. *)
Fixpoint put_pairs (fuel : nat) (abs_value : Z) (b : bytes * nat) : Z * (bytes * nat) :=
  match fuel with
  | O => (abs_value, b)
  | S fuel =>
      if 100 <=? abs_value then put_pairs fuel (abs_value / 100) (put_pair (abs_value mod 100) b)
      else (abs_value, b)
  end.

(** [dump_integer] of a [number_integer_t], with [signed], or of a
    [number_unsigned_t]. The absolute value of the least integer overflows. *)
Definition dump_integer (signed : bool) (x : Z) : cpp bytes :=
  if x =? 0 then Ret [48]
  else
    let is_negative := signed && negb (0 <=? x) in
    if is_negative && (x =? - 2 ^ 63) then Undef
    else
      let number_buffer := replicate 64 0 in
      let number_buffer := if is_negative then <[0%nat := 45]> number_buffer else number_buffer in
      let abs_value := wrap 64 (if is_negative then Z.abs x else x) in
      let n_chars := Z.to_nat (if is_negative then 1 + count_digits abs_value else count_digits abs_value) in
      let (abs_value, b) := put_pairs 10 abs_value (number_buffer, n_chars) in
      let (number_buffer, _) :=
        if 10 <=? abs_value then put_pair abs_value b else put_back (48 + abs_value) b in
      Ret (take n_chars number_buffer).

(** ** dump *)

Section Dump.
Context (handler : error_handler_t) (indent_char : Z).

(** [number_buffer]; what was written to it before does not matter. *)
Definition number_buffer : bytes := replicate 64 0.

(** [dump_float(x)] and [dump_float(x, std::true_type)]. *)
Definition dump_float (x : number_float_t) : cpp bytes :=
  if negb (is_finite x) then Ret (str "null")
  else
    let* (buf, end_) := to_chars number_buffer x in
    Ret (take (Z.to_nat end_) buf).

(** The cases of [dump] for the values that are not arrays or objects. *)
Definition dump_scalar (ensure_ascii : bool) (val : json) : cpp bytes :=
  match val with
  | JString s => let* t := dump_escaped handler ensure_ascii s in Ret ([34] ++ t ++ [34])
  | JBoolean b => Ret (if b then str "true" else str "false")
  | JInteger z => dump_integer true z
  | JUnsigned z => dump_integer false z
  | JFloat f => dump_float f
  | JDiscarded => Ret (str "<discarded>")
  | _ => Ret (str "null")
  end.

(** [indent_string] has been resized to [size]: the characters after the first
    512 are spaces. Writing more of it than there is reads past its end. *)
Definition write_indent (size n : nat) : cpp bytes :=
  if (n <=? size)%nat then Ret (take n (replicate 512 indent_char ++ replicate (size - 512) 32))
  else Undef.

Definition grow_indent (size new_indent : nat) : nat := if (size <? new_indent)%nat then (size * 2)%nat else size.

Section Levels.
Context (pretty_print ensure_ascii : bool) (indent_step : nat).

(** [dump(val, pretty_print, ensure_ascii, indent_step, current_indent)]: what
    it writes, and the size of [indent_string] afterwards. *)
Fixpoint dump_value (val : json) (current_indent size : nat) {struct val} : cpp (bytes * nat) :=
  match val with
  | JObject [] => Ret (str "{}", size)
  | JObject m =>
      let new_indent := (current_indent + indent_step)%nat in
      let size := if pretty_print then grow_indent size new_indent else size in
      let indent n size := if pretty_print then write_indent size n else Ret [] in
      let* (body, size) :=
        (fix members (m : list (bytes * json)) (size : nat) : cpp (bytes * nat) :=
          match m with
          | [] => Ret ([], size)
          | (k, v) :: m' =>
              let* pre := indent new_indent size in
              let* key := dump_escaped handler ensure_ascii k in
              let* (s, size) := dump_value v (if pretty_print then new_indent else current_indent) size in
              let member := pre ++ [34] ++ key ++ (if pretty_print then [34; 58; 32] else [34; 58]) ++ s in
              match m' with
              | [] => Ret (member, size)
              | _ =>
                  let* (rest, size) := members m' size in
                  Ret (member ++ (if pretty_print then [44; 10] else [44]) ++ rest, size)
              end
          end) m size in
      let* post := indent current_indent size in
      Ret ((if pretty_print then [123; 10] else [123]) ++ body ++
        (if pretty_print then [10] else []) ++ post ++ [125], size)
  | JArray [] => Ret (str "[]", size)
  | JArray a =>
      let new_indent := (current_indent + indent_step)%nat in
      let size := if pretty_print then grow_indent size new_indent else size in
      let indent n size := if pretty_print then write_indent size n else Ret [] in
      let* (body, size) :=
        (fix elements (a : list json) (size : nat) : cpp (bytes * nat) :=
          match a with
          | [] => Ret ([], size)
          | v :: a' =>
              let* pre := indent new_indent size in
              let* (s, size) := dump_value v (if pretty_print then new_indent else current_indent) size in
              match a' with
              | [] => Ret (pre ++ s, size)
              | _ =>
                  let* (rest, size) := elements a' size in
                  Ret (pre ++ s ++ (if pretty_print then [44; 10] else [44]) ++ rest, size)
              end
          end) a size in
      let* post := indent current_indent size in
      Ret ((if pretty_print then [91; 10] else [91]) ++ body ++
        (if pretty_print then [10] else []) ++ post ++ [93], size)
  | _ => let* t := dump_scalar ensure_ascii val in Ret (t, size)
  end.
End Levels.

(** [basic_json::dump(indent, indent_char, ensure_ascii, error_handler)]. *)
Definition dump (indent : Z) (ensure_ascii : bool) (val : json) : cpp bytes :=
  let* (s, _) :=
    if 0 <=? indent then dump_value true ensure_ascii (Z.to_nat indent) val 0 512
    else dump_value false ensure_ascii 0 val 0 512 in
  Ret s.
End Dump.

(** [j.dump()]: the default arguments. *)
Definition dump_default (val : json) : cpp bytes :=
  dump strict 32 (-1) false val.
