(* ===== verification/JsonDigits.v ===== *)
(** * The digits of an integer

    [serializer::count_digits] and [serializer::dump_integer], which write the
    digits of a number in pairs from the back of a buffer, agree with the decimal
    representation that [std::to_string] gives. *)

From Stdlib Require Import ZArith Lia String Ascii.
From stdpp Require Import base list.
From S2P Require Import Prelude Utf8 Exceptions JsonValue JsonLexer JsonStrings JsonNumbers JsonSerializer.

(** ** Decimal representations *)

Lemma to_base_fuel_app f base digit z acc :
  to_base_fuel f base digit z acc = to_base_fuel f base digit z [] ++ acc.
Proof.
  revert z acc. induction f as [|f IH]; intros z acc; [done|]. cbn. destruct (z <? base); [done|].
  rewrite IH, (IH _ [digit (z mod base)]), <- app_assoc. done.
Qed.

Lemma to_base_fuel_enough f g z :
  0 <= z < 10 ^ Z.of_nat f -> 0 <= z < 10 ^ Z.of_nat g -> (0 < f)%nat -> (0 < g)%nat ->
  to_base_fuel f 10 digit_char z [] = to_base_fuel g 10 digit_char z [].
Proof.
  revert g z. induction f as [|f IH]; intros [|g] z Hf Hg Hf0 Hg0; try lia.
  cbn [to_base_fuel]. destruct (Z.ltb_spec z 10) as [H|H]; [done|].
  rewrite to_base_fuel_app, (to_base_fuel_app g). f_equal.
  assert (forall h, z < 10 ^ Z.of_nat (S h) -> 0 <= z / 10 < 10 ^ Z.of_nat h /\ (0 < h)%nat) as Hh.
  { intros h Hz. rewrite Nat2Z.inj_succ, Z.pow_succ_r in Hz by lia. split.
    - split; [apply Z.div_le_lower_bound|apply Z.div_lt_upper_bound]; lia.
    - destruct h; [cbn in Hz; lia|lia]. }
  destruct (Hh f (proj2 Hf)), (Hh g (proj2 Hg)). by apply IH.
Qed.

Lemma log2_fuel z : 0 <= z -> 0 <= z < 10 ^ Z.of_nat (S (Z.to_nat (Z.log2 z))).
Proof.
  intros Hz. split; [done|]. rewrite Nat2Z.inj_succ, Z2Nat.id by apply Z.log2_nonneg.
  destruct (Z.eq_dec z 0) as [->|]; [done|].
  destruct (Z.log2_spec z ltac:(lia)) as [_ H]. eapply Z.lt_le_trans; [exact H|].
  apply Z.pow_le_mono_l. lia.
Qed.

Lemma to_string_digit z : 0 <= z < 10 -> to_string z = [48 + z].
Proof.
  intros Hz. unfold to_string. replace (z <? 0) with false by lia. cbn.
  replace (z <? 10) with true by lia. rewrite Z.mod_small by lia. unfold digit_char.
  by replace (z <? 10) with true by lia.
Qed.

Lemma to_string_step z : 10 <= z -> to_string z = to_string (z / 10) ++ [48 + z mod 10].
Proof.
  intros Hz. unfold to_string. replace (z <? 0) with false by lia.
  assert (0 < z / 10 < z) as Hd by (split; [apply Z.div_str_pos|apply Z.div_lt]; lia).
  replace (z / 10 <? 0) with false by lia.
  pose proof (log2_fuel z ltac:(lia)) as H1. pose proof (log2_fuel (z / 10) ltac:(lia)) as H2.
  remember (Z.to_nat (Z.log2 z)) as f. remember (S (Z.to_nat (Z.log2 (z / 10)))) as g.
  cbn [to_base_fuel]. replace (z <? 10) with false by lia. rewrite to_base_fuel_app.
  assert (0 <= z mod 10 < 10) as Hm by (apply Z.mod_pos_bound; lia).
  unfold digit_char at 2. replace (z mod 10 <? 10) with true by lia. f_equal.
  rewrite Nat2Z.inj_succ, Z.pow_succ_r in H1 by lia.
  assert (0 <= z / 10 < 10 ^ Z.of_nat f) as H3 by (split; [lia|apply Z.div_lt_upper_bound; lia]).
  apply to_base_fuel_enough; try done; try lia.
  destruct f; [cbn in H3; lia|lia].
Qed.

Lemma to_string_negative z : z < 0 -> to_string z = 45 :: to_string (- z).
Proof.
  intros Hz. unfold to_string. replace (z <? 0) with true by lia. by replace (- z <? 0) with false by lia.
Qed.

(** Induction on the number of digits. *)
Lemma digits_ind (P : Z -> Prop) :
  (forall z, 0 <= z < 10 -> P z) -> (forall z, 10 <= z -> P (z / 10) -> P z) -> forall z, 0 <= z -> P z.
Proof.
  intros H1 H2. apply Zlt_0_ind. intros z IH Hz. destruct (Z.lt_ge_cases z 10); [by apply H1|].
  apply H2; [done|]. apply IH. split; [apply Z.div_pos|apply Z.div_lt]; lia.
Qed.

Lemma decimal_snoc s c : decimal (s ++ [c]) = decimal s * 10 + (c - 48).
Proof. unfold decimal. by rewrite fold_left_app. Qed.

(** A number is the decimal value of its representation, which has no leading
    zero. *)
Lemma to_string_decimal z : 0 <= z -> decimal (to_string z) = z.
Proof.
  revert z. apply digits_ind; intros z Hz.
  - rewrite to_string_digit by done. cbn. lia.
  - intros IH. rewrite to_string_step, decimal_snoc, IH by done.
    pose proof (Z.div_mod z 10 ltac:(lia)). lia.
Qed.

Lemma to_string_natural z : 0 <= z -> natural (to_string z).
Proof.
  intros Hz. cut (exists c ds, to_string z = c :: ds /\ digits (c :: ds) /\ (c = 48 -> z = 0)).
  { intros (c & ds & E & Hd & Hc). rewrite E. split; [done|]. intros H48. rewrite (Hc H48) in E.
    by injection E. }
  revert z Hz. apply digits_ind; intros z Hz.
  - exists (48 + z), []. rewrite to_string_digit by done. split; [done|]. split; [|lia].
    constructor; [|done]. apply in_range_spec. lia.
  - intros (c & ds & E & Hd & Hc). exists c, (ds ++ [48 + z mod 10]).
    rewrite to_string_step, E by done. split; [done|]. split.
    + apply (digits_snoc (c :: ds)); [done|]. assert (0 <= z mod 10 < 10) by (apply Z.mod_pos_bound; lia).
      apply in_range_spec. lia.
    + intros H. apply Hc in H. assert (0 < z / 10) by (apply Z.div_str_pos; lia). lia.
Qed.

Lemma to_string_length_step z : 10 <= z -> length (to_string z) = S (length (to_string (z / 10))).
Proof. intros Hz. rewrite to_string_step, length_app by done. cbn. lia. Qed.

Lemma to_string_length_digit z : 0 <= z < 10 -> length (to_string z) = 1%nat.
Proof. intros Hz. by rewrite to_string_digit. Qed.

Lemma to_string_length_bound z n : 0 <= z < 10 ^ Z.of_nat n -> (0 < n)%nat -> (length (to_string z) <= n)%nat.
Proof.
  revert z. induction n as [|n IH]; intros z Hz Hn; [lia|].
  destruct (Z.lt_ge_cases z 10); [rewrite to_string_length_digit by lia; lia|].
  rewrite to_string_length_step by done. rewrite Nat2Z.inj_succ, Z.pow_succ_r in Hz by lia.
  assert (0 <= z / 10 < 10 ^ Z.of_nat n) as Hd
    by (split; [apply Z.div_pos|apply Z.div_lt_upper_bound]; lia).
  apply IH in Hd; [lia|]. destruct n; [cbn in Hz; lia|lia].
Qed.

(** ** count_digits *)

Lemma count_digits_loop_length fuel x n :
  0 <= x < 10000 ^ Z.of_nat fuel -> count_digits_loop fuel x n = n - 1 + Z.of_nat (length (to_string x)).
Proof.
  revert x n. induction fuel as [|fuel IH]; intros x n Hx.
  - cbn in Hx. rewrite to_string_length_digit by lia. cbn. lia.
  - cbn [count_digits_loop].
    assert (forall y, 0 <= y -> 0 <= y / 10) as Hp by (intros; apply Z.div_pos; lia).
    assert (forall y b, y < 10 * b -> y / 10 < b) as Hlt by (intros; apply Z.div_lt_upper_bound; lia).
    assert (forall y b, 10 * b <= y -> b <= y / 10) as Hle by (intros; apply Z.div_le_lower_bound; lia).
    destruct (Z.ltb_spec x 10); [rewrite to_string_length_digit; lia|].
    rewrite to_string_length_step by done. pose proof (Hp x ltac:(lia)).
    destruct (Z.ltb_spec x 100); [rewrite to_string_length_digit; [lia|split; [done|apply Hlt; lia]]|].
    rewrite to_string_length_step by (apply Hle; lia). pose proof (Hp (x / 10) ltac:(lia)).
    destruct (Z.ltb_spec x 1000);
      [rewrite to_string_length_digit; [lia|split; [done|apply Hlt, Hlt; lia]]|].
    rewrite to_string_length_step by (apply Hle, Hle; lia). pose proof (Hp (x / 10 / 10) ltac:(lia)).
    destruct (Z.ltb_spec x 10000);
      [rewrite to_string_length_digit; [lia|split; [done|apply Hlt, Hlt, Hlt; lia]]|].
    rewrite to_string_length_step by (apply Hle, Hle, Hle; lia).
    rewrite IH.
    + replace (x / 10 / 10 / 10 / 10) with (x / 10000) by (rewrite !Z.div_div by lia; done). lia.
    + rewrite Nat2Z.inj_succ, Z.pow_succ_r in Hx by lia.
      split; [apply Z.div_pos|apply Z.div_lt_upper_bound]; lia.
Qed.

Lemma count_digits_length x : 0 <= x < 2 ^ 64 -> count_digits x = Z.of_nat (length (to_string x)).
Proof.
  intros Hx. unfold count_digits. rewrite count_digits_loop_length; [lia|].
  split; [lia|]. apply (Z.lt_le_trans _ (2 ^ 64)); [lia|]. by vm_compute.
Qed.

(** ** dump_integer *)

(** The buffer: the characters before the pointer, those written from it to the
    end of the number, and the rest. *)
Definition buffer_of (pre tail rest : bytes) : bytes * nat := (pre ++ tail ++ rest, length pre).

Lemma put_back_buffer c x pre tail rest :
  put_back c (buffer_of (pre ++ [x]) tail rest) = buffer_of pre (c :: tail) rest.
Proof.
  unfold put_back, buffer_of. rewrite length_app, Nat.add_1_r. cbn [pred].
  f_equal. rewrite <- app_assoc. cbn. rewrite insert_app_r_alt by done. by rewrite Nat.sub_diag.
Qed.

Lemma put_pair_buffer i x y pre tail rest :
  put_pair i (buffer_of (pre ++ [x; y]) tail rest) = buffer_of pre (48 + i / 10 :: 48 + i mod 10 :: tail) rest.
Proof.
  unfold put_pair. cbn [digits_to_99]. replace (pre ++ [x; y]) with ((pre ++ [x]) ++ [y]) by by rewrite <- app_assoc.
  by rewrite !put_back_buffer.
Qed.

(** Two digits at once. *)
Lemma to_string_pair z :
  100 <= z -> to_string z = to_string (z / 100) ++ [48 + z mod 100 / 10; 48 + z mod 100 mod 10].
Proof.
  intros Hz. rewrite to_string_step by lia.
  rewrite to_string_step by (apply Z.div_le_lower_bound; lia). rewrite <- app_assoc. cbn [app].
  assert (z / 10 mod 10 = z mod 100 / 10) as -> by (Z.to_euclidean_division_equations; lia).
  assert (z mod 100 mod 10 = z mod 10) as -> by (Z.to_euclidean_division_equations; lia).
  by rewrite Z.div_div by lia.
Qed.

(** The loop over pairs of digits fills the buffer from the back. *)
Lemma put_pairs_buffer fuel v sign space tail rest :
  0 <= v < 100 ^ Z.of_nat (S fuel) -> length space = length (to_string v) ->
  exists v' space' tail', put_pairs fuel v (buffer_of (sign ++ space) tail rest) =
      (v', buffer_of (sign ++ space') tail' rest) /\
    0 <= v' < 100 /\ length space' = length (to_string v') /\ to_string v' ++ tail' = to_string v ++ tail.
Proof.
  revert v space tail. induction fuel as [|fuel IH]; intros v space tail Hv Hlen.
  - exists v, space, tail. split; [done|]. cbn in Hv. split; [lia|done].
  - cbn [put_pairs]. destruct (Z.leb_spec 100 v) as [H|H]; [|exists v, space, tail; by repeat split; try lia].
    rewrite to_string_pair, length_app in Hlen by done. cbn in Hlen.
    assert (exists s x y, space = s ++ [x; y] /\ length s = length (to_string (v / 100))) as (s & x & y & -> & Hs).
    { exists (take (length (to_string (v / 100))) space).
      assert (length (drop (length (to_string (v / 100))) space) = 2%nat) as Hd by (rewrite length_drop; lia).
      pose proof (take_drop (length (to_string (v / 100))) space) as Et.
      destruct (drop (length (to_string (v / 100))) space) as [|x [|y [|? ?]]] eqn:Ed; try done.
      exists x, y. split; [done|]. rewrite length_take. lia. }
    replace (sign ++ s ++ [x; y]) with ((sign ++ s) ++ [x; y]) by by rewrite <- app_assoc.
    rewrite put_pair_buffer.
    destruct (IH (v / 100) s (48 + v mod 100 / 10 :: 48 + v mod 100 mod 10 :: tail)) as (v' & s' & t' & -> & Hv' & Hl' & E).
    + rewrite Nat2Z.inj_succ, Z.pow_succ_r in Hv by lia.
      split; [apply Z.div_pos|apply Z.div_lt_upper_bound]; lia.
    + done.
    + exists v', s', t'. repeat (split; [done|]). rewrite E, (to_string_pair v) by done. by rewrite <- app_assoc.
Qed.

Lemma to_string_two v : 10 <= v < 100 -> to_string v = [48 + v / 10; 48 + v mod 10].
Proof.
  intros Hv. rewrite to_string_step by lia. rewrite to_string_digit; [done|].
  split; [apply Z.div_pos|apply Z.div_lt_upper_bound]; lia.
Qed.

(** Filling the buffer after the sign. *)
Lemma fill_buffer v sign rest space :
  0 <= v < 2 ^ 64 -> length space = length (to_string v) ->
  (let (v, b) := put_pairs 10 v (buffer_of (sign ++ space) [] rest) in
    if 10 <=? v then put_pair v b else put_back (48 + v) b) = buffer_of sign (to_string v) rest.
Proof.
  intros Hv Hlen.
  destruct (put_pairs_buffer 10 v sign space [] rest) as (v' & s' & t' & -> & Hv' & Hl' & E).
  { split; [lia|]. apply (Z.lt_le_trans _ (2 ^ 64)); [lia|by vm_compute]. }
  { done. }
  rewrite app_nil_r in E. rewrite <- E. destruct (Z.leb_spec 10 v').
  - rewrite to_string_two in * by lia. destruct s' as [|x [|y [|? ?]]]; try done. by rewrite put_pair_buffer.
  - rewrite to_string_digit in * by lia. destruct s' as [|x [|? ?]]; try done. by rewrite put_back_buffer.
Qed.

(** The values of the type that is dumped: all of a [number_unsigned_t], and all
    but the least of a [number_integer_t]. *)
Definition dumpable (signed : bool) (x : Z) : Prop :=
  if signed then - 2 ^ 63 < x < 2 ^ 63 else u64 x.

Lemma dump_integer_ok signed x : dumpable signed x -> dump_integer signed x = Ret (to_string x).
Proof.
  intros Hx. unfold dump_integer. destruct (Z.eqb_spec x 0) as [->|H0]; [done|].
  assert (- 2 ^ 63 < x < 2 ^ 64 /\ (signed = false -> 0 <= x)) as [Hr Hs]
    by (unfold dumpable, in_width in Hx; by destruct signed; split; [lia|done|lia|lia]).
  replace (x =? - 2 ^ 63) with false by lia. rewrite andb_false_r.
  assert ((signed && negb (0 <=? x)) = (x <? 0)) as ->.
  { destruct signed; cbn [andb]; [zcases|]. specialize (Hs eq_refl). by replace (x <? 0) with false by lia. }
  assert (forall v sign, 0 <= v < 2 ^ 64 -> (length sign <= 1)%nat -> forall n, n = (length sign + length (to_string v))%nat ->
    forall buf, buf = sign ++ replicate (64 - length sign) 0 ->
    (let (abs_value, b) := put_pairs 10 v (buf, n) in
     let (number_buffer, _) :=
       if 10 <=? abs_value then put_pair abs_value b else put_back (48 + abs_value) b in
     Ret (take n number_buffer)) = Ret (E := exn) (sign ++ to_string v)) as Hgo.
  { intros v sign Hv Hsign n -> buf ->.
    assert (length (to_string v) <= 20)%nat as H20 by (apply to_string_length_bound; [split; [lia|]|lia];
      apply (Z.lt_le_trans _ (2 ^ 64)); [lia|by vm_compute]).
    pose proof (fill_buffer v sign (replicate (64 - length sign - length (to_string v)) 0)
      (replicate (length (to_string v)) 0) Hv ltac:(by rewrite length_replicate)) as E.
    unfold buffer_of at 1 in E. cbn [app] in E.
    rewrite <- app_assoc, <- replicate_add, length_app, length_replicate in E.
    replace (length (to_string v) + (64 - length sign - length (to_string v)))%nat with (64 - length sign)%nat in E by lia.
    destruct (put_pairs 10 v _) as [v' b]. rewrite E. unfold buffer_of. f_equal.
    rewrite app_assoc, <- length_app. by rewrite take_app_length. }
  destruct (Z.ltb_spec x 0) as [Hneg|Hpos].
  - replace (Z.abs x) with (- x) by lia. rewrite (wrap_small 64 (- x)) by (unfold in_width; lia).
    rewrite (to_string_negative x) by done. apply (Hgo (- x) [45]); [lia|cbn; lia| |done].
    rewrite count_digits_length by lia. cbn [length]. lia.
  - rewrite (wrap_small 64 x) by (unfold in_width; lia). apply (Hgo x []); [lia|cbn; lia| |done].
    rewrite count_digits_length by lia. cbn [length]. lia.
Qed.

(** C27: the digits that [dump_integer] writes in pairs from the back of its
    buffer are the decimal representation of every unsigned 64-bit number, and of
    every signed one but the least, whose absolute value overflows. *)
Theorem dump_integer_to_string :
  (forall x, u64 x -> dump_integer false x = Ret (to_string x)) /\
  (forall x, - 2 ^ 63 < x < 2 ^ 63 -> dump_integer true x = Ret (to_string x)) /\
  dump_integer true (- 2 ^ 63) = Undef.
Proof.
  split; [intros x Hx; by apply dump_integer_ok|]. split; [intros x Hx; by apply dump_integer_ok|done].
Qed.

Lemma dump_integer_to_string_witness :
  u64 18446744073709551615 /\ dump_integer false 18446744073709551615 = Ret (str "18446744073709551615").
Proof.
  assert (u64 18446744073709551615) as H by done.
  split; [exact H|]. exact (proj1 dump_integer_to_string 18446744073709551615 H).
Defined.
