(* ===== verification/Powers.v ===== *)
(** * Powers of two and of ten

    The rational numbers [2^z] and [10^z], in which the proofs on floating-point
    numbers state what a significand with an exponent is worth. *)

From Stdlib Require Import ZArith Lia QArith Qpower Lqa.
From stdpp Require Import base list.
From S2P Require Import Prelude.

(** An integer as a rational number. *)
Abbreviation toQ := inject_Z.

Definition pow2 (z : Z) : Q := Qpower 2 z.
Definition pow10 (z : Z) : Q := Qpower 10 z.

(** Small integers as rational constants, which [lra] knows. *)
Ltac q_const :=
  change (toQ 0) with 0%Q in *; change (toQ 1) with 1%Q in *; change (toQ 2) with 2%Q in *;
  change (toQ 4) with 4%Q in *; change (toQ 10) with 10%Q in *.

Section Powers.
Open Scope Q_scope.

Lemma pow2_pos z : 0 < pow2 z.
Proof. by apply Qpower_0_lt. Qed.

Lemma pow10_pos z : 0 < pow10 z.
Proof. by apply Qpower_0_lt. Qed.

Lemma pow2_add a b : pow2 (a + b) == pow2 a * pow2 b.
Proof. by apply Qpower_plus. Qed.

Lemma pow10_add a b : pow10 (a + b) == pow10 a * pow10 b.
Proof. by apply Qpower_plus. Qed.

Lemma pow2_Z z : (0 <= z)%Z -> pow2 z == toQ (2 ^ z).
Proof. intros H. symmetry. by apply Zpower_Qpower. Qed.

Lemma pow10_Z z : (0 <= z)%Z -> pow10 z == toQ (10 ^ z).
Proof. intros H. symmetry. by apply Zpower_Qpower. Qed.

Lemma pow2_0 : pow2 0 == 1.
Proof. done. Qed.

Lemma pow2_succ z : pow2 (z + 1) == 2 * pow2 z.
Proof. rewrite pow2_add. change (pow2 1) with (2 : Q). ring. Qed.

Lemma pow10_succ z : pow10 (z + 1) == 10 * pow10 z.
Proof. rewrite pow10_add. change (pow10 1) with (10 : Q). ring. Qed.

Lemma pow2_le a b : (a <= b)%Z -> pow2 a <= pow2 b.
Proof. intros H. by apply Qpower_le_compat_l. Qed.

Lemma pow10_le a b : (a <= b)%Z -> pow10 a <= pow10 b.
Proof. intros H. by apply Qpower_le_compat_l. Qed.

Lemma pow2_lt_inv a b : pow2 a < pow2 b -> (a < b)%Z.
Proof.
  intros H. destruct (Z.lt_ge_cases a b) as [|Hle]; [done|]. apply pow2_le in Hle. lra.
Qed.

Lemma pow10_lt_inv a b : pow10 a < pow10 b -> (a < b)%Z.
Proof.
  intros H. destruct (Z.lt_ge_cases a b) as [|Hle]; [done|]. apply pow10_le in Hle. lra.
Qed.

Lemma toQ_le a b : (a <= b)%Z -> toQ a <= toQ b.
Proof. by rewrite Zle_Qle. Qed.

Lemma toQ_lt a b : (a < b)%Z -> toQ a < toQ b.
Proof. by rewrite Zlt_Qlt. Qed.

Lemma toQ_le_inv a b : toQ a <= toQ b -> (a <= b)%Z.
Proof. by rewrite Zle_Qle. Qed.

Lemma toQ_lt_inv a b : toQ a < toQ b -> (a < b)%Z.
Proof. by rewrite Zlt_Qlt. Qed.

Lemma toQ_add a b : toQ (a + b) == toQ a + toQ b.
Proof. by rewrite inject_Z_plus. Qed.

Lemma toQ_mul a b : toQ (a * b) == toQ a * toQ b.
Proof. by rewrite inject_Z_mult. Qed.

Lemma toQ_sub a b : toQ (a - b) == toQ a - toQ b.
Proof. unfold Z.sub. by rewrite toQ_add, inject_Z_opp. Qed.

(** Products with a positive factor. *)
Lemma mul_lt_r a b p : 0 < p -> a < b -> a * p < b * p.
Proof. intros. by apply Qmult_lt_r. Qed.

Lemma mul_le_r a b p : 0 < p -> a <= b -> a * p <= b * p.
Proof. intros. by apply Qmult_le_r. Qed.

Lemma mul_lt_r_inv a b p : 0 < p -> a * p < b * p -> a < b.
Proof. intros. by apply (Qmult_lt_r _ _ p). Qed.

Lemma mul_le_r_inv a b p : 0 < p -> a * p <= b * p -> a <= b.
Proof. intros. by apply (Qmult_le_r _ _ p). Qed.
End Powers.
