(* ===== verification/Binary64.v ===== *)
(** * Rounding to a double

    The rounding of [SpecFloat] gives a number back from every rational number that
    lies strictly between the midpoints to its neighbours: what [strtod] makes of
    any decimal number there. *)

From Stdlib Require Import ZArith Lia QArith Qpower Lqa SpecFloat.
From stdpp Require Import base list.
From S2P Require Import Prelude Powers.

#[local] Abbreviation fexp64 := (fexp 53 1024).

Section Rounding.
Open Scope Q_scope.

(** ** Locations *)

(** [X] lies where [m], [e] and [l] say. *)
Definition locates (X : Q) (m e : Z) (l : location) : Prop :=
  match l with
  | loc_Exact => X == toQ m * pow2 e
  | loc_Inexact Lt => toQ m * pow2 e < X /\ X < (toQ m + (1#2)) * pow2 e
  | loc_Inexact Eq => X == (toQ m + (1#2)) * pow2 e
  | loc_Inexact Gt => (toQ m + (1#2)) * pow2 e < X /\ X < (toQ m + 1) * pow2 e
  end.

#[export] Instance locates_proper : Proper (Qeq ==> eq ==> eq ==> eq ==> iff) locates.
Proof. intros X Y H m ? <- e ? <- l ? <-. destruct l as [|[]]; cbn; by rewrite H. Qed.

Definition located (X : Q) (mrs : shr_record) (e : Z) : Prop :=
  (0 <= shr_m mrs)%Z /\ locates X (shr_m mrs) e (loc_of_shr_record mrs).

Lemma locates_bounds X m e l : locates X m e l -> toQ m * pow2 e <= X /\ X < (toQ m + 1) * pow2 e.
Proof. pose proof (pow2_pos e). destruct l as [|[]]; cbn; intros; lra. Qed.

Lemma located_shr_1 X mrs e : located X mrs e -> located X (shr_1 mrs) (e + 1).
Proof.
  intros [Hm H]. pose proof (pow2_succ e) as P.
  assert (forall p, toQ (Zpos (xI p)) == 2 * toQ (Zpos p) + 1) as HI
    by (intros p; rewrite Pos2Z.inj_xI, toQ_add, toQ_mul; done).
  assert (forall p, toQ (Zpos (xO p)) == 2 * toQ (Zpos p)) as HO
    by (intros p; rewrite Pos2Z.inj_xO, toQ_mul; done).
  pose proof (pow2_pos e).
  destruct mrs as [[|[p|p|]|p] r s]; cbn [shr_m] in *; [| | | |lia].
  all: unfold shr_1; destruct r, s; cbn [orb shr_m loc_of_shr_record locates] in *; (split; cbn [shr_m]; [lia|]).
  all: cbn [locates loc_of_shr_record]; rewrite ?HI, ?HO, ?P in *; q_const; lra.
Qed.

Lemma located_iter X (p : positive) mrs e : located X mrs e -> located X (SpecFloat.iter_pos shr_1 p mrs) (e + Zpos p).
Proof.
  revert mrs e. induction p as [p IH|p IH|]; intros mrs e H; cbn [SpecFloat.iter_pos].
  - replace (e + Zpos (xI p))%Z with (e + 1 + Zpos p + Zpos p)%Z by lia. apply IH, IH. by apply located_shr_1.
  - replace (e + Zpos (xO p))%Z with (e + Zpos p + Zpos p)%Z by lia. by apply IH, IH.
  - by apply located_shr_1.
Qed.

Lemma located_shr X mrs e n :
  located X mrs e ->
  located X (fst (shr mrs e n)) (snd (shr mrs e n)) /\ snd (shr mrs e n) = Z.max e (e + n).
Proof.
  intros H. destruct n as [|p|p]; cbn [shr fst snd].
  - split; [done|lia].
  - split; [by apply located_iter|lia].
  - split; [done|lia].
Qed.

Lemma located_shr_fexp X m e l :
  (0 <= m)%Z -> locates X m e l ->
  let (mrs, e') := shr_fexp 53 1024 m e l in
  located X mrs e' /\ e' = Z.max e (fexp64 (Zdigits2 m + e)).
Proof.
  intros Hm H. unfold shr_fexp.
  assert (located X (shr_record_of_loc m l) e) as Hl.
  { destruct l as [|[]]; cbn; by split. }
  destruct (located_shr _ _ _ (fexp64 (Zdigits2 m + e) - e) Hl) as [H1 H2].
  destruct (shr _ _ _) as [mrs e'] eqn:E. cbn [fst snd] in *. split; [done|]. rewrite H2. f_equal. lia.
Qed.

(** The nearest integer to a number that is not half way between two. *)
Lemma round_nearest_unique X m e l f :
  locates X m e l -> (toQ f - (1#2)) * pow2 e < X -> X < (toQ f + (1#2)) * pow2 e -> round_nearest_even m l = f.
Proof.
  intros H Hlo Hhi. pose proof (pow2_pos e) as P.
  assert (forall a b, a * pow2 e < b * pow2 e -> a < b) as Hc by (intros a b; by apply mul_lt_r_inv).
  destruct l as [|[]]; cbn [locates round_nearest_even] in *.
  - rewrite H in *. apply Hc in Hlo, Hhi.
    assert (toQ f < toQ (m + 1) /\ toQ m < toQ (f + 1)) as [?%toQ_lt_inv ?%toQ_lt_inv]; [|lia].
    rewrite !toQ_add. q_const. lra.
  - rewrite H in *. apply Hc in Hlo, Hhi. exfalso.
    assert (toQ f < toQ (m + 1) /\ toQ m < toQ f) as [?%toQ_lt_inv ?%toQ_lt_inv]; [|lia].
    rewrite !toQ_add. q_const. lra.
  - destruct H as [H1 H2].
    assert (toQ f - (1#2) < toQ m + (1#2)) by (apply Hc; lra).
    assert (toQ m < toQ f + (1#2)) by (apply Hc; lra).
    assert (toQ f < toQ (m + 1) /\ toQ m < toQ (f + 1)) as [?%toQ_lt_inv ?%toQ_lt_inv]; [|lia].
    rewrite !toQ_add. q_const. lra.
  - destruct H as [H1 H2].
    assert (toQ f - (1#2) < toQ m + 1) by (apply Hc; lra).
    assert (toQ m + (1#2) < toQ f + (1#2)) by (apply Hc; lra).
    assert (toQ f < toQ (m + 2) /\ toQ m < toQ f) as [?%toQ_lt_inv ?%toQ_lt_inv]; [|lia].
    rewrite !toQ_add. q_const. lra.
Qed.

(** ** Rounding to a given number *)

Lemma Zdigits2_bounds m : (0 < m)%Z -> (2 ^ (Zdigits2 m - 1) <= m < 2 ^ Zdigits2 m)%Z.
Proof.
  destruct m as [|p|]; [lia| |lia]. intros _. cbn [Zdigits2].
  induction p as [p IH|p IH|]; cbn [digits2_pos]; [| |done].
  all: rewrite Pos2Z.inj_succ, <- Z.add_1_r, Z.pow_add_r by lia.
  all: replace (Zpos (digits2_pos p) + 1 - 1)%Z with (Zpos (digits2_pos p) - 1 + 1)%Z by lia.
  all: rewrite (Z.pow_add_r 2 (Zpos (digits2_pos p) - 1)) by lia; lia.
Qed.

Lemma pow2_digits_lower m : (0 < m)%Z -> pow2 (Zdigits2 m - 1) <= toQ m.
Proof.
  intros Hm. pose proof (Zdigits2_bounds m Hm) as [H _].
  rewrite pow2_Z by (destruct m; cbn; lia). by apply toQ_le.
Qed.

Lemma pow2_digits_upper m : (0 <= m)%Z -> toQ m + 1 <= pow2 (Zdigits2 m).
Proof.
  intros Hm. rewrite pow2_Z by (destruct m; cbn; lia).
  change 1 with (toQ 1). rewrite <- toQ_add. apply toQ_le.
  destruct (decide (m = 0)%Z) as [->|]; [done|]. pose proof (Zdigits2_bounds m ltac:(lia)). lia.
Qed.

(** The distance from [f * 2^ev] to the midpoint below it, in units of [2^ev]:
    the number below a power of two is closer. *)
Definition lower_gap (f : positive) (ev : Z) : Q :=
  if ((Zpos f =? 2 ^ 52) && (-1074 <? ev))%Z then 1#4 else 1#2.

(** [X] lies strictly between the midpoints to the neighbours of [f * 2^ev]. *)
Definition interior (f : positive) (ev : Z) (X : Q) : Prop :=
  (toQ (Zpos f) - lower_gap f ev) * pow2 ev < X /\ X < (toQ (Zpos f) + (1#2)) * pow2 ev.

Lemma bounded_spec f ev :
  bounded 53 1024 f ev = true ->
  (Zpos f < 2 ^ 53 /\ -1074 <= ev <= 971 /\ (2 ^ 52 <= Zpos f \/ ev = -1074))%Z.
Proof.
  unfold bounded, canonical_mantissa, fexp, emin. rewrite andb_true_iff, Z.eqb_eq, Z.leb_le. intros [H1 H2].
  pose proof (Zdigits2_bounds (Zpos f) ltac:(lia)) as [H3 H4]. cbn [Zdigits2] in *.
  set (d := Zpos (digits2_pos f)) in *.
  assert (2 ^ d <= 2 ^ 53)%Z by (apply Z.pow_le_mono_r; lia).
  split; [lia|]. split; [lia|].
  destruct (decide (ev = -1074)%Z) as [|Hne]; [by right|left].
  assert (2 ^ 52 <= 2 ^ (d - 1))%Z by (apply Z.pow_le_mono_r; lia). lia.
Qed.

#[export] Instance interior_proper : Proper (eq ==> eq ==> Qeq ==> iff) interior.
Proof. intros f ? <- ev ? <- X Y H. unfold interior. by rewrite H. Qed.

(** The exponent that a number in the interior of [f * 2^ev] is rounded at. *)
Lemma interior_exponent f ev X m e l :
  bounded 53 1024 f ev = true -> interior f ev X -> (0 < m \/ m = 0 /\ e = -1074)%Z -> locates X m e l ->
  (fexp64 (Zdigits2 m + e) = ev \/
   fexp64 (Zdigits2 m + e) = ev - 1 /\ Zpos f = 2 ^ 52 /\ -1074 < ev /\ Zdigits2 m + e <= 53 + (ev - 1))%Z.
Proof.
  intros Hf [Hlo Hhi] Hm Hl. destruct (bounded_spec f ev Hf) as (F1 & F2 & F3).
  destruct (locates_bounds _ _ _ _ Hl) as [L1 L2]. pose proof (pow2_digits_upper m ltac:(lia)) as D2.
  pose proof (pow2_pos e) as Pe. pose proof (pow2_pos ev) as Pv.
  pose proof (pow2_digits_lower m) as D1. remember (Zdigits2 m) as d eqn:Ed.
  assert (X < pow2 (d + e)) as X2.
  { rewrite pow2_add. pose proof (mul_le_r _ _ _ Pe D2). lra. }
  assert (forall k : Z, (0 <= k)%Z -> pow2 (k + ev) == toQ (2 ^ k) * pow2 ev) as Pk.
  { intros k Hk. by rewrite pow2_add, pow2_Z. }
  assert (d - 1 + e < 53 + ev)%Z as U.
  { destruct Hm as [Hm|[-> ->]]; [|cbn in Ed; lia].
    pose proof (mul_le_r _ _ _ Pe (D1 Hm)) as X1. rewrite <- pow2_add in X1.
    apply pow2_lt_inv. rewrite Pk by done.
    assert (toQ (Zpos f) + 1 <= toQ (2 ^ 53)) as Hq.
    { change 1 with (toQ 1). rewrite <- toQ_add. apply toQ_le. lia. }
    pose proof (mul_le_r _ _ _ Pv Hq). lra. }
  assert (forall k : Z, (0 <= k)%Z -> toQ (2 ^ k) <= toQ (Zpos f) - lower_gap f ev -> (k + ev < d + e)%Z) as L.
  { intros k Hk Hq. apply pow2_lt_inv. rewrite Pk by done. pose proof (mul_le_r _ _ _ Pv Hq). lra. }
  unfold fexp, emin in *. unfold lower_gap in L. destruct (Z.eqb_spec (Zpos f) (2 ^ 52)) as [E|Hne].
  - destruct (Z.ltb_spec (-1074) ev) as [Hev|Hev]; cbn [andb] in L.
    + specialize (L 51%Z ltac:(done)). rewrite E in L.
      assert (51 + ev < d + e)%Z by (apply L; by vm_compute). lia.
    + lia.
  - cbn [andb] in L. destruct F3 as [F3|F3]; [|lia]. left.
    specialize (L 52%Z ltac:(done)).
    assert (52 + ev < d + e)%Z; [|lia]. apply L.
    assert (toQ (2 ^ 52) + 1 <= toQ (Zpos f)); [|lra].
    change 1 with (toQ 1). rewrite <- toQ_add. apply toQ_le. lia.
Qed.

(** Rounding gives [f * 2^ev] back from every number in its interior. *)
Lemma round_interior s f ev X m e l :
  bounded 53 1024 f ev = true -> interior f ev X -> (0 < m \/ m = 0 /\ e = -1074)%Z -> locates X m e l ->
  (e <= fexp64 (Zdigits2 m + e))%Z -> binary_round_aux 53 1024 s m e l = S754_finite s f ev.
Proof.
  intros Hf HX Hm Hl He. pose proof (interior_exponent _ _ _ _ _ _ Hf HX Hm Hl) as Hexp.
  destruct (bounded_spec f ev Hf) as (F1 & F2 & F3). destruct HX as [Hlo Hhi].
  unfold binary_round_aux. pose proof (located_shr_fexp X m e l ltac:(lia) Hl) as Hs.
  destruct (shr_fexp 53 1024 m e l) as [mrs e'] eqn:E. destruct Hs as [[Hm' Hl'] He'].
  rewrite Z.max_r in He' by done. pose proof (pow2_pos ev) as Pv.
  assert (lower_gap f ev <= 1#2) as Hgap by (unfold lower_gap; by destruct (_ && _)).
  destruct Hexp as [Hev|(Hev & Ef & Hmin & Hd)].
  - rewrite (round_nearest_unique X _ e' _ (Zpos f) Hl'); rewrite He', Hev.
    + unfold shr_fexp. apply andb_true_iff in Hf as [Hc Hb]. unfold canonical_mantissa in Hc.
      apply Z.eqb_eq in Hc. cbn [Zdigits2]. rewrite Hc, Z.sub_diag. cbn. by rewrite Hb.
    + pose proof (mul_le_r _ _ _ Pv Hgap). lra.
    + done.
  - rewrite (round_nearest_unique X _ e' _ (2 ^ 53) Hl'); rewrite He', Hev.
    + unfold shr_fexp. change (Zdigits2 (2 ^ 53)) with 54%Z.
      replace (fexp64 (54 + (ev - 1)) - (ev - 1))%Z with 1%Z by (unfold fexp, emin; lia).
      change (2 ^ 53)%Z with 9007199254740992%Z. change (2 ^ 52)%Z with 4503599627370496%Z in Ef.
      change (1024 - 53)%Z with 971%Z. injection Ef as ->. cbn.
      replace (ev - 1 + 1)%Z with ev by lia. by replace (ev <=? 971)%Z with true by lia.
    + unfold lower_gap in Hlo. rewrite Ef in Hlo. replace (-1074 <? ev)%Z with true in Hlo by lia.
      cbn [Z.eqb Pos.eqb andb] in Hlo. replace ev with (ev - 1 + 1)%Z in Hlo by lia. rewrite pow2_succ in Hlo.
      change (toQ (2 ^ 53)) with (2 * toQ (2 ^ 52)). simpl (_ && _) in Hlo. cbn iota in Hlo. lra.
    + destruct (locates_bounds _ _ _ _ Hl) as [L1 L2]. pose proof (pow2_digits_upper m ltac:(lia)) as D2.
      pose proof (mul_le_r _ _ _ (pow2_pos e) D2) as Hp. rewrite <- pow2_add in Hp.
      pose proof (pow2_le _ _ Hd) as Hq. rewrite (pow2_add 53), (pow2_Z 53) in Hq by done.
      pose proof (pow2_pos (ev - 1)). lra.
Qed.

(** ** Rounding integers and quotients *)

Lemma iter_xO p d :
  Zpos (Pos.iter xO p d) = (Zpos p * 2 ^ Zpos d)%Z /\ Zdigits2 (Zpos (Pos.iter xO p d)) = (Zdigits2 (Zpos p) + Zpos d)%Z.
Proof.
  induction d as [|d [IH1 IH2]] using Pos.peano_ind; [cbn [Pos.iter]; split; cbn; lia|].
  rewrite Pos.iter_succ, Pos2Z.inj_succ, Z.pow_succ_r by lia. cbn [Zdigits2 digits2_pos] in *. lia.
Qed.

(** [binary_round] shifts the significand to where it is rounded. *)
Lemma binary_round_aligned s p e :
  exists m e', binary_round 53 1024 s p e = binary_round_aux 53 1024 s m e' loc_Exact /\
    (0 < m)%Z /\ (e' <= fexp64 (Zdigits2 m + e'))%Z /\ toQ m * pow2 e' == toQ (Zpos p) * pow2 e.
Proof.
  unfold binary_round, shl_align. destruct (fexp64 (Zpos (digits2_pos p) + e) - e)%Z as [|d|d] eqn:E.
  1, 2: exists (Zpos p), e; split; [done|]; split; [done|]; split; [cbn [Zdigits2]; lia|done].
  destruct (iter_xO p d) as [H1 H2]. cbn [Zdigits2] in H2. eexists _, _. split; [done|]. split; [done|]. split.
  - cbn [Zdigits2]. rewrite H2. apply Z.eq_le_incl. f_equal. lia.
  - rewrite H1, toQ_mul. rewrite <- (pow2_Z (Zpos d)) by done. rewrite <- Qmult_assoc, <- pow2_add.
    by replace (Zpos d + fexp64 (Zpos (digits2_pos p) + e))%Z with e by lia.
Qed.

Lemma binary_round_interior s f ev p e :
  bounded 53 1024 f ev = true -> interior f ev (toQ (Zpos p) * pow2 e) -> binary_round 53 1024 s p e = S754_finite s f ev.
Proof.
  intros Hf HX. destruct (binary_round_aligned s p e) as (m & e' & -> & Hm & He & Hv). rewrite <- Hv in HX.
  eapply round_interior; [done|exact HX|lia|done|done].
Qed.

Lemma new_location_spec D r :
  (0 < D)%Z -> new_location D r = if (r =? 0)%Z then loc_Exact else loc_Inexact (2 * r ?= D)%Z.
Proof.
  intros HD. unfold new_location, new_location_even, new_location_odd.
  destruct (Z.even D) eqn:Ev; [done|]. destruct (r =? 0)%Z; [done|]. f_equal.
  rewrite <- Z.negb_odd in Ev. apply negb_false_iff, Z.odd_spec in Ev as [k ->].
  destruct (Z.compare_spec (2 * r) (2 * k + 1)), (Z.compare_spec (2 * r + 1) (2 * k + 1)); done || lia.
Qed.

(** The location of a quotient. *)
Lemma locates_division N D e :
  (0 < D)%Z -> locates (toQ N / toQ D * pow2 e) (N / D) e (new_location D (N mod D)).
Proof.
  intros HD. pose proof (Z.mod_pos_bound N D HD) as Hr. pose proof (Z.div_mod N D ltac:(lia)) as Hdm.
  rewrite new_location_spec by done.
  set (q := (N / D)%Z) in *. set (r := (N mod D)%Z) in *. pose proof (pow2_pos e) as P.
  pose proof (toQ_lt 0 D HD) as HDQ. change (toQ 0) with 0 in HDQ.
  set (x := toQ r / toQ D). assert (x * toQ D == toQ r) as Hx by (unfold x; field; lra).
  assert (toQ N / toQ D == toQ q + x) as HN by (unfold x; rewrite Hdm, toQ_add, toQ_mul; field; lra).
  rewrite HN.
  assert (x < 1) as H1.
  { apply (mul_lt_r_inv _ _ _ HDQ). rewrite Hx. pose proof (toQ_lt r D ltac:(lia)). lra. }
  pose proof (mul_lt_r _ _ _ P H1).
  destruct (Z.eqb_spec r 0) as [E|E].
  - assert (x == 0) as H0 by (unfold x; rewrite E; reflexivity). cbn. rewrite H0. lra.
  - assert (0 < x) as H0.
    { apply (mul_lt_r_inv _ _ _ HDQ). rewrite Hx. pose proof (toQ_lt 0 r ltac:(lia)). q_const. lra. }
    pose proof (mul_lt_r _ _ _ P H0).
    destruct (Z.compare_spec (2 * r) D) as [C|C|C]; cbn [locates].
    + assert (x == 1#2) as Hh; [|rewrite Hh; lra]. apply (Qmult_inj_r _ _ (toQ D)); [lra|]. rewrite Hx, <- C, toQ_mul. q_const. lra.
    + assert (x < 1#2) as Hh; [|pose proof (mul_lt_r _ _ _ P Hh); lra].
      apply (mul_lt_r_inv _ _ _ HDQ). rewrite Hx. apply toQ_lt in C. rewrite toQ_mul in C. q_const. lra.
    + assert ((1#2) < x) as Hh; [|pose proof (mul_lt_r _ _ _ P Hh); lra].
      apply (mul_lt_r_inv _ _ _ HDQ). rewrite Hx. apply toQ_lt in C. rewrite toQ_mul in C. q_const. lra.
Qed.

(** The quotient is located with enough digits to be rounded. *)
Lemma SFdiv_core_located m D :
  exists q e' loc, SFdiv_core_binary 53 1024 (Zpos m) 0 (Zpos D) 0 = (q, e', loc) /\
    (0 < q \/ q = 0 /\ e' = -1074)%Z /\ (e' <= fexp64 (Zdigits2 q + e'))%Z /\
    locates (toQ (Zpos m) / toQ (Zpos D)) q e' loc.
Proof.
  unfold SFdiv_core_binary.
  set (d1 := Zdigits2 (Zpos m)). set (d2 := Zdigits2 (Zpos D)).
  replace (0 - 0)%Z with 0%Z by done. set (e' := Z.min (fexp64 (d1 + 0 - (d2 + 0))) 0).
  set (m' := match (0 - e')%Z with Z0 => Zpos m | Zpos _ => Z.shiftl (Zpos m) (0 - e') | Zneg _ => 0%Z end).
  assert (m' = Zpos m * 2 ^ (- e'))%Z as Hm'.
  { unfold m'. destruct (0 - e')%Z as [|p|p] eqn:E; [replace e' with 0%Z by lia; lia| |lia].
    rewrite <- E, Z.shiftl_mul_pow2 by lia. f_equal. }
  pose proof (Z.div_mod m' (Zpos D) ltac:(done)) as Hdm. pose proof (Z.mod_pos_bound m' (Zpos D) ltac:(done)) as Hmod.
  pose proof (locates_division m' (Zpos D) e' ltac:(done)) as Hloc.
  unfold Z.div, Z.modulo in Hloc, Hdm, Hmod. destruct (Z.div_eucl m' (Zpos D)) as [q r].
  assert (toQ m' / toQ (Zpos D) * pow2 e' == toQ (Zpos m) / toQ (Zpos D)) as HXe.
  { rewrite Hm', toQ_mul, <- (pow2_Z (- e')) by lia. pose proof (pow2_add (- e') e') as Hp.
    replace (- e' + e')%Z with 0%Z in Hp by lia. rewrite pow2_0 in Hp.
    transitivity (toQ (Zpos m) / toQ (Zpos D) * (pow2 (- e') * pow2 e')); [unfold Qdiv; ring|].
    rewrite <- Hp. ring. }
  assert (0 <= q)%Z as Hq by (assert (0 <= m')%Z by (rewrite Hm'; nia); nia).
  assert (2 ^ 52 <= q \/ e' = -1074)%Z as Hbig.
  { destruct (decide (e' = -1074)%Z) as [|He]; [by right|left].
    pose proof (Zdigits2_bounds (Zpos m) ltac:(done)) as [B1 _]. fold d1 in B1.
    pose proof (Zdigits2_bounds (Zpos D) ltac:(done)) as [_ B2]. fold d2 in B2.
    assert (0 < d1 /\ 0 < d2)%Z as [P1 P2] by done.
    assert (e' <= d1 - d2 - 53)%Z by (unfold e', fexp, emin in *; lia).
    assert (2 ^ (d2 + 52) <= m')%Z as Hbig.
    { rewrite Hm'. trans (2 ^ (d1 - 1) * 2 ^ (- e'))%Z; [|nia].
      rewrite <- Z.pow_add_r by (unfold e'; lia). apply Z.pow_le_mono_r; lia. }
    rewrite Z.pow_add_r in Hbig by lia. nia. }
  eexists q, e', _. split; [done|]. split; [lia|]. split; [|by rewrite <- HXe].
  destruct Hbig as [Hbig|Hbig]; [|unfold fexp, emin; lia].
  pose proof (Zdigits2_bounds q ltac:(lia)) as [_ B].
  assert (52 < Zdigits2 q)%Z; [|unfold fexp, emin; lia].
  apply (Z.pow_lt_mono_r_iff 2); [lia|destruct q; cbn; lia|lia].
Qed.

Lemma SFdiv_core_interior s f ev m D :
  bounded 53 1024 f ev = true -> interior f ev (toQ (Zpos m) / toQ (Zpos D)) ->
  (let '(q, e', loc) := SFdiv_core_binary 53 1024 (Zpos m) 0 (Zpos D) 0 in binary_round_aux 53 1024 s q e' loc)
    = S754_finite s f ev.
Proof.
  intros Hf HX. destruct (SFdiv_core_located m D) as (q & e' & loc & -> & Hq & He & Hl).
  eapply round_interior; [done|exact HX|done|done|done].
Qed.

(** ** Rounding gives a double *)

Lemma canonical_intro f ev :
  (Zpos f < 2 ^ 53 -> -1074 <= ev -> 2 ^ 52 <= Zpos f \/ ev = -1074 -> canonical_mantissa 53 1024 f ev = true)%Z.
Proof.
  intros Hf He H. unfold canonical_mantissa, fexp, emin. apply Z.eqb_eq.
  pose proof (Zdigits2_bounds (Zpos f) ltac:(done)) as [D1 D2]. cbn [Zdigits2] in *.
  set (d := Zpos (digits2_pos f)) in *.
  assert (d - 1 < 53)%Z by (apply (Z.pow_lt_mono_r_iff 2); lia).
  destruct H as [H|H]; [|lia]. assert (52 < d)%Z by (apply (Z.pow_lt_mono_r_iff 2); lia). lia.
Qed.

Lemma locates_some m e l : exists X, locates X m e l.
Proof.
  pose proof (pow2_pos e). destruct l as [|[]]; cbn.
  - by exists (toQ m * pow2 e).
  - by exists ((toQ m + (1#2)) * pow2 e).
  - exists ((toQ m + (1#4)) * pow2 e). lra.
  - exists ((toQ m + (3#4)) * pow2 e). lra.
Qed.

(** The significand after the first shift. *)
Lemma shr_fexp_range m e l mrs e' :
  (0 <= m)%Z -> (e <= fexp64 (Zdigits2 m + e))%Z -> shr_fexp 53 1024 m e l = (mrs, e') ->
  (0 <= shr_m mrs < 2 ^ 53 /\ -1074 <= e' /\ (2 ^ 52 <= shr_m mrs \/ e' = -1074))%Z.
Proof.
  intros Hm He E. destruct (locates_some m e l) as [X HX].
  pose proof (located_shr_fexp X m e l Hm HX) as Hs. rewrite E in Hs. destruct Hs as [[Hm' Hl] He'].
  rewrite Z.max_r in He' by done. destruct (locates_bounds _ _ _ _ HX) as [X1 X2].
  destruct (locates_bounds _ _ _ _ Hl) as [Y1 Y2]. set (m' := shr_m mrs) in *. set (d := Zdigits2 m) in *.
  assert (e' = Z.max (d + e - 53) (-1074)) as He2 by (rewrite He'; done).
  pose proof (pow2_pos e) as Pe. pose proof (pow2_pos e') as Pe'.
  assert (toQ m' * pow2 e' < pow2 53 * pow2 e') as U.
  { rewrite <- pow2_add. pose proof (mul_le_r _ _ _ Pe (pow2_digits_upper m Hm)) as D. rewrite <- pow2_add in D.
    pose proof (pow2_le (Zdigits2 m + e) (53 + e') ltac:(lia)). lra. }
  apply (mul_lt_r_inv _ _ _ Pe') in U. rewrite pow2_Z in U by done. apply toQ_lt_inv in U.
  split; [done|]. split; [lia|]. destruct (decide (e' = -1074)%Z) as [|Hne]; [by right|left].
  assert (0 < m)%Z as Hpos by (destruct (decide (m = 0)%Z) as [H0|]; [|lia]; subst m; cbn in d; lia).
  assert (pow2 52 * pow2 e' < (toQ m' + 1) * pow2 e') as L.
  { rewrite <- pow2_add. pose proof (mul_le_r _ _ _ Pe (pow2_digits_lower m Hpos)) as D. rewrite <- pow2_add in D.
    pose proof (pow2_le (52 + e') (Zdigits2 m - 1 + e) ltac:(lia)). lra. }
  apply (mul_lt_r_inv _ _ _ Pe') in L. rewrite pow2_Z in L by done. change 1 with (toQ 1) in L. rewrite <- toQ_add in L.
  apply toQ_lt_inv in L. lia.
Qed.

Lemma binary_round_aux_valid s m e l :
  (0 <= m)%Z -> (e <= fexp64 (Zdigits2 m + e))%Z -> valid_binary 53 1024 (binary_round_aux 53 1024 s m e l) = true.
Proof.
  intros Hm He. unfold binary_round_aux. destruct (shr_fexp 53 1024 m e l) as [mrs e'] eqn:E.
  destruct (shr_fexp_range _ _ _ _ _ Hm He E) as (H1 & H2 & H3).
  set (r := round_nearest_even (shr_m mrs) (loc_of_shr_record mrs)).
  assert (shr_m mrs <= r <= shr_m mrs + 1)%Z as Hr.
  { unfold r, round_nearest_even. destruct (loc_of_shr_record mrs) as [|[]]; try case_match; lia. }
  unfold shr_fexp. destruct (decide (r = 2 ^ 53)%Z) as [->|Hne].
  - change (Zdigits2 (2 ^ 53)) with 54%Z.
    replace (fexp64 (54 + e') - e')%Z with 1%Z by (unfold fexp, emin; lia).
    change (2 ^ 53)%Z with 9007199254740992%Z. cbn [shr fst snd shr_record_of_loc SpecFloat.iter_pos shr_1 orb shr_m].
    destruct (e' + 1 <=? 1024 - 53)%Z eqn:Eb; [|done]. cbn [valid_binary]. unfold bounded. rewrite Eb, andb_true_r.
    apply canonical_intro; lia.
  - assert (fexp64 (Zdigits2 r + e') - e' <= 0)%Z as Hn.
    { assert (Zdigits2 r <= 53)%Z; [|unfold fexp, emin; lia].
      destruct (decide (r = 0)%Z) as [->|]; [done|].
      destruct (Zdigits2_bounds r ltac:(lia)) as [D _]. assert (Zdigits2 r - 1 < 53)%Z; [|lia].
      apply (Z.pow_lt_mono_r_iff 2); lia. }
    assert (shr (shr_record_of_loc r loc_Exact) e' (fexp64 (Zdigits2 r + e') - e') = (Build_shr_record r false false, e')) as ->.
    { by destruct (fexp64 (Zdigits2 r + e') - e')%Z. }
    cbn [shr_m]. destruct r as [|p|p] eqn:Er; [done| |lia].
    destruct (e' <=? 1024 - 53)%Z eqn:Eb; [|done]. cbn [valid_binary]. unfold bounded. rewrite Eb, andb_true_r.
    apply canonical_intro; lia.
Qed.
End Rounding.
