(* ===== verification/Strtod.v ===== *)
(** * Decimal texts as doubles

    What [strtod] reads in the parts of a number's text, and that it reads every
    text whose value lies between the midpoints to the neighbours of a [double] as
    that [double]. *)

From Stdlib Require Import ZArith Lia QArith Qpower Lqa SpecFloat.
From stdpp Require Import base list.
From S2P Require Import Prelude Utf8 Exceptions JsonValue JsonLexer JsonNumbers JsonDigits Powers Binary64.

(** ** Decimal digits *)

(** A text of digits that does not start with a zero. *)
Definition leading (ds : bytes) : Prop := match ds with c :: _ => is_digit19 c = true | [] => False end.

Lemma leading_app ds ds' : leading ds -> leading (ds ++ ds').
Proof. by destruct ds. Qed.

Lemma decimal_bound ds : digits ds -> 0 <= decimal ds < 10 ^ Z.of_nat (length ds).
Proof.
  intros H. induction ds as [|c ds IH] using rev_ind; [done|]. apply Forall_app in H as [H Hc].
  specialize (IH H). apply Forall_inv, in_range_spec in Hc. rewrite decimal_snoc, length_app, Nat2Z.inj_add.
  cbn [length]. rewrite Z.pow_add_r by lia. lia.
Qed.

Lemma decimal_leading ds : digits ds -> leading ds -> 10 ^ (Z.of_nat (length ds) - 1) <= decimal ds.
Proof.
  intros H Hl. induction ds as [|c ds IH] using rev_ind; [done|]. apply Forall_app in H as [H Hc].
  apply Forall_inv, in_range_spec in Hc. rewrite decimal_snoc, length_app, Nat2Z.inj_add. cbn [length].
  destruct ds as [|c' ds].
  - cbn in Hl |- *. apply in_range_spec in Hl. lia.
  - specialize (IH H Hl). replace (Z.of_nat (length (c' :: ds)) + Z.of_nat 1 - 1)
      with (Z.of_nat (length (c' :: ds)) - 1 + 1) by lia.
    rewrite Z.pow_add_r by (cbn [length]; lia). lia.
Qed.

Lemma decimal_app a b : decimal (a ++ b) = decimal a * 10 ^ Z.of_nat (length b) + decimal b.
Proof.
  induction b as [|c b IH] using rev_ind; [rewrite app_nil_r; cbn; lia|].
  rewrite app_assoc, !decimal_snoc, IH, length_app, Nat2Z.inj_add. cbn [length].
  rewrite Z.pow_add_r by lia. lia.
Qed.

Lemma decimal_cons c b : decimal (c :: b) = (c - 48) * 10 ^ Z.of_nat (length b) + decimal b.
Proof. exact (decimal_app [c] b). Qed.

Lemma decimal_zeros n : decimal (replicate n 48) = 0.
Proof. induction n as [|n IH]; [done|]. cbn [replicate]. rewrite decimal_cons, IH. lia. Qed.

Lemma digits_zeros n : digits (replicate n 48).
Proof. by apply Forall_replicate. Qed.

Lemma strip_zeros_spec s :
  digits s -> decimal (strip_zeros s) = decimal s /\ digits (strip_zeros s) /\ (0 < decimal s -> leading (strip_zeros s)).
Proof.
  induction 1 as [|c s Hc Hs IH]; [split; [done|split; [constructor|cbn; lia]]|]. destruct (decide (c = 48)) as [->|Hne].
  - cbn [strip_zeros]. destruct IH as (H1 & H2 & H3). rewrite decimal_cons, Z.sub_diag, Z.mul_0_l, Z.add_0_l. done.
  - assert (strip_zeros (c :: s) = c :: s) as ->.
    { unfold strip_zeros. repeat (case_match; try done); lia. }
    split; [done|]. split; [by constructor|]. intros _. cbn. apply in_range_spec in Hc. apply in_range_spec. lia.
Qed.

(** ** round_decimal *)

Section Interior.
Open Scope Q_scope.

(** A number in the interior of a [double] is in the range that [round_decimal]
    does not cut off. *)
Lemma interior_range f ev X : bounded 53 1024 f ev = true -> interior f ev X -> pow10 (-324) < X /\ X < pow10 309.
Proof.
  intros Hb [Hlo Hhi]. destruct (bounded_spec f ev Hb) as (F1 & F2 & _).
  assert (lower_gap f ev <= 1#2) as Hgap by (unfold lower_gap; by destruct (_ && _)).
  assert (1 <= toQ (Zpos f) /\ toQ (Zpos f) + 1 <= toQ (2 ^ 53)) as [G1 G2].
  { change 1 with (toQ 1). rewrite <- toQ_add. split; apply toQ_le; lia. }
  pose proof (pow2_pos ev) as P. split.
  - eapply Qle_lt_trans; [|exact Hlo]. apply (Qle_trans _ ((1#2) * pow2 (-1074))); [by vm_compute|].
    pose proof (pow2_le (-1074) ev ltac:(lia)) as Hp.
    assert ((1#2) * pow2 ev <= (toQ (Zpos f) - lower_gap f ev) * pow2 ev) by (apply mul_le_r; lra). lra.
  - eapply Qlt_le_trans; [exact Hhi|]. apply (Qle_trans _ (toQ (2 ^ 53) * pow2 971)); [|by vm_compute].
    pose proof (pow2_le ev 971 ltac:(lia)) as Hp.
    assert ((toQ (Zpos f) + (1#2)) * pow2 ev <= toQ (2 ^ 53) * pow2 ev) by (apply mul_le_r; lra).
    assert (toQ (2 ^ 53) * pow2 ev <= toQ (2 ^ 53) * pow2 971); [|lra].
    rewrite !(Qmult_comm (toQ (2 ^ 53))). by apply mul_le_r.
Qed.

Lemma round_decimal_interior s m n e f ev :
  bounded 53 1024 f ev = true -> interior f ev (toQ m * pow10 e) ->
  (10 ^ (n - 1) <= m < 10 ^ n)%Z -> (0 < n)%Z -> round_decimal s m n e = S754_finite s f ev.
Proof.
  intros Hb HX Hm Hn. destruct (interior_range f ev _ Hb HX) as [R1 R2].
  assert (0 < 10 ^ (n - 1))%Z by (apply Z.pow_pos_nonneg; lia).
  assert (n - 1 + e < 309)%Z as U.
  { apply pow10_lt_inv. rewrite pow10_add, (pow10_Z (n - 1)) by lia.
    pose proof (mul_le_r _ _ _ (pow10_pos e) (toQ_le _ _ (proj1 Hm))). lra. }
  assert (-324 < n + e)%Z as L.
  { apply pow10_lt_inv. rewrite pow10_add, (pow10_Z n) by lia.
    pose proof (mul_lt_r _ _ _ (pow10_pos e) (toQ_lt _ _ (proj2 Hm))). lra. }
  destruct m as [|m|m]; [lia| |lia]. unfold round_decimal.
  replace (310 <? n + e)%Z with false by lia. replace (n + e <? -330)%Z with false by lia.
  destruct (Z.leb_spec 0 e) as [He|He].
  - assert (exists p, Zpos m * 10 ^ e = Zpos p)%Z as [p Ep].
    { assert (0 < Zpos m * 10 ^ e)%Z as Hp by (apply Z.mul_pos_pos; [done|]; apply Z.pow_pos_nonneg; lia).
      destruct (Zpos m * 10 ^ e)%Z as [|p|]; [done|by exists p|done]. }
    rewrite Ep. assert (interior f ev (toQ (Zpos p) * pow2 0)) as Hp.
    { rewrite pow2_0, Qmult_1_r, <- Ep, toQ_mul, <- pow10_Z by done. done. }
    destruct s; cbn [Z.opp binary_normalize]; by apply binary_round_interior.
  - assert (exists p, 10 ^ (- e) = Zpos p)%Z as [p Ep].
    { assert (0 < 10 ^ (- e))%Z by (apply Z.pow_pos_nonneg; lia). destruct (10 ^ (- e))%Z as [|p|]; [done|by exists p|done]. }
    rewrite Ep. apply SFdiv_core_interior; [done|].
    assert (toQ (Zpos m) / toQ (Zpos p) == toQ (Zpos m) * pow10 e) as Hd; [|by rewrite Hd].
    rewrite <- Ep, <- (pow10_Z (- e)) by lia. pose proof (pow10_pos e) as PP. pose proof (pow10_pos (- e)) as PP'.
    pose proof (pow10_add (- e) e) as Hone. replace (- e + e)%Z with 0%Z in Hone by lia. change (pow10 0) with 1 in Hone.
    apply (Qmult_inj_r _ _ (pow10 (- e))); [lra|]. unfold Qdiv.
    transitivity (toQ (Zpos m)); [field; lra|].
    transitivity (toQ (Zpos m) * (pow10 (- e) * pow10 e)); [rewrite <- Hone; ring|ring].
Qed.

Lemma round_decimal_valid s m n e : valid_binary 53 1024 (round_decimal s m n e) = true.
Proof.
  destruct m as [|m|m]; [done| |done]. unfold round_decimal.
  destruct (310 <? n + e)%Z; [done|]. destruct (n + e <? -330)%Z; [done|].
  assert (forall b z, valid_binary 53 1024 (binary_normalize 53 1024 z 0 b) = true) as Hnorm.
  { intros b [|p|p]; [done|..]; cbn [binary_normalize];
      [destruct (binary_round_aligned false p 0) as (m' & e' & -> & Hm & He & _)
      |destruct (binary_round_aligned true p 0) as (m' & e' & -> & Hm & He & _)];
      apply binary_round_aux_valid; lia. }
  destruct (Z.leb_spec 0 e) as [He|He]; [apply Hnorm|].
  assert (exists p, 10 ^ (- e) = Zpos p)%Z as [p ->].
  { assert (0 < 10 ^ (- e))%Z by (apply Z.pow_pos_nonneg; lia). destruct (10 ^ (- e))%Z as [|p|]; [done|by exists p|done]. }
  destruct (SFdiv_core_located m p) as (q & e' & loc & -> & Hq & Hfe & _). apply binary_round_aux_valid; [lia|done].
Qed.

(** [strtod] returns a [double]. *)
Lemma strtod_valid t : valid_binary 53 1024 (strtod t) = true.
Proof. unfold strtod. repeat (case_match; try apply round_decimal_valid). Qed.
End Interior.

(** ** The texts of numbers *)

Lemma span_digits_app ds r : digits ds -> not_digit_first r -> span_digits (ds ++ r) = (ds, r).
Proof.
  intros Hd Hr. induction Hd as [|c ds Hc _ IH]; cbn [app span_digits].
  - destruct r as [|c r]; [done|]. cbn in Hr |- *. by rewrite Hr.
  - by rewrite Hc, IH.
Qed.

Lemma span_digits_all ds : digits ds -> span_digits ds = (ds, []).
Proof. intros H. pose proof (span_digits_app ds [] H I) as E. by rewrite app_nil_r in E. Qed.

Lemma exponent_first ex x : exponent_text ex x -> not_digit_first ex /\ match ex with 46 :: _ => False | _ => True end.
Proof.
  assert (forall c r, is_exponent c = true -> not_digit_first (c :: r) /\ match c :: r with 46 :: _ => False | _ => True end) as H.
  { intros c r Hc. unfold is_exponent in Hc. apply orb_true_iff in Hc as [Hc|Hc]; apply Z.eqb_eq in Hc; by subst c. }
  destruct 1; [done|by apply H..].
Qed.

Lemma natural_not_sign ip r : natural ip -> match ip ++ r with 45 :: s => (true, s) | _ => (false, ip ++ r) end = (false, ip ++ r).
Proof.
  destruct ip as [|c ds]; [done|]. intros [Hc _]. apply Forall_inv, in_range_spec in Hc. cbn [app].
  repeat (case_match; try done); lia.
Qed.

(** What [strtod] makes of the parts. *)
Lemma strtod_parts s neg ip fp x :
  number_text s neg ip fp x ->
  strtod s = round_decimal neg (decimal (ip ++ fp)) (Z.of_nat (length (strip_zeros (ip ++ fp)))) (x - Z.of_nat (length fp)).
Proof.
  destruct 1 as [neg ip fr fp ex x Hip Hfr Hex]. destruct (exponent_first ex x Hex) as [He1 He2].
  unfold strtod. assert ((match (if neg then [45] else []) ++ ip ++ fr ++ ex with 45 :: s => (true, s) | _ => (false, (if neg then [45] else []) ++ ip ++ fr ++ ex) end) = (neg, ip ++ fr ++ ex)) as ->.
  { destruct neg; [done|]. exact (natural_not_sign ip (fr ++ ex) Hip). }
  rewrite (span_digits_app ip (fr ++ ex)); [|by destruct ip; [|apply Hip]|].
  2: { destruct Hfr; [exact He1|done]. }
  assert (match fr ++ ex with 46 :: s => span_digits s | _ => ([], fr ++ ex) end = (fp, ex)) as ->.
  { destruct Hfr as [|fp Hfp _]; cbn [app]; [|by apply span_digits_app].
    destruct ex as [|c ex]; [done|]. repeat (case_match; try done). }
  assert ((match ex with
    | c :: s =>
        if is_exponent c then
          match s with
          | 45 :: s => - decimal (fst (span_digits s))
          | 43 :: s => decimal (fst (span_digits s))
          | _ => decimal (fst (span_digits s))
          end
        else 0
    | [] => 0
    end) = x) as ->; [|done].
  destruct Hex as [|c ds Hc Hd Hn|c ds Hc Hd Hn|c ds Hc Hd Hn]; [done| | |]; rewrite Hc.
  - rewrite (span_digits_all ds Hd). destruct ds as [|d ds]; [done|]. apply Forall_inv, in_range_spec in Hd.
    repeat (case_match; try done); lia.
  - by rewrite (span_digits_all ds Hd).
  - by rewrite (span_digits_all ds Hd).
Qed.

Lemma number_digits s neg ip fp x : number_text s neg ip fp x -> digits (ip ++ fp).
Proof.
  destruct 1 as [neg ip fr fp ex x Hip Hfr _]. apply Forall_app. split; [by destruct ip; [|apply Hip]|].
  by destruct Hfr.
Qed.

(** Every text of a number in the interior of a [double] is read as it. *)
Lemma strtod_interior s neg ip fp x f ev :
  number_text s neg ip fp x -> bounded 53 1024 f ev = true ->
  interior f ev (toQ (decimal (ip ++ fp)) * pow10 (x - Z.of_nat (length fp)))%Q -> strtod s = S754_finite neg f ev.
Proof.
  intros Hn Hb HX. rewrite (strtod_parts s neg ip fp x Hn).
  destruct (strip_zeros_spec (ip ++ fp) (number_digits _ _ _ _ _ Hn)) as (E & Hd & Hl).
  destruct (interior_range f ev _ Hb HX) as [R _].
  assert (0 < decimal (ip ++ fp)) as Hpos.
  { pose proof (pow10_pos (x - Z.of_nat (length fp))) as P. pose proof (pow10_pos (-324)).
    apply toQ_lt_inv. apply (mul_lt_r_inv _ _ _ P). q_const. lra. }
  specialize (Hl Hpos). apply round_decimal_interior; [done|done| |].
  - rewrite <- E. split; [by apply decimal_leading|]. by apply decimal_bound.
  - destruct (strip_zeros (ip ++ fp)); [done|cbn [length]; lia].
Qed.
