(* ===== verification/Diyfp.v ===== *)
(** * Arithmetic of Grisu2

    The multiplication of [diyfp] is the rounded product, the boundaries are the
    midpoints to the neighbours of a number with a normalized significand, and the
    cached powers are powers of ten to half a unit. *)

From Stdlib Require Import ZArith Lia QArith Qpower Lqa SpecFloat.
From stdpp Require Import base list.
From S2P Require Import Prelude Exceptions JsonValue ToChars Powers Binary64.
Import ToChars.diyfp (diyfp, mk, mul, normalize, normalize_loop, normalize_to).

(** ** Multiplication *)

Lemma land_mod a k : 0 <= k -> Z.land a (2 ^ k - 1) = a mod 2 ^ k.
Proof. apply land_low. Qed.

Lemma product_bound a b n : 0 <= a < n -> 0 <= b < n -> 0 <= a * b <= (n - 1) * (n - 1).
Proof. nia. Qed.

(** The halves of a product, with a carry. *)
Lemma split_product u_hi u_lo v_hi v_lo Q :
  let B := 2 ^ 32 in
  0 <= u_hi < B -> 0 <= u_lo < B -> 0 <= v_hi < B -> 0 <= v_lo < B ->
  Q = u_lo * v_lo / B + (u_lo * v_hi) mod B + (u_hi * v_lo) mod B + 2 ^ 31 ->
  ((u_hi * B + u_lo) * (v_hi * B + v_lo) + 2 ^ 63) / 2 ^ 64 =
    u_hi * v_hi + u_hi * v_lo / B + u_lo * v_hi / B + Q / B.
Proof.
  intros B H1 H2 H3 H4 HQ.
  pose proof (Z.div_mod (u_lo * v_lo) B ltac:(done)). pose proof (Z.mod_pos_bound (u_lo * v_lo) B ltac:(done)).
  pose proof (Z.div_mod (u_lo * v_hi) B ltac:(done)). pose proof (Z.div_mod (u_hi * v_lo) B ltac:(done)).
  pose proof (Z.div_mod Q B ltac:(done)). pose proof (Z.mod_pos_bound Q B ltac:(done)).
  symmetry. apply (Z.div_unique_pos _ _ _ (Q mod B * B + (u_lo * v_lo) mod B)); [unfold B in *; lia|].
  replace ((u_hi * B + u_lo) * (v_hi * B + v_lo))
    with (u_hi * v_hi * (B * B) + (u_hi * v_lo + u_lo * v_hi) * B + u_lo * v_lo) by ring.
  unfold B in *. lia.
Qed.

(** [mul] rounds the product of the significands to 64 bits. *)
Lemma mul_spec x y :
  u64 (diyfp.f x) -> u64 (diyfp.f y) ->
  mul x y = mk ((diyfp.f x * diyfp.f y + 2 ^ 63) / 2 ^ 64) (diyfp.e x + diyfp.e y + 64) /\ u64 (diyfp.f (mul x y)).
Proof.
  destruct x as [u eu], y as [v ev]. unfold in_width. cbn [diyfp.f diyfp.e]. intros Hu Hv. unfold mul. cbn [diyfp.f diyfp.e].
  change 0xFFFFFFFF with (2 ^ 32 - 1). rewrite !land_mod, !Z.shiftr_div_pow2 by done.
  change (Z.shiftl 1 (64 - 32 - 1)) with (2 ^ 31).
  pose proof (Z.div_mod u (2 ^ 32) ltac:(done)). pose proof (Z.mod_pos_bound u (2 ^ 32) ltac:(done)).
  pose proof (Z.div_mod v (2 ^ 32) ltac:(done)). pose proof (Z.mod_pos_bound v (2 ^ 32) ltac:(done)).
  set (u_hi := u / 2 ^ 32) in *. set (u_lo := u mod 2 ^ 32) in *. set (v_hi := v / 2 ^ 32) in *. set (v_lo := v mod 2 ^ 32) in *.
  assert (0 <= u_hi < 2 ^ 32) as U by lia. assert (0 <= v_hi < 2 ^ 32) as V by lia.
  pose proof (product_bound u_lo v_lo (2 ^ 32) ltac:(lia) ltac:(lia)) as P0.
  pose proof (product_bound u_lo v_hi (2 ^ 32) ltac:(lia) ltac:(lia)) as P1.
  pose proof (product_bound u_hi v_lo (2 ^ 32) ltac:(lia) ltac:(lia)) as P2.
  pose proof (product_bound u_hi v_hi (2 ^ 32) ltac:(lia) ltac:(lia)) as P3.
  rewrite (wrap_small 64 (u_lo * v_lo)), (wrap_small 64 (u_lo * v_hi)), (wrap_small 64 (u_hi * v_lo)),
    (wrap_small 64 (u_hi * v_hi)) by (unfold in_width; lia).
  assert (0 <= u_lo * v_lo / 2 ^ 32 < 2 ^ 32) as B0.
  { split; [apply Z.div_pos; lia|]. apply Z.div_lt_upper_bound; lia. }
  pose proof (Z.mod_pos_bound (u_lo * v_hi) (2 ^ 32) ltac:(done)). pose proof (Z.mod_pos_bound (u_hi * v_lo) (2 ^ 32) ltac:(done)).
  rewrite (wrap_small 64 (u_lo * v_lo / 2 ^ 32 + _ + _)) by (unfold in_width; lia).
  rewrite (wrap_small 64 (_ + 2 ^ 31)) by (unfold in_width; lia).
  pose proof (split_product u_hi u_lo v_hi v_lo _ U ltac:(lia) V ltac:(lia) eq_refl) as Hs. cbn zeta in Hs.
  rewrite <- Hs. replace (u_hi * 2 ^ 32 + u_lo) with u by lia. replace (v_hi * 2 ^ 32 + v_lo) with v by lia.
  assert (0 <= (u * v + 2 ^ 63) / 2 ^ 64 < 2 ^ 64) as Hb.
  { pose proof (product_bound u v (2 ^ 64) Hu Hv). split; [apply Z.div_pos; lia|]. apply Z.div_lt_upper_bound; lia. }
  rewrite wrap_small by done. split; [done|]. by cbn.
Qed.

(** ** Normalization *)

Lemma normalize_loop_shift (k : nat) fuel f e :
  (k < fuel)%nat -> 2 ^ 63 <= f * 2 ^ Z.of_nat k < 2 ^ 64 ->
  normalize_loop fuel (mk f e) = Ret (mk (f * 2 ^ Z.of_nat k) (e - Z.of_nat k)).
Proof.
  revert fuel f e. induction k as [|k IH]; intros [|fuel] f e Hk Hf; try lia; cbn [normalize_loop diyfp.f diyfp.e].
  - rewrite Z.shiftr_div_pow2, Z.mul_1_r, Z.sub_0_r in * by done.
    replace (f / 2 ^ 63 =? 0) with false; [done|]. symmetry. apply Z.eqb_neq.
    assert (1 <= f / 2 ^ 63); [|lia]. apply Z.div_le_lower_bound; lia.
  - rewrite Nat2Z.inj_succ, Z.pow_succ_r in * by lia. assert (0 < 2 ^ Z.of_nat k) by (apply Z.pow_pos_nonneg; lia).
    assert (0 <= f < 2 ^ 63) as Hsmall by nia. rewrite Z.shiftr_div_pow2, Z.div_small by done. cbn [Z.eqb].
    rewrite Z.shiftl_mul_pow2, wrap_small by (unfold in_width; lia). rewrite IH by lia.
    f_equal. f_equal; lia.
Qed.

Lemma normalize_shift f e k :
  0 <= k < 64 -> 2 ^ 63 <= f * 2 ^ k < 2 ^ 64 -> normalize (mk f e) = Ret (mk (f * 2 ^ k) (e - k)).
Proof.
  intros Hk Hf. unfold normalize. cbn [diyfp.f]. replace (f =? 0) with false by lia. cbn [negb assert_ obind].
  rewrite <- (Z2Nat.id k) in * by lia. apply normalize_loop_shift; [lia|done].
Qed.

Lemma normalize_to_shift f e k :
  0 <= k < 64 -> 0 <= f -> f * 2 ^ k < 2 ^ 64 -> normalize_to (mk f e) (e - k) = Ret (mk (f * 2 ^ k) (e - k)).
Proof.
  intros Hk Hf Hb. unfold normalize_to. cbn [diyfp.f diyfp.e]. replace (e - (e - k)) with k by lia.
  replace (0 <=? k) with true by lia. replace (64 <=? k) with false by lia. cbn [assert_ obind].
  assert (0 < 2 ^ k) by (apply Z.pow_pos_nonneg; lia).
  rewrite Z.shiftl_mul_pow2, wrap_small by (unfold in_width; nia). rewrite Z.shiftr_div_pow2, Z.div_mul by lia.
  by rewrite Z.eqb_refl.
Qed.

(** ** The boundaries *)

(** The number below [m * 2^e] is closer than the one above. *)
Definition closer (m : positive) (e : Z) : bool := (Zpos m =? 2 ^ 52) && (-1074 <? e).

(** The significand of the midpoint below [m * 2^e], in units of [2^(e - 1 - k)]. *)
Definition minus_f (m : positive) (e k : Z) : Z :=
  if closer m e then (4 * Zpos m - 1) * 2 ^ (k - 1) else (2 * Zpos m - 1) * 2 ^ k.

(** The fields of the encoding, and the number they stand for. *)
Lemma encoding_fields m e :
  bounded 53 1024 m e = true ->
  let bits := reinterpret_bits (S754_finite false m e) in
  let E := Z.shiftr bits 52 in
  let F := Z.land bits (2 ^ 52 - 1) in
  (if E =? 0 then mk F (-1074) else mk (wrap 64 (F + 2 ^ 52)) (E - 1075)) = mk (Zpos m) e /\
  (F =? 0) && (1 <? E) = closer m e.
Proof.
  intros Hb. destruct (bounded_spec m e Hb) as (H1 & H2 & H3). cbn zeta.
  rewrite Z.shiftr_div_pow2, land_mod by done. unfold reinterpret_bits, closer.
  destruct (Z.ltb_spec (Zpos m) (2 ^ 52)) as [Hm|Hm].
  - rewrite Z.add_0_l, Z.div_small, Z.mod_small by lia. replace e with (-1074) by lia.
    split; [done|]. rewrite andb_false_r. zcases.
  - assert (2 ^ 52 * (e + 1075) + (Zpos m - 2 ^ 52) = 0 + ((e + 1075) * 2 ^ 52 + (Zpos m - 2 ^ 52))) as Ed by lia.
    rewrite <- (Z.div_unique_pos _ (2 ^ 52) (e + 1075) (Zpos m - 2 ^ 52)) by lia.
    rewrite <- (Z.mod_unique_pos _ (2 ^ 52) (e + 1075) (Zpos m - 2 ^ 52)) by lia.
    rewrite wrap_small by (unfold in_width; lia). split; [|zcases].
    replace (e + 1075 =? 0) with false by lia. f_equal; lia.
Qed.

(** The boundaries have the exponent of the normalized [m+]. *)
Lemma compute_boundaries_spec m e :
  bounded 53 1024 m e = true ->
  exists k, 10 <= k <= 62 /\ 2 ^ 63 <= (2 * Zpos m + 1) * 2 ^ k < 2 ^ 64 /\
    compute_boundaries (S754_finite false m e) =
      Ret (mk_boundaries (mk (2 * Zpos m * 2 ^ k) (e - 1 - k)) (mk (minus_f m e k) (e - 1 - k))
             (mk ((2 * Zpos m + 1) * 2 ^ k) (e - 1 - k))).
Proof.
  intros Hb. destruct (bounded_spec m e Hb) as (H1 & _ & _).
  destruct (Z.log2_spec (2 * Zpos m + 1) ltac:(lia)) as [L1 L2]. set (lg := Z.log2 (2 * Zpos m + 1)) in *.
  assert (0 <= lg) as L0 by apply Z.log2_nonneg.
  assert (lg < 54) by (apply (Z.pow_lt_mono_r_iff 2); lia).
  assert (1 <= lg) by (assert (2 ^ 1 < 2 ^ Z.succ lg) as Hl%Z.pow_lt_mono_r_iff; lia).
  exists (63 - lg). set (k := 63 - lg). assert (2 ^ 63 = 2 ^ lg * 2 ^ k) as E63.
  { rewrite <- Z.pow_add_r by lia. f_equal. lia. }
  assert (0 < 2 ^ k) by (apply Z.pow_pos_nonneg; lia). rewrite Z.pow_succ_r in L2 by done.
  assert (2 ^ k = 2 * 2 ^ (k - 1)) as Ek by (rewrite <- Z.pow_succ_r by lia; f_equal; lia).
  assert (2 ^ 63 <= (2 * Zpos m + 1) * 2 ^ k < 2 ^ 64) as Hp by nia.
  split; [lia|]. split; [done|].
  destruct (encoding_fields m e Hb) as [Hv Hc]. unfold compute_boundaries.
  change (53 - 1) with 52. change (Z.shiftl 1 52) with (2 ^ 52). change (1024 - 1 + 52) with 1075. change (1 - 1075) with (-1074).
  cbn [assert_ obind]. rewrite Hv, Hc. cbn [diyfp.f diyfp.e].
  rewrite (wrap_small 64 (2 * Zpos m + 1)), (wrap_small 64 (4 * Zpos m - 1)), (wrap_small 64 (2 * Zpos m - 1))
    by (unfold in_width; lia).
  rewrite (normalize_shift (2 * Zpos m + 1) _ k) by lia. cbn [obind diyfp.e].
  assert (2 ^ lg = 2 * 2 ^ (lg - 1)) as Elg by (rewrite <- Z.pow_succ_r by lia; f_equal; lia).
  assert (normalize (mk (Zpos m) e) = Ret (mk (2 * Zpos m * 2 ^ k) (e - 1 - k))) as Hw.
  { rewrite (normalize_shift _ _ (k + 1)); rewrite ?Z.pow_add_r by lia; [|lia|nia]. f_equal. f_equal; lia. }
  unfold minus_f. destruct (closer m e) eqn:Ecl.
  - replace (e - 1 - k) with (e - 2 - (k - 1)) at 1 by lia. rewrite normalize_to_shift by nia. cbn [obind].
    rewrite Hw. cbn [obind]. do 2 f_equal. f_equal. lia.
  - rewrite normalize_to_shift by nia. cbn [obind]. by rewrite Hw.
Qed.

(** ** Cached powers *)

(** A normalized significand within half a unit of a power of ten. *)
Definition accurate (c : cached_power) : bool :=
  (2 ^ 63 <=? cp_f c) && (cp_f c <? 2 ^ 64) && (-348 <=? cp_k c) && (cp_k c <=? 348) &&
  Qle_bool (pow10 (cp_k c)) ((toQ (cp_f c) + (1#2)) * pow2 (cp_e c)) &&
  Qle_bool ((toQ (cp_f c) - (1#2)) * pow2 (cp_e c)) (pow10 (cp_k c)).

Lemma cached_powers_accurate : forallb accurate kCachedPowers = true.
Proof. vm_compute. reflexivity. Qed.

(** For the exponents of normalized doubles the product with the cached power has
    an exponent between [kAlpha] and [kGamma]. *)
Lemma cached_powers_cover :
  all_below 2098 (fun z =>
    match get_cached_power_for_binary_exponent (z - 1137) with
    | Ret c => (-60 <=? cp_e c + (z - 1137) + 64) && (cp_e c + (z - 1137) + 64 <=? -34)
    | _ => false
    end) = true.
Proof. vm_compute. reflexivity. Qed.

Lemma get_cached_power_in e c : get_cached_power_for_binary_exponent e = Ret c -> c ∈ kCachedPowers.
Proof.
  unfold get_cached_power_for_binary_exponent, assert_. intros H.
  repeat (case_cond; cbn [obind] in H; [|done]). destruct (kCachedPowers !! _) eqn:El; [|done].
  repeat (case_cond; cbn [obind] in H; [|done]). injection H as <-. by apply list_elem_of_lookup_2 in El.
Qed.

Lemma get_cached_power_spec e :
  -1137 <= e <= 960 ->
  exists c, get_cached_power_for_binary_exponent e = Ret c /\ -60 <= cp_e c + e + 64 <= -34 /\
    2 ^ 63 <= cp_f c < 2 ^ 64 /\ -348 <= cp_k c <= 348 /\
    ((toQ (cp_f c) - (1#2)) * pow2 (cp_e c) <= pow10 (cp_k c) <= (toQ (cp_f c) + (1#2)) * pow2 (cp_e c))%Q.
Proof.
  intros He. pose proof (all_below_spec _ _ (e + 1137) cached_powers_cover ltac:(lia)) as H. cbv beta in H.
  replace (e + 1137 - 1137) with e in H by lia.
  destruct (get_cached_power_for_binary_exponent e) as [c| |] eqn:Ec; [|done..]. exists c. split; [done|].
  pose proof cached_powers_accurate as Ha. rewrite forallb_forall in Ha.
  specialize (Ha c (proj1 (list_elem_of_In _ _) (get_cached_power_in _ _ Ec))). unfold accurate in Ha.
  repeat (apply andb_true_iff in Ha as [Ha ?]). rewrite Qle_bool_iff in *. bool_prop. done.
Qed.

(** ** Scaling by a cached power *)

(** The product of two significands, rounded to its upper 64 bits. *)
Definition mul_f (x c : Z) : Z := (x * c + 2 ^ 63) / 2 ^ 64.

Lemma mul_f_bounds x c : x * c - 2 ^ 63 < 2 ^ 64 * mul_f x c <= x * c + 2 ^ 63.
Proof.
  unfold mul_f. pose proof (Z.div_mod (x * c + 2 ^ 63) (2 ^ 64) ltac:(done)).
  pose proof (Z.mod_pos_bound (x * c + 2 ^ 63) (2 ^ 64) ltac:(done)). lia.
Qed.

Section Scaling.
Open Scope Q_scope.

(** The rounded product is less than a unit away from the exact one. *)
Lemma mul_f_error x E c T :
  (0 <= x < 2 ^ 64)%Z -> (toQ (cp_f c) - (1#2)) * pow2 (cp_e c) <= T <= (toQ (cp_f c) + (1#2)) * pow2 (cp_e c) ->
  (toQ (mul_f x (cp_f c)) - 1) * pow2 (E + cp_e c + 64) < toQ x * pow2 E * T /\
  toQ x * pow2 E * T < (toQ (mul_f x (cp_f c)) + 1) * pow2 (E + cp_e c + 64).
Proof.
  intros Hx [T1 T2]. destruct (mul_f_bounds x (cp_f c)) as [M1 M2].
  set (W := mul_f x (cp_f c)) in *. apply toQ_lt in M1. apply toQ_le in M2.
  rewrite toQ_sub, !toQ_mul in M1. rewrite toQ_add, !toQ_mul in M2.
  rewrite !pow2_add, (pow2_Z 64) by done.
  assert (0 <= toQ x /\ toQ x < toQ (2 ^ 64)) as [X0 X1] by (split; [apply (toQ_le 0); lia|apply toQ_lt; lia]).
  change (toQ (2 ^ 64)) with (2 * toQ (2 ^ 63)) in *. set (H := toQ (2 ^ 63)) in *.
  pose proof (pow2_pos E) as PE. pose proof (pow2_pos (cp_e c)) as Pc.
  assert (0 < pow2 E * pow2 (cp_e c)) as PP by by apply Qmult_lt_0_compat.
  assert (0 <= toQ x * pow2 E) as XE by (apply Qmult_le_0_compat; lra).
  assert (toQ x * pow2 E * T <= toQ x * pow2 E * ((toQ (cp_f c) + (1#2)) * pow2 (cp_e c))) as U1
    by (rewrite !(Qmult_comm (toQ x * pow2 E)); by apply Qmult_le_compat_r).
  assert (toQ x * pow2 E * ((toQ (cp_f c) - (1#2)) * pow2 (cp_e c)) <= toQ x * pow2 E * T) as U2
    by (rewrite !(Qmult_comm (toQ x * pow2 E)); by apply Qmult_le_compat_r).
  split.
  - eapply Qlt_le_trans; [|exact U2].
    assert ((toQ W - 1) * (2 * H) < toQ x * (toQ (cp_f c) - (1#2))) as Hl by lra.
    apply (mul_lt_r _ _ _ PP) in Hl. lra.
  - eapply Qle_lt_trans; [exact U1|].
    assert (toQ x * (toQ (cp_f c) + (1#2)) < (toQ W + 1) * (2 * H)) as Hl by lra.
    apply (mul_lt_r _ _ _ PP) in Hl. lra.
Qed.
End Scaling.

(** The significands of the boundaries and of the number. *)
Record scaled_interval (m : positive) (e k c : Z) : Prop := mk_scaled_interval {
  si_minus : 0 < mul_f (minus_f m e k) c + 1 <= mul_f (2 * Zpos m * 2 ^ k) c;
  si_plus : mul_f (2 * Zpos m * 2 ^ k) c <= mul_f ((2 * Zpos m + 1) * 2 ^ k) c - 1;
  si_large : 2 ^ 61 <= mul_f ((2 * Zpos m + 1) * 2 ^ k) c - 1 < 2 ^ 64;
  si_wide : mul_f ((2 * Zpos m + 1) * 2 ^ k) c - 1 <=
    10 ^ 16 * (mul_f ((2 * Zpos m + 1) * 2 ^ k) c - 1 - (mul_f (minus_f m e k) c + 1))
}.

Lemma minus_f_range m e k :
  10 <= k <= 62 -> 2 ^ 63 <= (2 * Zpos m + 1) * 2 ^ k < 2 ^ 64 -> 0 < minus_f m e k < 2 ^ 64.
Proof.
  intros Hk Hf. unfold minus_f.
  assert (2 ^ k = 2 * 2 ^ (k - 1)) as Ek by (rewrite <- Z.pow_succ_r by lia; f_equal; lia).
  assert (0 < 2 ^ (k - 1)) by (apply Z.pow_pos_nonneg; lia). destruct (closer m e); nia.
Qed.

Lemma scale_interval m e k c :
  Zpos m < 2 ^ 53 -> 10 <= k <= 62 -> 2 ^ 63 <= (2 * Zpos m + 1) * 2 ^ k < 2 ^ 64 -> 2 ^ 63 <= c < 2 ^ 64 ->
  scaled_interval m e k c.
Proof.
  intros Hm Hk Hf Hc. pose proof (minus_f_range m e k Hk Hf) as Hmin.
  pose proof (mul_f_bounds (minus_f m e k) c) as Bm. pose proof (mul_f_bounds (2 * Zpos m * 2 ^ k) c) as Bw.
  pose proof (mul_f_bounds ((2 * Zpos m + 1) * 2 ^ k) c) as Bp.
  set (Wm := mul_f (minus_f m e k) c) in *. set (Ww := mul_f (2 * Zpos m * 2 ^ k) c) in *.
  set (Wp := mul_f ((2 * Zpos m + 1) * 2 ^ k) c) in *.
  assert (2 ^ k = 2 * 2 ^ (k - 1)) as Ek by (rewrite <- Z.pow_succ_r by lia; f_equal; lia).
  assert (2 ^ 9 <= 2 ^ (k - 1)) as Hk9 by (apply Z.pow_le_mono_r; lia).
  set (t := 2 ^ (k - 1) * c) in *. assert (2 ^ 72 <= t) as Ht by (unfold t; nia).
  assert (2 ^ 126 <= (2 * Zpos m + 1) * 2 ^ k * c <= (2 ^ 64 - 1) * (2 ^ 64 - 1)) as Hbig.
  { split; [|apply Z.mul_le_mono_nonneg; lia]. change (2 ^ 126) with (2 ^ 63 * 2 ^ 63). apply Z.mul_le_mono_nonneg; lia. }
  assert ((2 * Zpos m + 1) * 2 ^ k * c = (4 * Zpos m + 2) * t) as Ep by (unfold t; rewrite Ek; ring).
  assert (2 * Zpos m * 2 ^ k * c = 4 * Zpos m * t) as Ew by (unfold t; rewrite Ek; ring).
  rewrite Ep in Bp, Hbig. rewrite Ew in Bw.
  assert (minus_f m e k * c = (4 * Zpos m - 2) * t \/ Zpos m = 2 ^ 52 /\ minus_f m e k * c = (4 * Zpos m - 1) * t) as Em.
  { unfold minus_f, closer, t. destruct (Z.eqb_spec (Zpos m) (2 ^ 52)); [destruct (-1074 <? e); cbn [andb]|cbn [andb]];
      [right; split; [done|ring]|left; rewrite Ek; ring..]. }
  assert (Zpos m * t <= (2 ^ 53 - 1) * t) as Hmt by (apply Z.mul_le_mono_nonneg_r; lia).
  assert (0 <= minus_f m e k * c) by nia.
  split; fold Wm Ww Wp; (destruct Em as [Em|[Em52 Em]]; rewrite Em in Bm; [|rewrite Em52 in Bm, Bw, Bp]; lia).
Qed.
