(* ===== verification/Grisu.v ===== *)
(** * The digits that Grisu2 generates

    For every positive finite [double] the algorithm ends, fails no assertion and
    writes at most 17 digits; the decimal number they stand for lies strictly
    between the midpoints to the neighbours of the [double]. *)

From Stdlib Require Import ZArith Lia QArith Qpower Lqa SpecFloat.
From stdpp Require Import base list.
From S2P Require Import Prelude Utf8 Exceptions JsonValue ToChars JsonLexer JsonNumbers JsonDigits Powers Binary64 Strtod Diyfp.
Import ToChars.diyfp (diyfp, mk).

(** ** Digits in the buffer *)

Lemma digits_app ds c : digits ds -> 48 <= c <= 57 -> digits (ds ++ [c]).
Proof. intros Hd Hc. apply digits_snoc; [done|]. by apply in_range_spec. Qed.

Lemma store_app ds x tl c : store (ds ++ x :: tl) (Z.of_nat (length ds)) c = Ret (ds ++ c :: tl).
Proof.
  unfold store. rewrite length_app. cbn [length]. rewrite (proj2 (andb_true_iff _ _)) by (split; [apply Z.leb_le|apply Z.ltb_lt]; lia). rewrite Nat2Z.id. f_equal. rewrite <- (Nat.add_0_r (length ds)). by rewrite insert_app_r.
Qed.

Lemma load_app ds c tl : load (ds ++ c :: tl) (Z.of_nat (length ds)) = Ret c.
Proof.
  unfold load. rewrite length_app. cbn [length]. rewrite (proj2 (andb_true_iff _ _)) by (split; [apply Z.leb_le|apply Z.ltb_lt]; lia). rewrite Nat2Z.id, app_nth2, Nat.sub_diag by lia. done.
Qed.

(** ** grisu2_round *)

(** Decrementing the last digit takes the number down by [ten_k] each time, never
    below [M - delta] nor the digit to zero. *)
Lemma grisu2_round_loop_ok fuel ds c tl dist delta rest ten_k :
  0 < ten_k -> 0 <= rest <= delta -> delta < 2 ^ 64 -> delta < rest + (c - 48) * ten_k -> c - 48 <= Z.of_nat fuel ->
  exists c', grisu2_round_loop fuel (ds ++ c :: tl) (Z.of_nat (length ds) + 1) dist delta rest ten_k = Ret (ds ++ c' :: tl) /\
    48 < c' <= c /\ rest + (c - c') * ten_k <= delta.
Proof.
  revert c rest. induction fuel as [|fuel IH]; intros c rest Ht Hr Hd Hc Hf; [nia|]. cbn [grisu2_round_loop].
  destruct (_ && _) eqn:E; [|exists c; split; [done|nia]].
  apply andb_true_iff in E as [E _]. apply andb_true_iff in E as [_ E].
  rewrite wrap_small in E by (unfold in_width; lia). bool_prop.
  replace (Z.of_nat (length ds) + 1 - 1) with (Z.of_nat (length ds)) by lia. rewrite load_app. cbn [obind].
  assert (1 < c - 48) by nia. replace (c =? 48) with false by lia. cbn [negb assert_ obind].
  rewrite store_app. cbn [obind]. rewrite wrap_small by (unfold in_width; lia).
  destruct (IH (c - 1) (rest + ten_k)) as (c' & E' & H1 & H2); [done|lia|done|nia|lia|].
  exists c'. split; [exact E'|nia].
Qed.

Lemma grisu2_round_ok ds c tl dist delta rest ten_k :
  0 < ten_k -> 0 <= rest <= delta -> dist <= delta -> delta < 2 ^ 64 -> delta < rest + (c - 48) * ten_k -> c <= 57 ->
  exists c', grisu2_round (ds ++ c :: tl) (Z.of_nat (length ds) + 1) dist delta rest ten_k = Ret (ds ++ c' :: tl) /\
    48 < c' <= c /\ rest + (c - c') * ten_k <= delta.
Proof.
  intros Ht Hr Hi Hd Hc H57. unfold grisu2_round.
  destruct (Z.leb_spec 1 (Z.of_nat (length ds) + 1)); [|lia]. replace (dist <=? delta) with true by lia.
  replace (rest <=? delta) with true by lia. replace (0 <? ten_k) with true by lia. cbn [assert_ obind].
  apply grisu2_round_loop_ok; lia.
Qed.

(** ** The loops *)

(** What the digit generation promises: between one and 17 digits at the start of
    the buffer that do not start with a zero, and a number that is at most [M] and
    not below it by more than [delta]. *)
Definition generates (M delta O : Z) (de : Z) (size : nat) (g : generated) : Prop :=
  exists ds tl n, g = (ds ++ tl, Z.of_nat (length ds), n) /\ digits ds /\ leading ds /\ (length ds <= 17)%nat /\
    length (ds ++ tl) = size /\
    (toQ (M - delta) <= toQ (decimal ds) * pow10 (n - de) * toQ O <= toQ M)%Q.

Section Loops.
Context (s O M delta0 : Z).
Context (Hs : 32 <= s <= 60) (HO : O = 2 ^ s) (HM : 0 < M < 2 ^ 64).

#[local] Abbreviation one := (mk O (- s)).

Lemma O_range : 2 ^ 32 <= O <= 2 ^ 60.
Proof. rewrite HO. split; apply Z.pow_le_mono_r; lia. Qed.

(** The test that ends the loops, with the rounding of the last digit: the digits
    [ds ++ [c]] stand for [rest] less than [N]. *)
Lemma round_digit ds c tl dist delta rest ten_k N :
  digits ds -> (leading ds \/ ds = [] /\ 48 < c) -> c <= 57 -> 0 < ten_k ->
  0 <= rest <= delta -> dist <= delta -> delta < 2 ^ 64 -> delta < rest + (c - 48) * ten_k ->
  N = decimal (ds ++ [c]) * ten_k + rest ->
  exists ds', grisu2_round (ds ++ c :: tl) (Z.of_nat (length ds) + 1) dist delta rest ten_k = Ret (ds' ++ tl) /\
    length ds' = S (length ds) /\ digits ds' /\ leading ds' /\ N - delta <= decimal ds' * ten_k <= N.
Proof.
  intros Hd Hl H57 Ht Hr Hi Hdel Hc HN.
  destruct (grisu2_round_ok ds c tl dist delta rest ten_k) as (c' & E & H1 & H2); try done.
  exists (ds ++ [c']). rewrite <- app_assoc. split; [exact E|]. split; [rewrite length_app; cbn; lia|].
  split; [apply digits_app; [done|lia]|]. split.
  - destruct Hl as [Hl|[-> _]]; [by apply leading_app|]. apply in_range_spec. lia.
  - rewrite decimal_snoc in *. assert (0 <= (c - c') * ten_k) by nia. lia.
Qed.

(** The last digit before the point. *)
Lemma integral_round n ds c tl de dist delta rest :
  digits ds -> (leading ds \/ ds = [] /\ 48 < c) -> c <= 57 -> (length ds <= 16)%nat ->
  0 <= rest <= delta -> dist <= delta -> delta < 2 ^ 64 -> delta < rest + (c - 48) * (10 ^ Z.of_nat n * O) ->
  M = decimal (ds ++ [c]) * (10 ^ Z.of_nat n * O) + rest ->
  exists buf, grisu2_round (ds ++ c :: tl) (Z.of_nat (length ds) + 1) dist delta rest (10 ^ Z.of_nat n * O) = Ret buf /\
    generates M delta O de (length (ds ++ c :: tl)) (buf, Z.of_nat (length ds) + 1, de + Z.of_nat n).
Proof.
  intros Hd Hl H57 Hlen Hr Hi Hdel Hc HN. pose proof O_range as HOr.
  assert (0 < 10 ^ Z.of_nat n) as Hq by (apply Z.pow_pos_nonneg; lia).
  destruct (round_digit ds c tl dist delta rest (10 ^ Z.of_nat n * O) M) as (ds' & E & R1 & R2 & R3 & R4);
    try done; try lia.
  exists (ds' ++ tl). split; [done|]. exists ds', tl, (de + Z.of_nat n).
  split; [do 2 f_equal; lia|]. do 2 (split; [done|]). split; [lia|].
  split; [rewrite !length_app; cbn [length]; lia|].
  replace (de + Z.of_nat n - de) with (Z.of_nat n) by lia. rewrite pow10_Z by lia.
  rewrite <- !toQ_mul, <- Z.mul_assoc. split; apply toQ_le; lia.
Qed.

Lemma integral_digits_ok n ds tl de p1 p2 dist delta :
  0 <= p2 < O -> 0 <= p1 < 10 ^ Z.of_nat n -> M = (decimal ds * 10 ^ Z.of_nat n + p1) * O + p2 ->
  0 < delta < 2 ^ 64 -> dist <= delta -> delta < p1 * O + p2 ->
  (n <= length tl)%nat -> (length ds + n <= 17)%nat -> digits ds ->
  leading ds \/ ds = [] /\ (0 < n)%nat /\ 10 ^ (Z.of_nat n - 1) <= p1 ->
  exists r, integral_digits n (ds ++ tl) (Z.of_nat (length ds)) de p1 p2 (10 ^ Z.of_nat n / 10) delta dist one = Ret r /\
    match r with
    | inl g => generates M delta O de (length (ds ++ tl)) g
    | inr (buffer, len) =>
        exists ds' tl', buffer = ds' ++ tl' /\ len = Z.of_nat (length ds') /\ (length ds' = length ds + n)%nat /\
          length (ds' ++ tl') = length (ds ++ tl) /\ digits ds' /\ leading ds' /\
          M = decimal ds' * O + p2 /\ delta < p2
    end.
Proof.
  pose proof O_range as HOr. revert ds tl p1.
  induction n as [|n IH]; intros ds tl p1 Hp2 Hp1 HMv Hdel Hdist Hgt Htl Hlen Hd Hl.
  - cbn [integral_digits]. eexists. split; [done|]. exists ds, tl. rewrite Z.pow_0_r in *.
    do 2 (split; [done|]). split; [lia|]. split; [done|]. split; [done|].
    split; [by destruct Hl as [|(_ & ? & _)]; [|lia]|]. split; [lia|]. replace p1 with 0 in * by lia. lia.
  - rewrite Nat2Z.inj_succ, Z.pow_succ_r in * by lia. set (q := 10 ^ Z.of_nat n) in *.
    assert (0 < q) as Hq by (apply Z.pow_pos_nonneg; lia).
    cbn [integral_digits]. rewrite (Z.mul_comm 10 q), Z.div_mul by done. cbn [diyfp.e].
    replace (- - s) with s by lia.
    pose proof (Z.div_mod p1 q ltac:(lia)) as Hdm. pose proof (Z.mod_pos_bound p1 q Hq) as Hmod.
    set (d := p1 / q) in *. set (r := p1 mod q) in *.
    assert (0 <= d <= 9) as Hd9 by nia. destruct (Z.leb_spec d 9); [|lia]. cbn [assert_ obind].
    destruct tl as [|x tl]; [cbn in Htl; lia|]. rewrite store_app. cbn [obind].
    assert (0 <= decimal ds) as Hdec by apply (decimal_bound ds Hd).
    assert (1 <= decimal (ds ++ [48 + d])) as H1.
    { rewrite decimal_snoc. destruct Hl as [Hl|(-> & _ & Hl)].
      - pose proof (decimal_leading ds Hd Hl). assert (0 < 10 ^ (Z.of_nat (length ds) - 1)); [|lia].
        apply Z.pow_pos_nonneg; [lia|]. destruct ds; [done|cbn [length]; lia].
      - replace (Z.succ (Z.of_nat n) - 1) with (Z.of_nat n) in Hl by lia. fold q in Hl. cbn. nia. }
    assert (M = decimal (ds ++ [48 + d]) * (q * O) + (r * O + p2)) as HM1 by (rewrite decimal_snoc, HMv, Hdm; ring).
    assert (0 <= r * O) by nia.
    assert (q * O <= decimal (ds ++ [48 + d]) * (q * O)) by nia.
    rewrite !Z.shiftl_mul_pow2 by lia. rewrite <- HO.
    rewrite (wrap_small 64 (r * O)), (wrap_small 64 (r * O + p2)), (wrap_small 64 (q * O)) by (unfold in_width; lia).
    assert (leading ds \/ ds = [] /\ 48 < 48 + d) as Hl1.
    { destruct Hl as [|(-> & _ & _)]; [by left|right]. split; [done|]. cbn in H1. lia. }
    destruct (Z.leb_spec (r * O + p2) delta) as [Hle|Hgt'].
    + destruct (integral_round n ds (48 + d) tl de dist delta (r * O + p2)) as (buf & E & Hg); try done; try lia.
      fold q in E. rewrite E. cbn [obind]. eexists. split; [done|]. rewrite !length_app in *. exact Hg.
    + destruct (IH (ds ++ [48 + d]) tl r) as (res & E & Hres); try done; try lia.
      * cbn in Htl. lia.
      * rewrite length_app. cbn. lia.
      * apply digits_app; [done|lia].
      * left. destruct Hl1 as [Hl1|[-> Hc]]; [by apply leading_app|]. apply in_range_spec. lia.
      * exists res. rewrite <- app_assoc in E, Hres. cbn [app] in E, Hres.
        rewrite length_app in E. cbn [length] in E. rewrite Nat2Z.inj_add in E. split; [exact E|].
        destruct res as [g|[buffer len]].
        -- replace (length (ds ++ x :: tl)) with (length (ds ++ (48 + d) :: tl)); [exact Hres|].
           rewrite !length_app. done.
        -- destruct Hres as (ds' & tl' & R1 & R2 & R3 & R4 & R5). exists ds', tl'. do 2 (split; [done|]).
           rewrite length_app in R3. cbn [length] in R3. split; [lia|]. split; [|done].
           rewrite R4, !length_app. done.
Qed.

(** Digits are generated only while a unit of the last one is more than [delta], and
    [M] is at most [10^16 * delta]. *)
Lemma digits_left ds p2 m :
  M <= 10 ^ 16 * delta0 -> digits ds -> leading ds -> 0 <= m -> 10 ^ m * M = decimal ds * O + p2 ->
  10 ^ m * delta0 < p2 < O -> (length ds <= 16)%nat.
Proof.
  intros Hwide Hd Hl Hm HMv Hp. pose proof O_range as HOr. pose proof (decimal_leading ds Hd Hl) as Hlow.
  assert (0 < 10 ^ m) as Hpm by (apply Z.pow_pos_nonneg; lia).
  assert (10 ^ (Z.of_nat (length ds) - 1) * O < 10 ^ 16 * O) as H by nia.
  assert (10 ^ (Z.of_nat (length ds) - 1) < 10 ^ 16) as Hlt%Z.pow_lt_mono_r_iff by nia; lia.
Qed.

(** The last digit after the point. *)
Lemma fractional_round ds c tl de dist delta rest m :
  digits ds -> leading ds -> c <= 57 -> (length ds <= 16)%nat -> 0 <= m -> delta = 10 ^ m * delta0 ->
  0 <= rest <= delta -> dist <= delta -> delta < 2 ^ 64 -> delta < rest + (c - 48) * O ->
  10 ^ m * M = decimal (ds ++ [c]) * O + rest ->
  exists buf, grisu2_round (ds ++ c :: tl) (Z.of_nat (length ds) + 1) dist delta rest O = Ret buf /\
    generates M delta0 O de (length (ds ++ c :: tl)) (buf, Z.of_nat (length ds) + 1, de - m).
Proof.
  intros Hd Hl H57 Hlen Hm Edel Hr Hi Hdel Hc HN. pose proof O_range as HOr.
  destruct (round_digit ds c tl dist delta rest O (10 ^ m * M)) as (ds' & E & R1 & R2 & R3 & R4);
    try done; try lia; [by left|].
  exists (ds' ++ tl). split; [done|]. exists ds', tl, (de - m).
  split; [do 2 f_equal; lia|]. do 2 (split; [done|]). split; [lia|].
  split; [rewrite !length_app; cbn [length]; lia|].
  replace (de - m - de) with (- m) by lia.
  pose proof (pow10_pos m) as PP. pose proof (pow10_add m (- m)) as Padd.
  replace (m + - m) with 0 in Padd by lia. change (pow10 0) with 1%Q in Padd.
  destruct R4 as [L1%toQ_le L2%toQ_le]. rewrite toQ_sub, Edel in L1.
  rewrite !(toQ_mul (10 ^ m)), (toQ_mul (decimal ds')), <- (pow10_Z m) in L1 by lia.
  rewrite (toQ_mul (10 ^ m)), (toQ_mul (decimal ds')), <- (pow10_Z m) in L2 by lia.
  rewrite toQ_sub. apply (mul_le_r _ _ _ (pow10_pos (- m))) in L1, L2.
  assert (forall y, pow10 m * y * pow10 (- m) == y)%Q as Hcancel.
  { intros y. transitivity (y * (pow10 m * pow10 (- m)))%Q; [ring|]. rewrite <- Padd. ring. }
  pose proof (Hcancel (toQ M)). pose proof (Hcancel (toQ delta0)). split; lra.
Qed.

Lemma fractional_digits_ok fuel ds tl de p2 dist delta m :
  M <= 10 ^ 16 * delta0 -> digits ds -> leading ds -> 0 <= m -> 10 ^ m * M = decimal ds * O + p2 ->
  delta = 10 ^ m * delta0 -> 0 <= dist <= delta -> delta < p2 < O -> 0 < delta0 ->
  (17 <= length (ds ++ tl))%nat -> (17 <= fuel + length ds)%nat ->
  exists g, fractional_digits fuel (ds ++ tl) (Z.of_nat (length ds)) de p2 delta dist m one = Ret g /\
    generates M delta0 O de (length (ds ++ tl)) g.
Proof.
  pose proof O_range as HOr. revert ds tl p2 dist delta m.
  induction fuel as [|fuel IH]; intros ds tl p2 dist delta m Hwide Hd Hl Hm HMv Edel Hdist Hp Hpos Hsize Hfuel;
    pose proof (digits_left ds p2 m Hwide Hd Hl Hm HMv ltac:(lia)) as H16; [lia|].
  cbn [fractional_digits diyfp.e diyfp.f].
  assert (0 < 10 ^ m) as Hpm by (apply Z.pow_pos_nonneg; lia).
  assert (0 <= delta) by nia.
  change ((2 ^ 64 - 1) / 10) with 1844674407370955161. replace (p2 <=? 1844674407370955161) with true by lia.
  cbn [assert_ obind]. rewrite (wrap_small 64 (p2 * 10)), (wrap_small 64 (delta * 10)), (wrap_small 64 (dist * 10))
    by (unfold in_width; lia).
  replace (- - s) with s by lia. rewrite Z.shiftr_div_pow2 by lia.
  replace (O - 1) with (2 ^ s - 1) by lia. rewrite land_low by lia. rewrite <- HO.
  pose proof (Z.div_mod (p2 * 10) O ltac:(lia)) as Hdm. pose proof (Z.mod_pos_bound (p2 * 10) O ltac:(lia)) as Hmod.
  set (d := p2 * 10 / O) in *. set (r := (p2 * 10) mod O) in *.
  assert (0 <= d <= 9) as Hd9 by nia. destruct (Z.leb_spec d 9); [|lia]. cbn [assert_ obind].
  destruct tl as [|x tl]; [rewrite app_nil_r in Hsize; lia|]. rewrite store_app. cbn [obind].
  assert (10 ^ (m + 1) * M = decimal (ds ++ [48 + d]) * O + r) as HM1.
  { rewrite decimal_snoc, Z.pow_add_r, Z.pow_1_r by lia. lia. }
  assert (delta * 10 = 10 ^ (m + 1) * delta0) as Ed1 by (rewrite Z.pow_add_r, Z.pow_1_r by lia; lia).
  destruct (Z.leb_spec r (delta * 10)) as [Hle|Hgt].
  - destruct (fractional_round ds (48 + d) tl de (dist * 10) (delta * 10) r (m + 1)) as (buf & -> & Hg); try done; try lia.
    cbn [obind]. eexists. split; [done|]. rewrite !length_app in *. exact Hg.
  - destruct (IH (ds ++ [48 + d]) tl r (dist * 10) (delta * 10) (m + 1)) as (g & E & Hg); try done; try lia.
    + apply digits_app; [done|lia].
    + by apply leading_app.
    + rewrite <- app_assoc. rewrite !length_app in *. done.
    + rewrite length_app. cbn [length]. lia.
    + exists g. rewrite <- app_assoc, length_app in E. cbn [app length] in E. rewrite Nat2Z.inj_add in E. split; [exact E|].
      replace (length (ds ++ x :: tl)) with (length ((ds ++ [48 + d]) ++ tl)); [exact Hg|].
      rewrite !length_app. cbn [length]. lia.
Qed.
End Loops.

(** ** The digits of a number *)

Lemma find_largest_pow10_spec n :
  0 < n < 2 ^ 32 ->
  exists k : nat, find_largest_pow10 n = (Z.of_nat k, 10 ^ Z.of_nat k / 10) /\ (1 <= k <= 10)%nat /\
    10 ^ (Z.of_nat k - 1) <= n < 10 ^ Z.of_nat k.
Proof.
  intros Hn. unfold find_largest_pow10.
  repeat match goal with |- context [?a <=? n] => destruct (Z.leb_spec a n) end;
    match goal with |- context [(?k, _) = _] => exists (Z.to_nat k) end; (split; [done|]; split; [lia|]);
    rewrite Z2Nat.id by done; lia.
Qed.

Lemma digit_gen_ok buffer de P Mm W Mp :
  -60 <= P <= -32 -> 0 < Mm <= W -> W <= Mp -> 2 ^ 61 <= Mp < 2 ^ 64 -> Mp <= 10 ^ 16 * (Mp - Mm) ->
  (17 <= length buffer)%nat ->
  exists g, grisu2_digit_gen buffer 0 de (mk Mm P) (mk W P) (mk Mp P) = Ret g /\
    generates Mp (Mp - Mm) (2 ^ (- P)) de (length buffer) g.
Proof.
  intros HP Hm HW Hp Hwide Hlen. set (s := - P). set (O := 2 ^ s).
  assert (32 <= s <= 60) as Hs by lia. pose proof (O_range s O Hs eq_refl) as HOr.
  unfold grisu2_digit_gen, diyfp.sub, kAlpha, kGamma. cbn [diyfp.e diyfp.f].
  replace (-60 <=? P) with true by lia. replace (P <=? -32) with true by lia. rewrite Z.eqb_refl.
  replace (Mm <=? Mp) with true by lia. replace (W <=? Mp) with true by lia. cbn [assert_ obind diyfp.f].
  fold s. rewrite Z.shiftl_mul_pow2, Z.mul_1_l by lia. fold O.
  rewrite (wrap_small 64 O), (wrap_small 64 (Mp - Mm)), (wrap_small 64 (Mp - W)) by (unfold in_width; lia).
  rewrite Z.shiftr_div_pow2 by lia. replace (O - 1) with (2 ^ s - 1) by lia. rewrite land_low by lia. fold O.
  pose proof (Z.div_mod Mp O ltac:(lia)) as Hdm. pose proof (Z.mod_pos_bound Mp O ltac:(lia)) as Hmod.
  set (p1 := Mp / O) in *. set (p2 := Mp mod O) in *.
  assert (0 < p1 < 2 ^ 32) as Hp1 by nia. rewrite wrap_small by (unfold in_width; lia).
  replace (0 <? p1) with true by lia. cbn [assert_ obind].
  destruct (find_largest_pow10_spec p1 Hp1) as (k & -> & Hk & Hpk). rewrite Nat2Z.id.
  replace P with (- s) by lia.
  destruct (integral_digits_ok s O Mp Hs eq_refl ltac:(lia) k [] buffer de p1 p2 (Mp - W) (Mp - Mm)) as (r & E & Hr);
    try done; try (cbn; lia).
  { constructor. }
  { right. split; [done|]. split; lia. }
  change (Z.of_nat (length [])) with 0 in E. cbn [app] in E. rewrite E. cbn [obind].
  destruct r as [g|[buf len]]; [by exists g|].
  destruct Hr as (ds & tl & -> & -> & H3 & H4 & H5 & H6 & H7 & H8). replace (Mp - Mm <? p2) with true by lia. cbn [assert_ obind].
  destruct (fractional_digits_ok s O Mp (Mp - Mm) Hs eq_refl ltac:(lia) 64 ds tl de p2 (Mp - W) (Mp - Mm) 0) as (g & Eg & Hg);
    try done; try lia.
  { by rewrite H4. }
  exists g. split; [exact Eg|]. by rewrite H4 in Hg.
Qed.

(** The boundaries in units of the number. *)
Lemma boundaries_value m e k :
  1 <= k ->
  (toQ (minus_f m e k) * pow2 (e - 1 - k) == (toQ (Zpos m) - lower_gap m e) * pow2 e /\
   toQ ((2 * Zpos m + 1) * 2 ^ k) * pow2 (e - 1 - k) == (toQ (Zpos m) + (1#2)) * pow2 e)%Q.
Proof.
  intros Hk. pose proof (pow2_add (k + 1) (e - 1 - k)) as P1. pose proof (pow2_succ k) as P2.
  pose proof (pow2_succ (k - 1)) as P3. replace (k + 1 + (e - 1 - k)) with e in P1 by lia.
  replace (k - 1 + 1) with k in P3 by lia. rewrite P2 in P1.
  unfold minus_f, lower_gap, closer. destruct (_ && _);
    rewrite !toQ_mul, ?toQ_sub, !toQ_add, !toQ_mul, <- !pow2_Z by lia; q_const; rewrite P1, ?P3; split; ring.
Qed.

(** A number between the scaled boundaries lies, divided by the power of ten that
    they were scaled by, in the interior. *)
Lemma interior_unscaled m e k kc P Wm Wp D n :
  1 <= k -> P <= 0 ->
  (toQ (minus_f m e k) * pow2 (e - 1 - k) * pow10 kc < (toQ Wm + 1) * pow2 P)%Q ->
  ((toQ Wp - 1) * pow2 P < toQ ((2 * Zpos m + 1) * 2 ^ k) * pow2 (e - 1 - k) * pow10 kc)%Q ->
  (toQ (Wm + 1) <= toQ D * pow10 (n - - kc) * toQ (2 ^ (- P)) <= toQ (Wp - 1))%Q ->
  interior m e (toQ D * pow10 n).
Proof.
  intros Hk HP Qm Qp V. destruct (boundaries_value m e k Hk) as [B1 B2]. rewrite B1 in Qm. rewrite B2 in Qp.
  rewrite toQ_add, toQ_sub in V. q_const. rewrite <- pow2_Z in V by lia.
  replace (n - - kc) with (n + kc) in V by lia. rewrite pow10_add in V.
  pose proof (pow10_pos kc) as PT. pose proof (pow2_pos P) as PP.
  pose proof (pow2_add (- P) P) as Hone. replace (- P + P) with 0 in Hone by lia. rewrite pow2_0 in Hone.
  assert (toQ D * (pow10 n * pow10 kc) * pow2 (- P) * pow2 P == toQ D * pow10 n * pow10 kc)%Q as HV.
  { transitivity (toQ D * (pow10 n * pow10 kc) * (pow2 (- P) * pow2 P))%Q; [ring|]. rewrite <- Hone. ring. }
  destruct V as [V1 V2]. apply (mul_le_r _ _ _ PP) in V1, V2. rewrite HV in V1, V2.
  split; apply (mul_lt_r_inv _ _ _ PT); lra.
Qed.

(** Grisu2 on a positive finite number. *)
Lemma grisu2_ok m e buf :
  bounded 53 1024 m e = true -> (17 <= length buf)%nat ->
  exists ds tl n, grisu2 buf 0 (S754_finite false m e) = Ret (ds ++ tl, Z.of_nat (length ds), n) /\
    digits ds /\ leading ds /\ (length ds <= 17)%nat /\ length (ds ++ tl) = length buf /\
    interior m e (toQ (decimal ds) * pow10 n).
Proof.
  intros Hb Hlen. destruct (compute_boundaries_spec m e Hb) as (k & Hk & Hf & E). unfold grisu2. rewrite E. cbn [obind].
  destruct (bounded_spec m e Hb) as (Hm & He & _).
  destruct (get_cached_power_spec (e - 1 - k) ltac:(lia)) as (c & Ec & Hce & Hcf & _ & Hacc).
  unfold grisu2_scaled. cbn [minus plus w diyfp.e]. rewrite !Z.eqb_refl. cbn [assert_ obind]. rewrite Ec. cbn [obind].
  pose proof (minus_f_range m e k Hk Hf) as Hmin.
  destruct (scale_interval m e k (cp_f c) Hm Hk Hf Hcf) as [S1 S2 S3 S4].
  set (P := e - 1 - k + cp_e c + 64).
  assert (forall x, 0 <= x < 2 ^ 64 ->
    diyfp.mul (mk x (e - 1 - k)) (mk (cp_f c) (cp_e c)) = mk (mul_f x (cp_f c)) P /\ 0 <= mul_f x (cp_f c) < 2 ^ 64) as Hmul.
  { intros x Hx. destruct (mul_spec (mk x (e - 1 - k)) (mk (cp_f c) (cp_e c))) as [-> Hu]; cbn; [done|unfold in_width; lia|].
    split; [done|]. exact Hu. }
  destruct (Hmul (2 * Zpos m * 2 ^ k)) as [-> _]; [lia|].
  destruct (Hmul (minus_f m e k)) as [-> _]; [lia|].
  destruct (Hmul ((2 * Zpos m + 1) * 2 ^ k)) as [-> Hu]; [lia|]. cbn [diyfp.f diyfp.e].
  destruct (mul_f_error (minus_f m e k) (e - 1 - k) c (pow10 (cp_k c)) ltac:(lia) Hacc) as [_ Qm].
  destruct (mul_f_error ((2 * Zpos m + 1) * 2 ^ k) (e - 1 - k) c (pow10 (cp_k c)) ltac:(lia) Hacc) as [Qp _].
  fold P in Qm, Qp. set (Wm := mul_f (minus_f m e k) (cp_f c)) in *. set (Wp := mul_f ((2 * Zpos m + 1) * 2 ^ k) (cp_f c)) in *.
  rewrite !wrap_small by (unfold in_width; lia).
  destruct (digit_gen_ok buf (- cp_k c) P (Wm + 1) (mul_f (2 * Zpos m * 2 ^ k) (cp_f c)) (Wp - 1))
    as (g & Eg & ds & tl & n & -> & Hd & Hl & H17 & Hsize & V); try done; try lia.
  rewrite Eg. exists ds, tl, n. split; [done|]. do 4 (split; [done|]).
  replace (Wp - 1 - (Wp - 1 - (Wm + 1))) with (Wm + 1) in V by lia.
  by apply (interior_unscaled m e k (cp_k c) P Wm Wp); try lia.
Qed.

(** C23: Grisu2 on every positive finite [double]: it ends, fails no assertion, and
    leaves in the buffer at most 17 digits, the first of them not zero, and an
    exponent, whose number lies strictly between the midpoints to the next smaller
    and the next larger [double]: every correct reader rounds it to the same
    [double]. *)
Theorem grisu2_digits m e buf :
  bounded 53 1024 m e = true -> (17 <= length buf)%nat ->
  exists ds tl n, grisu2 buf 0 (S754_finite false m e) = Ret (ds ++ tl, Z.of_nat (length ds), n) /\
    digits ds /\ leading ds /\ (length ds <= 17)%nat /\ length (ds ++ tl) = length buf /\
    interior m e (toQ (decimal ds) * pow10 n).
Proof. apply grisu2_ok. Qed.

Lemma grisu2_digits_witness :
  exists ds tl n, grisu2 (replicate 64 0) 0 (S754_finite false 5404319552844595 (-54)) = Ret (ds ++ tl, Z.of_nat (length ds), n) /\
    interior 5404319552844595 (-54) (toQ (decimal ds) * pow10 n).
Proof.
  destruct (grisu2_digits 5404319552844595 (-54) (replicate 64 0) eq_refl ltac:(cbn; lia)) as (ds & tl & n & E & _ & _ & _ & _ & H).
  exact (ex_intro _ ds (ex_intro _ tl (ex_intro _ n (conj E H)))).
Defined.
