(* ===== verification/FloatText.v ===== *)
(** * The texts of floating-point numbers

    [to_chars] lays the digits of Grisu2 out in the buffer without leaving it; the
    text is a number of RFC 8259 with a fraction or an exponent, and [strtod] reads
    it back as the same [double]. *)

From Stdlib Require Import ZArith Lia String Ascii QArith Qpower Lqa SpecFloat.
From stdpp Require Import base list.
From S2P Require Import Prelude Utf8 Exceptions JsonValue ToChars JsonLexer JsonNumbers JsonDigits Powers Binary64 Strtod Grisu.

(** ** Writing to the buffer *)

Lemma list_split_at {A} (l : list A) n : (n <= length l)%nat -> exists a b, l = a ++ b /\ length a = n.
Proof. intros H. exists (take n l), (drop n l). by rewrite take_drop, length_take_le. Qed.

Lemma store_push pre x tl i c : i = Z.of_nat (length pre) -> store (pre ++ x :: tl) i c = Ret ((pre ++ [c]) ++ tl).
Proof. intros ->. by rewrite store_app, <- app_assoc. Qed.

Lemma memset_app a b tl at_ c n :
  at_ = Z.of_nat (length a) -> n = Z.of_nat (length b) -> memset (a ++ b ++ tl) at_ c n = Ret (a ++ replicate (length b) c ++ tl).
Proof.
  intros -> ->. unfold memset. rewrite !length_app.
  repeat (rewrite (proj2 (Z.leb_le _ _)) by lia). cbn [andb]. rewrite <- Nat2Z.inj_add, !Nat2Z.id.
  by rewrite take_app_length, (app_assoc a b tl), drop_app_length' by (by rewrite length_app).
Qed.

(** A copy of [x] from behind [q] to behind [p]. *)
Lemma memmove_app buf p y r' q x r dst src n :
  buf = p ++ y ++ r' -> buf = q ++ x ++ r -> length x = length y ->
  dst = Z.of_nat (length p) -> src = Z.of_nat (length q) -> n = Z.of_nat (length x) ->
  memmove buf dst src n = Ret (p ++ x ++ r').
Proof.
  intros Ep Eq Hl -> -> ->. unfold memmove.
  assert (length buf = length p + (length x + length r'))%nat as Lp by (rewrite Ep, !length_app; lia).
  assert (length buf = length q + (length x + length r))%nat as Lq by (rewrite Eq, !length_app; lia).
  repeat (rewrite (proj2 (Z.leb_le _ _)) by lia). cbn [andb]. rewrite <- Nat2Z.inj_add, !Nat2Z.id.
  rewrite Eq at 2. rewrite drop_app_length, take_app_length.
  rewrite Ep, take_app_length, (app_assoc p y r'), drop_app_length' by (rewrite length_app; lia). done.
Qed.

(** ** The layout *)

(** The digits of an exponent, at least two. *)
Definition exponent_digits (k : Z) : bytes :=
  if k <? 10 then [48; 48 + k]
  else if k <? 100 then [48 + k / 10; 48 + k mod 10]
  else [48 + k / 100; 48 + k mod 100 / 10; 48 + k mod 100 mod 10].

Definition exponent_layout (e : Z) : bytes := (if e <? 0 then [45] else [43]) ++ exponent_digits (Z.abs e).

(** The digits [ds] with the decimal point at place [n]. *)
Definition layout (ds : bytes) (n : Z) : bytes :=
  let k := Z.of_nat (length ds) in
  if (k <=? n) && (n <=? 15) then ds ++ replicate (Z.to_nat (n - k)) 48 ++ [46; 48]
  else if (0 <? n) && (n <=? 15) then take (Z.to_nat n) ds ++ 46 :: drop (Z.to_nat n) ds
  else if (-4 <? n) && (n <=? 0) then [48; 46] ++ replicate (Z.to_nat (- n)) 48 ++ ds
  else take 1 ds ++ (if k =? 1 then [] else 46 :: drop 1 ds) ++ 101 :: exponent_layout (n - 1).

Lemma append_exponent_ok pre tl e :
  -1000 < e < 1000 -> (4 <= length tl)%nat ->
  exists tl', append_exponent (pre ++ tl) (Z.of_nat (length pre)) e =
    Ret ((pre ++ exponent_layout e) ++ tl', Z.of_nat (length (pre ++ exponent_layout e))) /\
    length ((pre ++ exponent_layout e) ++ tl') = length (pre ++ tl).
Proof.
  intros He Htl. destruct tl as [|x0 [|x1 [|x2 [|x3 tl]]]]; [cbn in Htl; lia..|].
  unfold append_exponent. replace (-1000 <? e) with true by lia. replace (e <? 1000) with true by lia. cbn [assert_ obind].
  rewrite store_push by done. cbn [obind]. unfold exponent_layout, exponent_digits.
  set (sg := if e <? 0 then 45 else 43). replace (if e <? 0 then [45] else [43]) with [sg] by (unfold sg; by case_cond).
  assert (forall p, Z.of_nat (length (pre ++ p)) = Z.of_nat (length pre) + Z.of_nat (length p)) as L
    by (intros p; rewrite length_app; lia).
  destruct (Z.abs e <? 10); [exists (x3 :: tl)|destruct (Z.abs e <? 100); [exists (x3 :: tl)|exists tl]];
    repeat (rewrite store_push by (rewrite !length_app; cbn [length]; lia); cbn [obind]);
    rewrite <- !app_assoc, !length_app; cbn [app length]; (split; [do 2 f_equal; lia|done]).
Qed.

(** The buffer [buf] has been filled with [text]. *)
Definition filled (buf text : bytes) (r : cpp (bytes * Z)) : Prop :=
  exists tl', r = Ret (text ++ tl', Z.of_nat (length text)) /\ length (text ++ tl') = length buf.

Lemma filled_intro buf text tl' last :
  length (text ++ tl') = length buf -> last = Z.of_nat (length text) -> filled buf text (Ret (text ++ tl', last)).
Proof. intros H ->. by exists tl'. Qed.

Section Layout.
Context (ds tl : bytes).
Context (Hds : (1 <= length ds <= 17)%nat) (Htl : (30 <= length tl)%nat).

Lemma fixed_large n :
  Z.of_nat (length ds) <= n -> n <= 15 ->
  filled (ds ++ tl) (ds ++ replicate (Z.to_nat (n - Z.of_nat (length ds))) 48 ++ [46; 48])
    (let* buf := memset (ds ++ tl) (Z.of_nat (length ds)) 48 (n - Z.of_nat (length ds)) in
     let* buf := store buf (n + 0) 46 in let* buf := store buf (n + 1) 48 in Ret (buf, n + 2)).
Proof.
  intros Hn H15. set (z := Z.to_nat (n - Z.of_nat (length ds))).
  destruct (list_split_at tl z ltac:(lia)) as (b & t & -> & Hb). rewrite length_app in Htl.
  destruct t as [|x0 [|x1 t]]; [cbn in Htl; lia..|].
  rewrite (memset_app ds b) by lia. cbn [obind]. rewrite Hb, (app_assoc ds (replicate z 48) (x0 :: x1 :: t)).
  rewrite store_push by (rewrite length_app, length_replicate; lia). cbn [obind].
  rewrite store_push by (rewrite !length_app, length_replicate; cbn [length]; lia). cbn [obind].
  replace ((((ds ++ replicate z 48) ++ [46]) ++ [48]) ++ t) with ((ds ++ replicate z 48 ++ [46; 48]) ++ t)
    by (rewrite <- !app_assoc; done).
  apply filled_intro; rewrite !length_app, length_replicate; cbn [length]; lia.
Qed.

Lemma fixed_small n :
  0 < n -> n < Z.of_nat (length ds) ->
  filled (ds ++ tl) (take (Z.to_nat n) ds ++ 46 :: drop (Z.to_nat n) ds)
    (let* buf := memmove (ds ++ tl) (n + 1) n (Z.of_nat (length ds) - n) in
     let* buf := store buf n 46 in Ret (buf, Z.of_nat (length ds) + 1)).
Proof.
  intros Hn Hk. destruct (list_split_at ds (Z.to_nat n) ltac:(lia)) as (a & b & -> & Ha). rewrite <- Ha.
  rewrite take_app_length, drop_app_length. rewrite length_app in Hds, Hk |- *.
  destruct b as [|y b]; [cbn [length] in Hk; lia|]. destruct tl as [|t0 t]; [cbn in Htl; lia|].
  assert (exists Y, b ++ [t0] = Y /\ length Y = length (y :: b)) as (Y & EY & LY)
    by (eexists; split; [done|]; rewrite length_app; cbn; lia).
  rewrite (memmove_app _ (a ++ [y]) Y t a (y :: b) (t0 :: t)); cbn [obind].
  - replace ((a ++ [y]) ++ (y :: b) ++ t) with (a ++ y :: (y :: b) ++ t) by (rewrite <- app_assoc; done).
    rewrite store_push by lia. cbn [obind].
    replace ((a ++ [46]) ++ (y :: b) ++ t) with ((a ++ 46 :: y :: b) ++ t) by (rewrite <- !app_assoc; done).
    apply filled_intro; rewrite !length_app; cbn [length]; lia.
  - rewrite <- EY, <- !app_assoc. done.
  - by rewrite <- app_assoc.
  - by rewrite LY.
  - rewrite length_app. cbn. lia.
  - lia.
  - rewrite Nat2Z.inj_add. lia.
Qed.

Lemma fixed_zero n :
  -4 < n -> n <= 0 ->
  filled (ds ++ tl) ([48; 46] ++ replicate (Z.to_nat (- n)) 48 ++ ds)
    (let* buf := memmove (ds ++ tl) (2 + - n) 0 (Z.of_nat (length ds)) in
     let* buf := store buf 0 48 in let* buf := store buf 1 46 in let* buf := memset buf 2 48 (- n) in
     Ret (buf, 2 + (- n) + Z.of_nat (length ds))).
Proof.
  intros H4 Hn. set (z := Z.to_nat (- n)).
  destruct (list_split_at (ds ++ tl) (2 + z)) as (p & r & Ep & Hp); [rewrite length_app; lia|].
  assert (length p + length r = length ds + length tl)%nat as Ltot by (rewrite <- !length_app; by rewrite Ep).
  destruct (list_split_at r (length ds) ltac:(lia)) as (y & r' & -> & Hy). rewrite length_app in Ltot.
  rewrite (memmove_app _ p y r' [] ds tl); try done; try lia. cbn [obind].
  destruct p as [|p0 [|p1 p]]; [cbn in Hp; lia..|]. cbn [length] in *.
  pose proof (store_push [] p0 (p1 :: p ++ ds ++ r') 0 48 eq_refl) as E0. cbn [app] in E0 |- *. rewrite E0. cbn [obind].
  pose proof (store_push [48] p1 (p ++ ds ++ r') 1 46 eq_refl) as Es. cbn [app] in Es. rewrite Es. cbn [obind].
  pose proof (memset_app [48; 46] p (ds ++ r') 2 48 (- n) eq_refl ltac:(lia)) as Em. cbn [app] in Em. rewrite Em. cbn [obind].
  replace (length p) with z by lia.
  replace (48 :: 46 :: replicate z 48 ++ ds ++ r') with ((48 :: 46 :: replicate z 48 ++ ds) ++ r')
    by (cbn [app]; by rewrite <- app_assoc).
  apply filled_intro; cbn [app length]; rewrite !length_app, length_replicate; lia.
Qed.

Lemma scientific n :
  -1000 < n - 1 < 1000 ->
  filled (ds ++ tl)
    (take 1 ds ++ (if Z.of_nat (length ds) =? 1 then [] else 46 :: drop 1 ds) ++ 101 :: exponent_layout (n - 1))
    (let* (buf, at_) :=
       if Z.of_nat (length ds) =? 1 then Ret (ds ++ tl, 1)
       else
         let* buf := memmove (ds ++ tl) 2 1 (Z.of_nat (length ds) - 1) in
         let* buf := store buf 1 46 in
         Ret (buf, 1 + Z.of_nat (length ds)) in
     let* buf := store buf at_ 101 in append_exponent buf (at_ + 1) (n - 1)).
Proof.
  intros Hn. assert (exists mid t, (if Z.of_nat (length ds) =? 1 then Ret (ds ++ tl, 1)
       else
         let* buf := memmove (ds ++ tl) 2 1 (Z.of_nat (length ds) - 1) in
         let* buf := store buf 1 46 in
         Ret (buf, 1 + Z.of_nat (length ds))) = Ret (mid ++ t, Z.of_nat (length mid)) :> cpp (bytes * Z) /\
     mid = take 1 ds ++ (if Z.of_nat (length ds) =? 1 then [] else 46 :: drop 1 ds) /\
     length (mid ++ t) = length (ds ++ tl) /\ (6 <= length t)%nat) as (mid & t & -> & Emid & Ht & Ht6).
  { destruct ds as [|c b]; [cbn in Hds; lia|]. destruct (Z.eqb_spec (Z.of_nat (length (c :: b))) 1) as [E1|E1].
    - destruct b; [|cbn in E1; lia]. exists [c], tl. do 3 (split; [done|]). lia.
    - destruct b as [|y b]; [cbn in E1; lia|]. destruct tl as [|t0 t]; [cbn in Htl; lia|].
      exists (c :: 46 :: y :: b), t.
      assert (exists Y, b ++ [t0] = Y /\ length Y = length (y :: b)) as (Y & EY & LY)
        by (eexists; split; [done|]; rewrite length_app; cbn; lia).
      rewrite (memmove_app _ [c; y] Y t [c] (y :: b) (t0 :: t)); cbn [obind app].
      + pose proof (store_push [c] y (y :: b ++ t) 1 46 eq_refl) as Es. cbn [app] in Es. rewrite Es. cbn [obind length take drop].
        split; [do 2 f_equal; lia|]. split; [done|]. rewrite !length_app. cbn [length] in *.
        lia.
      + rewrite <- EY, <- app_assoc. done.
      + done.
      + by rewrite LY.
      + done.
      + done.
      + cbn [length]. lia. }
  cbn [obind]. destruct t as [|t0 t]; [cbn in Ht6; lia|]. rewrite store_push by done. cbn [obind].
  replace (Z.of_nat (length mid) + 1) with (Z.of_nat (length (mid ++ [101]))) by (rewrite length_app; cbn; lia).
  destruct (append_exponent_ok (mid ++ [101]) t (n - 1) Hn ltac:(cbn in Ht6; lia)) as (t' & -> & L).
  rewrite app_assoc, <- Emid. replace (mid ++ 101 :: exponent_layout (n - 1)) with ((mid ++ [101]) ++ exponent_layout (n - 1))
    by by rewrite <- app_assoc.
  apply filled_intro; [|done]. rewrite L, <- Ht, !length_app. cbn [length]. lia.
Qed.

Lemma format_buffer_ok de :
  -1000 < Z.of_nat (length ds) + de - 1 < 1000 ->
  filled (ds ++ tl) (layout ds (Z.of_nat (length ds) + de)) (format_buffer (ds ++ tl) (Z.of_nat (length ds)) de (-4) 15).
Proof.
  intros Hn. unfold format_buffer, layout. set (n := Z.of_nat (length ds) + de) in *.
  change (-4 <? 0) with true. change (0 <? 15) with true. cbn [assert_ obind].
  destruct ((_ <=? n) && (n <=? 15)) eqn:C1; [bool_prop; by apply fixed_large|].
  destruct ((0 <? n) && (n <=? 15)) eqn:C2.
  { bool_prop. assert (n < Z.of_nat (length ds)) as Hlt.
    { apply andb_false_iff in C1 as [C1|C1]; bool_prop; lia. }
    replace (n <? Z.of_nat (length ds)) with true by lia. cbn [assert_ obind]. by apply fixed_small. }
  destruct ((-4 <? n) && (n <=? 0)) eqn:C3; [bool_prop; by apply fixed_zero|]. by apply scientific.
Qed.
End Layout.

(** ** The value of the text *)

Lemma exponent_digits_spec k :
  0 <= k < 1000 -> digits (exponent_digits k) /\ exponent_digits k <> [] /\ decimal (exponent_digits k) = k.
Proof.
  intros Hk. unfold exponent_digits, digits. destruct (Z.ltb_spec k 10); [|destruct (Z.ltb_spec k 100)].
  all: pose proof (Z.div_mod k 10 ltac:(lia)); pose proof (Z.mod_pos_bound k 10 ltac:(lia));
    pose proof (Z.div_mod k 100 ltac:(lia)); pose proof (Z.mod_pos_bound k 100 ltac:(lia));
    pose proof (Z.div_mod (k mod 100) 10 ltac:(lia)); pose proof (Z.mod_pos_bound (k mod 100) 10 ltac:(lia)).
  all: split; [repeat constructor; apply in_range_spec; lia|]; split; [done|]; unfold decimal; cbn [fold_left]; lia.
Qed.

Lemma exponent_layout_text e : -1000 < e < 1000 -> exponent_text (101 :: exponent_layout e) e.
Proof.
  intros He. destruct (exponent_digits_spec (Z.abs e) ltac:(lia)) as (H1 & H2 & H3). unfold exponent_layout.
  destruct (Z.ltb_spec e 0) as [Hn|Hn]; cbn [app].
  - pose proof (minus_exponent 101 _ eq_refl H1 H2) as H. rewrite H3 in H. by replace (- Z.abs e) with e in H by lia.
  - pose proof (plus_exponent 101 _ eq_refl H1 H2) as H. rewrite H3 in H. by replace (Z.abs e) with e in H at 2 by lia.
Qed.

Lemma leading_natural ds : digits ds -> leading ds -> natural ds.
Proof. destruct ds as [|c ds]; [done|]. intros Hd Hl. split; [done|]. intros ->. done. Qed.

(** A number text with the sign given. *)
Definition signed (neg : bool) (s : bytes) : bytes := (if neg then [45] else []) ++ s.

(** The layout of the digits is a number with their value. *)
Lemma layout_text neg ds n :
  digits ds -> leading ds -> -1000 < n - 1 < 1000 ->
  exists ip fp x, float_text (signed neg (layout ds n)) neg ip fp x /\
    (toQ (decimal (ip ++ fp)) * pow10 (x - Z.of_nat (length fp)) == toQ (decimal ds) * pow10 (n - Z.of_nat (length ds)))%Q.
Proof.
  intros Hd Hl Hn. unfold layout, signed. set (k := Z.of_nat (length ds)).
  destruct ((k <=? n) && (n <=? 15)) eqn:C1; [|destruct ((0 <? n) && (n <=? 15)) eqn:C2; [|destruct ((-4 <? n) && (n <=? 0)) eqn:C3]].
  - bool_prop. set (z := Z.to_nat (n - k)). exists (ds ++ replicate z 48), [48], 0. split.
    + pose proof (float_parts neg (ds ++ replicate z 48) [46; 48] [48] [] 0) as Hf. rewrite app_nil_r, <- app_assoc in Hf.
      apply Hf; [|by repeat constructor|constructor|done]. apply leading_natural; [|by apply leading_app].
      apply Forall_app. split; [done|apply digits_zeros].
    + rewrite decimal_snoc, decimal_app, decimal_zeros, length_replicate. cbn [length].
      replace ((decimal ds * 10 ^ Z.of_nat z + 0) * 10 + (48 - 48)) with (decimal ds * 10 ^ (n - k + 1))
        by (rewrite Z.pow_add_r by lia; replace (Z.of_nat z) with (n - k) by lia; lia).
      rewrite toQ_mul, <- pow10_Z by lia. rewrite <- Qmult_assoc, <- pow10_add.
      by replace (n - k + 1 + (0 - Z.of_nat 1)) with (n - k) by lia.
  - bool_prop. assert (Z.to_nat n < length ds)%nat as Hlt by (apply andb_false_iff in C1 as [C1|C1]; bool_prop; lia).
    exists (take (Z.to_nat n) ds), (drop (Z.to_nat n) ds), 0. rewrite take_drop, length_drop. split.
    + pose proof (float_parts neg (take (Z.to_nat n) ds) (46 :: drop (Z.to_nat n) ds) (drop (Z.to_nat n) ds) [] 0) as Hf.
      rewrite app_nil_r in Hf. apply Hf; [| |constructor|done].
      * apply leading_natural; [by apply Forall_take|]. destruct ds as [|c ds]; [done|].
        destruct (Z.to_nat n) eqn:E; [lia|done].
      * constructor; [by apply Forall_drop|]. intros E. apply (f_equal length) in E. rewrite length_drop in E. cbn in E. lia.
    + by replace (0 - Z.of_nat (length ds - Z.to_nat n)) with (n - k) by lia.
  - bool_prop. exists [48], (replicate (Z.to_nat (- n)) 48 ++ ds), 0. split.
    + pose proof (float_parts neg [48] (46 :: replicate (Z.to_nat (- n)) 48 ++ ds) (replicate (Z.to_nat (- n)) 48 ++ ds) [] 0) as Hf.
      rewrite app_nil_r in Hf. apply Hf; [by repeat constructor| |constructor|done].
      constructor; [apply Forall_app; split; [apply digits_zeros|done]|]. destruct ds; [done|]. by destruct (Z.to_nat (- n)).
    + cbn [app]. rewrite decimal_cons, decimal_app, decimal_zeros, length_app, length_replicate.
      replace ((48 - 48) * _ + (0 * _ + decimal ds)) with (decimal ds) by lia.
      by replace (0 - Z.of_nat (Z.to_nat (- n) + length ds)) with (n - k) by lia.
  - destruct ds as [|c b]; [done|]. cbn [take drop app]. exists [c], b, (n - 1). split.
    + pose proof (exponent_layout_text (n - 1) Hn) as Hex.
      assert (natural [c]) as Hc by (apply leading_natural; [constructor; [by inversion Hd|constructor]|done]).
      destruct (Z.eqb_spec k 1) as [E|E].
      * destruct b; [|cbn in k; lia]. pose proof (float_parts neg [c] [] [] _ _ Hc no_fraction Hex) as Hf. by apply Hf.
      * pose proof (float_parts neg [c] (46 :: b) b (101 :: exponent_layout (n - 1)) (n - 1) Hc) as Hf. cbn [app] in Hf. apply Hf; [|done|done].
        constructor; [by inversion Hd|]. intros ->. done.
    + cbn [app]. replace (n - 1 - Z.of_nat (length b)) with (n - k); [done|]. unfold k. cbn [length]. lia.
Qed.

Lemma layout_length ds n : (length ds <= 17)%nat -> (length (layout ds n) <= 23)%nat.
Proof.
  intros Hk. unfold layout, exponent_layout, exponent_digits.
  repeat case_cond; bool_prop;
    rewrite ?length_app, ?length_replicate, ?length_take, ?length_drop; cbn [length];
    rewrite ?length_app, ?length_drop; cbn [length]; lia.
Qed.

(** ** to_chars *)

(** The position of the decimal point of a number in the interior of a [double]. *)
Lemma point_range f ev ds n :
  bounded 53 1024 f ev = true -> digits ds -> leading ds -> interior f ev (toQ (decimal ds) * pow10 n)%Q ->
  -1000 < Z.of_nat (length ds) + n - 1 < 1000.
Proof.
  intros Hb Hd Hl HX. destruct (interior_range f ev _ Hb HX) as [R1 R2].
  pose proof (decimal_leading ds Hd Hl) as Hlow. destruct (decimal_bound ds Hd) as [_ Hup].
  set (k := Z.of_nat (length ds)) in *. assert (1 <= k) by (destruct ds; [done|cbn in k; lia]).
  apply toQ_le, (mul_le_r _ _ _ (pow10_pos n)) in Hlow. apply toQ_lt, (mul_lt_r _ _ _ (pow10_pos n)) in Hup.
  rewrite <- pow10_Z, <- pow10_add in Hlow by lia. rewrite <- pow10_Z, <- pow10_add in Hup by lia.
  assert (k - 1 + n < 309) by (apply pow10_lt_inv; lra). assert (-324 < k + n) by (apply pow10_lt_inv; lra). lia.
Qed.

(** What [to_chars] writes for a finite [double]: a text of a number with a fraction
    or an exponent that [strtod] reads as the same [double]. *)
Definition float_layout (x : number_float_t) (text : bytes) : Prop :=
  (exists neg ip fp e, float_text text neg ip fp e) /\ strtod text = x.

Lemma to_chars_abs_ok (neg : bool) m e buf :
  bounded 53 1024 m e = true -> (63 <= length buf)%nat ->
  exists text, filled buf text (to_chars_abs buf (S754_finite false m e)) /\ (length text <= 23)%nat /\
    float_layout (S754_finite neg m e) (signed neg text).
Proof.
  intros Hb Hlen. destruct (grisu2_ok m e buf Hb ltac:(lia)) as (ds & tl & n & E & Hd & Hl & H17 & Hsize & HX).
  pose proof (point_range m e ds n Hb Hd Hl HX) as Hn.
  assert (1 <= length ds)%nat by (destruct ds; [done|cbn; lia]).
  exists (layout ds (Z.of_nat (length ds) + n)). split.
  - unfold to_chars_abs. rewrite E. repeat (rewrite (proj2 (Z.leb_le _ _)) by lia; cbn [assert_ obind]).
    rewrite length_app in Hsize. destruct (format_buffer_ok ds tl ltac:(lia) ltac:(lia) n Hn) as (tl' & Ef & Hf).
    exists tl'. split; [exact Ef|]. rewrite Hf, length_app. done.
  - split; [by apply layout_length|]. destruct (layout_text neg ds (Z.of_nat (length ds) + n) Hd Hl Hn) as (ip & fp & x & Ht & Hv).
    split; [by exists neg, ip, fp, x|]. apply (strtod_interior _ neg ip fp x); [by apply float_number|done|].
    rewrite Hv. by replace (Z.of_nat (length ds) + n - Z.of_nat (length ds)) with n by lia.
Qed.

Lemma zero_layout neg : float_layout (S754_zero neg) (signed neg (str "0.0")).
Proof.
  split; [|by destruct neg]. exists neg, [48], [48], 0.
  pose proof (float_parts neg [48] [46; 48] [48] [] 0) as H. apply H; [by repeat constructor| |constructor|done].
  constructor; [by repeat constructor|done].
Qed.

Lemma zero_filled s buf : (3 <= length buf)%nat -> filled buf (str "0.0") (to_chars_abs buf (S754_zero s)).
Proof.
  intros Hlen. destruct buf as [|b0 [|b1 [|b2 buf]]]; [cbn in Hlen; lia..|]. unfold to_chars_abs.
  rewrite (store_push [] b0 (b1 :: b2 :: buf) 0 48 eq_refl : store (b0 :: b1 :: b2 :: buf) 0 48 = Ret (48 :: b1 :: b2 :: buf)).
  cbn [obind].
  rewrite (store_push [48] b1 (b2 :: buf) 1 46 eq_refl : store (48 :: b1 :: b2 :: buf) 1 46 = Ret (48 :: 46 :: b2 :: buf)).
  cbn [obind].
  rewrite (store_push [48; 46] b2 buf 2 48 eq_refl : store (48 :: 46 :: b2 :: buf) 2 48 = Ret (48 :: 46 :: 48 :: buf)).
  by exists buf.
Qed.

(** The buffer of 64 characters of the serializer is large enough. *)
Lemma to_chars_ok x buf :
  is_finite x = true -> valid_binary 53 1024 x = true -> length buf = 64%nat ->
  exists text, filled buf text (to_chars buf x) /\ (length text <= 24)%nat /\ float_layout x text.
Proof.
  intros Hfin Hv Hlen. destruct buf as [|b0 buf]; [done|]. injection Hlen as Hlen.
  assert (forall text, signbit x = true -> filled buf text (to_chars_abs buf (SFopp x)) ->
    filled (b0 :: buf) (45 :: text) (to_chars (b0 :: buf) x)) as Hneg.
  { intros text Hs (tl' & E & L). unfold to_chars. rewrite Hfin, Hs. cbn [assert_ obind].
    rewrite (store_app [] b0 buf 45 : store (b0 :: buf) 0 45 = Ret (45 :: buf)). cbn [obind tail take]. rewrite E. cbn [obind].
    exists tl'. split; [do 2 f_equal; cbn [length]; lia|]. cbn [app length]. by rewrite L. }
  destruct x as [s| | |s m e]; try done.
  - exists (signed s (str "0.0")). split; [|split; [destruct s; cbn; lia|apply zero_layout]]. destruct s.
    + apply Hneg; [done|]. apply zero_filled. lia.
    + apply (zero_filled false (b0 :: buf)). cbn. lia.
  - cbn in Hv. destruct s.
    + destruct (to_chars_abs_ok true m e buf Hv ltac:(lia)) as (text & Hf & Hlt & Ht). exists (signed true text).
      split; [by apply Hneg|]. split; [cbn; lia|done].
    + destruct (to_chars_abs_ok false m e (b0 :: buf) Hv ltac:(cbn; lia)) as (text & Hf & Hlt & Ht).
      exists text. split; [done|]. split; [lia|done].
Qed.

(** C6: [to_chars] writes every finite [double], zeros and subnormal numbers
    included, as a number of RFC 8259 with a fraction or an exponent, in at most 24
    of the 64 characters of the buffer and without failing an assertion; and
    [strtod] reads the text back as exactly the same [double]. *)
Theorem to_chars_reads_back x buf :
  is_finite x = true -> valid_binary 53 1024 x = true -> length buf = 64%nat ->
  exists text tl, to_chars buf x = Ret (text ++ tl, Z.of_nat (length text)) /\ length (text ++ tl) = 64%nat /\
    (length text <= 24)%nat /\ (exists neg ip fp e, float_text text neg ip fp e) /\ strtod text = x.
Proof.
  intros Hf Hv Hb. destruct (to_chars_ok x buf Hf Hv Hb) as (text & (tl & E & L) & Hlen & Ht & Hs).
  exists text, tl. rewrite Hb in L. done.
Qed.

Lemma to_chars_reads_back_witness :
  exists text tl, to_chars (replicate 64 0) (S754_finite true 5404319552844595 (-54)) =
      Ret (text ++ tl, Z.of_nat (length text)) /\ strtod text = S754_finite true 5404319552844595 (-54).
Proof.
  destruct (to_chars_reads_back (S754_finite true 5404319552844595 (-54)) (replicate 64 0) eq_refl eq_refl eq_refl)
    as (text & tl & E & _ & _ & _ & H).
  exact (ex_intro _ text (ex_intro _ tl (conj E H))).
Defined.

(** Examples: a fraction, an integer, the least and the greatest number. *)
Lemma to_chars_examples :
  map (fun x => match to_chars (replicate 64 0) x with Ret (b, n) => take (Z.to_nat n) b | _ => [] end)
    [S754_finite true 5404319552844595 (-54); S754_finite false 6755399441055744 (-50);
     S754_finite false 1 (-1074); S754_finite false 9007199254740991 971] =
    [str "-0.3"; str "6.0"; str "5e-324"; str "1.7976931348623157e+308"].
Proof. vm_compute. reflexivity. Qed.
