(* ===== verification/JsonParse.v ===== *)
(** * Parsing always ends

    [basic_json::parse] on any bytes: it returns a well-formed value or throws
    one of the two exceptions of the parser, and the stacks of the parser and of
    the DOM handler agree all the way, so that no assertion can fail. *)

From Stdlib Require Import ZArith Lia String Ascii SpecFloat.
From stdpp Require Import base list.
From S2P Require Import Prelude Utf8 Exceptions JsonValue JsonLexer JsonStrings JsonNumbers JsonScan JsonParser JsonDom Strtod.

(** The exceptions of the parser: a syntax error and a number out of range. *)
Definition parse_exception (e : exn) : Prop :=
  (exists byte what, e = parse_error 101 byte what) \/ (exists what, e = out_of_range 406 what).

(** A computation without undefined behaviour that throws only those. *)
Definition parses {A} (P : A -> Prop) (m : cpp A) : Prop :=
  match m with Ret a => P a | Throw e => parse_exception e | Undef => False end.

Lemma parses_bind {A B} (P : A -> Prop) (Q : B -> Prop) m (f : A -> cpp B) :
  parses P m -> (forall a, P a -> parses Q (f a)) -> parses Q (obind m f).
Proof. intros Hm Hf. destruct m; cbn in *; auto. Qed.

Lemma parses_ret {A} (P : A -> Prop) a : P a -> parses P (Ret a).
Proof. done. Qed.

Lemma syntax_error_parses {A} (P : A -> Prop) t c p : parses P (syntax_error t c p).
Proof. left. by eexists _, _. Qed.

#[local] Hint Resolve syntax_error_parses : core.

(** The last token is an error, or was read from the input; [k] bounds how many
    turns of the loop are left. *)
Definition token_read (k : nat) (p : parser) : Prop :=
  last_token p = tok_parse_error \/
  exists r b, lex_at 1 r b (m_lexer p) /\ token_ok (last_token p) (m_lexer p) /\
    (if bool_decide (last_token p = end_of_input) then length r <= k else length r < k)%nat.

(** The parser at the head of the loop: before a value, or after one. *)
Definition before_value (k : nat) (p : parser) : Prop :=
  skip_to_state_evaluation p = false /\ token_read k p /\ value_ok (states p) (sax p).

Definition after_value (k : nat) (p : parser) : Prop :=
  token_read k p /\ dom_ok (states p) (sax p) /\ last_token p <> tok_parse_error /\ last_token p <> end_of_input.

Definition loop_inv (k : nat) (p : parser) : Prop :=
  before_value k p \/ (skip_to_state_evaluation p = true /\ after_value k p).

(** Reading the next token after one that is neither an error nor the end. *)
Lemma get_token_ok k p :
  token_read (S k) p -> last_token p <> tok_parse_error -> last_token p <> end_of_input ->
  exists p', get_token p = Ret p' /\ sax p' = sax p /\ states p' = states p /\
    skip_to_state_evaluation p' = skip_to_state_evaluation p /\ token_read k p'.
Proof.
  intros [Ht|(r & b & Hl & _ & Hlen)] He Hi; [done|]. rewrite bool_decide_eq_false_2 in Hlen by done.
  destruct (scan_sound 1 r b (m_lexer p) ltac:(lia) Hl) as (t & l' & E & Ht).
  unfold get_token. rewrite E. eexists. split; [done|]. repeat (split; [done|]).
  destruct Ht as [->|(r' & b' & Hl' & Hok & Hr)]; [by left|right]. cbn.
  exists r', b'. split; [done|]. split; [done|].
  destruct (decide (t = end_of_input)) as [->|Hne].
  - rewrite bool_decide_eq_true_2 by done. lia.
  - rewrite bool_decide_eq_false_2 by done. destruct Hr as [Hr|[? _]]; [lia|done].
Qed.

Lemma token_read_pos k p :
  token_read k p -> last_token p <> tok_parse_error -> last_token p <> end_of_input -> exists k', k = S k'.
Proof.
  intros [?|(r & b & _ & _ & Hlen)] He Hi; [done|]. rewrite bool_decide_eq_false_2 in Hlen by done.
  destruct k as [|k]; [lia|by exists k].
Qed.

Lemma token_read_le k k' p : token_read k p -> (k <= k')%nat -> token_read k' p.
Proof.
  intros [H|(r & b & Hl & Hok & Hlen)] Hk; [by left|right]. exists r, b. repeat (split; [done|]).
  case_bool_decide; lia.
Qed.

(** The same with the payload of the token read. *)
Lemma token_read_ok k p :
  token_read k p -> last_token p <> tok_parse_error -> token_ok (last_token p) (m_lexer p).
Proof. by intros [?|(r & b & _ & Hok & _)] He. Qed.

(** An event that succeeds only replaces the value under construction. *)
Lemma event_ret f p d : f (sax p) = Ret d -> event f p = Ret (set_sax d p).
Proof. intros E. unfold event. by rewrite E. Qed.

(** A key with its separator. *)
Lemma parse_key_ok k p sts :
  token_read k p -> dom_ok (false :: sts) (sax p) ->
  parses (fun p' => exists k', k = S k' /\ token_read k' p' /\ last_token p' = name_separator /\
            states p' = states p /\ value_ok (false :: sts) (sax p') /\
            skip_to_state_evaluation p' = skip_to_state_evaluation p)
         (parse_key p).
Proof.
  intros Ht Hd. unfold parse_key. case_bool_decide as Es; cbn [negb]; [|done].
  assert (last_token p <> tok_parse_error /\ last_token p <> end_of_input) as [He Hi] by by rewrite Es.
  destruct (token_read_pos k p Ht He Hi) as [k' ->].
  pose proof (token_read_ok _ _ Ht He) as Hok. rewrite Es in Hok.
  destruct (sax_key_ok sts (sax p) _ Hd Hok) as (d & E & Hv). rewrite (event_ret _ _ _ E). cbn [obind].
  destruct (get_token_ok k' (set_sax d p)) as (p' & -> & E1 & E2 & E3 & Ht'); try done. cbn [obind].
  case_bool_decide as En; cbn [negb]; [|done]. cbn. exists k'.
  do 3 (split; [done|]). split; [exact E2|]. split; [by rewrite E1|exact E3].
Qed.

(** The switch on the first token of a value. *)
Definition value_read (k : nat) (f : flow) : Prop :=
  match f with
  | Continue p' => exists k', k = S k' /\ before_value k' p'
  | Break p' => after_value k p' /\ skip_to_state_evaluation p' = false
  end.

Lemma parse_scalar_ok k p : before_value k p -> parses (value_read k) (parse_scalar p).
Proof.
  intros (Hskip & Ht & Hv).
  assert (forall v, json_ok v -> last_token p <> tok_parse_error -> last_token p <> end_of_input ->
    parses (value_read k) (let* p' := event (sax_value v) p in Ret (Break p'))) as Hgo.
  { intros v Hj He Hi. destruct (sax_value_ok _ _ v Hv Hj) as (d & E & Hd). by rewrite (event_ret _ _ _ E). }
  unfold parse_scalar. destruct (last_token p) eqn:El; try done; try (by apply Hgo);
    pose proof (token_read_ok k p Ht ltac:(by rewrite El)) as Hok; rewrite El in Hok; try (by apply Hgo).
  destruct (is_finite (number_float (m_lexer p))) eqn:Ef; cbn [negb].
  { apply Hgo; [|done|done]. destruct Hok as [text Ev]. split; [done|]. rewrite Ev. apply strtod_valid. }
  right. by eexists.
Qed.

Lemma parse_value_ok k p : before_value k p -> parses (value_read k) (parse_value p).
Proof.
  intros Hb. pose proof Hb as (Hskip & Ht & Hv). unfold parse_value.
  destruct (last_token p) eqn:El; try (by apply parse_scalar_ok).
  - assert (last_token p <> tok_parse_error /\ last_token p <> end_of_input) as [He Hi] by by rewrite El.
    destruct (token_read_pos k p Ht He Hi) as [k' ->].
    destruct (start_container_ok _ _ true (JArray []) Hv I I) as (d & E & Hd).
    rewrite (event_ret start_array _ _ E). cbn [obind].
    destruct (get_token_ok k' (set_sax d p)) as (p' & -> & E1 & E2 & E3 & Ht'); try done. cbn [obind].
    cbn in E1, E2, E3. case_bool_decide as Ee.
    + rewrite <- E1, <- E2 in Hd. destruct (end_container_ok _ _ _ Hd) as (d' & E' & Hd').
      rewrite (event_ret _ _ _ E'). cbn. rewrite E3. split; [|done].
      split; [eapply (token_read_le k'); [exact Ht'|lia]|]. cbn. by rewrite Ee.
    + cbn. exists k'. split; [done|]. split; [exact (eq_trans E3 Hskip)|]. split; [done|]. cbn. rewrite E1, E2.
      by apply array_value_ok.
  - assert (last_token p <> tok_parse_error /\ last_token p <> end_of_input) as [He Hi] by by rewrite El.
    destruct (token_read_pos k p Ht He Hi) as [k' ->].
    destruct (start_container_ok _ _ false (JObject []) Hv (conj eq_refl I) I) as (d & E & Hd).
    rewrite (event_ret start_object _ _ E). cbn [obind].
    destruct (get_token_ok k' (set_sax d p)) as (p' & -> & E1 & E2 & E3 & Ht'); try done. cbn [obind].
    cbn in E1, E2, E3. case_bool_decide as Ee.
    + rewrite <- E1, <- E2 in Hd. destruct (end_container_ok _ _ _ Hd) as (d' & E' & Hd').
      rewrite (event_ret _ _ _ E'). cbn. rewrite E3. split; [|done].
      split; [eapply (token_read_le k'); [exact Ht'|lia]|]. cbn. by rewrite Ee.
    + eapply parses_bind; [apply (parse_key_ok k' p' (states p)); [done|by rewrite E1]|].
      cbn beta. intros p2 (k2 & -> & Ht2 & En & Es2 & Hv2 & Hs2).
      destruct (token_read_pos k2 p2 Ht2) as [k3 ->]; [by rewrite En..|].
      destruct (get_token_ok k3 (set_states (false :: states p2) p2)) as (p3 & -> & F1 & F2 & F3 & Ht3);
        try done; try (cbn; by rewrite En). cbn. exists (S (S k3)). split; [done|].
      split; [rewrite F3; cbn; congruence|]. split; [eapply (token_read_le k3); [done|lia]|].
      rewrite F1, F2. cbn. by rewrite Es2, E2.
Qed.

(** The evaluation of the state after a value. *)
Definition state_evaluated (k : nat) (p : parser) (o : option parser) : Prop :=
  match o with
  | None => states p = []
  | Some p' => exists k', k = S k' /\ loop_inv k' p'
  end.

Lemma evaluate_state_ok k p :
  after_value k p -> skip_to_state_evaluation p = false -> parses (state_evaluated k p) (evaluate_state p).
Proof.
  intros (Ht & Hd & He & Hi) Hskip. unfold evaluate_state. destruct (states p) as [|b sts] eqn:Est; [done|].
  destruct (token_read_pos k p Ht He Hi) as [k' ->].
  assert (forall p1 m, sax p1 = sax p -> token_read k' p1 -> (last_token p1 = end_array \/ last_token p1 = end_object) ->
    m = event end_container p1 ->
    parses (state_evaluated (S k') p) (let* p2 := m in Ret (Some (set_skip true (set_states sts p2))))) as Hend.
  { intros p1 m E1 Ht1 El ->. rewrite <- E1 in Hd. destruct (end_container_ok _ _ _ Hd) as (d & E & Hd').
    rewrite (event_ret _ _ _ E). cbn. exists k'. split; [done|]. right. split; [done|].
    split; [done|]. split; [done|]. cbn. by destruct El as [-> | ->]. }
  destruct (get_token_ok k' p) as (p1 & E1 & F1 & F2 & F3 & Ht1); try done.
  destruct b; rewrite E1; cbn [obind]; (case_bool_decide as Ev;
    [|case_bool_decide as Ee; [by eapply Hend; eauto|done]]).
  - destruct (token_read_pos k' p1 Ht1) as [k2 ->]; [by rewrite Ev..|].
    destruct (get_token_ok k2 p1) as (p2 & -> & G1 & G2 & G3 & Ht2); try done; try (by rewrite Ev).
    cbn. exists (S k2). split; [done|]. left. split; [congruence|].
    split; [eapply (token_read_le k2); [done|lia]|]. rewrite G1, G2, F1, F2, Est. by apply array_value_ok.
  - destruct (token_read_pos k' p1 Ht1) as [k2 ->]; [by rewrite Ev..|].
    destruct (get_token_ok k2 p1) as (p2 & -> & G1 & G2 & G3 & Ht2); try done; try (by rewrite Ev). cbn [obind].
    eapply parses_bind; [apply (parse_key_ok k2 p2 sts); [done|by rewrite G1, F1]|].
    cbn beta. intros p3 (k3 & -> & Ht3 & En & Es3 & Hv3 & Hs3).
    destruct (token_read_pos k3 p3 Ht3) as [k4 ->]; [by rewrite En..|].
    destruct (get_token_ok k4 p3) as (p4 & -> & H1 & H2 & H3 & Ht4); try done; try (by rewrite En).
    cbn. exists (S (S (S k4))). split; [done|]. left. split; [congruence|].
    split; [eapply (token_read_le k4); [done|lia]|]. by rewrite H1, H2, Es3, G2, F2, Est.
Qed.

(** A turn of the loop: it ends with the value complete, or goes on with less to
    read. *)
Lemma sax_parse_step_ok k p :
  loop_inv k p ->
  parses (fun '(p', ended) =>
            if ended : bool then after_value k p' /\ states p' = []
            else exists k', k = S k' /\ loop_inv k' p') (sax_parse_step p).
Proof.
  intros Hinv. unfold sax_parse_step.
  assert (parses (value_read k) (if skip_to_state_evaluation p then Ret (Break (set_skip false p)) else parse_value p))
    as Hf.
  { destruct Hinv as [Hb|[-> Ha]]; [rewrite (proj1 Hb); by apply parse_value_ok|by split]. }
  eapply parses_bind; [exact Hf|]. intros [p1|p1] H1.
  - destruct H1 as (k' & -> & Hb). exists k'. split; [done|by left].
  - destruct H1 as [Ha Hs]. eapply parses_bind; [by apply (evaluate_state_ok k)|].
    intros [p2|] H2; [done|by split].
Qed.

(** The loop ends within its fuel. *)
Lemma sax_parse_internal_ok fuel k p :
  loop_inv k p -> (k < fuel)%nat ->
  exists m, sax_parse_internal fuel p = Some m /\ parses (fun p' => exists k', after_value k' p' /\ states p' = []) m.
Proof.
  revert k p. induction fuel as [|fuel IH]; intros k p Hinv Hf; [lia|]. cbn [sax_parse_internal].
  pose proof (sax_parse_step_ok k p Hinv) as Hs. destruct (sax_parse_step p) as [[p' []]|e|]; cbn in Hs.
  - exists (Ret p'). split; [done|]. exists k. exact Hs.
  - destruct Hs as (k' & -> & Hinv'). apply (IH k' p' Hinv'). lia.
  - by exists (Throw e).
  - done.
Qed.

Lemma token_read_first input :
  Forall u8 input ->
  exists p, get_token (mk_parser uninitialized (new_lexer input) new_dom [] false) = Ret p /\
    loop_inv (S (length input)) p.
Proof.
  intros Hu. destruct (scan_sound 0 input [] (new_lexer input) ltac:(lia) (new_lexer_at _ Hu)) as (t & l & E & Ht).
  unfold get_token. cbn [m_lexer]. rewrite E. eexists. split; [done|]. left. split; [done|].
  split; [|by split].
  destruct Ht as [->|(r & b & Hl & Hok & Hlen)]; [by left|right]. exists r, b. split; [done|]. split; [done|].
  case_bool_decide; cbn; lia.
Qed.

(** Parsing from the first token to the end of the input. *)
Lemma parse_parses input : Forall u8 input -> parses json_ok (parse input).
Proof.
  intros Hu. unfold parse, parse_with. destruct (token_read_first input Hu) as (p & -> & Hinv).
  destruct (sax_parse_internal_ok (parse_fuel input) _ p Hinv) as (m & -> & Hm); [unfold parse_fuel; lia|].
  destruct m as [p'|e|]; [|done..]. destruct Hm as (k & (Ht & Hd & He & Hi) & _).
  destruct (token_read_pos k p' Ht He Hi) as [k' ->].
  destruct (get_token_ok k' p' Ht He Hi) as (p2 & -> & E1 & _). cbn [obind].
  case_bool_decide; cbn [negb]; [|done]. cbn. rewrite E1. exact (ok_root _ _ Hd).
Qed.


