(* ===== verification/JsonEscape.v ===== *)
(** * Writing strings

    [serializer::dump_escaped] decodes a string with the table of a UTF-8 state
    machine and writes its code points, some of them escaped, through a buffer of
    512 characters. The state machine accepts exactly the valid UTF-8 texts, the
    buffer never overflows, and what is written is read back by the lexer. *)

From Stdlib Require Import ZArith Lia String Ascii.
From stdpp Require Import base list.
From S2P Require Import Prelude Utf8 Exceptions JsonValue JsonLexer JsonStrings JsonSerializer.

(** ** The table *)

(** The bytes that a state waits for. *)
Definition state_ranges (state : Z) : option (list (Z * Z)) :=
  if state =? 0 then Some []
  else if state =? 2 then Some [(128, 191)]
  else if state =? 3 then Some [(128, 191); (128, 191)]
  else if state =? 4 then Some [(160, 191); (128, 191)]
  else if state =? 5 then Some [(128, 159); (128, 191)]
  else if state =? 6 then Some [(144, 191); (128, 191); (128, 191)]
  else if state =? 7 then Some [(128, 191); (128, 191); (128, 191)]
  else if state =? 8 then Some [(128, 143); (128, 191); (128, 191)]
  else None.

Definition next_state (state byte : Z) : option Z :=
  match decode state 0 byte with Some (state, _) => Some state | None => None end.

(** The table follows the ranges: checked for every state and byte. *)
Definition table_row_ok (byte : Z) : bool :=
  (match trail_ranges byte with
   | Some ranges =>
       match decode 0 0 byte with
       | Some (state, cp) => bool_decide (state_ranges state = Some ranges) && (cp =? lead_bits byte)
       | None => false
       end
   | None => bool_decide (next_state 0 byte = Some 1)
   end) &&
  forallb (fun state =>
    match state_ranges state with
    | Some ((lo, hi) :: ranges) =>
        if in_range lo hi byte
        then match next_state state byte with
             | Some state' => bool_decide (state_ranges state' = Some ranges)
             | None => false
             end
        else bool_decide (next_state state byte = Some 1)
    | _ => false
    end) [2; 3; 4; 5; 6; 7; 8].

Lemma table_ok byte : u8 byte -> table_row_ok byte = true.
Proof. intros H. apply (all_below_spec 256); [by vm_compute|]. unfold in_width in H. lia. Qed.

Lemma decode_eq state cp byte :
  decode state cp byte =
    (type ← utf8d !! Z.to_nat byte;
      state' ← utf8d !! Z.to_nat (256 + state * 16 + type);
      Some (state', if negb (state =? 0) then Z.lor (Z.land byte 63) (wrap 32 (Z.shiftl cp 6))
                   else Z.land (Z.shiftr 255 type) byte)).
Proof. done. Qed.

Lemma decode_next state cp byte :
  state <> 0 ->
  decode state cp byte =
    (state' ← next_state state byte; Some (state', Z.lor (Z.land byte 63) (wrap 32 (Z.shiftl cp 6)))).
Proof.
  intros Hs. unfold next_state. rewrite !decode_eq. replace (state =? 0) with false by lia. cbn [negb].
  destruct (utf8d !! Z.to_nat byte); [|done]. cbn. by destruct (utf8d !! _).
Qed.

Lemma decode_first cp byte : decode 0 cp byte = decode 0 0 byte.
Proof. by rewrite !decode_eq. Qed.

(** A byte at the start of a code point. *)
Lemma decode_lead cp byte :
  u8 byte ->
  match trail_ranges byte with
  | Some ranges => exists state, decode 0 cp byte = Some (state, lead_bits byte) /\ state_ranges state = Some ranges
  | None => exists cp', decode 0 cp byte = Some (1, cp')
  end.
Proof.
  intros Hu. pose proof (table_ok byte Hu) as H. unfold table_row_ok in H. apply andb_true_iff in H as [H _].
  rewrite decode_first. unfold next_state in H. destruct (trail_ranges byte).
  - destruct (decode 0 0 byte) as [[state cp']|]; [|done]. apply andb_true_iff in H as [H1 H2].
    apply bool_decide_eq_true in H1. exists state. by replace cp' with (lead_bits byte) by lia.
  - apply bool_decide_eq_true in H. destruct (decode 0 0 byte) as [[state cp']|]; [|done].
    injection H as ->. by exists cp'.
Qed.

(** A byte inside a code point. *)
Lemma decode_trail state cp byte lo hi ranges :
  u8 byte -> state_ranges state = Some ((lo, hi) :: ranges) -> 0 <= cp < 2 ^ 26 ->
  if in_range lo hi byte
  then exists state', decode state cp byte = Some (state', join_bits cp byte) /\ state_ranges state' = Some ranges
  else exists cp', decode state cp byte = Some (1, cp').
Proof.
  intros Hu Hs Hcp. pose proof (table_ok byte Hu) as H. unfold table_row_ok in H.
  apply andb_true_iff in H as [_ H]. rewrite forallb_forall in H. specialize (H state).
  assert (state <> 0 /\ In state [2; 3; 4; 5; 6; 7; 8]) as [H0 Hin].
  { unfold state_ranges in Hs. cbn [In].
    repeat (case_cond; [first [done | split; [lia|lia]]|]). done. }
  specialize (H Hin). rewrite Hs in H. rewrite decode_next by done.
  assert (Z.lor (Z.land byte 63) (wrap 32 (Z.shiftl cp 6)) = join_bits cp byte) as ->.
  { unfold join_bits. rewrite Z.shiftl_mul_pow2 by lia.
    rewrite wrap_small by (unfold in_width; lia). change 63 with (2 ^ 6 - 1). rewrite land_low by lia.
    rewrite Z.lor_comm, lor_disjoint; [done|lia|]. apply Z.mod_pos_bound. lia. }
  destruct (in_range lo hi byte).
  - destruct (next_state state byte) as [state'|]; [|done]. apply bool_decide_eq_true in H. by exists state'.
  - apply bool_decide_eq_true in H. rewrite H. by eexists.
Qed.

(** ** Escapes *)

(** What a code point is written as. *)
Definition escape_char (ensure_ascii : bool) (c : Z) : bytes :=
  if c <? 128 then escape_codepoint ensure_ascii c c
  else if ensure_ascii then unicode_escape c else utf8_encode c.

Definition escape_text (ensure_ascii : bool) (cs : list Z) : bytes := flat_map (escape_char ensure_ascii) cs.

Lemma hex4_lower z : 0 <= z < 65536 -> hex4 (hex_lower 4 z) = Some z.
Proof.
  intros Hz. pose (p z := bool_decide (hex4 (hex_lower 4 z) = Some z)).
  assert (all_below 256 (fun a => all_below 256 (fun b => p (a * 256 + b))) = true) as H by by vm_compute.
  apply (all_below_spec _ _ (z / 256)) in H;
    [|split; [apply Z.div_pos|apply Z.div_lt_upper_bound]; lia].
  apply (all_below_spec _ _ (z mod 256)) in H; [|apply Z.mod_pos_bound; lia].
  unfold p in H. replace (z / 256 * 256 + z mod 256) with z in H by (pose proof (Z.div_mod z 256); lia).
  by apply bool_decide_eq_true in H.
Qed.

Lemma hex_lower_length z : 0 <= z < 65536 -> length (hex_lower 4 z) = 4%nat.
Proof.
  intros Hz. destruct (hex4_inv _ _ (hex4_lower z Hz)) as (_ & a & b & c & d & _ & _ & _ & _ & -> & _). done.
Qed.

(** The surrogates of a code point. *)
Lemma surrogates c :
  65536 <= c < 1114112 ->
  let hi := wrap 16 (wrap 32 (55232 + Z.shiftr c 10)) in
  let lo := wrap 16 (56320 + Z.land c 1023) in
  high_surrogate hi /\ low_surrogate lo /\ surrogate_pair hi lo = c.
Proof.
  intros Hc. cbn zeta. rewrite Z.shiftr_div_pow2 by lia. change 1023 with (2 ^ 10 - 1).
  rewrite land_low by lia. change (2 ^ 10) with 1024.
  assert (64 <= c / 1024 < 1088) by (split; [apply Z.div_le_lower_bound|apply Z.div_lt_upper_bound]; lia).
  assert (0 <= c mod 1024 < 1024) by (apply Z.mod_pos_bound; lia).
  rewrite !wrap_small by (unfold in_width; rewrite ?wrap_small; unfold in_width; lia).
  unfold high_surrogate, low_surrogate, surrogate_pair. pose proof (Z.div_mod c 1024). lia.
Qed.

Lemma unicode_escape_length c :
  0 <= c < 1114112 -> length (unicode_escape c) = if c <=? 65535 then 6%nat else 12%nat.
Proof.
  intros Hc. unfold unicode_escape. destruct (Z.leb_spec c 65535).
  - rewrite length_app, hex_lower_length; [done|]. apply (wrap_range 16). lia.
  - rewrite !length_app, !hex_lower_length; [done|apply (wrap_range 16); lia..].
Qed.

Lemma escape_codepoint_length ea c byte :
  0 <= c < 1114112 ->
  (1 <= length (escape_codepoint ea c byte) /\
    length (escape_codepoint ea c byte) + (if 6 <=? length (escape_codepoint ea c byte) then 1 else 0) <= 13)%nat.
Proof.
  intros Hc. unfold escape_codepoint. repeat (case_cond; [cbn; lia|]).
  case_cond; [|cbn; lia]. rewrite unicode_escape_length by done. by destruct (c <=? 65535); cbn; lia.
Qed.

(** Above the ASCII characters. *)
Lemma escape_codepoint_high ea c byte :
  128 <= c -> escape_codepoint ea c byte = if ea then unicode_escape c else [byte].
Proof.
  intros Hc. unfold escape_codepoint. do 7 (case_cond; [lia|]).
  replace (c <=? 31) with false by lia. replace (127 <=? c) with true by lia. by destruct ea.
Qed.

(** ** The loop on valid texts *)

Definition emitted (e : escaper) : bytes := out e ++ buf e.

(** Between code points: at least 13 characters of the buffer are free. *)
Definition accepted (e : escaper) : Prop := e_state e = 0 /\ (length (buf e) <= 499)%nat /\ undumped_chars e = 0%nat.

Lemma flush_emitted e : emitted (flush e) = emitted e.
Proof. unfold flush, emitted. case_cond; [|done]. cbn. by rewrite app_nil_r. Qed.

Lemma flush_room e : (length (buf e) <= 512)%nat -> (length (buf (flush e)) <= 499)%nat.
Proof.
  intros H. unfold flush, string_buffer_size. destruct (Nat.ltb_spec (512 - length (buf e)) 13); cbn; lia.
Qed.

Lemma flush_state e : e_state (flush e) = e_state e.
Proof. unfold flush. by case_cond. Qed.

Lemma store_ok nul s e :
  (length (buf e) + length s + nul <= 512)%nat ->
  store nul s e = Ret (mk_escaper (e_state e) (e_codepoint e) (buf e ++ s) (out e) (bytes_after_last_accept e)
                         (undumped_chars e)).
Proof. intros H. unfold store, string_buffer_size. by destruct (Nat.leb_spec (length (buf e) + length s + nul) 512); [|lia]. Qed.

(** The last byte of a code point. *)
Lemma accept_codepoint_ok ea byte e :
  e_state e = 0 -> 0 <= e_codepoint e < 1114112 ->
  (length (buf e) <= 499 \/ length (buf e) <= 502 /\ length (escape_codepoint ea (e_codepoint e) byte) <= 1)%nat ->
  exists e', accept_codepoint ea byte e = Ret e' /\ accepted e' /\
    emitted e' = emitted e ++ escape_codepoint ea (e_codepoint e) byte.
Proof.
  intros Hs Hc Hb. unfold accept_codepoint. pose proof (escape_codepoint_length ea (e_codepoint e) byte Hc) as [H1 H2].
  rewrite store_ok by (destruct Hb as [Hb|[Hb H3]]; destruct (Nat.leb_spec 6 (length (escape_codepoint ea (e_codepoint e) byte))); lia).
  cbn [obind]. eexists. split; [done|]. split.
  - split; [cbn; by rewrite flush_state|]. split; [|done]. apply flush_room. cbn. rewrite length_app.
    destruct Hb as [Hb|[Hb H3]]; destruct (Nat.leb_spec 6 (length (escape_codepoint ea (e_codepoint e) byte))); lia.
  - change (emitted (mark ?x)) with (emitted x). rewrite flush_emitted. unfold emitted. cbn. by rewrite app_assoc.
Qed.

Lemma state_ranges_cases state ranges :
  state_ranges state = Some ranges ->
  (ranges = [] /\ (state =? UTF8_ACCEPT) = true) \/
  (ranges <> [] /\ (state =? UTF8_ACCEPT) = false /\ (state =? UTF8_REJECT) = false).
Proof.
  unfold state_ranges, UTF8_ACCEPT, UTF8_REJECT. intros H.
  repeat (case_cond; [injection H as <-; first [left; done | right; split; [done|split; lia]]|]). done.
Qed.

Lemma join_bits_mono cp byte : 0 <= cp -> cp <= join_bits cp byte.
Proof. intros H. unfold join_bits. assert (0 <= byte mod 64) by (apply Z.mod_pos_bound; lia). lia. Qed.

Lemma fold_join_mono s cp : 0 <= cp -> cp <= fold_left join_bits s cp.
Proof.
  revert cp. induction s as [|x s IH]; intros cp H; cbn; [lia|].
  pose proof (join_bits_mono cp x H). specialize (IH (join_bits cp x)). lia.
Qed.

Section Loop.
Context (handler : error_handler_t) (ea : bool).

(** A byte that completes a code point. *)
Lemma escape_byte_last i byte e cp :
  decode (e_state e) (e_codepoint e) byte = Some (0, cp) -> 0 <= cp < 1114112 ->
  (length (buf e) <= 499 \/ length (buf e) <= 502 /\ length (escape_codepoint ea cp byte) <= 1)%nat ->
  exists e', escape_byte handler ea i byte e = Ret (false, e') /\ accepted e' /\
  emitted e' = emitted e ++ escape_codepoint ea cp byte.
Proof.
  intros E Hc Hb. unfold escape_byte. rewrite E.
  destruct (accept_codepoint_ok ea byte
    (mk_escaper 0 cp (buf e) (out e) (bytes_after_last_accept e) (undumped_chars e)) eq_refl Hc Hb)
    as (e' & E' & Ha & Hem).
  change (0 =? UTF8_ACCEPT) with true. cbv iota. rewrite E'. by exists e'.
Qed.

(** A byte inside a code point. *)
Lemma escape_byte_more i byte e cp state ranges :
  decode (e_state e) (e_codepoint e) byte = Some (state, cp) -> state_ranges state = Some ranges ->
  ranges <> [] -> (ea = false -> length (buf e) < 512)%nat ->
  exists e', escape_byte handler ea i byte e = Ret (false, e') /\ e_state e' = state /\ e_codepoint e' = cp /\
  out e' = out e /\ buf e' = buf e ++ (if ea then [] else [byte]) /\
  bytes_after_last_accept e' = bytes_after_last_accept e.
Proof.
  intros E Hs Hr Hb. unfold escape_byte. rewrite E.
  destruct (state_ranges_cases _ _ Hs) as [[? _]|(_ & -> & ->)]; [done|].
  destruct ea.
  - cbn [obind]. eexists. split; [done|]. cbn. by rewrite app_nil_r.
  - rewrite store_ok by (cbn; specialize (Hb eq_refl); lia). cbn [obind]. by eexists.
Qed.

Lemma escape_loop_step i c s e e' :
  u8 c -> escape_byte handler ea i c e = Ret (false, e') ->
  escape_loop handler ea i (c :: s) e = escape_loop handler ea (S i) s e'.
Proof. intros Hc E. cbn [escape_loop]. rewrite wrap_small by done. by rewrite E. Qed.

(** The bytes after the first of a code point. *)
Lemma escape_trail ranges i s rest e :
  state_ranges (e_state e) = Some ranges -> ranges <> [] -> in_ranges ranges s = true -> Forall u8 s ->
  0 <= e_codepoint e -> 128 <= fold_left join_bits s (e_codepoint e) < 1114112 ->
  (if ea then length (buf e) <= 499 else length (buf e) + length s <= 503)%nat ->
  exists e', escape_loop handler ea i (s ++ rest) e = escape_loop handler ea (i + length s) rest e' /\ accepted e' /\
  emitted e' = emitted e ++ if ea then unicode_escape (fold_left join_bits s (e_codepoint e)) else s.
Proof.
  revert i s e. induction ranges as [|[lo hi] ranges IH]; intros i [|x s] e Hst Hne Hin Hu Hcp Hc Hb; try done.
  cbn in Hin. apply andb_true_iff in Hin as [Hx Hin]. apply Forall_cons in Hu as [Hux Hus].
  pose proof (fold_join_mono (x :: s) (e_codepoint e) Hcp) as Hmono.
  assert (0 <= e_codepoint e < 2 ^ 26) as Hcp26 by (change (2 ^ 26) with 67108864; lia).
  pose proof (decode_trail _ _ x lo hi ranges Hux Hst Hcp26) as Hd. rewrite Hx in Hd.
  destruct Hd as (state & Hd & Hst'). cbn [app fold_left] in *.
  pose proof (join_bits_mono (e_codepoint e) x Hcp).
  destruct (state_ranges_cases _ _ Hst') as [[-> Hz]|(Hr & _ & _)].
  - destruct s; [|done]. apply Z.eqb_eq in Hz. unfold UTF8_ACCEPT in Hz. subst state. cbn [length app fold_left] in *.
    destruct (escape_byte_last i x e _ Hd ltac:(lia)) as (e' & E & Ha & Hem).
    { rewrite escape_codepoint_high by lia. destruct ea; [by left|right]. cbn. lia. }
    exists e'. split; [by rewrite (escape_loop_step _ _ _ _ e'), Nat.add_1_r|]. split; [done|].
    rewrite Hem, escape_codepoint_high by lia. by destruct ea.
  - destruct (escape_byte_more i x e _ _ _ Hd Hst' Hr) as (e1 & E & E1 & E2 & E3 & E4 & _).
    { intros ->. cbn in Hb. lia. }
    destruct (IH (S i) s e1) as (e' & E' & Ha & Hem); try done; try (by rewrite E1); try (by rewrite E2); try (rewrite E2; lia).
    { rewrite E4, length_app. destruct ea; cbn in *; lia. }
    exists e'. split; [rewrite (escape_loop_step _ _ _ _ e1) by done; rewrite E'; cbn; f_equal; lia|]. split; [done|].
    rewrite Hem. unfold emitted. rewrite E2, E3, E4. destruct ea; [by rewrite app_nil_r|]. by rewrite <- !app_assoc.
Qed.

Lemma escape_char_high c : 128 <= c -> escape_char ea c = if ea then unicode_escape c else utf8_encode c.
Proof. intros H. unfold escape_char. by replace (c <? 128) with false by lia. Qed.

(** A code point. *)
Lemma escape_loop_char i c rest e :
  scalar c -> accepted e ->
  exists e', escape_loop handler ea i (utf8_encode c ++ rest) e =
  escape_loop handler ea (i + length (utf8_encode c)) rest e' /\
  accepted e' /\ emitted e' = emitted e ++ escape_char ea c.
Proof.
  intros Hc (He & Hb & Hn). pose proof (encode_well_formed c Hc) as Hw. pose proof (value_encode c Hc) as Hv.
  assert (c < 128 -> utf8_encode c = [c]) as Hlow by (intros; unfold utf8_encode; by replace (c <? 128) with true by lia).
  pose proof (well_formed_u8 _ Hw) as Hu. unfold scalar in Hc.
  destruct (Z.lt_ge_cases c 128) as [Hl|Hh].
  - rewrite Hlow in * by done. cbn [app length]. apply Forall_inv in Hu.
    pose proof (decode_lead (e_codepoint e) c Hu) as Hd. unfold trail_ranges in Hd.
    rewrite (proj2 (in_range_spec 0 127 c)) in Hd by lia. destruct Hd as (state & Hd & Hst).
    destruct (state_ranges_cases _ _ Hst) as [[_ Hz]|[? _]]; [|done]. apply Z.eqb_eq in Hz. unfold UTF8_ACCEPT in Hz. subst state.
    assert (lead_bits c = c) as Ec by (unfold lead_bits; by replace (c <? 128) with true by lia).
    rewrite Ec in Hd.
    destruct (escape_byte_last i c e c ltac:(by rewrite He) ltac:(lia) ltac:(by left)) as (e' & E & Ha & Hem).
    exists e'. split; [by rewrite (escape_loop_step _ _ _ _ e'), Nat.add_1_r|]. split; [done|].
    rewrite Hem. unfold escape_char. by replace (c <? 128) with true by lia.
  - destruct (utf8_encode c) as [|b s] eqn:Eb; [done|]. cbn [utf8_value] in Hv. cbn in Hw.
    apply Forall_cons in Hu as [Hub Hus]. pose proof (decode_lead (e_codepoint e) b Hub) as Hd.
    destruct (trail_ranges b) as [ranges|] eqn:Er; [|done]. destruct Hd as (state & Hd & Hst).
    assert (decode (e_state e) (e_codepoint e) b = Some (state, lead_bits b)) as Hd' by by rewrite He.
    assert (ranges <> [] /\ (length ranges <= 3)%nat) as [Hr H3].
    { assert (128 <= fold_left join_bits s (lead_bits b)) as Hlarge by lia. clear -Er Hw Hlarge.
      unfold trail_ranges in Er. range_cases; simplify_eq; cbn; split; try done; try lia.
      destruct s; [|done]. cbn in Hlarge. unfold lead_bits in Hlarge. replace (b <? 128) with true in Hlarge by lia. lia. }
    pose proof (in_ranges_length _ _ Hw) as Hlen.
    destruct (escape_byte_more i b e _ _ _ Hd' Hst Hr ltac:(lia)) as (e1 & E & E1 & E2 & E3 & E4 & _).
    assert (0 <= lead_bits b) by (unfold lead_bits, in_width in *; zcases; apply Z.mod_pos_bound; lia).
    destruct (escape_trail ranges (S i) s rest e1) as (e' & E' & Ha & Hem); try done.
    { by rewrite E1. } { by rewrite E2. } { rewrite E2, Hv. lia. }
    { rewrite E4, length_app. destruct ea; cbn; lia. }
    exists e'. split; [cbn [app]; rewrite (escape_loop_step _ _ _ _ e1) by done; rewrite E'; cbn; f_equal; lia|].
    split; [done|]. rewrite Hem, escape_char_high by done. unfold emitted. rewrite E2, E3, E4, Hv, Eb.
    destruct ea; [by rewrite app_nil_r|]. by rewrite <- !app_assoc.
Qed.

(** A valid text. *)
Lemma escape_loop_text i cs rest e :
  Forall scalar cs -> accepted e ->
  exists e', escape_loop handler ea i (utf8_text cs ++ rest) e =
  escape_loop handler ea (i + length (utf8_text cs)) rest e' /\
  accepted e' /\ emitted e' = emitted e ++ escape_text ea cs.
Proof.
  intros Hcs. revert i e. induction Hcs as [|c cs Hc _ IH]; intros i e He; cbn [utf8_text escape_text flat_map].
  - exists e. rewrite app_nil_r. cbn. by rewrite Nat.add_0_r.
  - destruct (escape_loop_char i c (utf8_text cs ++ rest) e Hc He) as (e1 & E1 & H1 & Hem1).
    destruct (IH (i + length (utf8_encode c))%nat e1 H1) as (e' & E' & H' & Hem').
    exists e'. rewrite <- app_assoc. unfold utf8_text in *. rewrite E1, E'. split; [f_equal; rewrite length_app; lia|].
    split; [done|]. rewrite Hem', Hem1. by rewrite <- app_assoc.
Qed.
End Loop.

(** ** Invalid texts *)

Section Invalid.
Context (ea : bool).

(** How the loop ends on a text that is not valid. *)
Definition rejected (o : cpp escaper) : Prop :=
  (exists what, o = Throw (create_type_error 316 what)) \/
  (exists e', o = Ret e' /\ (e_state e' =? UTF8_ACCEPT) = false).

Lemma escape_loop_reject i c s e cp :
  u8 c -> decode (e_state e) (e_codepoint e) c = Some (1, cp) -> rejected (escape_loop strict ea i (c :: s) e).
Proof.
  intros Hc E. left. cbn [escape_loop]. rewrite wrap_small by done. unfold escape_byte. rewrite E.
  change (1 =? UTF8_ACCEPT) with false. change (1 =? UTF8_REJECT) with true. cbn [reject_byte obind].
  eexists. reflexivity.
Qed.

Lemma escape_trail_bad ranges i s e :
  state_ranges (e_state e) = Some ranges -> in_ranges ranges (take (length ranges) s) = false -> Forall u8 s ->
  0 <= e_codepoint e -> (e_codepoint e + 1) * 64 ^ Z.of_nat (length ranges) <= 2 ^ 26 ->
  (length (buf e) + length ranges <= 503)%nat ->
  rejected (escape_loop strict ea i s e).
Proof.
  revert i s e. induction ranges as [|[lo hi] ranges IH]; intros i s e Hst Hin Hu Hcp Hb Hl; [done|].
  destruct s as [|x s].
  { right. exists e. split; [done|]. by destruct (state_ranges_cases _ _ Hst) as [[? _]|(_ & -> & _)]. }
  apply Forall_cons in Hu as [Hux Hus]. cbn [length] in *.
  replace (Z.of_nat (S (length ranges))) with (Z.of_nat (length ranges) + 1) in Hb by lia.
  rewrite Z.pow_add_r, Z.pow_1_r in Hb by first [apply Zle_0_nat|done].
  pose proof (Z.pow_pos_nonneg 64 (Z.of_nat (length ranges)) eq_refl (Zle_0_nat _)) as Hpos.
  change (2 ^ 26) with 67108864 in *. set (p := 64 ^ Z.of_nat (length ranges)) in *. clearbody p.
  assert (0 <= e_codepoint e < 2 ^ 26) as Hcp26.
  { change (2 ^ 26) with 67108864. split; [done|]. clear -Hb Hpos Hcp. nia. }
  pose proof (decode_trail _ _ x lo hi ranges Hux Hst Hcp26) as Hd. cbn in Hin.
  destruct (in_range lo hi x).
  - destruct Hd as (state & Hd & Hst'). pose proof (join_bits_mono (e_codepoint e) x Hcp).
    destruct (state_ranges_cases _ _ Hst') as [[-> _]|(Hr & _ & _)]; [by destruct s|].
    destruct (escape_byte_more strict ea i x e _ _ _ Hd Hst' Hr ltac:(lia)) as (e1 & E & E1 & E2 & E3 & E4 & _).
    rewrite (escape_loop_step _ _ _ _ _ _ e1) by done. apply IH; rewrite ?E1, ?E2; try done; [lia| |].
    + unfold join_bits. pose proof (Z.mod_pos_bound x 64 ltac:(lia)) as Hm. clear -Hb Hpos Hcp Hm. nia.
    + rewrite E4, length_app. destruct ea; cbn; lia.
  - destruct Hd as (cp' & Hd). by apply (escape_loop_reject i x s e cp').
Qed.

(** A text whose first code point is ill-formed. *)
Lemma escape_loop_bad i s e :
  Forall u8 s -> utf8_split s = None -> s <> [] -> accepted e -> rejected (escape_loop strict ea i s e).
Proof.
  intros Hu E Hs (He & Hb & _). destruct s as [|c s]; [done|]. apply Forall_cons in Hu as [Huc Hus].
  pose proof (decode_lead (e_codepoint e) c Huc) as Hd. cbn in E. rewrite <- He in Hd.
  destruct (trail_ranges c) as [ranges|] eqn:Er.
  - destruct Hd as (state & Hd & Hst). case_cond; [done|].
    assert ((length ranges <= 3)%nat) as H3 by (clear -Er; unfold trail_ranges in Er; range_cases; simplify_eq; cbn; lia).
    destruct (state_ranges_cases _ _ Hst) as [[-> _]|(Hr & _ & _)]; [done|].
    destruct (escape_byte_more strict ea i c e _ _ _ Hd Hst Hr ltac:(lia)) as (e1 & E1 & E2 & E3 & E4 & E5 & _).
    rewrite (escape_loop_step _ _ _ _ _ _ e1) by done.
    assert (0 <= lead_bits c < 256).
    { unfold lead_bits, in_width in *. zcases; try lia;
        (split; [apply Z.mod_pos_bound|eapply Z.lt_trans; [apply Z.mod_pos_bound|]]; lia). }
    apply (escape_trail_bad ranges); rewrite ?E2, ?E3; try done; [lia| |].
    + destruct ranges as [|? [|? [|? [|? ?]]]]; cbn in *; lia.
    + rewrite E5, length_app. destruct ea; cbn; lia.
  - destruct Hd as (cp' & Hd). by apply (escape_loop_reject i c s e cp').
Qed.

(** A text that is not valid. *)
Lemma escape_loop_invalid i s e :
  Forall u8 s -> ~ valid_utf8 s -> accepted e -> rejected (escape_loop strict ea i s e).
Proof.
  remember (length s) as n eqn:En. revert i s e En. induction (lt_wf n) as [n _ IH]; intros i s e -> Hu Hv He.
  destruct (utf8_split s) as [[a b]|] eqn:E.
  - pose proof (valid_utf8_split s a b E) as Hiff. apply utf8_split_spec in E as [-> Hw].
    apply Forall_app in Hu as [_ Hub]. destruct (well_formed_encode a Hw) as [Hsc Ea].
    assert (exists c, scalar c /\ a = utf8_encode c) as (c & Hc & Ec) by eauto. rewrite Ec at 1.
    destruct (escape_loop_char strict ea i c b e Hc He) as (e' & -> & He' & _).
    apply (IH (length b)); try done; [|tauto]. rewrite length_app. destruct a; [done|]. cbn. lia.
  - apply escape_loop_bad; try done. intros ->. apply Hv. apply valid_utf8_nil.
Qed.
End Invalid.

(** ** dump_escaped *)

Lemma dump_escaped_valid handler ea cs :
  Forall scalar cs -> dump_escaped handler ea (utf8_text cs) = Ret (escape_text ea cs).
Proof.
  intros Hcs. unfold dump_escaped.
  destruct (escape_loop_text handler ea 0 cs [] (mk_escaper UTF8_ACCEPT 0 [] [] 0 0) Hcs) as (e' & E & (He & _) & Hem).
  { split; [done|]. cbn. lia. }
  rewrite app_nil_r in E. rewrite E. cbn [obind escape_loop]. unfold escape_end. rewrite He. cbn. f_equal. apply Hem.
Qed.

(** C25: on a text that encodes code points, [dump_escaped] returns, with every
    error handler, the escaped code points: the two-character escapes, [\u]
    escapes for the other control characters and, with [ensure_ascii], for
    everything from U+007F with surrogates above U+FFFF, and the character itself
    otherwise. On any other bytes the strict handler throws the type_error 316.
    The buffer of 512 characters never overflows and the table of [decode] is
    never read past its end. *)
Theorem dump_escaped_spec handler ea s :
  Forall u8 s ->
  (forall cs, Forall scalar cs -> s = utf8_text cs -> dump_escaped handler ea s = Ret (escape_text ea cs)) /\
  (~ valid_utf8 s -> exists what, dump_escaped strict ea s = Throw (type_error 316 what)).
Proof.
  intros Hu. split; [intros cs Hcs ->; by apply dump_escaped_valid|]. intros Hv. unfold dump_escaped.
  destruct (escape_loop_invalid ea 0 s (mk_escaper UTF8_ACCEPT 0 [] [] 0 0) Hu Hv) as [[what ->]|(e' & -> & He)].
  - split; [done|]. cbn. lia.
  - cbn. by eexists.
  - cbn [obind]. unfold escape_end. rewrite He. by eexists.
Qed.

Lemma dump_escaped_spec_witness :
  dump_escaped ignore true (utf8_text [34; 8364; 128512]) = Ret (escape_text true [34; 8364; 128512]) /\
  exists what, dump_escaped strict false [65; 237; 160; 128] = Throw (type_error 316 what).
Proof.
  split.
  - apply (dump_escaped_spec ignore true (utf8_text [34; 8364; 128512])); [|repeat constructor; unfold scalar; lia|done].
    vm_compute. repeat constructor; done.
  - apply (dump_escaped_spec strict false [65; 237; 160; 128]); [repeat constructor; done|].
    intros (cs & Hcs & E). assert (utf8_split [65; 237; 160; 128] = Some ([65], [237; 160; 128])) as E1 by done.
    apply valid_utf8_split in E1. assert (valid_utf8 [237; 160; 128]) as H by (apply E1; by exists cs).
    revert H. by apply utf8_split_none.
Defined.

(** ** Reading back *)

Lemma string_char_unicode c : scalar c -> string_char (unicode_escape c) (utf8_encode c).
Proof.
  intros Hc. assert (0 <= c < 1114112) as Hr by (unfold scalar in Hc; lia). unfold unicode_escape.
  destruct (Z.leb_spec c 65535).
  - rewrite wrap_small by (unfold in_width; lia).
    apply (char_unicode (hex_lower 4 c) c); [|done]. apply hex4_lower. lia.
  - pose proof (surrogates c ltac:(lia)) as Hsur. cbn zeta in Hsur.
    set (hi := wrap 16 (wrap 32 _)) in *. set (lo := wrap 16 (56320 + _)) in *.
    destruct Hsur as (H1 & H2 & Ec). rewrite <- Ec. clearbody hi lo. unfold high_surrogate, low_surrogate in *.
    apply (char_surrogates (hex_lower 4 hi) (hex_lower 4 lo)); try done; apply hex4_lower; lia.
Qed.

Lemma string_char_escape ea c : scalar c -> string_char (escape_char ea c) (utf8_encode c).
Proof.
  intros Hc. pose proof (encode_well_formed c Hc) as Hw. unfold escape_char. destruct (Z.ltb_spec c 128) as [Hl|Hh].
  - assert (0 <= c) by (unfold scalar in Hc; lia).
    assert (utf8_encode c = [c]) as E by (unfold utf8_encode; by replace (c <? 128) with true by lia).
    pose proof (string_char_unicode c Hc) as Hu. unfold escape_codepoint. rewrite E in *.
    do 7 (match goal with |- context [c =? ?k] => destruct (Z.eqb_spec c k) as [Ec|]; [subst c; by apply char_escape|] end).
    case_cond; [done|]. apply char_plain. unfold plain. rewrite Hw. bool_prop. lia.
  - destruct ea; [by apply string_char_unicode|]. apply char_plain. unfold plain. rewrite Hw. cbn.
    unfold utf8_encode. zcases; done.
Qed.

(** The lexer reads an escaped text back. *)
Lemma string_text_escape ea cs : Forall scalar cs -> string_text (escape_text ea cs) (utf8_text cs).
Proof.
  induction 1 as [|c cs Hc _ IH]; [constructor|]. cbn. constructor; [by apply string_char_escape|done].
Qed.

Lemma dump_escaped_reads_back handler ea s :
  valid_utf8 s -> exists t, dump_escaped handler ea s = Ret t /\ string_text t s.
Proof.
  intros (cs & Hcs & ->). exists (escape_text ea cs). split; [by apply dump_escaped_valid|by apply string_text_escape].
Qed.
