(* ===== verification/JsonText.v ===== *)
(** * JSON texts

    The grammar of RFC 8259, as a relation between a text and the value it
    denotes, and the proof that [basic_json::parse] reads every such text as its
    value. A number is an integer of 64 bits where it can be one, and else the
    [double] nearest to it, which must be finite. Of the members of an object that
    have the same key the last one counts. *)

From Stdlib Require Import ZArith Lia String Ascii SpecFloat.
From stdpp Require Import base list.
From S2P Require Import Prelude Utf8 Exceptions JsonValue JsonLexer JsonStrings JsonNumbers JsonScan JsonParser JsonDom JsonParse Strtod.

(** ** The grammar *)

Inductive scalar_text : bytes -> json -> Prop :=
  | text_null : scalar_text (str "null") JNull
  | text_true : scalar_text (str "true") (JBoolean true)
  | text_false : scalar_text (str "false") (JBoolean false)
  | text_string s v : string_text s v -> scalar_text (34 :: s ++ [34]) (JString v)
  | text_unsigned s : natural s -> decimal s < 2 ^ 64 -> scalar_text s (JUnsigned (decimal s))
  | text_integer s : natural s -> decimal s <= 2 ^ 63 -> scalar_text (45 :: s) (JInteger (- decimal s))
  | text_float s : float_literal s -> is_finite (strtod s) = true -> scalar_text s (JFloat (strtod s)).

(** The map of an object's members. *)
Definition members_map (kvs : list (bytes * json)) (m : list (bytes * json)) : list (bytes * json) :=
  fold_left (fun m kv => map_set (fst kv) (snd kv) m) kvs m.

(** A key and the colon after it. *)
Inductive key_text : bytes -> bytes -> Prop :=
  | key_intro s k ws : string_text s k -> spaces ws -> key_text (34 :: s ++ 34 :: ws ++ [58]) k.

(** A value, and what follows a value of an array or a member of an object up to
    the closing bracket. *)
Inductive value_text : bytes -> json -> Prop :=
  | text_scalar s v : scalar_text s v -> value_text s v
  | text_array_empty ws : spaces ws -> value_text (91 :: ws ++ [93]) (JArray [])
  | text_array ws s v t a :
      spaces ws -> value_text s v -> array_rest t a -> value_text (91 :: ws ++ s ++ t) (JArray (v :: a))
  | text_object_empty ws : spaces ws -> value_text (123 :: ws ++ [125]) (JObject [])
  | text_object ws sk k ws' s v t kvs :
      spaces ws -> key_text sk k -> spaces ws' -> value_text s v -> object_rest t kvs ->
      value_text (123 :: ws ++ sk ++ ws' ++ s ++ t) (JObject (members_map ((k, v) :: kvs) []))
  with array_rest : bytes -> list json -> Prop :=
  | array_end ws : spaces ws -> array_rest (ws ++ [93]) []
  | array_more ws ws' s v t a :
      spaces ws -> spaces ws' -> value_text s v -> array_rest t a -> array_rest (ws ++ 44 :: ws' ++ s ++ t) (v :: a)
  with object_rest : bytes -> list (bytes * json) -> Prop :=
  | object_end ws : spaces ws -> object_rest (ws ++ [125]) []
  | object_more ws ws' sk k ws'' s v t kvs :
      spaces ws -> spaces ws' -> key_text sk k -> spaces ws'' -> value_text s v -> object_rest t kvs ->
      object_rest (ws ++ 44 :: ws' ++ sk ++ ws'' ++ s ++ t) ((k, v) :: kvs).

Scheme value_text_mut := Minimality for value_text Sort Prop
  with array_rest_mut := Minimality for array_rest Sort Prop
  with object_rest_mut := Minimality for object_rest Sort Prop.

Combined Scheme text_ind from value_text_mut, array_rest_mut, object_rest_mut.

(** ** The texts are bytes and the values well-formed *)

Lemma spaces_u8 ws : spaces ws -> Forall u8 ws.
Proof.
  intros H. eapply Forall_impl; [exact H|]. intros c Hc. unfold is_space in Hc. unfold in_width.
  repeat (apply orb_true_iff in Hc as [Hc|Hc]); lia.
Qed.

Lemma digits_u8 s : digits s -> Forall u8 s.
Proof.
  intros H. eapply Forall_impl; [exact H|]. intros c Hc. unfold is_digit in Hc.
  apply in_range_spec in Hc. unfold in_width. lia.
Qed.

Lemma string_char_u8 s v : string_char s v -> Forall u8 s.
Proof.
  assert (forall h c, hex4 h = Some c -> Forall u8 h) as Hh.
  { intros h c H. destruct (hex4_inv h c H) as (_ & a & b & d & e & a' & b' & d' & e' & -> & Ha & Hb & Hd & He & _).
    apply hex_value_range in Ha, Hb, Hd, He.
    repeat (apply Forall_cons; split; [tauto|]). constructor. }
  destruct 1 as [a H|c v H|h c H _|h h' hi lo H H' _ _].
  - unfold plain in H. apply well_formed_u8. by bool_prop.
  - constructor; [done|]. constructor; [|constructor]. unfold short_escape in H. unfold in_width.
    repeat (case_cond; [lia|]). done.
  - repeat (constructor; [done|]). by eapply Hh.
  - repeat (constructor; [done|]). apply Forall_app. split; [by eapply Hh|].
    repeat (constructor; [done|]). by eapply Hh.
Qed.

Lemma string_text_u8 s v : string_text s v -> Forall u8 s.
Proof.
  induction 1 as [|e v s w Hc _ IH]; [constructor|]. apply Forall_app. split; [by eapply string_char_u8|done].
Qed.

Lemma key_text_u8 s k : key_text s k -> Forall u8 s.
Proof.
  destruct 1 as [s k ws Hs Hws]. constructor; [done|]. apply Forall_app. split; [by eapply string_text_u8|].
  constructor; [done|]. apply Forall_app. split; [by apply spaces_u8|by constructor].
Qed.

Lemma float_literal_u8 s : float_literal s -> Forall u8 s.
Proof.
  assert (forall c, is_exponent c = true -> u8 c) as He.
  { intros c Hc. unfold is_exponent in Hc. unfold in_width. apply orb_true_iff in Hc as [Hc|Hc]; lia. }
  destruct 1 as [s neg ip fp x [neg' ip' fr fp' ex x' Hip Hfr Hex _]|s Hn _|s Hn _].
  - rewrite !Forall_app. split; [by destruct neg'; constructor|]. split; [by apply digits_u8, natural_digits|]. split.
    + destruct Hfr; [constructor|]. constructor; [done|by apply digits_u8].
    + destruct Hex as [|c ds Hc Hd _|c ds Hc Hd _|c ds Hc Hd _]; [apply Forall_nil; done|..];
        apply digits_u8 in Hd;
        repeat (apply Forall_cons; split; [first [done|by apply He]|]); done.
  - by apply digits_u8, natural_digits.
  - constructor; [done|]. by apply digits_u8, natural_digits.
Qed.

Lemma scalar_text_u8 s v : scalar_text s v -> Forall u8 s.
Proof.
  destruct 1 as [| | |s v H|s H _|s H _|s H _]; try bytes_ok; [| | |by apply float_literal_u8].
  - constructor; [done|]. apply Forall_app. split; [by eapply string_text_u8|by constructor].
  - by apply digits_u8, natural_digits.
  - constructor; [done|]. by apply digits_u8, natural_digits.
Qed.

Lemma text_u8 :
  (forall s v, value_text s v -> Forall u8 s) /\ (forall s a, array_rest s a -> Forall u8 s) /\
  (forall s kvs, object_rest s kvs -> Forall u8 s).
Proof.
  apply text_ind; intros; try (by eapply scalar_text_u8);
    repeat first [apply Forall_app; split | apply Forall_cons; split; [done|] | apply Forall_nil; done];
    eauto using spaces_u8, key_text_u8.
Qed.

Lemma scalar_text_ok s v : scalar_text s v -> json_ok v.
Proof.
  destruct 1 as [| | |s v H|s H ?|s H ?|s H ?]; cbn; try done.
  - by eapply string_text_valid.
  - pose proof (decimal_nonneg s (natural_digits s H)). unfold in_width. lia.
  - pose proof (decimal_nonneg s (natural_digits s H)). lia.
  - split; [done|apply strtod_valid].
Qed.

Lemma members_map_ok kvs m :
  keys_sorted m = true -> Forall member_ok m -> Forall member_ok kvs ->
  keys_sorted (members_map kvs m) = true /\ Forall member_ok (members_map kvs m).
Proof.
  intros Hs Hm Hk. revert m Hs Hm. induction Hk as [|[k v] kvs [H1 H2] _ IH]; intros m Hs Hm; [done|].
  apply IH; [by apply map_set_sorted|by apply map_set_members].
Qed.

Lemma key_text_valid s k : key_text s k -> valid_utf8 k.
Proof. destruct 1. by eapply string_text_valid. Qed.

Lemma text_ok :
  (forall s v, value_text s v -> json_ok v) /\ (forall s a, array_rest s a -> Forall json_ok a) /\
  (forall s kvs, object_rest s kvs -> Forall member_ok kvs).
Proof.
  apply text_ind; intros; try done.
  - by eapply scalar_text_ok.
  - apply json_ok_array. by constructor.
  - apply json_ok_object, members_map_ok; [done|constructor|].
    constructor; [split; [by eapply key_text_valid|done]|done].
  - by constructor.
  - constructor; [split; [by eapply key_text_valid|done]|done].
Qed.

(** ** Reading the tokens *)

Lemma scan_punctuation c t n ws r b l :
  punctuation c = Some t -> 0 <= n -> spaces ws -> lex_at n (ws ++ c :: r) b l ->
  exists l', scan l = Some (t, l') /\ lex_at 1 r b l'.
Proof.
  intros Hc Hn Hws Hl. assert (is_space c = false /\ c <> 239) as [Hs H239].
  { unfold punctuation in Hc. unfold is_space. repeat (case_cond; [zcases|]). done. }
  destruct (scan_at n ws c r b l Hn Hws Hs H239 Hl) as (l1 & -> & H1). exists l1. split; [|by apply (got_at _ c)].
  unfold scan_token. rewrite (got_current _ _ _ _ _ H1). unfold punctuation in Hc.
  repeat (case_cond; [by simplify_eq|]). done.
Qed.

Lemma scan_string_at s v n ws r b l :
  string_text s v -> 0 <= n -> spaces ws -> lex_at n (ws ++ 34 :: s ++ 34 :: r) b l ->
  exists l', scan l = Some (tok_value_string, l') /\ lex_at 1 r v l'.
Proof.
  intros Hs Hn Hws Hl.
  destruct (scan_at n ws 34 _ b l Hn Hws eq_refl ltac:(done) Hl) as (l1 & -> & H1).
  destruct (scan_string_complete 1 s v r b l1 Hs H1) as (l' & E & H'). exists l'.
  split; [|by apply (got_at _ 34)]. unfold scan_token. by rewrite (got_current _ _ _ _ _ H1).
Qed.

Lemma scan_end n ws r b l :
  0 <= n -> spaces ws -> input_end r -> lex_at n (ws ++ r) b l -> exists l', scan l = Some (end_of_input, l').
Proof.
  intros Hn Hws [->|[rest ->]] Hl.
  - rewrite app_nil_r in Hl. assert (forall r, ws <> 239 :: r) as H239.
    { intros r ->. by apply Forall_inv in Hws. }
    destruct (scan_start n ws b l Hn Hl) as [[_ [r' E]]|(bom & ws' & c & r' & l1 & -> & H1 & Hc & _ & Hbom & Hr)];
      [by destruct (H239 r')|].
    exists l1. unfold scan_token. rewrite (got_current _ _ _ _ _ H1).
    destruct Hr as [(-> & _)|[_ ->]]; [done|].
    apply Forall_app in Hws as [_ Hws]. apply Forall_app in Hws as [_ Hws]. apply Forall_inv in Hws. congruence.
  - destruct (scan_at n ws 0 rest b l Hn Hws eq_refl ltac:(done) Hl) as (l1 & -> & H1).
    exists l1. unfold scan_token. by rewrite (got_current _ _ _ _ _ H1).
Qed.

(** A token that [parse_scalar] turns into a value. *)
Definition scalar_token (t : token_type) (l : lexer) (v : json) : Prop :=
  t <> begin_array /\ t <> begin_object /\ t <> end_array /\
  forall p, last_token p = t -> m_lexer p = l ->
    parse_scalar p = (let* p' := event (sax_value v) p in Ret (Break p')).

(** A number after white space. *)
Lemma scan_number_at t s n ws r b l :
  number_literal t s -> 0 <= n -> spaces ws -> number_ends s r -> lex_at n (ws ++ s ++ r) b l ->
  exists l', scan l = Some (t, l') /\ lex_at 1 r s l' /\ number_value t s l'.
Proof.
  intros Ht Hn Hws Hr Hl. destruct (literal_typed t s Ht) as (nt & Hnt & _).
  destruct (typed_run nt s Hnt) as (c & rest & st & -> & Hu & Hd & _).
  assert ((c =? 45) || is_digit c = true) as Hc.
  { unfold first_label in Hd. destruct (c =? 45) eqn:E45; [done|]. destruct (Z.eqb_spec c 48) as [->|]; [done|].
    destruct (is_digit19 c) eqn:E19; [by apply digit19_digit|done]. }
  assert (c = 45 \/ 48 <= c <= 57) as Hc' by (apply orb_true_iff in Hc as [Hc|Hc%in_range_spec]; lia).
  destruct (scan_at n ws c (rest ++ r) b l Hn Hws ltac:(unfold is_space; zcases) ltac:(lia) Hl) as (l1 & -> & H1).
  destruct (scan_number_complete t 1 c rest r b l1 Ht Hr H1) as (l' & E & H' & Hv). exists l'.
  split; [|done]. unfold scan_token. rewrite (got_current _ _ _ _ _ H1), Hc. by zcases.
Qed.

Lemma scan_scalar s v n ws r b l :
  scalar_text s v -> 0 <= n -> spaces ws -> number_ends s r -> lex_at n (ws ++ s ++ r) b l ->
  exists t l' b', scan l = Some (t, l') /\ lex_at 1 r b' l' /\ scalar_token t l' v.
Proof.
  intros Hs Hn Hws Hr Hl.
  assert (forall c rest, lex_at n (ws ++ c :: rest) b l -> is_space c = false -> c <> 239 ->
    exists l1, scan l = scan_token l1 /\ lex_got 1 c rest b l1) as Hat.
  { intros c rest H Hc H239. by apply (scan_at n ws). }
  assert (forall c s t x, lex_at n (ws ++ (c :: s) ++ r) b l -> is_space c = false -> c <> 239 -> scalar_token t x v ->
    (forall l1, current l1 = c -> scan_token l1 = Some (scan_literal (c :: s) t l1)) ->
    (forall l1 l2, scalar_token t l1 v -> scalar_token t l2 v) ->
    exists t l' b', scan l = Some (t, l') /\ lex_at 1 r b' l' /\ scalar_token t l' v) as Hliteral.
  { intros c s0 t x H Hc H239 Ht Hlit Hany. destruct (Hat c (s0 ++ r) H Hc H239) as (l1 & E & H1).
    rewrite E, (Hlit l1 (got_current _ _ _ _ _ H1)).
    destruct (scan_literal_complete 1 c (c :: s0) t r b l1 H1) as (c' & l' & -> & H').
    exists t, l', b. split; [done|]. split; [by apply (got_at _ c')|]. by apply (Hany x). }
  assert (forall t, number_literal t s -> (forall l', number_value t s l' -> scalar_token t l' v) ->
    exists t l' b', scan l = Some (t, l') /\ lex_at 1 r b' l' /\ scalar_token t l' v) as Hnumber.
  { intros t Ht Htok. destruct (scan_number_at t s n ws r b l Ht Hn Hws Hr Hl) as (l' & E & H' & Hv).
    exists t, l', s. split; [done|]. split; [done|]. by apply Htok. }
  destruct Hs as [| | |s v Hs|s Hn' Hv|s Hn' Hv|s Hs Hfin].
  1: apply (Hliteral 110 (str "ull") literal_null l Hl); [done|done|..].
  4: apply (Hliteral 116 (str "rue") literal_true l Hl); [done|done|..].
  7: apply (Hliteral 102 (str "alse") literal_false l Hl); [done|done|..].
  1-9: try (by intros l1 H1; unfold scan_token; rewrite H1); try intros l1 l2 _;
       (split; [done|]; split; [done|]; split; [done|]; intros p Ht _; unfold parse_scalar; by rewrite Ht).
  { cbn [app] in Hl. rewrite <- app_assoc in Hl. destruct (scan_string_at s v n ws r b l Hs Hn Hws Hl) as (l' & E & H').
    exists tok_value_string, l', v. split; [done|]. split; [done|]. do 3 (split; [done|]).
    intros p Ht <-. unfold parse_scalar. by rewrite Ht, (at_buffer _ _ _ _ H'). }
  1: apply (Hnumber value_unsigned); [by constructor|].
  2: apply (Hnumber value_integer); [by constructor|].
  3: apply (Hnumber value_float); [by constructor|].
  1-3: intros l' Hval; cbn [number_value tail] in Hval; do 3 (split; [done|]); intros p Ht <-;
    unfold parse_scalar; by rewrite Ht, Hval, ?Hfin.
Qed.

(** ** Storing values *)

(** The value [v] has been stored where the handler [d] waits for one. *)
Definition stored (v : json) (d d' : dom) : Prop :=
  exists p e, handle_value v d = Ret (p, mk_dom (root d') (ref_stack d') e).

(** Storing another value through the pointer that [handle_value] returned. *)
Lemma handle_value_other sts d v w p d1 :
  value_ok sts d -> json_ok v -> handle_value v d = Ret (p, d1) ->
  exists d2, handle_value w d = Ret (p, d2) /\ root d2 = set_at p w (root d1) /\ ref_stack d2 = ref_stack d1.
Proof.
  intros [[Hs Hr] Hv] Hj. unfold handle_value. destruct sts as [|b sts], (ref_stack d) as [|q stk] eqn:Estk; try done.
  - intros [= <- <-]. by eexists.
  - cbn in Hs. destruct Hs as ((c & Hc & Hb) & _ & _). rewrite Hc.
    destruct b, c as [|m|a| | | | | |]; try done.
    + intros [= <- <-]. eexists. split; [done|]. cbn. split; [|done].
      rewrite (set_at_app _ _ _ _ (JArray (a ++ [v]))) by by eapply get_at_set.
      rewrite (set_at_set _ _ _ _ _ Hc). cbn. rewrite lookup_app_r, Nat.sub_diag by lia. cbn.
      by rewrite insert_app_r_alt, Nat.sub_diag by lia.
    + destruct Hv as (k & x & -> & Hx). intros [= <- <-]. eexists. split; [done|]. cbn. split; [|done].
      by rewrite (set_at_set _ _ _ _ x).
Qed.

(** The parser goes on after a value. *)
Definition finish (fuel : nat) (p : parser) : option (cpp parser) :=
  match evaluate_state p with
  | Ret (Some p) => sax_parse_internal fuel p
  | Ret None => Some (Ret p)
  | Throw e => Some (Throw e)
  | Undef => Some Undef
  end.

Lemma finish_break fuel p p' :
  skip_to_state_evaluation p = false -> parse_value p = Ret (Break p') ->
  sax_parse_internal (S fuel) p = finish fuel p'.
Proof.
  intros Hs E. cbn [sax_parse_internal]. unfold sax_parse_step. rewrite Hs, E. cbn [obind]. unfold finish.
  by destruct (evaluate_state p') as [[p2|]|e|].
Qed.

Lemma finish_skip fuel p :
  skip_to_state_evaluation p = true -> sax_parse_internal (S fuel) p = finish fuel (set_skip false p).
Proof.
  intros Hs. cbn [sax_parse_internal]. unfold sax_parse_step. rewrite Hs. cbn [obind]. unfold finish.
  by destruct (evaluate_state (set_skip false p)) as [[p2|]|e|].
Qed.

Lemma step_continue fuel p p' :
  skip_to_state_evaluation p = false -> parse_value p = Ret (Continue p') ->
  sax_parse_internal (S fuel) p = sax_parse_internal fuel p'.
Proof. intros Hs E. cbn [sax_parse_internal]. unfold sax_parse_step. by rewrite Hs, E. Qed.

(** More fuel does not change the result. *)
Lemma sax_parse_internal_mono f g p m :
  sax_parse_internal f p = Some m -> (f <= g)%nat -> sax_parse_internal g p = Some m.
Proof.
  revert g p. induction f as [|f IH]; intros [|g] p E Hg; try done; [lia|]. cbn in *.
  destruct (sax_parse_step p) as [[p' []]|e|]; try done. apply IH; [done|lia].
Qed.

(** ** Running the parser *)

Lemma get_token_scan p t l :
  scan (m_lexer p) = Some (t, l) ->
  get_token p = Ret (mk_parser t l (sax p) (states p) (skip_to_state_evaluation p)).
Proof. intros E. unfold get_token. by rewrite E. Qed.

(** The parser after a value: [r] is left of the input. *)
Record value_read_before (r : bytes) (sts : list bool) (p : parser) : Prop := mk_value_read_before {
  left_input : exists b, lex_at 1 r b (m_lexer p);
  left_states : states p = sts;
  left_skip : skip_to_state_evaluation p = false
}.

(** A text is read as the value: from its first token to the next evaluation of
    the state. *)
Definition value_runs (s : bytes) (v : json) : Prop :=
  forall ws n r b l0, 0 <= n -> spaces ws -> number_ends s r -> lex_at n (ws ++ s ++ r) b l0 ->
  exists t l, scan l0 = Some (t, l) /\ t <> end_array /\
    forall p, last_token p = t -> m_lexer p = l -> skip_to_state_evaluation p = false -> value_ok (states p) (sax p) ->
    exists c p', (forall fuel, sax_parse_internal (c + fuel) p = finish fuel p') /\
      value_read_before r (states p) p' /\ stored v (sax p) (sax p').

(** The rest of a container is read: from the evaluation of the state inside it to
    the one after it. The container at the path [q] becomes [w]. *)
Definition rest_runs (t : bytes) (b : bool) (q : path) (stk : list path) (w : json) (p : parser) (r : bytes) : Prop :=
  forall sts n buf, 0 <= n -> lex_at n (t ++ r) buf (m_lexer p) -> states p = b :: sts ->
  skip_to_state_evaluation p = false -> dom_ok (b :: sts) (sax p) -> ref_stack (sax p) = q :: stk ->
  exists c p', (forall fuel, finish (c + fuel) p = finish fuel p') /\ value_read_before r sts p' /\
    ref_stack (sax p') = stk /\ root (sax p') = set_at q w (root (sax p)).

Definition array_runs (t : bytes) (a : list json) : Prop :=
  forall q stk before p r, get_at q (root (sax p)) = Some (JArray before) ->
    rest_runs t true q stk (JArray (before ++ a)) p r.

Definition object_runs (t : bytes) (kvs : list (bytes * json)) : Prop :=
  forall q stk m p r, get_at q (root (sax p)) = Some (JObject m) ->
    rest_runs t false q stk (JObject (members_map kvs m)) p r.

(** Values in an array and in an object. *)
Lemma stored_ok sts v d d' : value_ok sts d -> json_ok v -> stored v d d' -> dom_ok sts d' /\ ref_stack d' = ref_stack d.
Proof.
  intros Hd Hv (p & e & E). destruct (handle_value_ok sts d v Hd Hv) as (p' & d1 & E' & [Hs Hr] & Hstk & _).
  rewrite E in E'. injection E' as <- <-. split; [by split|done].
Qed.

Lemma stored_array v d d' q stk before :
  ref_stack d = q :: stk -> get_at q (root d) = Some (JArray before) -> stored v d d' ->
  root d' = set_at q (JArray (before ++ [v])) (root d).
Proof. intros Hs Hg (p & e & E). unfold handle_value in E. rewrite Hs, Hg in E. by injection E. Qed.

Lemma stored_object k v d0 d d' q stk m :
  ref_stack d0 = q :: stk -> get_at q (root d0) = Some (JObject m) -> sax_key k d0 = Ret d -> stored v d d' ->
  root d' = set_at q (JObject (map_set k v m)) (root d0).
Proof.
  intros Hs Hg Ek (p & e & E). unfold sax_key in Ek. rewrite Hs, Hg in Ek. injection Ek as <-.
  unfold handle_value in E. cbn in E. rewrite (get_at_set q _ _ _ Hg) in E. injection E as <- <-.
  rewrite (set_at_app q [SKey k] v _ (JObject (map_emplace k JNull m))) by by eapply get_at_set.
  rewrite (set_at_set _ _ _ _ _ Hg). cbn. f_equal.
  unfold map_emplace. destruct (map_find k m) eqn:E; [by rewrite E|]. by rewrite map_find_set, map_set_set.
Qed.

(** A key and its separator. *)
Lemma key_runs sk k n ws r b l0 :
  key_text sk k -> 0 <= n -> spaces ws -> lex_at n (ws ++ sk ++ r) b l0 ->
  exists l, scan l0 = Some (tok_value_string, l) /\
    forall p sts, last_token p = tok_value_string -> m_lexer p = l -> dom_ok (false :: sts) (sax p) ->
    exists p' b', parse_key p = Ret p' /\ sax_key k (sax p) = Ret (sax p') /\ lex_at 1 r b' (m_lexer p') /\
      states p' = states p /\ skip_to_state_evaluation p' = skip_to_state_evaluation p.
Proof.
  intros Hk Hn Hws Hl. pose proof (key_text_valid sk k Hk) as Hv. destruct Hk as [s k ws' Hs Hws'].
  cbn [app] in Hl. rewrite <- !app_assoc in Hl. cbn [app] in Hl. rewrite <- app_assoc in Hl. cbn [app] in Hl.
  destruct (scan_string_at s k n ws _ b l0 Hs Hn Hws Hl) as (l & E & Hl1). exists l. split; [done|].
  intros p sts Ht <- Hd.
  destruct (scan_punctuation 58 name_separator 1 ws' r k (m_lexer p) eq_refl ltac:(done) Hws' Hl1) as (l2 & E2 & H2).
  destruct (sax_key_ok sts (sax p) k Hd Hv) as (d & Ed & _).
  eexists _, k. unfold parse_key. rewrite Ht, (at_buffer _ _ _ _ Hl1). cbn [bool_decide negb decide].
  rewrite bool_decide_eq_true_2 by done. cbn [negb]. rewrite (event_ret (sax_key k) p d Ed). cbn [obind].
  rewrite (get_token_scan (set_sax d p) name_separator l2) by done. cbn. by repeat split; try done; destruct H2.
Qed.

Lemma space_ends x r : is_space x = true -> ends_number (x :: r).
Proof.
  intros Hx. unfold is_space in Hx. repeat (apply orb_true_iff in Hx as [Hx|Hx]); apply Z.eqb_eq in Hx; subst x; done.
Qed.

Lemma ends_number_space ws c r :
  spaces ws -> is_digit c = false -> c <> 46 -> is_exponent c = false -> ends_number (ws ++ c :: r).
Proof. intros Hws H1 H2 H3. destruct Hws as [|x ws Hx _]; [done|by apply space_ends]. Qed.

Lemma input_end_ends ws r : spaces ws -> input_end r -> ends_number (ws ++ r).
Proof. intros Hws [->|[rest ->]]; destruct Hws as [|x ws Hx _]; try done; by apply space_ends. Qed.

Lemma array_rest_ends t a r : array_rest t a -> ends_number (t ++ r).
Proof. destruct 1; rewrite <- app_assoc; by apply ends_number_space. Qed.

Lemma object_rest_ends t kvs r : object_rest t kvs -> ends_number (t ++ r).
Proof. destruct 1; rewrite <- app_assoc; by apply ends_number_space. Qed.

Lemma runs_scalar s v : scalar_text s v -> value_runs s v.
Proof.
  intros Hs ws n r b l0 Hn Hws Hr Hl. pose proof (scalar_text_ok s v Hs) as Hv.
  destruct (scan_scalar s v n ws r b l0 Hs Hn Hws Hr Hl) as (t & l & b' & E & Hl' & Ha & Ho & He & Hp).
  exists t, l. split; [done|]. split; [done|]. intros p Ht Hlex Hskip Hok.
  destruct (handle_value_ok _ _ _ Hok Hv) as (q & d & Ed & _).
  exists 1%nat, (set_sax d p). split; [|split].
  - intros fuel. apply finish_break; [done|]. unfold parse_value.
    replace (match last_token p with begin_array => _ | begin_object => _ | _ => parse_scalar p end)
      with (parse_scalar p) by by rewrite Ht; destruct t.
    rewrite Hp by done. rewrite (event_ret _ _ d); [done|]. unfold sax_value. by rewrite Ed.
  - split; [|done..]. rewrite <- Hlex in Hl'. by exists b'.
  - exists q, (object_element d). rewrite Ed. by destruct d.
Qed.

(** The end of a container. *)
Lemma runs_end (b : bool) ws q stk w p r :
  spaces ws -> get_at q (root (sax p)) = Some w ->
  rest_runs (ws ++ [if b then 93 else 125]) b q stk w p r.
Proof.
  intros Hws Hw sts n buf Hn Hl Hst Hskip Hd Hstk.
  pose proof (set_at_get q _ _ (ok_root _ _ Hd) Hw) as Hset.
  rewrite <- app_assoc in Hl. cbn [app] in Hl.
  destruct (scan_punctuation (if b then 93 else 125) (if b then end_array else end_object) n ws r buf (m_lexer p)
    ltac:(by destruct b) Hn Hws Hl) as (l & E & Hl').
  destruct b; exists 1%nat; eexists; (split; [intros fuel; unfold finish at 1, evaluate_state;
    rewrite Hst, (get_token_scan p _ _ E); cbn [obind last_token];
    rewrite bool_decide_eq_false_2, bool_decide_eq_true_2 by done;
    unfold event, end_container; cbn [sax]; rewrite Hstk; cbn [obind];
    rewrite (finish_skip fuel) by done; reflexivity|]).
  1-2: split; [split; [by exists buf|done..]|split; [done|by rewrite Hset]].
Qed.

(** A further value of an array. *)
Lemma runs_array_more ws ws' s v t a :
  spaces ws -> spaces ws' -> value_text s v -> value_runs s v -> array_rest t a -> array_runs t a ->
  array_runs (ws ++ 44 :: ws' ++ s ++ t) (v :: a).
Proof.
  intros Hws Hws' Hs IHs Ht IHt q stk before p r Hg sts n buf Hn Hl Hst Hskip Hd Hstk.
  replace ((ws ++ 44 :: ws' ++ s ++ t) ++ r) with (ws ++ 44 :: (ws' ++ s ++ t ++ r)) in Hl
    by by rewrite <- !app_assoc; cbn [app]; rewrite <- !app_assoc.
  destruct (scan_punctuation 44 value_separator n ws _ buf (m_lexer p) eq_refl Hn Hws Hl) as (l1 & E1 & Hl1).
  destruct (IHs ws' 1 (t ++ r) buf l1 ltac:(done) Hws' (ends_number_ends s _ (array_rest_ends t a r Ht)) Hl1) as (tv & l2 & E2 & _ & Hrun).
  pose (p2 := mk_parser tv l2 (sax p) (states p) (skip_to_state_evaluation p)).
  assert (value_ok (true :: sts) (sax p)) as Hok by by apply array_value_ok.
  destruct (Hrun p2 eq_refl eq_refl Hskip) as (c1 & p3 & Hc1 & [[b3 H3] Hst3 Hskip3] & Hstored); [by cbn; rewrite Hst|].
  destruct (stored_ok _ v _ _ Hok (proj1 text_ok s v Hs) Hstored) as [Hd3 Hstk3].
  pose proof (stored_array v _ _ q stk before Hstk Hg Hstored) as Hroot3. cbn in Hst3.
  destruct (IHt q stk (before ++ [v]) p3 r) with (sts := sts) (n := 1) (buf := b3) as (c2 & p4 & Hc2 & H4 & Hstk4 & Hroot4);
    try done; try congruence.
  { rewrite Hroot3. by eapply get_at_set. }
  exists (c1 + c2)%nat, p4. split; [|split; [done|split; [done|]]].
  - intros fuel. rewrite <- Hc2, <- Hc1. unfold finish, evaluate_state. rewrite Hst, (get_token_scan p _ _ E1). cbn [obind last_token].
    rewrite bool_decide_eq_true_2 by done.
    rewrite (get_token_scan (mk_parser _ _ _ _ _) _ _ E2). cbn [obind]. by rewrite Nat.add_assoc.
  - rewrite Hroot4, Hroot3, <- app_assoc. by eapply set_at_set.
Qed.

(** A further member of an object. *)
Lemma runs_object_more ws ws' sk k ws'' s v t kvs :
  spaces ws -> spaces ws' -> key_text sk k -> spaces ws'' -> value_text s v -> value_runs s v ->
  object_rest t kvs -> object_runs t kvs ->
  object_runs (ws ++ 44 :: ws' ++ sk ++ ws'' ++ s ++ t) ((k, v) :: kvs).
Proof.
  intros Hws Hws' Hk Hws'' Hs IHs Ht IHt q stk m p r Hg sts n buf Hn Hl Hst Hskip Hd Hstk.
  replace ((ws ++ 44 :: ws' ++ sk ++ ws'' ++ s ++ t) ++ r) with (ws ++ 44 :: (ws' ++ sk ++ ws'' ++ s ++ t ++ r)) in Hl
    by by rewrite <- !app_assoc; cbn [app]; rewrite <- !app_assoc.
  destruct (scan_punctuation 44 value_separator n ws _ buf (m_lexer p) eq_refl Hn Hws Hl) as (l1 & E1 & Hl1).
  destruct (key_runs sk k 1 ws' _ buf l1 Hk ltac:(done) Hws' Hl1) as (l2 & E2 & Hkey).
  pose (p2 := mk_parser tok_value_string l2 (sax p) (states p) (skip_to_state_evaluation p)).
  destruct (Hkey p2 sts eq_refl eq_refl Hd) as (p3 & b3 & Ek & Hsax & H3 & Hst3 & Hskip3).
  destruct (sax_key_ok sts (sax p) k Hd (key_text_valid sk k Hk)) as (d3 & Ed3 & Hok).
  cbn in Hsax, Hst3, Hskip3. rewrite Hsax in Ed3. injection Ed3 as <-.
  destruct (IHs ws'' 1 (t ++ r) b3 (m_lexer p3) ltac:(done) Hws'' (ends_number_ends s _ (object_rest_ends t kvs r Ht)) H3)
    as (tv & l4 & E4 & _ & Hrun).
  pose (p4 := mk_parser tv l4 (sax p3) (states p3) (skip_to_state_evaluation p3)).
  destruct (Hrun p4 eq_refl eq_refl) as (c1 & p5 & Hc1 & [[b5 H5] Hst5 Hskip5] & Hstored);
    [cbn; congruence|cbn; by rewrite Hst3, Hst|].
  destruct (stored_ok _ v _ _ Hok (proj1 text_ok s v Hs) Hstored) as [Hd5 Hstk5].
  pose proof (stored_object k v _ _ _ q stk m Hstk Hg Hsax Hstored) as Hroot5. cbn in Hst5, Hstk5.
  assert (ref_stack (sax p3) = q :: stk) as Hstk3.
  { unfold sax_key in Hsax. rewrite Hstk, Hg in Hsax. by injection Hsax as <-. }
  destruct (IHt q stk (map_set k v m) p5 r) with (sts := sts) (n := 1) (buf := b5) as (c2 & p6 & Hc2 & H6 & Hstk6 & Hroot6);
    try done; try congruence.
  { rewrite Hroot5. by eapply get_at_set. }
  exists (c1 + c2)%nat, p6. split; [|split; [done|split; [done|]]].
  - intros fuel. rewrite <- Hc2, <- Hc1. unfold finish, evaluate_state. rewrite Hst, (get_token_scan p _ _ E1). cbn [obind last_token].
    rewrite bool_decide_eq_true_2 by done.
    rewrite (get_token_scan (mk_parser _ _ _ _ _) _ _ E2). cbn [obind sax]. change (parse_key _) with (parse_key p2). rewrite Ek. cbn [obind].
    rewrite (get_token_scan p3 _ _ E4). cbn [obind]. by rewrite Nat.add_assoc.
  - rewrite Hroot6, Hroot5. by eapply set_at_set.
Qed.

(** A container is opened in its place, where it can become another value. *)
Lemma start_container_slot sts d b v0 :
  value_ok sts d -> json_ok v0 -> container b v0 ->
  exists q d1, start_container v0 d = Ret d1 /\ dom_ok (b :: sts) d1 /\ ref_stack d1 = q :: ref_stack d /\
    get_at q (root d1) = Some v0 /\
    (forall w d', ref_stack d' = ref_stack d -> root d' = set_at q w (root d1) -> stored w d d') /\
    (forall d', ref_stack d' = ref_stack d -> root d' = root d1 -> stored v0 d d').
Proof.
  intros Hd Hv Hb. destruct (start_container_ok sts d b v0 Hd Hv Hb) as (d1 & E & Hd1).
  destruct (handle_value_ok sts d v0 Hd Hv) as (q & d0 & E0 & _ & Hstk & Hg & _).
  exists q, d1. split; [done|]. split; [done|]. unfold start_container in E. rewrite E0 in E. cbn in E.
  injection E as <-. cbn. split; [by rewrite Hstk|]. split; [done|]. split.
  - intros w d' Hs Hr. destruct (handle_value_other sts d v0 w q d0 Hd Hv E0) as (d2 & E2 & Hr2 & Hs2).
    exists q, (object_element d2). rewrite E2, Hs, Hr, <- Hr2, <- Hstk, <- Hs2. by destruct d2.
  - intros d' Hs Hr. exists q, (object_element d0). rewrite E0, Hs, Hr, <- Hstk. by destruct d0.
Qed.

Lemma runs_array_empty ws : spaces ws -> value_runs (91 :: ws ++ [93]) (JArray []).
Proof.
  intros Hws ws0 n r b l0 Hn Hws0 _ Hl. cbn [app] in Hl. rewrite <- app_assoc in Hl.
  destruct (scan_punctuation 91 begin_array n ws0 _ b l0 eq_refl Hn Hws0 Hl) as (l & E & H1).
  exists begin_array, l. split; [done|]. split; [done|]. intros p Ht Hlex Hskip Hok.
  destruct (start_container_slot _ _ true (JArray []) Hok I I) as (q & d1 & Ed & _ & Hstk & _ & _ & Hst).
  destruct (scan_punctuation 93 end_array 1 ws r b l eq_refl ltac:(done) Hws H1) as (l2 & E2 & H2).
  exists 1%nat. eexists. split; [|split; [split|]].
  - intros fuel. apply finish_break; [done|]. unfold parse_value. rewrite Ht.
    rewrite (event_ret start_array _ _ Ed). cbn [obind].
    rewrite (get_token_scan (set_sax d1 p) end_array l2) by (cbn; by rewrite Hlex). cbn [obind last_token].
    rewrite bool_decide_eq_true_2 by done. unfold event, end_container. cbn [sax set_sax]. rewrite Hstk. done.
  - by exists b.
  - done.
  - done.
  - by apply Hst.
Qed.

Lemma runs_array ws s v t a :
  spaces ws -> value_text s v -> value_runs s v -> array_rest t a -> array_runs t a ->
  value_runs (91 :: ws ++ s ++ t) (JArray (v :: a)).
Proof.
  intros Hws Hs IHs Ht IHt ws0 n r b l0 Hn Hws0 _ Hl. cbn [app] in Hl. rewrite <- !app_assoc in Hl.
  destruct (scan_punctuation 91 begin_array n ws0 _ b l0 eq_refl Hn Hws0 Hl) as (l & E & H1).
  exists begin_array, l. split; [done|]. split; [done|]. intros p Htok Hlex Hskip Hok.
  destruct (start_container_slot _ _ true (JArray []) Hok I I) as (q & d1 & Ed & Hd1 & Hstk & Hg & Hst & _).
  destruct (IHs ws 1 (t ++ r) b l ltac:(done) Hws (ends_number_ends s _ (array_rest_ends t a r Ht)) H1) as (tv & l2 & E2 & Htv & Hrun).
  pose (p2 := mk_parser tv l2 d1 (true :: states p) (skip_to_state_evaluation p)).
  pose proof (array_value_ok _ _ Hd1) as Hok1.
  destruct (Hrun p2 eq_refl eq_refl Hskip Hok1) as (c1 & p3 & Hc1 & [[b3 H3] Hst3 Hskip3] & Hstored).
  destruct (stored_ok _ v _ _ Hok1 (proj1 text_ok s v Hs) Hstored) as [Hd3 Hstk3].
  pose proof (stored_array v _ _ q _ [] Hstk Hg Hstored) as Hroot3. cbn in Hst3, Hstk3, Hroot3.
  destruct (IHt q (ref_stack (sax p)) [v] p3 r) with (sts := states p) (n := 1) (buf := b3)
    as (c2 & p4 & Hc2 & H4 & Hstk4 & Hroot4); try done; try congruence.
  { rewrite Hroot3. by eapply get_at_set. }
  exists (S (c1 + c2)), p4. split; [|split; [done|]].
  - intros fuel. rewrite <- Hc2, <- Hc1. cbn [Nat.add]. rewrite <- Nat.add_assoc. apply step_continue; [done|].
    unfold parse_value. rewrite Htok, (event_ret start_array _ _ Ed). cbn [obind].
    rewrite (get_token_scan (set_sax d1 p) tv l2) by (cbn; by rewrite Hlex). cbn [obind last_token].
    by rewrite bool_decide_eq_false_2.
  - apply Hst; [done|]. rewrite Hroot4, Hroot3. by eapply set_at_set.
Qed.

Lemma runs_object_empty ws : spaces ws -> value_runs (123 :: ws ++ [125]) (JObject []).
Proof.
  intros Hws ws0 n r b l0 Hn Hws0 _ Hl. cbn [app] in Hl. rewrite <- app_assoc in Hl.
  destruct (scan_punctuation 123 begin_object n ws0 _ b l0 eq_refl Hn Hws0 Hl) as (l & E & H1).
  exists begin_object, l. split; [done|]. split; [done|]. intros p Ht Hlex Hskip Hok.
  destruct (start_container_slot _ _ false (JObject []) Hok (conj eq_refl I) I) as (q & d1 & Ed & _ & Hstk & _ & _ & Hst).
  destruct (scan_punctuation 125 end_object 1 ws r b l eq_refl ltac:(done) Hws H1) as (l2 & E2 & H2).
  exists 1%nat. eexists. split; [|split; [split|]].
  - intros fuel. apply finish_break; [done|]. unfold parse_value. rewrite Ht.
    rewrite (event_ret start_object _ _ Ed). cbn [obind].
    rewrite (get_token_scan (set_sax d1 p) end_object l2) by (cbn; by rewrite Hlex). cbn [obind last_token].
    rewrite bool_decide_eq_true_2 by done. unfold event, end_container. cbn [sax set_sax]. rewrite Hstk. done.
  - by exists b.
  - done.
  - done.
  - by apply Hst.
Qed.

Lemma runs_object ws sk k ws' s v t kvs :
  spaces ws -> key_text sk k -> spaces ws' -> value_text s v -> value_runs s v ->
  object_rest t kvs -> object_runs t kvs ->
  value_runs (123 :: ws ++ sk ++ ws' ++ s ++ t) (JObject (members_map ((k, v) :: kvs) [])).
Proof.
  intros Hws Hk Hws' Hs IHs Ht IHt ws0 n r b l0 Hn Hws0 _ Hl. cbn [app] in Hl. rewrite <- !app_assoc in Hl.
  destruct (scan_punctuation 123 begin_object n ws0 _ b l0 eq_refl Hn Hws0 Hl) as (l & E & H1).
  exists begin_object, l. split; [done|]. split; [done|]. intros p Htok Hlex Hskip Hok.
  destruct (start_container_slot _ _ false (JObject []) Hok (conj eq_refl I) I) as (q & d1 & Ed & Hd1 & Hstk & Hg & Hst & _).
  destruct (key_runs sk k 1 ws _ b l Hk ltac:(done) Hws H1) as (l2 & E2 & Hkey).
  pose (p2 := mk_parser tok_value_string l2 d1 (states p) (skip_to_state_evaluation p)).
  destruct (Hkey p2 (states p) eq_refl eq_refl Hd1) as (p3 & b3 & Ek & Hsax & H3 & Hst3 & Hskip3).
  destruct (sax_key_ok _ d1 k Hd1 (key_text_valid sk k Hk)) as (d3 & Ed3 & Hok3).
  cbn in Hsax, Hst3, Hskip3. rewrite Hsax in Ed3. injection Ed3 as <-.
  destruct (IHs ws' 1 (t ++ r) b3 (m_lexer p3) ltac:(done) Hws' (ends_number_ends s _ (object_rest_ends t kvs r Ht)) H3)
    as (tv & l4 & E4 & _ & Hrun).
  pose (p4 := mk_parser tv l4 (sax p3) (false :: states p3) (skip_to_state_evaluation p3)).
  destruct (Hrun p4 eq_refl eq_refl) as (c1 & p5 & Hc1 & [[b5 H5] Hst5 Hskip5] & Hstored);
    [cbn; congruence|cbn; by rewrite Hst3|].
  destruct (stored_ok _ v _ _ Hok3 (proj1 text_ok s v Hs) Hstored) as [Hd5 Hstk5].
  pose proof (stored_object k v _ _ _ q _ [] Hstk Hg Hsax Hstored) as Hroot5. cbn [sax p4 states] in Hst5, Hstk5.
  assert (ref_stack (sax p3) = q :: ref_stack (sax p)) as Hstk3.
  { unfold sax_key in Hsax. rewrite Hstk, Hg in Hsax. by injection Hsax as <-. }
  destruct (IHt q (ref_stack (sax p)) (map_set k v []) p5 r) with (sts := states p) (n := 1) (buf := b5)
    as (c2 & p6 & Hc2 & H6 & Hstk6 & Hroot6); try done; try congruence.
  { rewrite Hroot5. by eapply get_at_set. }
  exists (S (c1 + c2)), p6. split; [|split; [done|]].
  - intros fuel. rewrite <- Hc2, <- Hc1. cbn [Nat.add]. rewrite <- Nat.add_assoc. apply step_continue; [done|].
    unfold parse_value. rewrite Htok, (event_ret start_object _ _ Ed). cbn [obind].
    rewrite (get_token_scan (set_sax d1 p) tok_value_string l2) by (cbn; by rewrite Hlex). cbn [obind last_token].
    rewrite bool_decide_eq_false_2 by done. change (parse_key _) with (parse_key p2). rewrite Ek. cbn [obind].
    by rewrite (get_token_scan (set_states _ p3) tv l4).
  - apply Hst; [done|]. rewrite Hroot6, Hroot5. by eapply set_at_set.
Qed.

(** Every text is read as its value. *)
Lemma text_runs :
  (forall s v, value_text s v -> value_runs s v) /\ (forall t a, array_rest t a -> array_runs t a) /\
  (forall t kvs, object_rest t kvs -> object_runs t kvs).
Proof.
  apply text_ind; eauto using runs_scalar, runs_array_empty, runs_array, runs_object_empty, runs_object,
    runs_array_more, runs_object_more.
  - intros ws Hws q stk before p r Hg. rewrite app_nil_r. by apply (runs_end true).
  - intros ws Hws q stk m p r Hg. by apply (runs_end false).
Qed.

(** The parser on a text, from the first token to the end of the input; [l0] may have
    read a byte order mark. *)
Lemma parse_from n l0 b input ws s v ws' r :
  0 <= n -> Forall u8 input -> scan (new_lexer input) = scan l0 -> lex_at n (ws ++ s ++ ws' ++ r) b l0 ->
  spaces ws -> value_text s v -> spaces ws' -> input_end r -> parse input = Ret v.
Proof.
  intros Hn Hu Escan Hl Hws Hs Hws' Hend. pose proof (token_read_first _ Hu) as (p0 & E0 & Hinv).
  destruct (proj1 text_runs s v Hs ws n (ws' ++ r) b l0 Hn Hws) as (t & l & E & _ & Hrun);
    [by apply ends_number_ends, input_end_ends|done|]. rewrite <- Escan in E.
  destruct (sax_parse_internal_ok (parse_fuel input) _ p0 Hinv) as (m & Em & _); [unfold parse_fuel; lia|].
  rewrite (get_token_scan (mk_parser uninitialized _ new_dom [] false) t l E) in E0. injection E0 as <-.
  destruct (Hrun (mk_parser t l new_dom [] false) eq_refl eq_refl eq_refl) as (c & p' & Hc & [[b' H'] Hst' _] & (q & e & Eq)).
  { apply root_value_ok. by split. }
  unfold parse, parse_with. rewrite (get_token_scan (mk_parser uninitialized _ new_dom [] false) t l E).
  cbn [sax states skip_to_state_evaluation] in *.
  assert (m = Ret p') as ->.
  { pose proof (sax_parse_internal_mono _ (c + parse_fuel input) _ _ Em ltac:(lia)) as Em'.
    rewrite Hc in Em'. unfold finish, evaluate_state in Em'. rewrite Hst' in Em'. by injection Em'. }
  rewrite Em. destruct (scan_end 1 ws' r b' (m_lexer p') ltac:(done) Hws' Hend H') as (l2 & E2).
  rewrite (get_token_scan p' _ _ E2). cbn. by injection Eq as _ <-.
Qed.

Lemma parse_text ws s v ws' r :
  spaces ws -> value_text s v -> spaces ws' -> input_end r -> Forall u8 r -> parse (ws ++ s ++ ws' ++ r) = Ret v.
Proof.
  intros Hws Hs Hws' Hend Hru. assert (Forall u8 (ws ++ s ++ ws' ++ r)) as Hu.
  { rewrite !Forall_app. split; [by apply spaces_u8|]. split; [by apply (proj1 text_u8 s v)|].
    split; [by apply spaces_u8|done]. }
  apply (parse_from 0 (new_lexer (ws ++ s ++ ws' ++ r)) [] _ ws s v ws' r); try done.
Qed.

Lemma parse_value_text s v : value_text s v -> parse s = Ret v.
Proof.
  intros Hs. rewrite <- (app_nil_r s). apply (parse_text [] s v [] []); try done; try constructor. done.
Qed.
