(* ===== verification/JsonSound.v ===== *)
(** * Everything that is parsed is a JSON text

    The converse of JsonText.v: when [basic_json::parse] returns a value, its input
    is a text of RFC 8259 that denotes this value, between white space, after a byte
    order mark or not, and before the end of the input or a NUL character. Together
    the two directions say what [parse] computes on all inputs. *)

From Stdlib Require Import ZArith Lia String Ascii SpecFloat.
From stdpp Require Import base list.
From S2P Require Import Prelude Utf8 Exceptions JsonValue JsonLexer JsonStrings JsonNumbers JsonScan JsonParser JsonDom JsonParse Strtod JsonText.

(** ** Tokens that were read *)

Lemma obind_ret {A B} (m : cpp A) (f : A -> cpp B) b : obind m f = Ret b -> exists a, m = Ret a /\ f a = Ret b.
Proof. destruct m as [a| |]; [by exists a|done..]. Qed.

(** The character of a token of punctuation. *)
Definition punctuation_char (t : token_type) : Z :=
  match t with
  | begin_array => 91 | end_array => 93 | begin_object => 123 | end_object => 125
  | name_separator => 58 | value_separator => 44 | _ => 0
  end.

Lemma punctuation_inv c t : punctuation c = Some t -> c = punctuation_char t.
Proof. unfold punctuation. intros H. repeat (case_cond; [bool_prop; by injection H as <-|]). done. Qed.

Lemma token_char l t s r c : token_text l t s r -> punctuation c = Some t -> s = [c].
Proof.
  intros Ht Hc. pose proof (punctuation_inv c t Hc) as ->.
  destruct Ht as [d t r Hd%punctuation_inv| | | | |t s r Ht _ _]; [by subst d|done..|by destruct Ht].
Qed.

(** The last token of the parser is the text [s], which the lexer [l0] had before it
    after the white space [ws]; [r] is left. *)
Record token_at (n : Z) (l0 : lexer) (ws s r : bytes) (p : parser) : Prop := mk_token_at {
  token_total : 0 <= n;
  token_spaces : spaces ws;
  token_before : exists b, lex_at n (ws ++ s ++ r) b l0;
  token_scan : scan l0 = Some (last_token p, m_lexer p);
  token_after : exists b, lex_at 1 r b (m_lexer p);
  token_shape : token_text (m_lexer p) (last_token p) s r
}.

Lemma next_token p p' r b :
  lex_at 1 r b (m_lexer p) -> get_token p = Ret p' ->
  sax p' = sax p /\ states p' = states p /\ skip_to_state_evaluation p' = skip_to_state_evaluation p /\
  (last_token p' = tok_parse_error \/
   (last_token p' = end_of_input /\ exists ws r0, r = ws ++ r0 /\ spaces ws /\ input_end r0) \/
   exists ws s r', r = ws ++ s ++ r' /\ token_at 1 (m_lexer p) ws s r' p').
Proof.
  intros Hl E. unfold get_token in E. destruct (scan (m_lexer p)) as [[t l]|] eqn:Es; [|done]. injection E as <-.
  cbn [sax states skip_to_state_evaluation last_token]. do 3 (split; [done|]).
  destruct (scan_scanned 1 r b _ ltac:(done) Hl) as [[l' E]|(bom & ws & r0 & -> & Hbom & Hws & t' & l' & E & Ht)];
    rewrite Es in E; injection E as -> ->; [by left|].
  destruct Hbom as [-> |[_ ?]]; [|done].
  destruct Ht as [->|[(-> & Hend & _)|(s & r' & b' & -> & H' & Ht)]]; [by left|right; left|right; right].
  { split; [done|]. by exists ws, r0. }
  exists ws, s, r'. split; [done|]. split; try done; by eexists.
Qed.

(** A token of punctuation after white space. *)
Lemma token_at_char n l0 ws s r p c : token_at n l0 ws s r p -> punctuation c = Some (last_token p) -> s = [c].
Proof. intros H. exact (token_char _ _ _ _ _ (token_shape _ _ _ _ _ _ H)). Qed.

Lemma token_at_length n l0 ws s r p : token_at n l0 ws s r p -> (length r < length (ws ++ s ++ r))%nat.
Proof.
  intros H. pose proof (token_nonempty _ _ _ _ (token_shape _ _ _ _ _ _ H)). rewrite !length_app.
  destruct s; [done|cbn; lia].
Qed.

(** The parser fails on an error, on the end of the input and on a closing bracket or
    a separator where it needs a value. *)
Lemma no_scalar fuel p pf :
  skip_to_state_evaluation p = false -> sax_parse_internal fuel p = Some (Ret pf) ->
  last_token p <> tok_parse_error /\ last_token p <> end_of_input /\ last_token p <> end_array /\
  last_token p <> end_object /\ last_token p <> name_separator /\ last_token p <> value_separator /\
  (last_token p = value_float -> is_finite (number_float (m_lexer p)) = true).
Proof.
  intros Hs E. destruct fuel as [|fuel]; [done|]. cbn [sax_parse_internal] in E. unfold sax_parse_step in E.
  rewrite Hs in E. unfold parse_value, parse_scalar in E. repeat split; intros Ht; rewrite Ht in E; try done.
  by destruct (is_finite _).
Qed.

Lemma turn_inv fuel p pf :
  skip_to_state_evaluation p = false -> sax_parse_internal fuel p = Some (Ret pf) ->
  exists fuel', fuel = S fuel' /\
    ((exists p', parse_value p = Ret (Continue p') /\ sax_parse_internal fuel' p' = Some (Ret pf)) \/
     (exists p', parse_value p = Ret (Break p') /\ finish fuel' p' = Some (Ret pf))).
Proof.
  intros Hs E. destruct fuel as [|fuel]; [done|]. exists fuel. split; [done|].
  destruct (parse_value p) as [[p'|p']| |] eqn:Ev.
  - left. exists p'. by rewrite (step_continue fuel p p') in E.
  - right. exists p'. by rewrite (finish_break fuel p p') in E.
  - cbn in E. unfold sax_parse_step in E. by rewrite Hs, Ev in E.
  - cbn in E. unfold sax_parse_step in E. by rewrite Hs, Ev in E.
Qed.

(** A value that has been found is read as JsonText.v says. *)
Lemma finish_value n l0 ws s0 r1 p s v r' fuel pf :
  token_at n l0 ws s0 r1 p -> value_text s v -> s0 ++ r1 = s ++ r' -> number_ends s r' ->
  skip_to_state_evaluation p = false -> value_ok (states p) (sax p) -> sax_parse_internal fuel p = Some (Ret pf) ->
  exists p', value_read_before r' (states p) p' /\ stored v (sax p) (sax p') /\
    dom_ok (states p) (sax p') /\ ref_stack (sax p') = ref_stack (sax p) /\ finish fuel p' = Some (Ret pf).
Proof.
  intros [Hn Hws [b Hb] Hscan _ _] Hv Es He Hskip Hok E. rewrite Es in Hb.
  destruct (proj1 text_runs s v Hv ws n r' b l0 Hn Hws He Hb) as (t & l & Hscan' & _ & Hrun).
  rewrite Hscan in Hscan'. injection Hscan' as Et El.
  destruct (Hrun p Et El Hskip Hok) as (c & p' & Hc & Hp' & Hst). exists p'. do 2 (split; [done|]).
  destruct (stored_ok _ v _ _ Hok (proj1 text_ok s v Hv) Hst) as [Hd Hstk]. do 2 (split; [done|]).
  rewrite <- Hc. eapply sax_parse_internal_mono; [exact E|lia].
Qed.

(** ** The texts that are found *)

(** Where a run that succeeds needs a value, and inside an open container, there is
    the text of one; [N] bounds what is left of the input. *)
Definition value_found (N : nat) : Prop := forall n l0 ws s0 r1 p fuel pf,
  token_at n l0 ws s0 r1 p -> skip_to_state_evaluation p = false -> value_ok (states p) (sax p) ->
  (length r1 < N)%nat -> sax_parse_internal fuel p = Some (Ret pf) ->
  exists s v r', s0 ++ r1 = s ++ r' /\ value_text s v /\ number_ends s r' /\ (length r' <= length r1)%nat.

Definition rest_found {A} (rest : bytes -> list A -> Prop) (b : bool) (N : nat) : Prop := forall p fuel pf r buf sts,
  lex_at 1 r buf (m_lexer p) -> states p = b :: sts -> skip_to_state_evaluation p = false ->
  dom_ok (b :: sts) (sax p) -> (length r < N)%nat -> finish fuel p = Some (Ret pf) ->
  exists t a r', r = t ++ r' /\ rest t a /\ (length r' < length r)%nat.

Lemma number_ends_other c rest r : label_done (first_label c) = true -> number_ends (c :: rest) r.
Proof.
  unfold number_ends, first_label. intros H. repeat (case_cond; [done|]). by destruct rest.
Qed.

(** The text of a scalar. *)
Lemma scalar_found l t s r :
  token_text l t s r -> t <> end_array -> t <> end_object -> t <> name_separator -> t <> value_separator ->
  (t = value_float -> is_finite (number_float l) = true) ->
  t = begin_array \/ t = begin_object \/ exists v, scalar_text s v /\ number_ends s r.
Proof.
  destruct 1 as [c t r Hc| | | |s r Hs|t s r Ht Hv He]; intros H1 H2 H3 H4 Hf.
  - unfold punctuation in Hc. repeat (case_cond; [injection Hc as <-; tauto|]). done.
  - right; right. eexists. split; [constructor|done].
  - right; right. eexists. split; [constructor|done].
  - right; right. eexists. split; [constructor|done].
  - right; right. eexists. split; [by constructor|by apply number_ends_other].
  - right; right. destruct Ht as [s Hn Hd|s Hn Hd|s Hs]; eexists; (split; [|done]); [by constructor..|].
    apply text_float; [done|]. cbn in Hv. rewrite <- Hv. by apply Hf.
Qed.

(** The token that a run goes on with. *)
Lemma value_token p0 p p' r b fuel pf :
  lex_at 1 r b (m_lexer p0) -> get_token p0 = Ret p -> last_token p' = last_token p -> m_lexer p' = m_lexer p ->
  skip_to_state_evaluation p' = false -> sax_parse_internal fuel p' = Some (Ret pf) ->
  exists ws s r', r = ws ++ s ++ r' /\ token_at 1 (m_lexer p0) ws s r' p' /\ (length r' < length r)%nat.
Proof.
  intros Hl E Et El Hs Ei. destruct (next_token p0 p r b Hl E) as (_ & _ & _ & H).
  destruct (no_scalar fuel p' pf Hs Ei) as (He & Hn & _). rewrite Et in He, Hn.
  destruct H as [?|[[? _]|(ws & s & r' & -> & H)]]; [done..|]. exists ws, s, r'. split; [done|].
  split; [|by eapply token_at_length]. destruct H. split; try done; by rewrite ?Et, ?El.
Qed.

(** A token of punctuation that the parser finds. *)
Lemma char_token p0 p r b c t :
  lex_at 1 r b (m_lexer p0) -> get_token p0 = Ret p -> last_token p = t -> punctuation c = Some t ->
  exists ws r' b', r = ws ++ c :: r' /\ spaces ws /\ lex_at 1 r' b' (m_lexer p) /\
    sax p = sax p0 /\ states p = states p0 /\ skip_to_state_evaluation p = skip_to_state_evaluation p0.
Proof.
  intros Hl E Et Hc. destruct (next_token p0 p r b Hl E) as (E1 & E2 & E3 & H).
  pose proof (punctuation_inv c t Hc) as Ec.
  destruct H as [H|[[H _]|(ws & s & r' & -> & H)]]; [rewrite Et in H; rewrite H in Hc, Ec; by subst c..|].
  rewrite <- Et in Hc. rewrite (token_at_char _ _ _ _ _ _ c H Hc).
  destruct (token_after _ _ _ _ _ _ H) as [b' H']. exists ws, r', b'. split; [done|].
  split; [exact (token_spaces _ _ _ _ _ _ H)|]. done.
Qed.

Lemma string_token l t s r :
  token_text l t s r -> t = tok_value_string -> exists s', s = 34 :: s' ++ [34] /\ string_text s' (token_buffer l).
Proof.
  destruct 1 as [c t r Hc| | | |s r Hs|t s r Ht _ _]; intros Et; try done; [|by exists s|by subst t; inversion Ht].
  subst t. pose proof (punctuation_inv _ _ Hc) as Ec. by subst c.
Qed.

(** A key with its separator. *)
Lemma key_found p p2 p3 r b sts :
  lex_at 1 r b (m_lexer p) -> get_token p = Ret p2 -> parse_key p2 = Ret p3 -> dom_ok (false :: sts) (sax p) ->
  exists ws sk k r' b', r = ws ++ sk ++ r' /\ spaces ws /\ key_text sk k /\ lex_at 1 r' b' (m_lexer p3) /\
    value_ok (false :: sts) (sax p3) /\ states p3 = states p /\
    skip_to_state_evaluation p3 = skip_to_state_evaluation p /\ (length r' < length r)%nat.
Proof.
  intros Hl E Ek Hd. destruct (next_token p p2 r b Hl E) as (E1 & E2 & E3 & H). unfold parse_key in Ek.
  case_bool_decide as Et; cbn [negb] in Ek; [|done].
  destruct H as [H|[[H _]|(ws & s & r1 & -> & H)]]; [by rewrite Et in H..|].
  destruct (string_token _ _ _ _ (token_shape _ _ _ _ _ _ H) Et) as (s' & -> & Hs).
  destruct (token_after _ _ _ _ _ _ H) as [b1 H1]. pose proof (token_at_length _ _ _ _ _ _ H) as Hlen.
  rewrite <- E1 in Hd. destruct (sax_key_ok sts (sax p2) _ Hd (string_text_valid _ _ Hs)) as (d & Ed & Hok).
  rewrite (event_ret _ _ _ Ed) in Ek. cbn [obind] in Ek. apply obind_ret in Ek as (p4 & E4 & Ek).
  case_bool_decide as En; cbn [negb] in Ek; [|done]. injection Ek as ->.
  destruct (char_token (set_sax d p2) p3 r1 b1 58 name_separator H1 E4 En eq_refl)
    as (ws' & r' & b' & -> & Hws' & H' & F1 & F2 & F3).
  exists ws, (34 :: s' ++ 34 :: ws' ++ [58]), (token_buffer (m_lexer p2)), r', b'.
  split; [cbn [app]; rewrite <- !app_assoc; cbn [app]; by rewrite <- app_assoc|].
  split; [exact (token_spaces _ _ _ _ _ _ H)|]. split; [by constructor|]. split; [done|].
  cbn in F1, F2, F3. rewrite F1, F2, F3. do 3 (split; [done|]). rewrite !length_app in *. cbn in *. rewrite !length_app in *. cbn in *. lia.
Qed.

(** A value and what follows it in its container. *)
Lemma element_found {A} (rest : bytes -> list A -> Prop) b N n l0 ws s0 r1 p fuel pf sts :
  value_found N -> rest_found rest b N -> token_at n l0 ws s0 r1 p -> skip_to_state_evaluation p = false ->
  states p = b :: sts -> value_ok (b :: sts) (sax p) -> (length r1 < N)%nat -> sax_parse_internal fuel p = Some (Ret pf) ->
  exists s v t a r', s0 ++ r1 = s ++ t ++ r' /\ value_text s v /\ rest t a /\ (length r' < length r1)%nat.
Proof.
  intros Hv Hr Ht Hs Hst Hok Hlen E. rewrite <- Hst in Hok.
  destruct (Hv _ _ _ _ _ _ _ _ Ht Hs Hok Hlen E) as (s & v & r2 & Es & Hvt & He & Hl2).
  destruct (finish_value _ _ _ _ _ _ _ _ _ _ _ Ht Hvt Es He Hs Hok E)
    as (p' & [[b' H'] Hst' Hs'] & _ & Hd & _ & Ef).
  rewrite Hst in Hst', Hd.
  destruct (Hr p' fuel pf r2 b' sts H' Hst' Hs' Hd ltac:(lia) Ef) as (t & a & r' & -> & Hta & Hl').
  exists s, v, t, a, r'. rewrite Es. do 3 (split; [done|]). lia.
Qed.

Lemma array_rest_found N : value_found N -> rest_found array_rest true N -> rest_found array_rest true (S N).
Proof.
  intros IHv IHr p fuel pf r b sts Hl Hst Hs Hd Hlen E. unfold finish, evaluate_state in E. rewrite Hst in E.
  destruct (get_token p) as [p1| |] eqn:E1; [|done..]. cbn [obind] in E. case_bool_decide as Et.
  - destruct (char_token p p1 r b 44 value_separator Hl E1 Et eq_refl) as (ws & r1 & b1 & -> & Hws & H1 & F1 & F2 & F3).
    destruct (get_token p1) as [p2| |] eqn:E2; [|done..]. cbn [obind] in E.
    destruct (next_token p1 p2 r1 b1 H1 E2) as (G1 & G2 & G3 & _).
    destruct (value_token p1 p2 p2 r1 b1 fuel pf H1 E2 eq_refl eq_refl ltac:(congruence) E)
      as (ws' & s0 & r2 & -> & Ht & Hl2).
    rewrite !length_app in *. cbn [length] in *.
    destruct (element_found array_rest true N _ _ _ _ _ p2 fuel pf sts IHv IHr Ht) as (s & v & t & a & r' & Es & Hv & Ha & Hl');
      [congruence|congruence|apply array_value_ok; by rewrite G1, F1|rewrite !length_app in *; lia|done|].
    exists (ws ++ 44 :: ws' ++ s ++ t), (v :: a), r'. split; [rewrite Es, <- !app_assoc; cbn; by rewrite <- !app_assoc|].
    split; [|rewrite !length_app in *; lia].
    constructor; [done|exact (token_spaces _ _ _ _ _ _ Ht)|done|done].
  - case_bool_decide as Ee; [|done].
    destruct (char_token p p1 r b 93 end_array Hl E1 Ee eq_refl) as (ws & r1 & b1 & -> & Hws & _).
    exists (ws ++ [93]), [], r1. rewrite <- app_assoc. split; [done|]. split; [by constructor|].
    rewrite length_app. cbn. lia.
Qed.

Lemma object_rest_found N : value_found N -> rest_found object_rest false N -> rest_found object_rest false (S N).
Proof.
  intros IHv IHr p fuel pf r b sts Hl Hst Hs Hd Hlen E. unfold finish, evaluate_state in E. rewrite Hst in E.
  destruct (get_token p) as [p1| |] eqn:E1; [|done..]. cbn [obind] in E. case_bool_decide as Et.
  - destruct (char_token p p1 r b 44 value_separator Hl E1 Et eq_refl) as (ws & r1 & b1 & -> & Hws & H1 & F1 & F2 & F3).
    destruct (get_token p1) as [p2| |] eqn:E2; [|done..]. cbn [obind] in E.
    destruct (parse_key p2) as [p3| |] eqn:E3; [|done..]. cbn [obind] in E.
    destruct (get_token p3) as [p4| |] eqn:E4; [|done..]. cbn [obind] in E.
    destruct (key_found p1 p2 p3 r1 b1 sts H1 E2 E3) as (ws' & sk & k & r2 & b2 & -> & Hws' & Hk & H2 & Hok & G2 & G3 & Hl2);
      [by rewrite F1|].
    destruct (next_token p3 p4 r2 b2 H2 E4) as (J1 & J2 & J3 & _).
    destruct (value_token p3 p4 p4 r2 b2 fuel pf H2 E4 eq_refl eq_refl ltac:(congruence) E)
      as (ws'' & s0 & r3 & -> & Ht & Hl3).
    rewrite !length_app in *. cbn [length] in *.
    destruct (element_found object_rest false N _ _ _ _ _ p4 fuel pf sts IHv IHr Ht) as (s & v & t & a & r' & Es & Hv & Ha & Hl');
      [congruence|congruence|by rewrite J1|rewrite !length_app in *; lia|done|].
    exists (ws ++ 44 :: ws' ++ sk ++ ws'' ++ s ++ t), ((k, v) :: a), r'.
    split; [rewrite Es, <- !app_assoc; cbn; by rewrite <- !app_assoc|].
    split; [|rewrite !length_app in *; lia].
    constructor; [done|done|done|exact (token_spaces _ _ _ _ _ _ Ht)|done|done].
  - case_bool_decide as Ee; [|done].
    destruct (char_token p p1 r b 125 end_object Hl E1 Ee eq_refl) as (ws & r1 & b1 & -> & Hws & _).
    exists (ws ++ [125]), [], r1. rewrite <- app_assoc. split; [done|]. split; [by constructor|].
    rewrite length_app. cbn. lia.
Qed.

(** The text of an array from its bracket on. *)
Lemma array_found N n l0 ws s0 r1 p fuel pf :
  value_found N -> rest_found array_rest true N -> token_at n l0 ws s0 r1 p -> last_token p = begin_array ->
  skip_to_state_evaluation p = false -> value_ok (states p) (sax p) -> (length r1 < S N)%nat ->
  sax_parse_internal fuel p = Some (Ret pf) ->
  exists s v r', s0 ++ r1 = 91 :: s ++ r' /\ value_text (91 :: s) v /\ (length r' <= length r1)%nat.
Proof.
  intros IHv IHr Ht Et Hs Hok Hlen E. pose proof (token_at_char _ _ _ _ _ _ 91 Ht ltac:(by rewrite Et)) as ->.
  destruct (token_after _ _ _ _ _ _ Ht) as [b1 H1].
  destruct (turn_inv fuel p pf Hs E) as (fuel' & -> & Hstep). clear E.
  destruct (start_container_ok _ _ true (JArray []) Hok I I) as (d & Ed & Hd).
  unfold parse_value in Hstep. rewrite Et, (event_ret start_array _ _ Ed) in Hstep. cbn [obind] in Hstep.
  destruct (get_token (set_sax d p)) as [p2| |] eqn:E2; [|by destruct Hstep as [(? & ? & _)|(? & ? & _)]..].
  cbn [obind] in Hstep. destruct (next_token (set_sax d p) p2 r1 b1 H1 E2) as (F1 & F2 & F3 & _). cbn in F1, F2, F3.
  case_bool_decide as Ee.
  - destruct (char_token (set_sax d p) p2 r1 b1 93 end_array H1 E2 Ee eq_refl) as (ws' & r' & b' & -> & Hws' & _).
    exists (ws' ++ [93]), (JArray []), r'. rewrite <- app_assoc. split; [done|]. split; [by apply text_array_empty|].
    rewrite length_app. cbn. lia.
  - destruct Hstep as [(p3 & [= <-] & E)|(? & [=] & _)].
    destruct (value_token (set_sax d p) p2 (set_states (true :: states p2) p2) r1 b1 fuel' pf H1 E2 eq_refl eq_refl
      ltac:(cbn; congruence) E) as (ws' & s1 & r2 & -> & Ht2 & Hl2).
    destruct (element_found array_rest true N _ _ _ _ _ _ fuel' pf (states p) IHv IHr Ht2)
      as (s & v & t & a & r' & Es & Hv & Ha & Hl');
      [cbn; congruence|cbn; congruence|apply array_value_ok; cbn; by rewrite F1|lia|done|].
    exists (ws' ++ s ++ t), (JArray (v :: a)), r'. split; [cbn; by rewrite Es, <- !app_assoc|].
    split; [apply text_array; [exact (token_spaces _ _ _ _ _ _ Ht2)|done..]|lia].
Qed.

(** The text of an object from its bracket on. *)
Lemma object_found N n l0 ws s0 r1 p fuel pf :
  value_found N -> rest_found object_rest false N -> token_at n l0 ws s0 r1 p -> last_token p = begin_object ->
  skip_to_state_evaluation p = false -> value_ok (states p) (sax p) -> (length r1 < S N)%nat ->
  sax_parse_internal fuel p = Some (Ret pf) ->
  exists s v r', s0 ++ r1 = 123 :: s ++ r' /\ value_text (123 :: s) v /\ (length r' <= length r1)%nat.
Proof.
  intros IHv IHr Ht Et Hs Hok Hlen E. pose proof (token_at_char _ _ _ _ _ _ 123 Ht ltac:(by rewrite Et)) as ->.
  destruct (token_after _ _ _ _ _ _ Ht) as [b1 H1].
  destruct (turn_inv fuel p pf Hs E) as (fuel' & -> & Hstep). clear E.
  destruct (start_container_ok _ _ false (JObject []) Hok (conj eq_refl I) I) as (d & Ed & Hd).
  unfold parse_value in Hstep. rewrite Et, (event_ret start_object _ _ Ed) in Hstep. cbn [obind] in Hstep.
  destruct (get_token (set_sax d p)) as [p2| |] eqn:E2; [|by destruct Hstep as [(? & ? & _)|(? & ? & _)]..].
  cbn [obind] in Hstep. case_bool_decide as Ee.
  - destruct (char_token (set_sax d p) p2 r1 b1 125 end_object H1 E2 Ee eq_refl) as (ws' & r' & b' & -> & Hws' & _).
    exists (ws' ++ [125]), (JObject []), r'. rewrite <- app_assoc. split; [done|]. split; [by apply text_object_empty|].
    rewrite length_app. cbn. lia.
  - destruct (parse_key p2) as [p3| |] eqn:E3; [|by destruct Hstep as [(? & ? & _)|(? & ? & _)]..]. cbn [obind] in Hstep.
    destruct (get_token (set_states _ p3)) as [p4| |] eqn:E4; [|by destruct Hstep as [(? & ? & _)|(? & ? & _)]..].
    destruct Hstep as [(p5 & [= <-] & E)|(? & [=] & _)].
    destruct (key_found (set_sax d p) p2 p3 r1 b1 (states p) H1 E2 E3 Hd)
      as (ws' & sk & k & r2 & b2 & -> & Hws' & Hk & H2 & Hok3 & G2 & G3 & Hl2).
    destruct (next_token (set_states (false :: states p3) p3) p4 r2 b2 H2 E4) as (J1 & J2 & J3 & _). cbn in G2, G3, J1, J2, J3.
    destruct (value_token (set_states (false :: states p3) p3) p4 p4 r2 b2 fuel' pf H2 E4 eq_refl eq_refl ltac:(congruence) E)
      as (ws'' & s1 & r3 & -> & Ht3 & Hl3).
    destruct (element_found object_rest false N _ _ _ _ _ _ fuel' pf (states p) IHv IHr Ht3)
      as (s & v & t & a & r' & Es & Hv & Ha & Hl'); [congruence|congruence|by rewrite J1|rewrite !length_app in *; lia|done|].
    exists (ws' ++ sk ++ ws'' ++ s ++ t), (JObject (members_map ((k, v) :: a) [])), r'.
    split; [cbn; by rewrite Es, <- !app_assoc|]. split; [|rewrite !length_app in *; lia].
    apply text_object; [done|done|exact (token_spaces _ _ _ _ _ _ Ht3)|done..].
Qed.

Lemma texts_found N : value_found N /\ rest_found array_rest true N /\ rest_found object_rest false N.
Proof.
  assert (forall N, value_found N -> rest_found array_rest true N -> rest_found object_rest false N -> value_found (S N)) as Hstep.
  { clear N. intros N IHv IHa IHo n l0 ws s0 r1 p fuel pf Ht Hs Hok Hlen E.
    destruct (no_scalar fuel p pf Hs E) as (H1 & H2 & H3 & H4 & H5 & H6 & Hf).
    destruct (scalar_found _ _ _ _ (token_shape _ _ _ _ _ _ Ht) H3 H4 H5 H6 Hf) as [Et|[Et|(v & Hv & He)]].
    - destruct (array_found N _ _ _ _ _ p fuel pf IHv IHa Ht Et Hs Hok Hlen E) as (s & v & r' & Es & Hv & Hl').
      exists (91 :: s), v, r'. do 2 (split; [done|]). split; [by apply number_ends_other|done].
    - destruct (object_found N _ _ _ _ _ p fuel pf IHv IHo Ht Et Hs Hok Hlen E) as (s & v & r' & Es & Hv & Hl').
      exists (123 :: s), v, r'. do 2 (split; [done|]). split; [by apply number_ends_other|done].
    - exists s0, v, r1. split; [done|]. split; [by constructor|done]. }
  induction N as [|N (IHv & IHa & IHo)].
  - split; [|split]; repeat intro; lia.
  - split; [by apply Hstep|]. split; [by apply array_rest_found|by apply object_rest_found].
Qed.

(** ** Documents *)

(** An input that denotes a value: a JSON text with white space around it, after a
    byte order mark or not; a NUL character counts as the end of the input. *)
Definition json_document (input : bytes) (v : json) : Prop :=
  exists bom ws s ws' r, input = bom ++ ws ++ s ++ ws' ++ r /\ (bom = [] \/ bom = [239; 187; 191]) /\
    spaces ws /\ value_text s v /\ spaces ws' /\ input_end r.

(** The lexer after a byte order mark. *)
Lemma scan_bom x :
  Forall u8 x -> exists l, scan (new_lexer ([239; 187; 191] ++ x)) = scan l /\ lex_at 3 x [] l.
Proof.
  intros Hx. exists (get (get (get (new_lexer ([239; 187; 191] ++ x))))). split; [done|].
  assert (lex_at 0 ([239; 187; 191] ++ x) [] (new_lexer ([239; 187; 191] ++ x))) as H
    by (apply new_lexer_at; by repeat constructor).
  cbn [app] in *. apply get_got, got_at, get_got, got_at, get_got, got_at in H. exact H.
Qed.

Lemma document_complete input v : Forall u8 input -> json_document input v -> parse input = Ret v.
Proof.
  intros Hu (bom & ws & s & ws' & r & -> & Hbom & Hws & Hs & Hws' & Hr).
  destruct Hbom as [-> | ->]; cbn [app] in *.
  - apply (parse_from 0 (new_lexer (ws ++ s ++ ws' ++ r)) [] _ ws s v ws' r); try done.
  - assert (Forall u8 (ws ++ s ++ ws' ++ r)) as Hx by by do 3 apply Forall_inv_tail in Hu.
    destruct (scan_bom _ Hx) as (l & E & Hl). by apply (parse_from 3 l [] _ ws s v ws' r).
Qed.

(** The first token of an input. *)
Lemma first_token input p :
  Forall u8 input -> get_token (mk_parser uninitialized (new_lexer input) new_dom [] false) = Ret p ->
  last_token p <> tok_parse_error -> last_token p <> end_of_input ->
  sax p = new_dom /\ states p = [] /\ skip_to_state_evaluation p = false /\
  exists bom n l0 ws s r, input = bom ++ ws ++ s ++ r /\ (bom = [] \/ bom = [239; 187; 191]) /\ token_at n l0 ws s r p.
Proof.
  intros Hu E He Hn. unfold get_token in E. cbn [m_lexer] in E.
  destruct (scan (new_lexer input)) as [[t l]|] eqn:Es; [|done]. injection E as <-. cbn in He, Hn.
  do 3 (split; [done|]). pose proof (new_lexer_at input Hu) as Hl.
  destruct (scan_scanned 0 input [] _ ltac:(done) Hl) as [[l' E]|(bom & ws & r0 & -> & Hbom & Hws & t' & l' & E & Ht)];
    rewrite Es in E; injection E as -> ->; [done|].
  destruct Ht as [?|[(? & _)|(s & r' & b' & -> & H' & Ht)]]; [done..|].
  destruct Hbom as [-> |[-> _]]; cbn [app] in *.
  - exists [], 0, (new_lexer (ws ++ s ++ r')), ws, s, r'. split; [done|]. split; [by left|].
    split; try done; by eexists.
  - assert (Forall u8 (ws ++ s ++ r')) as Hx by by do 3 apply Forall_inv_tail in Hu.
    destruct (scan_bom _ Hx) as (l3 & E3 & Hl3). cbn [app] in E3. rewrite E3 in Es.
    exists [239; 187; 191], 3, l3, ws, s, r'. split; [done|]. split; [by right|]. split; try done; by eexists.
Qed.

Lemma document_sound input v : Forall u8 input -> parse input = Ret v -> json_document input v.
Proof.
  intros Hu E. unfold parse, parse_with in E.
  destruct (get_token _) as [p| |] eqn:E0; [|done..].
  destruct (sax_parse_internal _ p) as [[p'| |]|] eqn:E1; [|done..].
  destruct (get_token p') as [p2| |] eqn:E2; [|done..]. cbn [obind] in E.
  case_bool_decide as Et; cbn [negb] in E; [|done]. injection E as <-.
  assert (skip_to_state_evaluation p = false) as Hs.
  { unfold get_token in E0. by destruct (scan _) as [[t l]|]; [injection E0 as <-|]. }
  destruct (no_scalar _ _ _ Hs E1) as (H1 & H2 & _).
  destruct (first_token input p Hu E0 H1 H2) as (Esax & Est & _ & bom & n & l0 & ws & s0 & r1 & -> & Hbom & Ht).
  assert (value_ok (states p) (sax p)) as Hok by (rewrite Est, Esax; apply root_value_ok; by split).
  destruct (proj1 (texts_found (S (length r1))) n l0 ws s0 r1 p _ _ Ht Hs Hok ltac:(lia) E1) as (s & v & r & Es & Hv & He & _).
  destruct (finish_value _ _ _ _ _ _ _ _ _ _ _ Ht Hv Es He Hs Hok E1) as (p3 & [[b H3] Hst3 _] & (q & e & Eq) & _ & _ & Ef).
  unfold finish, evaluate_state in Ef. rewrite Hst3, Est in Ef. injection Ef as ->.
  rewrite Esax in Eq. injection Eq as _ Er _.
  destruct (next_token p' p2 r b H3 E2) as (-> & _ & _ & Hend). rewrite Et in Hend.
  destruct Hend as [?|[(_ & ws' & r0 & -> & Hws' & Hr)|(ws' & s' & r' & -> & Htok)]]; [done| |].
  - exists bom, ws, s, ws', r0. rewrite Es, <- Er. do 2 (split; [done|]).
    split; [exact (token_spaces _ _ _ _ _ _ Ht)|done].
  - pose proof (token_shape _ _ _ _ _ _ Htok) as Hshape. rewrite Et in Hshape. inversion Hshape as [c t r2 Hc| | | | |t s2 r2 Hlit]; subst.
    + pose proof (punctuation_inv _ _ Hc) as ->. done.
    + by inversion Hlit.
Qed.

(** C8: what [basic_json::parse] computes, for all inputs: it returns a value exactly
    when the input is a JSON text of RFC 8259 that denotes it - with white space
    around it, after a byte order mark or not, and up to the end of the input or a
    NUL character. A number denotes an integer of 64 bits where it is one and else
    the nearest [double], which must be finite; keys and strings have their escapes
    decoded, elements are in order, and of members with the same key the last
    counts. On all other inputs it throws one of the two exceptions of the parser. *)
Theorem parse_rfc8259 input :
  Forall u8 input ->
  (forall v, parse input = Ret v <-> json_document input v) /\
  ((forall v, ~ json_document input v) -> exists e, parse input = Throw e /\ parse_exception e).
Proof.
  intros Hu. split; [intros v; split; [by apply document_sound|by apply document_complete]|].
  intros Hno. pose proof (parse_parses input Hu) as H. destruct (parse input) as [v|e|] eqn:E; [|by exists e|done].
  exfalso. by apply (Hno v), document_sound.
Qed.

Lemma parse_rfc8259_witness :
  parse ([239; 187; 191] ++ str " [1, 1]") = Ret (JArray [JUnsigned 1; JUnsigned 1]) /\
  forall v, ~ json_document (str "[01]") v.
Proof.
  split.
  - apply (proj1 (parse_rfc8259 ([239; 187; 191] ++ str " [1, 1]") ltac:(bytes_ok))).
    exists [239; 187; 191], (str " "), (str "[1, 1]"), [], []. split; [reflexivity|]. split; [by right|].
    split; [by repeat constructor|]. split; [|split; [constructor|by left]].
    assert (value_text [49] (JUnsigned 1)) as H1 by (apply text_scalar, (text_unsigned [49]); [by repeat constructor|reflexivity]).
    apply (text_array [] [49] (JUnsigned 1) (str ", 1]") [JUnsigned 1]); [constructor|exact H1|].
    apply (array_more [] (str " ") [49] (JUnsigned 1) (str "]") []); [constructor|by repeat constructor|exact H1|].
    apply (array_end []). constructor.
  - intros v Hv. apply (proj1 (parse_rfc8259 (str "[01]") ltac:(bytes_ok))) in Hv. vm_compute in Hv. discriminate.
Defined.
