(* ===== verification/JsonRoundTrip.v ===== *)
(** * Writing and reading back

    [basic_json::dump] without indentation writes a JSON text of the value, and
    [basic_json::parse] reads it back. The value read differs in the types of its
    integers only: a non-negative one is read as unsigned. A finite floating-point
    number is read as exactly itself; one that is not finite, written as null, as
    null. *)

From Stdlib Require Import ZArith Lia String Ascii SpecFloat.
From stdpp Require Import base list.
From S2P Require Import Prelude Utf8 Exceptions JsonValue JsonLexer JsonStrings JsonNumbers JsonScan JsonParser.
From S2P Require Import JsonDom JsonParse ToChars JsonSerializer JsonDigits JsonEscape FloatText JsonText.

(** ** Values *)

(** Induction over the elements of arrays and the members of objects. *)
Section Induction.
Context (P : json -> Prop).
Context (Hscalar : forall j, (match j with JArray _ | JObject _ => False | _ => True end) -> P j).
Context (Harray : forall a, Forall P a -> P (JArray a)).
Context (Hobject : forall m, Forall (fun kv => P (snd kv)) m -> P (JObject m)).

Fixpoint json_nested_ind (j : json) : P j :=
  match j with
  | JArray a =>
      Harray a ((fix all (a : list json) : Forall P a :=
        match a with [] => Forall_nil_2 P | v :: a => Forall_cons_2 P v a (json_nested_ind v) (all a) end) a)
  | JObject m =>
      Hobject m ((fix all (m : list (bytes * json)) : Forall (fun kv => P (snd kv)) m :=
        match m with
        | [] => Forall_nil_2 _
        | kv :: m => Forall_cons_2 (fun kv => P (snd kv)) kv m (json_nested_ind (snd kv)) (all m)
        end) m)
  | JNull => Hscalar JNull I
  | JString s => Hscalar (JString s) I
  | JBoolean b => Hscalar (JBoolean b) I
  | JInteger z => Hscalar (JInteger z) I
  | JUnsigned z => Hscalar (JUnsigned z) I
  | JFloat f => Hscalar (JFloat f) I
  | JDiscarded => Hscalar JDiscarded I
  end.
End Induction.

(** The value that is read back. *)
Fixpoint canonical (j : json) : json :=
  match j with
  | JInteger z => if 0 <=? z then JUnsigned z else JInteger z
  | JFloat f => if is_finite f then JFloat f else JNull
  | JArray a => JArray (map canonical a)
  | JObject m => JObject (map (fun kv => (fst kv, canonical (snd kv))) m)
  | _ => j
  end.

Definition canonical_member (kv : bytes * json) : bytes * json := (fst kv, canonical (snd kv)).

(** The values that are written as JSON texts: valid UTF-8 strings, sorted keys,
    integers that [dump_integer] can write, and [double]s. *)
Fixpoint writable (j : json) : Prop :=
  match j with
  | JNull | JBoolean _ => True
  | JInteger z => - 2 ^ 63 < z < 2 ^ 63
  | JUnsigned z => u64 z
  | JFloat f => valid_binary 53 1024 f = true
  | JString s => valid_utf8 s
  | JArray a => (fix all (a : list json) := match a with [] => True | v :: a => writable v /\ all a end) a
  | JObject m =>
      keys_sorted m = true /\
      (fix all (m : list (bytes * json)) :=
         match m with [] => True | kv :: m => (valid_utf8 (fst kv) /\ writable (snd kv)) /\ all m end) m
  | JDiscarded => False
  end.

Definition writable_member (kv : bytes * json) : Prop := valid_utf8 (fst kv) /\ writable (snd kv).

Lemma writable_array a : writable (JArray a) <-> Forall writable a.
Proof. induction a as [|v a IH]; cbn in *; [by split|]. by rewrite Forall_cons, IH. Qed.

Lemma writable_object m : writable (JObject m) <-> keys_sorted m = true /\ Forall writable_member m.
Proof.
  cbn. apply and_iff_compat_l. induction m as [|kv m IH]; cbn; [by split|]. by rewrite Forall_cons, IH.
Qed.

(** ** Members in the order of their keys *)

Lemma map_set_last {V} k (v : V) m :
  Forall (fun kv => key_compare (fst kv) k = Lt) m -> map_set k v m = m ++ [(k, v)].
Proof.
  induction 1 as [|[k1 v1] m Hk _ IH]; [done|]. cbn in *. rewrite key_compare_antisym, Hk. cbn. by rewrite IH.
Qed.

Lemma keys_sorted_below {V} m1 k (v : V) m2 :
  keys_sorted (m1 ++ (k, v) :: m2) = true -> Forall (fun kv => key_compare (fst kv) k = Lt) m1.
Proof.
  induction m1 as [|[k1 v1] m1 IH]; intros H; [constructor|]. cbn [app] in H.
  pose proof (keys_sorted_above _ _ _ H) as Ha. apply Forall_app in Ha as [_ Ha].
  constructor; [exact (Forall_inv Ha)|]. by apply IH, (keys_sorted_tail (k1, v1)).
Qed.

Lemma members_map_sorted m1 m2 : keys_sorted (m1 ++ m2) = true -> members_map m2 m1 = m1 ++ m2.
Proof.
  revert m1. induction m2 as [|[k v] m2 IH]; intros m1 H; [by rewrite app_nil_r|].
  unfold members_map. cbn [fold_left fst snd]. rewrite map_set_last by by eapply keys_sorted_below.
  fold (members_map m2 (m1 ++ [(k, v)])). rewrite IH; rewrite <- app_assoc; done.
Qed.

Lemma keys_sorted_canonical m : keys_sorted (map canonical_member m) = keys_sorted m.
Proof.
  induction m as [|[k v] m IH]; [done|]. cbn [map canonical_member fst snd]. destruct m as [|[k1 v1] m]; [done|].
  cbn [map canonical_member fst snd keys_sorted] in *. destruct (key_compare k k1); [done|exact IH|done].
Qed.

(** ** Scalars *)

Lemma to_string_text z : - 2 ^ 63 < z < 2 ^ 64 -> scalar_text (to_string z) (if 0 <=? z then JUnsigned z else JInteger z).
Proof.
  intros Hz. destruct (Z.leb_spec 0 z) as [H|H].
  - rewrite <- (to_string_decimal z H) at 2. apply text_unsigned; [by apply to_string_natural|].
    rewrite to_string_decimal; lia.
  - rewrite to_string_negative by done. replace z with (- decimal (to_string (- z))) at 2 by (rewrite to_string_decimal; lia).
    apply text_integer; [apply to_string_natural; lia|]. rewrite to_string_decimal; lia.
Qed.

Section Dump.
Context (handler : error_handler_t) (indent_char : Z) (ea : bool).

Lemma dump_scalar_text j :
  writable j -> (match j with JArray _ | JObject _ => False | _ => True end) ->
  exists s, dump_scalar handler ea j = Ret s /\ scalar_text s (canonical j).
Proof.
  intros Hj Hs. destruct j as [| | |s|b|z|z|f|]; try done.
  - exists (str "null"). split; [done|constructor].
  - destruct (dump_escaped_reads_back handler ea s Hj) as (t & E & Ht). exists (34 :: t ++ [34]).
    cbn [dump_scalar]. rewrite E. split; [done|by constructor].
  - destruct b; eexists; (split; [done|constructor]).
  - exists (to_string z). cbn in Hj. cbn [dump_scalar]. rewrite dump_integer_ok by done.
    split; [done|]. apply to_string_text. lia.
  - exists (to_string z). cbn in Hj. cbn [dump_scalar]. rewrite dump_integer_ok by done.
    split; [done|]. unfold in_width in Hj. pose proof (to_string_text z ltac:(lia)) as H.
    by replace (0 <=? z) with true in H by lia.
  - cbn in Hj. unfold dump_scalar, dump_float, canonical. destruct (is_finite f) eqn:Hf; cbn [negb].
    + destruct (to_chars_ok f number_buffer Hf Hj eq_refl) as (text & (tl & -> & _) & _ & (neg & ip & fp & x & Ht) & Hv).
      exists text. cbn [obind]. rewrite Nat2Z.id, take_app_length. split; [done|]. rewrite <- Hv at 1.
      apply text_float; [by eapply literal_float|by rewrite Hv].
    + exists (str "null"). split; [done|constructor].
Qed.

(** ** Arrays and objects *)

Abbreviation dump_compact := (dump_value handler indent_char false ea 0).

(** The loops of [dump_value]. *)
Fixpoint dump_elements (current_indent : nat) (a : list json) (size : nat) : cpp (bytes * nat) :=
  match a with
  | [] => Ret ([], size)
  | v :: a' =>
      let* (s, size) := dump_compact v current_indent size in
      match a' with
      | [] => Ret ([] ++ s, size)
      | _ => let* (rest, size) := dump_elements current_indent a' size in Ret ([] ++ s ++ [44] ++ rest, size)
      end
  end.

Fixpoint dump_members (current_indent : nat) (m : list (bytes * json)) (size : nat) : cpp (bytes * nat) :=
  match m with
  | [] => Ret ([], size)
  | (k, v) :: m' =>
      let* key := dump_escaped handler ea k in
      let* (s, size) := dump_compact v current_indent size in
      let member := [] ++ [34] ++ key ++ [34; 58] ++ s in
      match m' with
      | [] => Ret (member, size)
      | _ => let* (rest, size) := dump_members current_indent m' size in Ret (member ++ [44] ++ rest, size)
      end
  end.

Lemma dump_array_eq v a ind size :
  dump_compact (JArray (v :: a)) ind size =
  let* (body, size) := dump_elements ind (v :: a) size in Ret ([91] ++ body ++ [] ++ [] ++ [93], size).
Proof.
  cbn -[dump_elements app]. f_equal. cbn [dump_elements].
  destruct (dump_compact v ind size) as [[s n]|e|]; cbn [obind]; [|done..].
  match goal with |- context [?f a n] => is_fix f; assert (forall l n, f l n = dump_elements ind l n) as H end.
  { induction l as [|x l IH]; intros n0; [done|]. cbn [dump_elements].
    destruct (dump_compact x ind n0) as [[s0 n1]|e|]; cbn [obind]; [|done..]. destruct l; [done|]. by rewrite IH. }
  rewrite H. by destruct a.
Qed.

Lemma dump_object_eq k v m ind size :
  dump_compact (JObject ((k, v) :: m)) ind size =
  let* (body, size) := dump_members ind ((k, v) :: m) size in Ret ([123] ++ body ++ [] ++ [] ++ [125], size).
Proof.
  cbn -[dump_members app]. f_equal. cbn [dump_members].
  destruct (dump_escaped handler ea k) as [key|e|]; cbn [obind]; [|done..].
  destruct (dump_compact v ind size) as [[s n]|e|]; cbn [obind]; [|done..].
  match goal with |- context [?f m n] => is_fix f; assert (forall l n, f l n = dump_members ind l n) as H end.
  { induction l as [|[k0 x] l IH]; intros n0; [done|]. cbn [dump_members].
    destruct (dump_escaped handler ea k0) as [key0|e|]; cbn [obind]; [|done..].
    destruct (dump_compact x ind n0) as [[s0 n1]|e|]; cbn [obind]; [|done..]. destruct l; [done|]. by rewrite IH. }
  rewrite H. by destruct m.
Qed.

Lemma dump_elements_more ind v v' a size :
  dump_elements ind (v :: v' :: a) size =
  let* (s, size) := dump_compact v ind size in
  let* (rest, size) := dump_elements ind (v' :: a) size in Ret ([] ++ s ++ [44] ++ rest, size).
Proof. reflexivity. Qed.

Lemma dump_members_more ind k v kv m size :
  dump_members ind ((k, v) :: kv :: m) size =
  let* key := dump_escaped handler ea k in
  let* (s, size) := dump_compact v ind size in
  let* (rest, size) := dump_members ind (kv :: m) size in Ret (([] ++ [34] ++ key ++ [34; 58] ++ s) ++ [44] ++ rest, size).
Proof. reflexivity. Qed.

(** A value is written as a text of what is read back. *)
Definition dump_writes (j : json) : Prop :=
  forall ind size, exists s, dump_compact j ind size = Ret (s, size) /\ value_text s (canonical j).

Lemma dump_elements_text ind a :
  Forall dump_writes a -> forall v size, dump_writes v ->
  exists body s t, dump_elements ind (v :: a) size = Ret (body, size) /\ body ++ [93] = s ++ t /\
  value_text s (canonical v) /\ array_rest t (map canonical a).
Proof.
  induction 1 as [|v' a Hv' _ IH]; intros v size Hv; destruct (Hv ind size) as (s & E & Hs).
  - cbn [dump_elements]. rewrite E. cbn [obind]. exists s, s, [93]. do 3 (split; [done|]). apply (array_end []). constructor.
  - destruct (IH v' size Hv') as (body & s' & t & Eb & Et & Hs' & Ht).
    rewrite dump_elements_more, E. cbn [obind]. rewrite Eb. cbn [obind app].
    exists (s ++ 44 :: body), s, (44 :: s' ++ t).
    split; [done|]. split; [rewrite <- Et; by rewrite <- app_assoc|]. split; [done|].
    apply (array_more [] []); [constructor|constructor|done|done].
Qed.

Lemma dump_members_text ind m :
  Forall (fun kv => valid_utf8 (fst kv) /\ dump_writes (snd kv)) m ->
  forall k v size, valid_utf8 k -> dump_writes v ->
  exists body sk s t, dump_members ind ((k, v) :: m) size = Ret (body, size) /\ body ++ [125] = sk ++ s ++ t /\
  key_text sk k /\ value_text s (canonical v) /\ object_rest t (map canonical_member m).
Proof.
  induction 1 as [|[k' v'] m [Hk' Hv'] _ IH]; intros k v size Hk Hv; destruct (Hv ind size) as (s & E & Hs);
    destruct (dump_escaped_reads_back handler ea k Hk) as (key & Ek & Hkey);
    assert (key_text (34 :: key ++ [34; 58]) k) as Hsk by (apply (key_intro key k []); [done|constructor]).
  - cbn [dump_members]. rewrite Ek. cbn [obind]. rewrite E. cbn [obind].
    exists (34 :: key ++ [34; 58] ++ s), (34 :: key ++ [34; 58]), s, [125].
    split; [done|]. split; [cbn; by rewrite <- !app_assoc|]. do 2 (split; [done|]). apply (object_end []). constructor.
  - destruct (IH k' v' size Hk' Hv') as (body & sk' & s' & t & Eb & Et & Hsk' & Hs' & Ht). cbn [fst snd] in *.
    rewrite dump_members_more, Ek. cbn [obind]. rewrite E. cbn [obind]. rewrite Eb. cbn [obind].
    eexists _, (34 :: key ++ [34; 58]), s, (44 :: sk' ++ s' ++ t).
    split; [done|]. split; [rewrite <- Et; cbn; by rewrite <- !app_assoc|]. do 2 (split; [done|]).
    apply (object_more [] [] sk' k' []); [constructor|constructor|done|constructor|done|done].
Qed.

Lemma dump_compact_text j : writable j -> dump_writes j.
Proof.
  induction j as [j Hj|a IH|m IH] using json_nested_ind; intros Hw.
  - intros ind size. destruct (dump_scalar_text j Hw Hj) as (s & E & Hs). exists s. split; [|by apply text_scalar].
    destruct j; try done; cbn [dump_value]; by rewrite E.
  - apply writable_array in Hw. assert (Forall dump_writes a) as Ha.
    { rewrite !Forall_forall in *. auto. }
    intros ind size. destruct Ha as [|v a Hv Ha]; [exists (str "[]"); split; [done|by apply (text_array_empty []); constructor]|].
    destruct (dump_elements_text ind a Ha v size Hv) as (body & s & t & E & Et & Hs & Ht).
    rewrite dump_array_eq, E. cbn [obind]. eexists. split; [done|]. cbn [app]. rewrite Et.
    by apply (text_array []); [constructor|..].
  - apply writable_object in Hw as [Hsort Hm].
    assert (Forall (fun kv => valid_utf8 (fst kv) /\ dump_writes (snd kv)) m) as Ha.
    { rewrite !Forall_forall in *. intros kv Hkv. destruct (Hm kv Hkv). auto. }
    intros ind size. destruct Ha as [|[k v] m [Hk Hv] Ha]; [exists (str "{}"); split; [done|by apply (text_object_empty []); constructor]|].
    destruct (dump_members_text ind m Ha k v size Hk Hv) as (body & sk & s & t & E & Et & Hsk & Hs & Ht).
    rewrite dump_object_eq, E. cbn [obind]. eexists. split; [done|]. cbn [app]. rewrite Et.
    change (canonical (JObject ((k, v) :: m))) with (JObject (map canonical_member ((k, v) :: m))).
    pose proof (members_map_sorted [] (map canonical_member ((k, v) :: m))) as Em. cbn [app] in Em.
    rewrite <- Em by by rewrite keys_sorted_canonical.
    apply (text_object [] sk k []); [constructor|done|constructor|done|done].
Qed.
End Dump.

Lemma dump_text handler indent_char ea j :
  writable j -> exists s, dump handler indent_char (-1) ea j = Ret s /\ value_text s (canonical j).
Proof.
  intros Hj. destruct (dump_compact_text handler indent_char ea j Hj 0%nat 512%nat) as (s & E & Hs).
  exists s. split; [|done]. unfold dump. change (0 <=? -1) with false. cbv iota. by rewrite E.
Qed.



(** ** Values that were parsed *)

(** No integer is the least one of 64 bits, which [dump_integer] cannot write. *)
Fixpoint no_least (j : json) : Prop :=
  match j with
  | JInteger z => z <> - 2 ^ 63
  | JArray a => (fix all (a : list json) := match a with [] => True | v :: a => no_least v /\ all a end) a
  | JObject m =>
      (fix all (m : list (bytes * json)) := match m with [] => True | kv :: m => no_least (snd kv) /\ all m end) m
  | _ => True
  end.

Lemma no_least_array a : no_least (JArray a) <-> Forall no_least a.
Proof. induction a as [|v a IH]; cbn in *; [by split|]. by rewrite Forall_cons, IH. Qed.

Lemma no_least_object m : no_least (JObject m) <-> Forall (fun kv => no_least (snd kv)) m.
Proof. induction m as [|kv m IH]; cbn in *; [by split|]. by rewrite Forall_cons, IH. Qed.

Lemma ok_writable j : json_ok j -> no_least j -> writable j.
Proof.
  induction j as [j Hj|a IH|m IH] using json_nested_ind.
  - destruct j; cbn; try done; [lia|tauto].
  - rewrite json_ok_array, no_least_array, writable_array, !Forall_forall. rewrite Forall_forall in IH. auto.
  - rewrite json_ok_object, no_least_object, writable_object, !Forall_forall. rewrite Forall_forall in IH.
    intros [Hs Hm] Hl. split; [done|]. intros kv Hin. destruct (Hm kv Hin) as [H1 H2]. split; [done|]. auto.
Qed.

(** C26: every value that [basic_json::parse] returns for any bytes, the least
    integer of 64 bits apart, is written by [dump] and read back as the same value:
    reading and writing again loses nothing. *)
Theorem parse_dump_parse input j handler indent_char ea :
  Forall u8 input -> parse input = Ret j -> no_least j ->
  exists s, dump handler indent_char (-1) ea j = Ret s /\ parse s = Ret (canonical j).
Proof.
  intros Hu Hp Hl. destruct (dump_text handler indent_char ea j) as (s & E & Hs).
  - apply ok_writable; [|done]. pose proof (parse_parses input Hu) as H. by rewrite Hp in H.
  - exists s. split; [done|]. by apply parse_value_text.
Qed.

Lemma parse_dump_parse_witness :
  let j := JArray [JFloat (S754_finite false 7205759403792794 (-54)); JInteger 0; JUnsigned 18446744073709551615] in
  exists s, dump strict 32 (-1) false j = Ret s /\ parse s = Ret (canonical j).
Proof.
  intros j. apply (parse_dump_parse (str "[0.40000000000000001e0 , -0,18446744073709551615]") j strict 32 false).
  - bytes_ok.
  - vm_compute. reflexivity.
  - cbn. done.
Defined.
