(* ===== verification/JsonRpc.v ===== *)
(** * JSON-RPC on the wire

    [JSONSerializer] of src/src/json_protocol.cpp from bytes to packets and back,
    as the serializer of the program: the interface [ProtocolSerializer] that the
    server is proved against is discharged with the lexer, the parser and the
    serializer of nlohmann::json, and the properties of the program are stated of
    the texts that clients send and receive. *)

From Stdlib Require Import ZArith Lia String Ascii SpecFloat.
From stdpp Require Import base list gmap.
From S2P Require Import Prelude Utf8 Exceptions Base64 RingBuffer MultiBuffer JsonValue Protocol JsonProtocol RpcServer EmuRpc System.
From S2P Require Import JsonLexer JsonStrings JsonNumbers JsonScan JsonParser JsonDom JsonParse JsonSerializer JsonDigits JsonEscape JsonText JsonRoundTrip.

(** ** The serializer *)

(** [JSONSerializer::SerializeResponse]. *)
Definition JSONSerializer_SerializeResponse (packet : Response.AnyPacket) : cpp bytes :=
  let* j := response_to_json packet in dump_default j.

(** [JSONSerializer::DeserializeRequest]. *)
Definition JSONSerializer_DeserializeRequest (raw : bytes) : cpp Request.AnyPacket :=
  let* j := parse raw in request_of_json j.

Definition JSONSerializer : ProtocolSerializer := {|
  SerializeResponse := JSONSerializer_SerializeResponse;
  DeserializeRequest := JSONSerializer_DeserializeRequest
|}.

(** ** Plain texts *)

(** Characters that are written as they are. *)
Definition plain_char (c : Z) : Prop := 32 <= c < 127 /\ c <> 34 /\ c <> 92.

Lemma plain_scalar s : Forall plain_char s -> Forall scalar s.
Proof. intros H. eapply Forall_impl; [exact H|]. intros c Hc. unfold plain_char, scalar in *. lia. Qed.

Lemma plain_text s : Forall plain_char s -> utf8_text s = s.
Proof.
  induction 1 as [|c s Hc _ IH]; [done|]. unfold plain_char in Hc. unfold utf8_text in *. cbn. rewrite IH.
  unfold utf8_encode. by replace (c <? 128) with true by lia.
Qed.

Lemma plain_valid s : Forall plain_char s -> valid_utf8 s.
Proof. intros H. exists s. split; [by apply plain_scalar|by rewrite plain_text]. Qed.

Lemma plain_escape ea s : Forall plain_char s -> escape_text ea s = s.
Proof.
  induction 1 as [|c s Hc _ IH]; [done|]. unfold plain_char in Hc. unfold escape_text in *. cbn. rewrite IH.
  unfold escape_char, escape_codepoint. replace (c <? 128) with true by lia.
  do 7 (match goal with |- context [c =? ?k] => replace (c =? k) with false by lia end).
  replace (c <=? 31) with false by lia. replace (127 <=? c) with false by lia. by rewrite andb_false_r.
Qed.

Lemma dump_escaped_plain handler ea s : Forall plain_char s -> dump_escaped handler ea s = Ret s.
Proof.
  intros H. pose proof (dump_escaped_valid handler ea s (plain_scalar s H)) as E.
  by rewrite plain_text, plain_escape in E.
Qed.

Lemma base64_char_plain t : 0 <= t < 64 -> plain_char (base64_char t).
Proof.
  intros Ht. pose (p t := (32 <=? base64_char t) && (base64_char t <? 127) && negb (base64_char t =? 34) &&
    negb (base64_char t =? 92)).
  assert (p t = true) as H by (apply (all_below_spec 64); [by vm_compute|lia]). unfold p in H. bool_prop.
  unfold plain_char. lia.
Qed.

Lemma rfc4648_plain v : Forall u8 v -> Forall plain_char (rfc4648_encode v).
Proof.
  induction v as [|a|a b|a b c l IH] using list_ind3; intros H; [constructor|..]; rewrite !Forall_cons in H;
    unfold in_width in H; cbn [rfc4648_encode].
  all: repeat (apply Forall_cons; split;
    [first [apply base64_char_plain; Z.to_euclidean_division_equations; lia | by vm_compute]|]).
  1-2: constructor.
  apply IH. tauto.
Qed.

Lemma rfc4648_length v : 3 * Z.of_nat (length (rfc4648_encode v)) <= 4 * Z.of_nat (length v) + 8.
Proof. induction v as [|a|a b|a b c l IH] using list_ind3; cbn [rfc4648_encode length]; lia. Qed.

(** ** Responses *)

Definition quoted (s : bytes) : bytes := 34 :: s ++ [34].

(** The text of a successful response. *)
Definition response_text (i : Z) (result : bytes) : bytes :=
  str "{" ++ quoted (str "id") ++ str ":" ++ to_string i ++ str "," ++
  quoted (str "jsonrpc") ++ str ":" ++ quoted (str "2.0") ++ str "," ++
  quoted (str "result") ++ str ":" ++ quoted result ++ str "}".

Definition response_value (i : Z) (result : bytes) : json :=
  JObject [(str "id", JUnsigned i); (str "jsonrpc", JString (str "2.0")); (str "result", JString result)].

Lemma plain_dec s : forallb (fun c => (32 <=? c) && (c <? 127) && negb (c =? 34) && negb (c =? 92)) s = true -> Forall plain_char s.
Proof.
  intros H. rewrite forallb_forall in H. apply Forall_forall. intros c Hc. apply list_elem_of_In, H in Hc. bool_prop.
  unfold plain_char. lia.
Qed.

Ltac plain_ok := apply plain_dec; vm_compute; reflexivity.

Lemma dump_response i result :
  u64 i -> Forall plain_char result -> dump_default (response_value i result) = Ret (response_text i result).
Proof.
  intros Hi Hr. unfold dump_default, dump, response_value. change (0 <=? -1) with false. cbv iota.
  rewrite dump_object_eq. cbn [dump_members dump_value dump_scalar].
  rewrite !(dump_escaped_plain strict false) by first [done|plain_ok].
  rewrite dump_integer_ok by done. cbn [obind]. unfold response_text, quoted. f_equal.
  repeat first [rewrite <- app_assoc | progress cbn [app]]. reflexivity.
Qed.

Lemma response_writable i result : u64 i -> Forall plain_char result -> writable (response_value i result).
Proof.
  intros Hi Hr. split; [done|]. cbn [fst snd writable].
  repeat match goal with |- _ /\ _ => split end; try exact I; try exact Hi; apply plain_valid; first [done|plain_ok].
Qed.

Lemma response_value_text i result :
  u64 i -> Forall plain_char result -> value_text (response_text i result) (response_value i result).
Proof.
  intros Hi Hr. destruct (dump_text strict 32 false _ (response_writable i result Hi Hr)) as (s & E & Hs).
  pose proof (dump_response i result Hi Hr) as E'. unfold dump_default in E'. rewrite E in E'.
  by injection E' as ->.
Qed.

(** The result of an answer, in base64. *)
Definition answer_result (p : Response.AnyPacket) : bytes :=
  match p with Response.AMemoryRead r => rfc4648_encode (Response.result r) | _ => [] end.

Lemma u32_u64 i : u32 i -> u64 i.
Proof. unfold in_width. lia. Qed.

Lemma answer_plain p : answer p -> Forall plain_char (answer_result p) /\ u64 (Response.response_id p).
Proof.
  intros [(i & data & -> & Hi & Hd)|(i & -> & Hi)]; cbn; (split; [|by apply u32_u64]).
  - by apply rfc4648_plain.
  - constructor.
Qed.

Lemma answer_serialized p :
  answer p ->
  JSONSerializer_SerializeResponse p = Ret (response_text (Response.response_id p) (answer_result p)).
Proof.
  intros Ha. pose proof (answer_plain p Ha) as [Hp Hi]. unfold JSONSerializer_SerializeResponse.
  destruct Ha as [(i & data & -> & _ & Hd)|(i & -> & _)]; unfold response_to_json, Res.to_json_any.
  - unfold Res.to_json_memory_read. cbn [obind]. rewrite EncodeBase64_eq by done.
    by apply (dump_response i (rfc4648_encode data)).
  - by apply (dump_response i []).
Qed.

Lemma to_string_u64_length i : u64 i -> (length (to_string i) <= 20)%nat.
Proof.
  intros Hi. unfold in_width in Hi. apply to_string_length_bound; [|lia]. split; [lia|].
  apply (Z.lt_le_trans _ (2 ^ 64)); [lia|by vm_compute].
Qed.

Lemma response_text_length i result : u64 i -> (length (response_text i result) <= 60 + length result)%nat.
Proof.
  intros Hi. pose proof (to_string_u64_length i Hi). unfold response_text, quoted.
  rewrite !length_app. cbn [length]. rewrite !length_app. cbn. lia.
Qed.

(** C38: the text of a response that the server makes: a JSON-RPC 2.0 object with
    the id of the request and the result in base64 for a read, or empty for a
    write; and a client that parses it gets that object. The serializer never
    fails on these. *)
Theorem response_on_the_wire p :
  answer p ->
  JSONSerializer_SerializeResponse p = Ret (response_text (Response.response_id p) (answer_result p)) /\
  parse (response_text (Response.response_id p) (answer_result p)) =
    Ret (response_value (Response.response_id p) (answer_result p)).
Proof.
  intros Ha. split; [by apply answer_serialized|]. destruct (answer_plain p Ha).
  by apply parse_value_text, response_value_text.
Qed.

Lemma response_on_the_wire_witness :
  let p := Response.AMemoryRead (Response.new_memory_read 1 [72; 69; 76; 76; 79; 32; 87; 79; 82; 76; 68; 33]) in
  answer p /\ JSONSerializer_SerializeResponse p = Ret (response_text 1 (str "SEVMTE8gV09STEQh")).
Proof.
  intros p. assert (answer p) as Ha.
  { left. do 2 eexists. split; [reflexivity|]. split; [done|]. bytes_ok. }
  split; [exact Ha|]. exact (proj1 (response_on_the_wire p Ha)).
Defined.

(** ** Requests *)

(** A JSON text with white space around it, and perhaps a NUL character after it
    with any bytes behind. *)
Definition message_of (j : json) (raw : bytes) : Prop :=
  exists ws s ws' r, raw = ws ++ s ++ ws' ++ r /\ spaces ws /\ value_text s j /\ spaces ws' /\ input_end r /\ Forall u8 r.

Lemma message_parses j raw : message_of j raw -> parse raw = Ret j.
Proof. intros (ws & s & ws' & r & -> & H1 & H2 & H3 & H4 & H5). by apply parse_text. Qed.

Lemma message_nonempty j raw : message_of j raw -> exists x msg, raw = x :: msg.
Proof.
  intros H. apply message_parses in H. destruct raw as [|x msg]; [|by exists x, msg]. by vm_compute in H.
Qed.

(** The members of a memory_read. *)
Definition read_members (j : json) (i : Z) (t : Request.Timing) (s : Request.Sync) (f : Request.Function_)
    (address len : Z) : Prop :=
  u64 address /\ u64 len /\ exists params, header j i Request.Method.MemoryRead t s f params /\
    field params (str "address") (JUnsigned address) /\ field params (str "length") (JUnsigned len).

Lemma read_deserialized j raw i t s f address len :
  message_of j raw -> read_members j i t s f address len ->
  JSONSerializer_DeserializeRequest raw =
    Ret (Request.AMemoryRead (Request.new_memory_read (wrap 32 i) t s f address len)).
Proof.
  intros Hm (Ra & Rl & params & Hh & Ha & Hl). unfold JSONSerializer_DeserializeRequest. rewrite (message_parses j) by done.
  by apply (read_request_of_json j params).
Qed.

(** What clients may send for the program to be free of undefined behaviour: any
    bytes but JSON texts with a floating-point number in them. *)
Definition client_message (raw : bytes) : Prop :=
  Forall u8 raw /\ forall j, parse raw = Ret j -> no_floats j = true.

(** The exceptions of a message. *)
Definition message_exn (e : exn) : Prop := parse_exception e \/ request_exn e.

Lemma deserialize_outcome raw :
  client_message raw ->
  match JSONSerializer_DeserializeRequest raw with
  | Ret p => packet_ok p
  | Throw e => message_exn e
  | Undef => False
  end.
Proof.
  intros [Hu Hf]. unfold JSONSerializer_DeserializeRequest. pose proof (parse_parses raw Hu) as Hp.
  destruct (parse raw) as [j|e|] eqn:E; cbn in *; [|by left|done].
  pose proof (request_of_json_yields j (Hf j eq_refl)) as Hy.
  destruct (request_of_json j); cbn in *; [done|by right|done].
Qed.

(** ** The program *)

Section Program.
Context {U : Type} (can_allocate : Z -> bool) (conf : Config U).

#[local] Instance serializer : ProtocolSerializer := JSONSerializer.

Lemma json_good_start : host_ok conf -> good_start client_message conf false.
Proof.
  intros Hh. split; [done| | |done|].
  - intros msg p Hc E. pose proof (deserialize_outcome msg Hc) as Ho. cbn in E. by rewrite E in Ho.
  - intros msg Hc E. pose proof (deserialize_outcome msg Hc) as Ho. cbn in E. by rewrite E in Ho.
  - intros p Ha. cbn. by rewrite answer_serialized.
Qed.


(** C4: a memory_read over the wire. An idle client sends the JSON text of a
    memory_read, in any formatting and with any further members; two turns of the
    server thread later the host's callback has been called once, with the address
    and the length of the text, and the write of the response text is started on
    the client's connection: the low 32 bits of the id, and the bytes that the
    callback left in the buffer, in base64. *)
Theorem json_read_answered n (s : Session multi_buffer) (i : Impl (Q := ringbuffer) (B := multi_buffer) (U := U)) ec j raw rid t sy f address len :
  idle_client n s i -> Z.of_nat (length raw) < 2 ^ 64 -> message_of j raw -> read_members j rid t sy f address len ->
  len < 2 ^ 62 -> can_allocate len = true ->
  let (u, data) := memory_read_callback (config i) (user i) address len (replicate (Z.to_nat len) 0) in
  Forall u8 data -> length data = Z.to_nat len ->
  exists i1 i2 i3 s3, deliver (EvRead n ec raw) i = Some (Ret i1) /\
  process_events_body can_allocate i1 = Some (Ret i2) /\
  process_events_body can_allocate i2 = Some (Ret i3) /\
  user i3 = u /\ objects (server i3) !! n = Some s3 /\
  RpcServer.pending s3 = [AsyncRead; AsyncWrite (response_text (wrap 32 rid) (rfc4648_encode data))].
Proof.
  intros Hidle Hl Hm Hr Hlen Hal.
  pose proof (read_deserialized j raw rid t sy f address len Hm Hr) as Hd.
  destruct (message_nonempty j raw Hm) as (x & msg & ->).
  destruct (memory_read_callback (config i) (user i) address len (replicate (Z.to_nat len) 0)) as [u data] eqn:Ecb.
  intros Hu Hn. assert (u32 (wrap 32 rid)) as Hi by by apply (wrap_range 32).
  pose proof (response_text_length (wrap 32 rid) (rfc4648_encode data) (u32_u64 _ Hi)) as Hout.
  pose proof (answer_serialized (Response.AMemoryRead (Response.new_memory_read (wrap 32 rid) data))) as Hser.
  cbn [Response.response_id answer_result Response.mr_packet Response.new_memory_read Response.new_packet Response.id
    Response.result] in Hser.
  remember (response_text (wrap 32 rid) (rfc4648_encode data)) as out eqn:Eout. clear Eout.
  pose proof (read_answered can_allocate n s i ec x msg _ out Hidle Hl Hd eq_refl
    ltac:(change (len < 2 ^ 63); lia) Hal) as Ha.
  cbn [Request.mr_address Request.mr_length Request.new_memory_read] in Ha. rewrite Ecb in Ha. apply Ha.
  - apply Hser. left. by do 2 eexists.
  - pose proof (rfc4648_length data). destruct Hr as (_ & Hlen64 & _). unfold in_width in *. rewrite Hn in *. lia.
Qed.
End Program.

(** ** Instances for the witnesses *)

(** A request like the ones of src/test/json_protocol.cpp. *)
Definition wire_params : json :=
  JObject [(str "address", JUnsigned 4); (str "function", JString (str "once")); (str "length", JUnsigned 6);
           (str "sync", JString (str "nonblocking")); (str "timing", JString (str "immediate"))].
Definition wire_request : json :=
  JObject [(str "id", JUnsigned 1); (str "jsonrpc", JString (str "2.0"));
           (str "method", JString (str "memory_read")); (str "params", wire_params)].

Definition wire_text : bytes :=
  match dump_default wire_request with Ret s => s | _ => [] end.

Lemma wire_message : message_of wire_request wire_text.
Proof.
  assert (writable wire_request) as Hw.
  { cbn. repeat match goal with |- _ /\ _ => split end; try done; apply plain_valid; plain_ok. }
  destruct (dump_text strict 32 false wire_request Hw) as (s & E & Hs).
  exists [], s, [], []. rewrite !app_nil_r. split; [unfold wire_text, dump_default; by rewrite E|].
  split; [constructor|]. split; [exact Hs|]. split; [constructor|]. split; [by left|constructor].
Qed.

Lemma wire_members : read_members wire_request 1 Request.Immediate Request.NonBlocking Request.Once 4 6.
Proof. split; [done|]. split; [done|]. exists wire_params. split; [by split|]. by split. Qed.

Lemma json_read_answered_witness :
  exists i1 i2 i3 s3, deliver (PS := JSONSerializer) (EvRead 0 false wire_text) sample_impl = Some (Ret i1) /\
    process_events_body (PS := JSONSerializer) sample_allocator i1 = Some (Ret i2) /\
    process_events_body (PS := JSONSerializer) sample_allocator i2 = Some (Ret i3) /\
    user i3 = user_data sample_config /\ objects (server i3) !! 0%nat = Some s3 /\
    RpcServer.pending s3 = [AsyncRead; AsyncWrite (response_text 1 (str "Dg8QERIT"))].
Proof.
  exact (json_read_answered sample_allocator 0 sample_session sample_impl false wire_request wire_text 1
    Request.Immediate Request.NonBlocking Request.Once 4 6 sample_idle eq_refl wire_message wire_members eq_refl eq_refl
    ltac:(bytes_ok) eq_refl).
Defined.

(** A client that sends something that is not JSON. *)
Definition garbage : bytes := str "akjsbndfljkhabs".

Lemma garbage_client : client_message garbage.
Proof. split; [bytes_ok|]. intros j E. by vm_compute in E. Qed.

#[local] Existing Instance JSONSerializer.

Definition crashed_run : sample_state :=
  happen (PS := JSONSerializer) sample_allocator (IoEvent (EvRead 0 false garbage))
    (happen (PS := JSONSerializer) sample_allocator (IoEvent (EvHandshake 0 false))
      (happen (PS := JSONSerializer) sample_allocator (IoEvent (EvAccept false)) sample_start)).

Lemma crashed_run_reachable :
  system_reachable (PS := JSONSerializer) sample_allocator client_message sample_config false crashed_run.
Proof.
  apply happen_reachable; [apply happen_reachable; [apply happen_reachable; [apply reach_start|done]|done]|].
  split; [done|right; apply garbage_client].
Qed.

Lemma sample_host : host_ok sample_config.
Proof. exact (g_host _ _ _ sample_good_start). Qed.


(** ** Floating-point numbers in a request *)

(** A request whose id is a floating-point number that, without its
    fraction, is not in the range of 32 bits makes the deserializer convert it by
    an undefined cast, where the other wrong ids make it throw. *)
Theorem float_id_undefined raw j m f z :
  parse raw = Ret j -> field j (str "jsonrpc") (JString (str "2.0")) -> field j (str "method") (method_to_json m) ->
  m = Request.Method.MemoryRead \/ m = Request.Method.MemoryWrite ->
  field j (str "id") (JFloat f) -> float_trunc f = Some z -> z < 0 \/ 2 ^ 32 <= z ->
  DeserializeRequest (ProtocolSerializer := JSONSerializer) raw = Undef.
Proof.
  intros Hp Hv Hm Hrw Hid Hf Hz. cbn. unfold JSONSerializer_DeserializeRequest. rewrite Hp. cbn [obind].
  unfold request_of_json. fields. change (json_eqb _ _) with true. cbn [negb]. fields. rewrite method_roundtrip.
  assert (Req.FromBasePacket j = Undef) as E.
  { unfold Req.FromBasePacket. fields. cbn [from_json_arithmetic]. unfold float_to_unsigned. rewrite Hf.
    replace ((0 <=? z) && (z <? 2 ^ 32)) with false by (symmetry; apply andb_false_iff; lia). done. }
  unfold Req.from_json_memory_read, Req.from_json_memory_write. rewrite E. by destruct Hrw as [-> | ->].
Qed.

Definition float_message : bytes :=
  str "{" ++ quoted (str "jsonrpc") ++ str ":" ++ quoted (str "2.0") ++ str ", " ++
  quoted (str "method") ++ str ":" ++ quoted (str "memory_read") ++ str ", " ++
  quoted (str "id") ++ str ": 1e300}".

Definition float_request : json := match parse float_message with Ret j => j | _ => JNull end.

Definition float_id : number_float_t :=
  match at_key float_request (str "id") with Ret (JFloat f) => f | _ => S754_nan end.

Lemma float_id_undefined_witness :
  DeserializeRequest (ProtocolSerializer := JSONSerializer) float_message = Undef.
Proof.
  assert (exists z, float_trunc float_id = Some z /\ 2 ^ 32 <= z) as (z & Hf & Hz).
  { eexists. split; [vm_compute; reflexivity|]. by vm_compute. }
  apply (float_id_undefined float_message float_request Request.Method.MemoryRead float_id z);
    [vm_compute; reflexivity..|by left|vm_compute; reflexivity|exact Hf|by right].
Defined.
