(* ===== verification/StaticBuffer.v ===== *)
(** * Buffers of fixed size

    [static_buffer_base] and [flat_static_buffer_base] of
    src/externals/boost/boost/beast/core (static_buffer.hpp, flat_static_buffer.hpp
    and their impl files), the buffers of the websocket stream, and the operations of
    boost/asio/buffer.hpp and boost/beast/core/buffers_prefix.hpp on the buffer
    sequences they hand out. The first is a ring: what it holds is at most two
    pieces of its storage. Both are shown to hold a sequence of bytes.

    A buffer of a sequence is its offset in the storage and its size. *)

From Stdlib Require Import ZArith Lia.
From stdpp Require Import base list.
From S2P Require Import Prelude Exceptions.

#[local] Open Scope nat_scope.

(** ** Buffer sequences *)

Abbreviation buffer := (nat * nat)%type.

(** [buffer_size(bs)]. *)
Definition buffer_size (bs : list buffer) : nat := sum_list (map snd bs).

(** [buffers_prefix(size, bs)]. *)
Fixpoint buffers_prefix (size : nat) (bs : list buffer) : list buffer :=
  match bs with
  | [] => []
  | (off, len) :: bs =>
      if size <=? len then [(off, size)] else (off, len) :: buffers_prefix (size - len) bs
  end.

(** The bytes of a buffer sequence in the storage [m]. *)
Definition load (m : bytes) (b : buffer) : bytes := take (snd b) (drop (fst b) m).
Definition loads (m : bytes) (bs : list buffer) : bytes := concat (map (load m) bs).

(** Copying [data] into a buffer sequence, as [buffer_copy] and the reads of a socket
    do: the storage and how many bytes were copied. *)
Fixpoint buffer_copy (bs : list buffer) (data : bytes) (m : bytes) : nat * bytes :=
  match bs with
  | [] => (0, m)
  | (off, len) :: bs =>
      let part := take len data in
      let (n, m) := buffer_copy bs (drop len data) (list_inserts off part m) in
      (length part + n, m)
  end.

(** What an algorithm does that goes over the buffers of a sequence and changes the
    bytes of each, with a state [s]. *)
Fixpoint transform {S} (f : S -> bytes -> bytes * S) (bs : list buffer) (m : bytes) (s : S) : bytes * S :=
  match bs with
  | [] => (m, s)
  | b :: bs =>
      let (d, s) := f s (load m b) in
      transform f bs (list_inserts (fst b) d m) s
  end.

(** ** static_buffer *)

Module Ring.

Record static_buffer := mk_static_buffer {
  buf_ : bytes;
  in_off_ : nat;
  in_size_ : nat;
  out_size_ : nat
}.

Definition capacity (b : static_buffer) : nat := length (buf_ b).
Definition max_size (b : static_buffer) : nat := capacity b.
Definition size (b : static_buffer) : nat := in_size_ b.

(** [static_buffer()]; [m] is what its storage starts with. *)
Definition new_static_buffer (m : bytes) : static_buffer := mk_static_buffer m 0 0 0.

(** The two pieces of a region of [size] bytes at [off]. *)
Definition pieces (capacity off size : nat) : list buffer :=
  if off + size <=? capacity then [(off, size); (0, 0)] else [(off, capacity - off); (0, size - (capacity - off))].

(** [data], [mutable_data]. *)
Definition data (b : static_buffer) : list buffer := pieces (capacity b) (in_off_ b) (in_size_ b).
Definition mutable_data (b : static_buffer) : list buffer := data b.

(** The output region, where the input ends. *)
Definition room (b : static_buffer) : list buffer :=
  pieces (capacity b) ((in_off_ b + in_size_ b) mod capacity b) (out_size_ b).

(** [prepare]. *)
Definition prepare (size : nat) (b : static_buffer) : cpp (static_buffer * list buffer) :=
  if capacity b - in_size_ b <? size then Throw std_length_error
  else
    let b := mk_static_buffer (buf_ b) (in_off_ b) (in_size_ b) size in
    Ret (b, room b).

(** [commit]. *)
Definition commit (size : nat) (b : static_buffer) : static_buffer :=
  mk_static_buffer (buf_ b) (in_off_ b) (in_size_ b + Nat.min size (out_size_ b)) 0.

(** [consume]. *)
Definition consume (size : nat) (b : static_buffer) : static_buffer :=
  if size <? in_size_ b
  then mk_static_buffer (buf_ b) ((in_off_ b + size) mod capacity b) (in_size_ b - size) (out_size_ b)
  else mk_static_buffer (buf_ b) 0 0 (out_size_ b).

(** The storage after a write into one of its buffers. *)
Definition set_buf (m : bytes) (b : static_buffer) : static_buffer :=
  mk_static_buffer m (in_off_ b) (in_size_ b) (out_size_ b).

(** What the buffer holds. *)
Definition contents (b : static_buffer) : bytes := loads (buf_ b) (data b).

End Ring.

(** ** flat_static_buffer *)

Module Flat.

(** The pointers as offsets from [begin_]; [end_] is the size of the storage. *)
Record flat_static_buffer := mk_flat {
  buf_ : bytes;
  in_ : nat;
  out_ : nat;
  last_ : nat
}.

Definition size (b : flat_static_buffer) : nat := out_ b - in_ b.
Definition max_size (b : flat_static_buffer) : nat := length (buf_ b).
Definition capacity (b : flat_static_buffer) : nat := max_size b.

(** [flat_static_buffer()] and [reset]. *)
Definition new_flat (m : bytes) : flat_static_buffer := mk_flat m 0 0 0.
Definition reset (b : flat_static_buffer) : flat_static_buffer := mk_flat (buf_ b) 0 0 0.

(** [data]. *)
Definition data (b : flat_static_buffer) : buffer := (in_ b, out_ b - in_ b).

(** [prepare_impl]. *)
Definition prepare (n : nat) (b : flat_static_buffer) : cpp (flat_static_buffer * buffer) :=
  if n <=? length (buf_ b) - out_ b then
    Ret (mk_flat (buf_ b) (in_ b) (out_ b) (out_ b + n), (out_ b, n))
  else
    let len := size b in
    if capacity b - len <? n then Throw std_length_error
    else
      let m := if 0 <? len then list_inserts 0 (load (buf_ b) (in_ b, len)) (buf_ b) else buf_ b in
      Ret (mk_flat m 0 len (len + n), (len, n)).

(** [commit], [consume_impl]. *)
Definition commit (n : nat) (b : flat_static_buffer) : flat_static_buffer :=
  mk_flat (buf_ b) (in_ b) (out_ b + Nat.min n (last_ b - out_ b)) (last_ b).
Definition consume (n : nat) (b : flat_static_buffer) : flat_static_buffer :=
  if size b <=? n then mk_flat (buf_ b) 0 0 (last_ b) else mk_flat (buf_ b) (in_ b + n) (out_ b) (last_ b).

(** The storage after a write into one of its buffers. *)
Definition set_buf (m : bytes) (b : flat_static_buffer) : flat_static_buffer := mk_flat m (in_ b) (out_ b) (last_ b).

Definition contents (b : flat_static_buffer) : bytes := load (buf_ b) (data b).

(** [db.commit(buffer_copy(db.prepare(n), buffer(data)))]. *)
Definition append (n : nat) (data : bytes) (b : flat_static_buffer) : cpp flat_static_buffer :=
  let* (b, room) := prepare n b in
  let (k, m) := buffer_copy [room] data (buf_ b) in
  Ret (commit k (set_buf m b)).

End Flat.

(** ** The regions of the storage *)

Lemma length_load m b : fst b + snd b <= length m -> length (load m b) = snd b.
Proof. intros H. unfold load. rewrite length_take, length_drop. lia. Qed.

Lemma load_inserts_same off data m :
  off + length data <= length m -> load (list_inserts off data m) (off, length data) = data.
Proof.
  intros H. unfold load. cbn [fst snd]. apply list_eq. intros i.
  destruct (Nat.lt_ge_cases i (length data)) as [Hi|Hi].
  - rewrite lookup_take_lt, lookup_drop, list_lookup_inserts by lia. by replace (off + i - off) with i by lia.
  - rewrite !lookup_ge_None_2; [done|lia|rewrite length_take; lia].
Qed.

(** Case analysis on the comparisons of the goal. *)
Ltac split_nat :=
  repeat match goal with
  | |- context [?a <=? ?b] => destruct (Nat.leb_spec a b); cbn [andb]
  | |- context [?a <? ?b] => destruct (Nat.ltb_spec a b); cbn [andb]
  end; try lia; try (f_equal; lia).

(** A ring of storage from an offset on. *)
Definition turn (off : nat) (m : bytes) : bytes := drop off m ++ take off m.

Lemma length_turn off m : off <= length m -> length (turn off m) = length m.
Proof. intros H. unfold turn. rewrite length_app, length_drop, length_take. lia. Qed.

Lemma loads_pieces m off size :
  off <= length m -> size <= length m -> loads m (Ring.pieces (length m) off size) = take size (turn off m).
Proof.
  intros Ho Hs. unfold loads, Ring.pieces, load, turn. destruct (Nat.leb_spec (off + size) (length m)); cbn [map concat fst snd].
  - rewrite take_0, !app_nil_r, take_app_le by (rewrite length_drop; lia). done.
  - rewrite drop_0, app_nil_r, (take_ge (drop off m)) by (rewrite length_drop; lia).
    rewrite (take_app_ge (drop off m)), take_take by (rewrite length_drop; lia).
    rewrite length_drop. by replace (Nat.min (size - (length m - off)) off) with (size - (length m - off)) by lia.
Qed.

Lemma turn_lookup off m i :
  off <= length m -> turn off m !! i = if i <? length m - off then m !! (off + i) else if i <? length m then m !! (i - (length m - off)) else None.
Proof.
  intros Ho. unfold turn. destruct (Nat.ltb_spec i (length m - off)).
  - by rewrite lookup_app_l, lookup_drop by (rewrite length_drop; lia).
  - rewrite lookup_app_r, length_drop by (rewrite length_drop; lia). destruct (Nat.ltb_spec i (length m)).
    + by rewrite lookup_take_lt by lia.
    + rewrite lookup_take_ge by lia. done.
Qed.

Lemma inserts_lookup (off : nat) (d m : bytes) j :
  list_inserts off d m !! j = if (off <=? j) && (j <? off + length d) && (j <? length m) then d !! (j - off) else m !! j.
Proof.
  destruct (Nat.leb_spec off j); cbn [andb]; [|by apply list_lookup_inserts_lt].
  destruct (Nat.ltb_spec j (off + length d)); cbn [andb]; [|by apply list_lookup_inserts_ge].
  destruct (Nat.ltb_spec j (length m)); [by apply list_lookup_inserts|].
  rewrite !lookup_ge_None_2; [done|lia|rewrite length_inserts; lia].
Qed.

Lemma take_inserts used (d l : bytes) :
  used + length d <= length l -> take (used + length d) (list_inserts used d l) = take used l ++ d.
Proof.
  intros H. apply list_eq. intros i. destruct (Nat.lt_ge_cases i (used + length d)) as [Hi|Hi].
  - rewrite lookup_take_lt, inserts_lookup by done. destruct (Nat.leb_spec used i); cbn [andb].
    + rewrite (proj2 (Nat.ltb_lt i (used + length d)) Hi), (proj2 (Nat.ltb_lt i (length l))) by lia. cbn [andb].
      rewrite lookup_app_r, length_take by (rewrite length_take; lia). f_equal. lia.
    + rewrite lookup_app_l, lookup_take_lt by (rewrite ?length_take; lia). done.
  - rewrite !lookup_ge_None_2; [done|rewrite length_app, length_take; lia|rewrite length_take; lia].
Qed.

Lemma drop_inserts used (d l : bytes) n : used + length d <= n -> drop n (list_inserts used d l) = drop n l.
Proof.
  intros H. apply list_eq. intros i. rewrite !lookup_drop, inserts_lookup.
  destruct (Nat.ltb_spec (n + i) (used + length d)); [lia|]. by rewrite andb_false_r.
Qed.

(** The position in the storage of the [i]th byte of the ring. *)
Definition place (off n i : nat) : nat := if i <? n - off then off + i else i - (n - off).

Lemma turn_place off (m : bytes) i : off <= length m -> i < length m -> turn off m !! i = m !! place off (length m) i.
Proof.
  intros Ho Hi. rewrite turn_lookup by done. unfold place. destruct (_ <? _); [done|].
  by rewrite (proj2 (Nat.ltb_lt i (length m)) Hi).
Qed.

(** Equality of two rings, byte by byte. *)
Lemma turn_eq off (m m' : bytes) l :
  off <= length m -> length m' = length m -> length l = length m ->
  (forall i, i < length m -> m' !! place off (length m) i = l !! i) -> turn off m' = l.
Proof.
  intros Ho Hl Hl2 H. apply list_eq. intros i. destruct (Nat.lt_ge_cases i (length m)) as [Hi|Hi].
  - rewrite turn_place, Hl by lia. by apply H.
  - rewrite !lookup_ge_None_2; [done|lia|rewrite length_turn; lia].
Qed.

(** Filling a region that starts [used] bytes behind [off] on the ring. *)
Lemma copy_pieces m off used size d :
  off < length m -> used + size <= length m -> length d <= size ->
  exists m', buffer_copy (Ring.pieces (length m) ((off + used) mod length m) size) d m = (length d, m') /\
    length m' = length m /\ turn off m' = list_inserts used d (turn off m).
Proof.
  intros Ho Hu Hd. set (off2 := (off + used) mod length m).
  assert (off2 < length m /\ (off2 = off + used \/ off2 + length m = off + used)) as [H2 Hoff].
  { split; [by apply Nat.mod_upper_bound; lia|]. unfold off2. destruct (Nat.lt_ge_cases (off + used) (length m)).
    - left. by apply Nat.mod_small.
    - right. replace ((off + used) mod length m) with ((off + used - length m + 1 * length m) mod length m) by (f_equal; lia).
      rewrite Nat.Div0.mod_add, Nat.mod_small by lia. lia. }
  clearbody off2. unfold Ring.pieces. destruct (Nat.leb_spec (off2 + size) (length m)); cbn [buffer_copy].
  - rewrite (take_ge d), (drop_ge d), take_0 by lia. cbn [list_inserts length]. eexists. split; [f_equal; lia|].
    split; [by rewrite length_inserts|]. apply (turn_eq off m); [lia|by rewrite length_inserts|rewrite length_inserts; apply length_turn; lia|].
    intros i Hi. rewrite !inserts_lookup, turn_place, length_turn by lia. unfold place. split_nat.
  - eexists. split.
    { f_equal. rewrite length_take, (take_ge (drop _ d)), length_drop by (rewrite length_drop; lia). lia. }
    rewrite (take_ge (drop _ d)) by (rewrite length_drop; lia).
    split; [by rewrite !length_inserts|].
    apply (turn_eq off m); [lia|by rewrite !length_inserts|rewrite length_inserts; apply length_turn; lia|].
    intros i Hi. rewrite !inserts_lookup, turn_place, length_turn, length_inserts, length_take, length_drop by lia.
    rewrite lookup_drop. unfold place. split_nat; try (rewrite lookup_take_lt by lia; f_equal; lia).
Qed.

(** ** A static buffer holds a sequence of bytes *)

Lemma buffer_size_pieces c off size : off <= c -> buffer_size (Ring.pieces c off size) = size.
Proof. intros H. unfold buffer_size, Ring.pieces. destruct (Nat.leb_spec (off + size) c); cbn; lia. Qed.

Record ring_wf (b : Ring.static_buffer) : Prop := {
  ring_off : Ring.in_off_ b < Ring.capacity b;
  ring_size : Ring.in_size_ b <= Ring.capacity b
}.

Definition ring_holds (b : Ring.static_buffer) (v : bytes) : Prop := ring_wf b /\ Ring.contents b = v.

Lemma ring_contents b : ring_wf b -> Ring.contents b = take (Ring.in_size_ b) (turn (Ring.in_off_ b) (Ring.buf_ b)).
Proof. intros [Ho Hs]. unfold Ring.contents, Ring.data, Ring.capacity in *. apply loads_pieces; lia. Qed.

Lemma ring_size_holds b v : ring_holds b v -> Ring.size b = length v.
Proof.
  intros [H <-]. rewrite ring_contents by done. destruct H as [Ho Hs]. unfold Ring.capacity in *.
  rewrite length_take, length_turn by lia. unfold Ring.size. lia.
Qed.

Lemma ring_new m : 0 < length m -> ring_holds (Ring.new_static_buffer m) [].
Proof. intros H. split; [split; [done|cbn; lia]|]. unfold Ring.contents, Ring.data, Ring.pieces. done. Qed.

(** Preparing room for [size] bytes, writing [d] there and committing it. *)
Lemma ring_fill b v size :
  ring_holds b v -> length v + size <= Ring.capacity b ->
  exists b', Ring.prepare size b = Ret (b', Ring.room b') /\ Ring.capacity b' = Ring.capacity b /\
    buffer_size (Ring.room b') = size /\
    forall d, length d <= size -> exists m, buffer_copy (Ring.room b') d (Ring.buf_ b') = (length d, m) /\
      length m = Ring.capacity b /\ ring_holds (Ring.commit (length d) (Ring.set_buf m b')) (v ++ d).
Proof.
  intros Hh Hs. pose proof (ring_size_holds b v Hh) as Hl. unfold Ring.size in Hl. destruct Hh as [Hw Hv].
  rewrite ring_contents in Hv by done. destruct Hw as [Ho Hi].
  unfold Ring.prepare. rewrite (proj2 (Nat.ltb_ge _ _)) by lia. eexists. split; [done|]. unfold Ring.room, Ring.capacity in *.
  cbn [Ring.buf_ Ring.in_off_ Ring.in_size_ Ring.out_size_]. split; [done|].
  split; [apply buffer_size_pieces, Nat.lt_le_incl, Nat.mod_upper_bound; lia|].
  intros d Hd. destruct (copy_pieces (Ring.buf_ b) (Ring.in_off_ b) (Ring.in_size_ b) size d Ho ltac:(lia) Hd) as (m & -> & Hm & Ht).
  exists m. split; [done|]. split; [done|]. unfold Ring.commit, Ring.set_buf. cbn [Ring.buf_ Ring.in_off_ Ring.in_size_ Ring.out_size_].
  assert (ring_wf (Ring.mk_static_buffer m (Ring.in_off_ b) (Ring.in_size_ b + Nat.min (length d) size) 0)) as Hw.
  { split; unfold Ring.capacity; cbn; lia. }
  split; [done|]. rewrite ring_contents by done. cbn [Ring.buf_ Ring.in_off_ Ring.in_size_].
  rewrite Ht, Nat.min_l, take_inserts by (rewrite ?length_turn; lia). by f_equal.
Qed.

Lemma ring_consume b v n : ring_holds b v -> ring_holds (Ring.consume n b) (drop n v) /\ Ring.capacity (Ring.consume n b) = Ring.capacity b.
Proof.
  intros Hh. pose proof (ring_size_holds b v Hh) as Hl. destruct Hh as [Hw Hv]. rewrite ring_contents in Hv by done.
  pose proof Hw as [Ho Hs]. unfold Ring.consume, Ring.size, Ring.capacity in *. destruct (Nat.ltb_spec n (Ring.in_size_ b)).
  - split; [|done]. assert (ring_wf (Ring.mk_static_buffer (Ring.buf_ b) ((Ring.in_off_ b + n) mod length (Ring.buf_ b)) (Ring.in_size_ b - n) (Ring.out_size_ b))) as Hw'.
    { split; unfold Ring.capacity; cbn; [apply Nat.mod_upper_bound|]; lia. }
    split; [done|]. rewrite ring_contents by done. cbn [Ring.buf_ Ring.in_off_ Ring.in_size_].
    rewrite <- Hv, skipn_firstn_comm. apply list_eq. intros i. destruct (Nat.lt_ge_cases i (Ring.in_size_ b - n)) as [Hi|Hi].
    + destruct Hw' as [Ho' _]. unfold Ring.capacity in Ho'. cbn in Ho'.
      rewrite !lookup_take_lt, lookup_drop, !turn_lookup by lia.
      destruct (Nat.lt_ge_cases (Ring.in_off_ b + n) (length (Ring.buf_ b))) as [Hc|Hc].
      * rewrite (Nat.mod_small _ _ Hc). split_nat.
      * replace ((Ring.in_off_ b + n) mod length (Ring.buf_ b)) with (Ring.in_off_ b + n - length (Ring.buf_ b))
          by (replace (Ring.in_off_ b + n) with (Ring.in_off_ b + n - length (Ring.buf_ b) + 1 * length (Ring.buf_ b)) at 2 by lia;
              rewrite Nat.Div0.mod_add, Nat.mod_small; lia). split_nat.
    + by rewrite !lookup_take_ge by lia.
  - split; [|done]. rewrite drop_ge by lia. split; [split; unfold Ring.capacity; cbn; lia|].
    unfold Ring.contents, Ring.data, Ring.pieces. done.
Qed.

(** Changing the first bytes in place, piece by piece, when the pieces do not matter. *)
Section Transform.
Context {S : Type} (f : S -> bytes -> bytes * S).
Hypothesis f_length : forall s d, length (fst (f s d)) = length d.
Hypothesis f_nil : forall s, f s [] = ([], s).
Hypothesis f_app : forall s a b, f s (a ++ b) = let (a', s1) := f s a in let (b', s2) := f s1 b in (a' ++ b', s2).

Lemma transform_zero off bs m s : transform f ((off, 0) :: bs) m s = transform f bs m s.
Proof. cbn. unfold load. cbn. by rewrite take_0, f_nil. Qed.

Lemma transform_cons b bs m s :
  transform f (b :: bs) m s = transform f bs (list_inserts (fst b) (fst (f s (load m b))) m) (snd (f s (load m b))).
Proof. cbn. by destruct (f s (load m b)). Qed.

Lemma transform_prefix c off size n m s :
  transform f (buffers_prefix n (Ring.pieces c off size)) m s = transform f (Ring.pieces c off (Nat.min n size)) m s.
Proof.
  unfold Ring.pieces. destruct (Nat.leb_spec (off + size) c).
  - rewrite (proj2 (Nat.leb_le (off + Nat.min n size) c)) by lia. cbn [buffers_prefix].
    destruct (Nat.leb_spec n size); [by rewrite Nat.min_l, !(transform_cons (off, n)), transform_zero by lia|].
    rewrite (proj2 (Nat.leb_gt (n - size) 0)), Nat.min_r by lia. done.
  - cbn [buffers_prefix]. destruct (Nat.leb_spec n (c - off)).
    + rewrite Nat.min_l by lia. destruct (Nat.leb_spec (off + n) c).
      * by rewrite !(transform_cons (off, n)), transform_zero.
      * replace n with 0 by lia. replace (c - off) with 0 by lia. by rewrite !transform_zero.
    + rewrite (proj2 (Nat.leb_gt (off + Nat.min n size) c)) by lia.
      destruct (Nat.leb_spec (n - (c - off)) (size - (c - off))); [by rewrite Nat.min_l by lia|by rewrite Nat.min_r by lia].
Qed.

Lemma transform_pieces m off size s :
  off < length m -> size <= length m ->
  let d := f s (take size (turn off m)) in
  exists m', transform f (Ring.pieces (length m) off size) m s = (m', snd d) /\
    length m' = length m /\ turn off m' = list_inserts 0 (fst d) (turn off m).
Proof.
  intros Ho Hs d. assert (length (fst d) = size) as Hd by (unfold d; rewrite f_length, length_take, length_turn; lia).
  destruct (copy_pieces m off 0 size (fst d) Ho ltac:(lia) ltac:(lia)) as (m' & Hc & Hm & Ht).
  rewrite Nat.add_0_r, (Nat.mod_small off) in Hc by done. exists m'. split; [|done].
  unfold d in *. rewrite <- (loads_pieces m off size) in * by lia. unfold loads, Ring.pieces in *.
  destruct (Nat.leb_spec (off + size) (length m)); cbn [map concat fst snd transform buffer_copy] in *.
  - replace (load m (0, 0)) with (@nil Z) in * by (unfold load; cbn; by rewrite take_0). rewrite !app_nil_r in *.
    destruct (f s (load m (off, size))) as [d1 s1]. cbn [fst snd] in *. subst size.
    rewrite firstn_all, drop_all in Hc. unfold load at 1. cbn [fst snd]. rewrite take_0, f_nil. cbn in *. by injection Hc as _ ->.
  - rewrite app_nil_r, f_app in *. pose proof (f_length s (load m (off, length m - off))) as H1.
    destruct (f s (load m (off, length m - off))) as [d1 s1]. cbn [fst] in H1. rewrite length_load in H1 by (cbn; lia). cbn [snd] in H1.
    assert (load (list_inserts off d1 m) (0, size - (length m - off)) = load m (0, size - (length m - off))) as ->.
    { unfold load. cbn [fst snd]. rewrite !drop_0. apply list_eq. intros i. destruct (Nat.lt_ge_cases i (size - (length m - off))).
      - rewrite !lookup_take_lt by lia. apply list_lookup_inserts_lt. lia.
      - by rewrite !lookup_take_ge by lia. }
    pose proof (f_length s1 (load m (0, size - (length m - off)))) as H2.
    destruct (f s1 (load m (0, size - (length m - off)))) as [d2 s2]. cbn [fst snd] in *.
    rewrite length_load in H2 by (cbn; lia). cbn [snd] in H2. rewrite <- H1 in Hc.
    rewrite take_app_length, drop_app_length, H1, <- H2, firstn_all in Hc. by injection Hc as _ ->.
Qed.

Lemma ring_transform b v n s :
  ring_holds b v ->
  exists m, transform f (buffers_prefix n (Ring.mutable_data b)) (Ring.buf_ b) s = (m, snd (f s (take n v))) /\
    length m = Ring.capacity b /\ ring_holds (Ring.set_buf m b) (fst (f s (take n v)) ++ drop n v).
Proof.
  intros Hh. pose proof (ring_size_holds b v Hh) as Hl. unfold Ring.size in Hl. destruct Hh as [Hw Hv]. rewrite ring_contents in Hv by done.
  pose proof Hw as [Ho Hs]. unfold Ring.mutable_data, Ring.data, Ring.capacity in *. rewrite transform_prefix.
  destruct (transform_pieces (Ring.buf_ b) (Ring.in_off_ b) (Nat.min n (Ring.in_size_ b)) s Ho ltac:(lia)) as (m & -> & Hm & Ht).
  rewrite <- (take_take _ n), Hv in *. exists m. split; [done|]. split; [done|].
  assert (ring_wf (Ring.set_buf m b)) as Hw' by (split; unfold Ring.capacity; cbn; lia).
  split; [done|]. rewrite ring_contents by done. cbn [Ring.set_buf Ring.buf_ Ring.in_off_ Ring.in_size_]. rewrite Ht.
  assert (length (fst (f s (take n v))) <= length v) by (rewrite f_length, length_take; lia).
  assert (length (fst (f s (take n v))) = Nat.min n (Ring.in_size_ b)) as Hd by (rewrite f_length, length_take; lia).
  generalize dependent (fst (f s (take n v))). intros d _ _ Hd. rewrite <- Hv, skipn_firstn_comm.
  rewrite <- (take_drop (length d) (take (Ring.in_size_ b) (list_inserts 0 d _))). f_equal.
  - rewrite take_take, Nat.min_l by lia. apply (take_inserts 0). rewrite length_turn; lia.
  - rewrite skipn_firstn_comm, drop_inserts by (cbn; lia). rewrite Hd. destruct (Nat.lt_ge_cases n (Ring.in_size_ b)).
    + by rewrite Nat.min_l by lia.
    + rewrite Nat.min_r by lia. replace (Ring.in_size_ b - n) with 0 by lia. by rewrite Nat.sub_diag, !take_0.
Qed.

End Transform.

(** ** A flat buffer holds a sequence of bytes *)

Record flat_holds (b : Flat.flat_static_buffer) (v : bytes) : Prop := {
  flat_order : Flat.in_ b <= Flat.out_ b <= Flat.max_size b;
  flat_contents : Flat.contents b = v
}.

Lemma flat_size_holds b v : flat_holds b v -> Flat.size b = length v.
Proof. intros [H <-]. unfold Flat.contents, Flat.size, Flat.max_size in *. rewrite length_load; cbn; lia. Qed.

Lemma flat_reset b : flat_holds (Flat.reset b) [] /\ Flat.max_size (Flat.reset b) = Flat.max_size b.
Proof. split; [|done]. split; cbn; [lia|]. unfold Flat.contents, load. cbn. by rewrite take_0. Qed.

Lemma flat_append b v n d :
  flat_holds b v -> length v + n <= Flat.max_size b -> length d = n ->
  exists b', Flat.append n d b = Ret b' /\ flat_holds b' (v ++ d) /\ Flat.max_size b' = Flat.max_size b.
Proof.
  intros Hh Hn Hd. pose proof (flat_size_holds b v Hh) as Hl. destruct Hh as [Ho Hv].
  unfold Flat.append, Flat.prepare, Flat.capacity, Flat.max_size, Flat.size, Flat.contents, Flat.data in *.
  assert (forall m i o, i + o + n <= length m -> load m (i, o) = v -> o = length v ->
    exists b', (let (k, m') := buffer_copy [(i + o, n)] d m in Ret (Flat.commit k (Flat.set_buf m' (Flat.mk_flat m i (i + o) (i + o + n)))) : cpp _) = Ret b' /\
      flat_holds b' (v ++ d) /\ length (Flat.buf_ b') = length m) as Hput.
  { intros m i o Hm Hi Hlo. cbn [buffer_copy]. rewrite take_ge by lia. eexists. split; [done|].
    unfold Flat.commit, Flat.set_buf. cbn [Flat.buf_ Flat.in_ Flat.out_ Flat.last_]. rewrite length_inserts. split; [|done].
    split; unfold Flat.max_size, Flat.contents, Flat.data, load; cbn [Flat.buf_ Flat.in_ Flat.out_ fst snd]; rewrite ?length_inserts; [lia|].
    replace (i + o + Nat.min (length d + 0) (i + o + n - (i + o)) - i) with (o + length d) by lia.
    rewrite <- (take_drop o (take (o + length d) _)). f_equal.
    - rewrite take_take, Nat.min_l by lia. rewrite <- Hi. unfold load. cbn [fst snd]. apply list_eq. intros j.
      destruct (Nat.lt_ge_cases j o); [|by rewrite !lookup_take_ge by lia].
      rewrite !lookup_take_lt, !lookup_drop by lia. apply list_lookup_inserts_lt. lia.
    - rewrite skipn_firstn_comm, drop_drop. replace (o + length d - o) with (length d) by lia.
      rewrite <- (load_inserts_same (i + o) d m) at 3 by lia. unfold load. cbn [fst snd]. by rewrite ?(Nat.add_comm o i). }
  destruct (Nat.leb_spec n (length (Flat.buf_ b) - Flat.out_ b)).
  - cbn [obind Flat.buf_]. destruct (Hput (Flat.buf_ b) (Flat.in_ b) (Flat.out_ b - Flat.in_ b)) as (b' & E & Hb & Hl'); [lia|done|lia|].
    replace (Flat.in_ b + (Flat.out_ b - Flat.in_ b)) with (Flat.out_ b) in E by lia. rewrite E. eauto.
  - rewrite (proj2 (Nat.ltb_ge _ _)) by lia. cbn [obind Flat.buf_].
    set (m := if 0 <? _ then _ else _).
    assert (length m = length (Flat.buf_ b)) as Hm by (unfold m; case_match; [apply length_inserts|done]).
    destruct (Hput m 0 (Flat.out_ b - Flat.in_ b)) as (b' & E & Hb & Hl'); [lia| |lia|].
    { unfold m. destruct (Nat.ltb_spec 0 (Flat.out_ b - Flat.in_ b)) as [|]; [|rewrite <- Hv; unfold load; cbn; by replace (Flat.out_ b - Flat.in_ b) with 0 by lia].
      rewrite Hv, Hl. apply load_inserts_same. lia. }
    rewrite Nat.add_0_l in E. rewrite E, <- Hm. eauto.
Qed.
