(* ===== verification/WsUtf8.v ===== *)
(** * The UTF-8 checker of the websocket stream

    [utf8_checker_t] of
    src/externals/boost/boost/beast/websocket/detail/utf8_checker.hpp, which checks
    the payload of text messages buffer by buffer and keeps an incomplete code point
    between two buffers. It is shown to accept exactly the valid texts, however they
    are cut into buffers, to reject as soon as no continuation is valid, and to read
    no byte outside its buffers.

    A pointer into a buffer is the list of the bytes from it to the end of the
    buffer; a read past the end is undefined behaviour. *)

From Stdlib Require Import ZArith Lia String Ascii.
From stdpp Require Import base list.
From S2P Require Import Prelude Utf8 Exceptions.

(** ** The code *)

(** [p[k]]. *)
Definition at_ (p : bytes) (k : nat) : cpp Z := match p !! k with Some c => Ret c | None => Undef end.

(** [a || b]: [b] is not evaluated when [a] holds. *)
Definition or_else (a b : cpp bool) : cpp bool := let* x := a in if x then Ret true else b.

Infix "<||>" := or_else (at level 50, left associativity) : cpp_scope.

(** [(p[k] & mask) == v], [!= v], and comparisons of a byte with a constant. *)
Definition bits_eq (p : bytes) (k : nat) (mask v : Z) : cpp bool := let* c := at_ p k in Ret (Z.land c mask =? v).
Definition bits_ne (p : bytes) (k : nat) (mask v : Z) : cpp bool := let* c := at_ p k in Ret (negb (Z.land c mask =? v)).
Definition byte_eq_and (p : bytes) (k : nat) (v : Z) (b : cpp bool) : cpp bool :=
  let* c := at_ p k in if c =? v then b else Ret false.
Definition byte_gt (p : bytes) (k : nat) (v : Z) : cpp bool := let* c := at_ p k in Ret (v <? c).

(** The lambda [valid]: whether a code point starts at [p], and [p] after it. *)
Definition valid (p : bytes) : cpp (bool * bytes) :=
  let answer (bad : cpp bool) (n : nat) : cpp (bool * bytes) :=
    let* b := bad in if b then Ret (false, p) else Ret (true, drop n p) in
  let* p0 := at_ p 0 in
  if p0 <? 128 then Ret (true, drop 1 p)
  else if Z.land p0 0xe0 =? 0xc0 then answer (bits_ne p 1 0xc0 0x80 <||> bits_eq p 0 0x1e 0) 2%nat
  else if Z.land p0 0xf0 =? 0xe0 then
    answer (bits_ne p 1 0xc0 0x80 <||> bits_ne p 2 0xc0 0x80 <||>
            byte_eq_and p 0 0xe0 (bits_eq p 1 0x20 0) <||>
            byte_eq_and p 0 0xed (bits_eq p 1 0x20 0x20)) 3%nat
  else if Z.land p0 0xf8 =? 0xf0 then
    answer (Ret (5 <=? Z.land p0 0x07) <||> bits_ne p 1 0xc0 0x80 <||> bits_ne p 2 0xc0 0x80 <||>
            bits_ne p 3 0xc0 0x80 <||> byte_eq_and p 0 0xf0 (bits_eq p 1 0x30 0) <||>
            byte_eq_and p 0 0xf4 (byte_gt p 1 0x8f) <||> byte_gt p 0 0xf4) 4%nat
  else Ret (false, p).

(** The lambda [fail_fast]: whether the bytes [cp_] to [p_] can no longer become a
    code point. *)
Definition fail_fast (p : bytes) : cpp bool :=
  let* p0 := at_ p 0 in
  if p0 <? 128 then Ret false
  else
    let two := Z.land p0 0xe0 =? 0xc0 in
    let three := Z.land p0 0xf0 =? 0xe0 in
    let four := Z.land p0 0xf8 =? 0xf0 in
    match length p with
    | 1%nat =>
        if two then bits_eq p 0 0x1e 0
        else if three then Ret false
        else if four then Ret (5 <=? Z.land p0 0x07)
        else Ret true
    | 2%nat =>
        if two then bits_ne p 1 0xc0 0x80 <||> bits_eq p 0 0x1e 0
        else if three then
          bits_ne p 1 0xc0 0x80 <||> byte_eq_and p 0 0xe0 (bits_eq p 1 0x20 0) <||>
          byte_eq_and p 0 0xed (bits_eq p 1 0x20 0x20)
        else if four then
          Ret (5 <=? Z.land p0 0x07) <||> bits_ne p 1 0xc0 0x80 <||>
          byte_eq_and p 0 0xf0 (bits_eq p 1 0x30 0) <||>
          byte_eq_and p 0 0xf4 (byte_gt p 1 0x8f) <||> byte_gt p 0 0xf4
        else Ret true
    | 3%nat =>
        if two then bits_ne p 1 0xc0 0x80 <||> bits_eq p 0 0x1e 0
        else if three then
          bits_ne p 1 0xc0 0x80 <||> bits_ne p 2 0xc0 0x80 <||>
          byte_eq_and p 0 0xe0 (bits_eq p 1 0x20 0) <||> byte_eq_and p 0 0xed (bits_eq p 1 0x20 0x20)
        else if four then
          Ret (5 <=? Z.land p0 0x07) <||> bits_ne p 1 0xc0 0x80 <||> bits_ne p 2 0xc0 0x80 <||>
          byte_eq_and p 0 0xf0 (bits_eq p 1 0x30 0) <||>
          byte_eq_and p 0 0xf4 (byte_gt p 1 0x8f) <||> byte_gt p 0 0xf4
        else Ret true
    | _ => Ret true
    end.

(** The lambda [needed]. *)
Definition needed (v : Z) : Z :=
  if v <? 128 then 1 else if v <? 192 then 0 else if v <? 224 then 2 else if v <? 240 then 3
  else if v <? 248 then 4 else 0.

(** The data members: [cp_] has the bytes that were stored in the temporary buffer,
    up to [p_]. *)
Record utf8_checker := mk_checker { need_ : Z; cp_ : bytes }.

(** [utf8_checker c;] and [reset]. *)
Definition new_checker : utf8_checker := mk_checker 0 [].
Definition reset (c : utf8_checker) : utf8_checker := new_checker.

(** [finish]. *)
Definition finish (c : utf8_checker) : bool * utf8_checker :=
  let success := need_ c =? 0 in (success, reset c).

(** [while(n--) *p_++ = *in++;] on the [n] bytes from [in_], into a buffer of four. *)
Definition append (cp in_ : bytes) (n : Z) : cpp bytes :=
  let s := take (Z.to_nat n) in_ in
  if (Z.of_nat (length in_) <? n) || (4 <? Z.of_nat (length cp + length s)) then Undef else Ret (cp ++ s).

(** A loop [while(in < last) if(! valid(in)) return false;] with [z] bytes to
    [last]: where it leaves [in], or [None] when it returns false. *)
Fixpoint valid_loop (fuel : nat) (z : Z) (in_ : bytes) : cpp (option bytes) :=
  match fuel with
  | O => Undef
  | S fuel =>
      if 0 <? z then
        let* (ok, p) := valid in_ in
        if ok then valid_loop fuel (z - Z.of_nat (length in_ - length p)) p else Ret None
      else Ret (Some in_)
  end.

(** The loop at the label [tail]; the end of the buffer is the end of [in_]. *)
Fixpoint tail_loop (fuel : nat) (in_ : bytes) (c : utf8_checker) : cpp (bool * utf8_checker) :=
  match fuel with
  | O => Undef
  | S fuel =>
      let n := Z.of_nat (length in_) in
      if n =? 0 then Ret (true, c)
      else
        let* v := at_ in_ 0 in
        let need := needed v in
        if need =? 0 then Ret (false, c)
        else if need <=? n then
          let* (ok, p) := valid in_ in
          if ok then tail_loop fuel p c else Ret (false, c)
        else
          let* cp := append (cp_ c) in_ n in
          let c := mk_checker (need - n) cp in
          let* b := fail_fast cp in
          Ret (negb b, c)
  end.

(** The label [tail], and the code from the label [slow] to it. *)
Definition tail_ (in_ : bytes) (c : utf8_checker) : cpp (bool * utf8_checker) := tail_loop (S (length in_)) in_ c.

Definition then_tail (r : cpp (option bytes)) (c : utf8_checker) : cpp (bool * utf8_checker) :=
  let* r := r in match r with Some p => tail_ p c | None => Ret (false, c) end.

Definition slow (in_ : bytes) (size : Z) (c : utf8_checker) : cpp (bool * utf8_checker) :=
  then_tail (valid_loop (S (length in_)) (size - 3) in_) c.

(** The loop over low-ASCII characters up to an aligned address, [z] bytes away:
    whether it leaves for [slow], and [in]. *)
Fixpoint align_loop (z : nat) (in_ : bytes) : cpp (bool * bytes) :=
  match z with
  | O => Ret (false, in_)
  | S z =>
      let* v := at_ in_ 0 in
      if negb (Z.land v 0x80 =? 0) then Ret (true, in_) else align_loop z (drop 1 in_)
  end.

(** The eight bytes [*reinterpret_cast<std::size_t const*>(in)] with the mask. *)
Definition word_masked (in_ : bytes) : cpp bool :=
  if (length in_ <? 8)%nat then Undef
  else Ret (existsb (fun v => negb (Z.land v 0x80 =? 0)) (take 8 in_)).

(** The fast loop, with [z] bytes to [last]. *)
Fixpoint fast_loop (fuel : nat) (z : Z) (in_ : bytes) : cpp (bool * Z * bytes) :=
  match fuel with
  | O => Undef
  | S fuel =>
      if 0 <? z then
        let* m := word_masked in_ in
        if m then Ret (true, z, in_) else fast_loop fuel (z - 8) (drop 8 in_)
      else Ret (false, z, in_)
  end.

(** [write] after an incomplete code point has been completed; [addr] is the address
    of [in]. *)
Definition write_rest (addr : Z) (in_ : bytes) (size : Z) (c : utf8_checker) : cpp (bool * utf8_checker) :=
  if size <=? 8 then slow in_ size c
  else
    let* (stop, p) := align_loop (Z.to_nat ((- addr) mod 8)) in_ in
    let size := size - Z.of_nat (length in_ - length p) in
    if stop then slow p size c
    else
      let* (stop, z, q) := fast_loop (S (length p)) (size - 7) p in
      if stop then slow q (size - Z.of_nat (length p - length q)) c
      else then_tail (valid_loop (S (length q)) (z + 4) q) c.

(** [write(in, size)]; [addr] is the address of the buffer. *)
Definition write (addr : Z) (in_ : bytes) (c : utf8_checker) : cpp (bool * utf8_checker) :=
  let size := Z.of_nat (length in_) in
  if 0 <? need_ c then
    let n := Z.min size (need_ c) in
    let size := size - n in
    let need := need_ c - n in
    let* cp := append (cp_ c) in_ n in
    let in_ := drop (Z.to_nat n) in_ in
    if 0 <? need then
      let* b := fail_fast cp in
      Ret (negb b, mk_checker need cp)
    else
      let* (ok, _) := valid cp in
      if ok then write_rest (addr + n) in_ size (mk_checker need []) else Ret (false, mk_checker need cp)
  else write_rest addr in_ size c.

(** [write(bs)] on a buffer sequence: the address and the bytes of each buffer. *)
Fixpoint write_buffers (bs : list (Z * bytes)) (c : utf8_checker) : cpp (bool * utf8_checker) :=
  match bs with
  | [] => Ret (true, c)
  | (addr, b) :: bs =>
      let* (ok, c) := write addr b c in
      if ok then write_buffers bs c else Ret (false, c)
  end.

(** [check_utf8(p, n)]. *)
Definition check_utf8 (addr : Z) (s : bytes) : cpp bool :=
  let* (ok, c) := write addr s new_checker in
  if ok then Ret (fst (finish c)) else Ret false.

Example check_ascii : check_utf8 3 (str "Hello world, how are you today?") = Ret true.
Proof. reflexivity. Qed.
Example check_split : write_buffers [(0, [206]); (5, [186; 97])] new_checker = Ret (true, mk_checker 0 []).
Proof. reflexivity. Qed.
Example check_surrogate : write_buffers [(0, [237]); (5, [160])] new_checker = Ret (false, mk_checker 1 [237; 160]).
Proof. reflexivity. Qed.

(** ** The tests on bits *)

Lemma byte_test (p : Z -> bool) c : all_below 256 p = true -> u8 c -> p c = true.
Proof. intros H Hc. by apply (all_below_spec 256). Qed.

(** A test on the bits of a byte as a test of its range, by computation. *)
Ltac byte_range c Hc :=
  match goal with
  | |- ?a = ?b => let p := eval pattern c in (Bool.eqb a b) in
      match p with ?f _ => apply Bool.eqb_prop; exact (byte_test f c eq_refl Hc) end
  end.

Lemma bits_two c : u8 c -> (Z.land c 0xe0 =? 0xc0) = in_range 192 223 c.
Proof. intros Hc. byte_range c Hc. Qed.
Lemma bits_three c : u8 c -> (Z.land c 0xf0 =? 0xe0) = in_range 224 239 c.
Proof. intros Hc. byte_range c Hc. Qed.
Lemma bits_four c : u8 c -> (Z.land c 0xf8 =? 0xf0) = in_range 240 247 c.
Proof. intros Hc. byte_range c Hc. Qed.
Lemma bits_trail c : u8 c -> (Z.land c 0xc0 =? 0x80) = in_range 128 191 c.
Proof. intros Hc. byte_range c Hc. Qed.
Lemma bits_ascii c : u8 c -> (Z.land c 0x80 =? 0) = (c <? 128).
Proof. intros Hc. byte_range c Hc. Qed.
(** The same for the bytes that a range already allows. *)
Lemma range_test lo hi (p q : Z -> bool) c :
  0 <= lo -> hi < 256 -> all_below 256 (fun c => implb (in_range lo hi c) (Bool.eqb (p c) (q c))) = true ->
  in_range lo hi c = true -> p c = q c.
Proof.
  intros Hlo Hhi H Hc. pose proof Hc as Hr%in_range_spec.
  pose proof (byte_test _ c H ltac:(unfold in_width; lia)) as E. cbn beta in E. rewrite Hc in E. by apply Bool.eqb_prop.
Qed.

Lemma bits_overlong2 c : in_range 192 223 c = true -> (Z.land c 0x1e =? 0) = (c <? 194).
Proof. by apply (range_test 192 223 (fun c => Z.land c 0x1e =? 0) (fun c => c <? 194)). Qed.
Lemma bits_above c : in_range 240 247 c = true -> (5 <=? Z.land c 0x07) = (244 <? c).
Proof. by apply (range_test 240 247 (fun c => 5 <=? Z.land c 0x07) (fun c => 244 <? c)). Qed.
Lemma bits_overlong3 c : in_range 128 191 c = true -> (Z.land c 0x20 =? 0) = (c <? 160).
Proof. by apply (range_test 128 191 (fun c => Z.land c 0x20 =? 0) (fun c => c <? 160)). Qed.
Lemma bits_surrogate c : in_range 128 191 c = true -> (Z.land c 0x20 =? 0x20) = (159 <? c).
Proof. by apply (range_test 128 191 (fun c => Z.land c 0x20 =? 0x20) (fun c => 159 <? c)). Qed.
Lemma bits_overlong4 c : in_range 128 191 c = true -> (Z.land c 0x30 =? 0) = (c <? 144).
Proof. by apply (range_test 128 191 (fun c => Z.land c 0x30 =? 0) (fun c => c <? 144)). Qed.

(** Decides the tests of the goal from the ranges of the bytes. *)
Ltac bit_cases :=
  repeat match goal with
  | H : in_range _ _ ?c = true |- _ => apply in_range_spec in H
  | H : in_range _ _ ?c = false |- _ => apply in_range_false in H
  | |- context [in_range ?a ?b ?c] => destruct (in_range a b c) eqn:?
  | |- context [?a <? ?b] => destruct (Z.ltb_spec a b)
  | |- context [?a <=? ?b] => destruct (Z.leb_spec a b)
  | |- context [?a =? ?b] => destruct (Z.eqb_spec a b)
  end.

(** ** A code point *)

(** The tests of [valid] and [fail_fast] on the bytes [p0], [p1] and so on. *)
Ltac tests_unfold := unfold bits_ne, bits_eq, byte_eq_and, byte_gt, at_, or_else; cbn [lookup list_lookup length obind].

Ltac trail_case c :=
  rewrite (bits_trail c) by done; destruct (in_range 128 191 c) eqn:?; cbn [negb obind];
  [rewrite ?(bits_overlong3 c), ?(bits_surrogate c), ?(bits_overlong4 c) by done|].

(** The sequence that [valid] accepts is the one of table 3-7. *)
Definition valid_answer (p : bytes) : cpp (bool * bytes) :=
  Ret (match utf8_split p with Some (_, b) => (true, b) | None => (false, p) end).

Lemma utf8_split_cons c s ranges :
  trail_ranges c = Some ranges ->
  utf8_split (c :: s) = if in_ranges ranges (take (length ranges) s) then Some (c :: take (length ranges) s, drop (length ranges) s) else None.
Proof. intros E. cbn. by rewrite E. Qed.

Ltac tests_close :=
  unfold valid_answer, utf8_split, trail_ranges;
  repeat (match goal with
          | |- context [if in_range ?a ?b ?c then _ else _] => destruct (in_range a b c) eqn:?
          | |- context [?a <? ?b] => destruct (Z.ltb_spec a b)
          | |- context [?a =? ?b] => destruct (Z.eqb_spec a b)
          | |- context [in_range ?a ?b ?c] => destruct (in_range a b c) eqn:?
          end; cbn [negb andb orb obind take drop in_ranges length]); try done;
  exfalso; range_cases; lia.

Lemma valid_two p0 p1 p :
  Forall u8 (p0 :: p1 :: p) -> in_range 192 223 p0 = true -> valid (p0 :: p1 :: p) = valid_answer (p0 :: p1 :: p).
Proof.
  intros Hu H0. apply Forall_cons in Hu as [U0 Hu]. apply Forall_cons in Hu as [U1 _].
  pose proof H0 as R0%in_range_spec. unfold valid. tests_unfold. replace (p0 <? 128) with false by lia.
  rewrite (bits_two p0 U0), H0. trail_case p1; [rewrite (bits_overlong2 p0 H0)|].
  all: tests_close.
Qed.

Lemma valid_three p0 p1 p2 p :
  Forall u8 (p0 :: p1 :: p2 :: p) -> in_range 224 239 p0 = true ->
  valid (p0 :: p1 :: p2 :: p) = valid_answer (p0 :: p1 :: p2 :: p).
Proof.
  intros Hu H0. apply Forall_cons in Hu as [U0 Hu]. apply Forall_cons in Hu as [U1 Hu]. apply Forall_cons in Hu as [U2 _].
  pose proof H0 as R0%in_range_spec. unfold valid. tests_unfold. replace (p0 <? 128) with false by lia.
  rewrite (bits_two p0 U0), (bits_three p0 U0), H0. replace (in_range 192 223 p0) with false by (symmetry; apply in_range_false; lia).
  trail_case p1; [trail_case p2|]; tests_close.
Qed.

Lemma valid_four p0 p1 p2 p3 p :
  Forall u8 (p0 :: p1 :: p2 :: p3 :: p) -> in_range 240 247 p0 = true ->
  valid (p0 :: p1 :: p2 :: p3 :: p) = valid_answer (p0 :: p1 :: p2 :: p3 :: p).
Proof.
  intros Hu H0. apply Forall_cons in Hu as [U0 Hu]. apply Forall_cons in Hu as [U1 Hu].
  apply Forall_cons in Hu as [U2 Hu]. apply Forall_cons in Hu as [U3 _].
  pose proof H0 as R0%in_range_spec. unfold valid. tests_unfold. replace (p0 <? 128) with false by lia.
  rewrite (bits_two p0 U0), (bits_three p0 U0), (bits_four p0 U0), H0, (bits_above p0 H0).
  replace (in_range 192 223 p0) with false by (symmetry; apply in_range_false; lia).
  replace (in_range 224 239 p0) with false by (symmetry; apply in_range_false; lia).
  cbn [obind]. destruct (Z.ltb_spec 244 p0); [tests_close|].
  trail_case p1; [trail_case p2; [trail_case p3|]|]; tests_close.
Qed.

(** [valid] with enough bytes to read. *)
Lemma valid_spec c p :
  Forall u8 (c :: p) -> needed c <= Z.of_nat (length (c :: p)) -> valid (c :: p) = valid_answer (c :: p).
Proof.
  intros Hu Hn. pose proof Hu as [Uc _]%Forall_cons. unfold in_width in Uc. unfold needed in Hn.
  assert ((c < 128 \/ 128 <= c < 192 \/ 248 <= c) \/ 192 <= c < 224 \/ 224 <= c < 240 \/ 240 <= c < 248) as [Hc|[Hc|[Hc|Hc]]] by lia.
  - unfold valid. tests_unfold. rewrite (bits_two c Uc), (bits_three c Uc), (bits_four c Uc).
    destruct (Z.ltb_spec c 128); tests_close.
  - destruct p as [|p1 p]; [exfalso; cbn in Hn; zcases|].
    + revert Hn. zcases.
    + apply valid_two; [done|]. apply in_range_spec. lia.
  - destruct p as [|p1 [|p2 p]]; [revert Hn; cbn; zcases..|].
    apply valid_three; [done|]. apply in_range_spec. lia.
  - destruct p as [|p1 [|p2 [|p3 p]]]; [revert Hn; cbn; zcases..|].
    apply valid_four; [done|]. apply in_range_spec. lia.
Qed.

(** ** A code point that is not complete *)

(** Whether a text can be continued to a well-formed sequence, by its first bytes. *)
Fixpoint prefix_in (ranges : list (Z * Z)) (s : bytes) : bool :=
  match ranges, s with
  | _, [] => true
  | (lo, hi) :: ranges, c :: s => in_range lo hi c && prefix_in ranges s
  | [], _ :: _ => false
  end.

Definition viable (p : bytes) : bool :=
  match p with
  | c :: s => match trail_ranges c with Some ranges => prefix_in ranges s | None => false end
  | [] => true
  end.

Lemma prefix_in_app ranges a b s y :
  in_ranges ranges a = true -> s ++ y = a ++ b -> (length s <= length ranges)%nat -> prefix_in ranges s = true.
Proof.
  revert a s. induction ranges as [|[lo hi] ranges IH]; intros a [|c s] H E Hl; cbn in *; try done; [lia|].
  destruct a as [|c' a]; [done|]. cbn in H. rewrite <- !app_comm_cons in E. injection E as <- E. apply andb_true_iff in H as [-> H].
  apply (IH a); [done..|lia].
Qed.

Lemma prefix_in_continued ranges s :
  Forall (fun r => fst r <= snd r) ranges -> prefix_in ranges s = true -> (length s <= length ranges)%nat ->
  exists r, in_ranges ranges (s ++ r) = true /\ length (s ++ r) = length ranges.
Proof.
  intros Hr. revert s. induction Hr as [|[lo hi] ranges Hlo _ IH]; intros s H Hl.
  - exists []. destruct s; [done|cbn in Hl; lia].
  - destruct s as [|c s]; cbn in H.
    + destruct (IH [] ltac:(by destruct ranges as [|[]]) ltac:(cbn; lia)) as (r & Hr & Hlen). exists (lo :: r). cbn in *. rewrite Hr, Hlen.
      split; [|done]. rewrite andb_true_r. apply in_range_spec. lia.
    + apply andb_true_iff in H as [Hc H]. destruct (IH s H ltac:(cbn in Hl; lia)) as (r & Hr' & Hlen).
      exists r. cbn. by rewrite Hc, Hr', Hlen.
Qed.

(** The bytes after the first one are as many as [needed] says. *)
Lemma trail_ranges_needed c ranges : trail_ranges c = Some ranges -> needed c = 1 + Z.of_nat (length ranges).
Proof.
  unfold trail_ranges, needed. intros H. range_cases; try done; injection H as <-; zcases.
Qed.

Lemma trail_ranges_inhabited c ranges : trail_ranges c = Some ranges -> Forall (fun r => fst r <= snd r) ranges.
Proof. unfold trail_ranges. intros H. range_cases; try done; injection H as <-; repeat constructor; cbn; lia. Qed.

(** No continuation of a text is valid. *)
Definition dead (p : bytes) : Prop := forall y, ~ valid_utf8 (p ++ y).

Lemma not_viable_dead c s :
  viable (c :: s) = false -> Z.of_nat (length (c :: s)) <= needed c -> dead (c :: s).
Proof.
  intros H Hn y Hv. destruct (valid_utf8_inv _ Hv) as [E|(a & b & E & Ha & _)]; [done|].
  destruct a as [|c' a]; [done|]. cbn in E. injection E as <- E. cbn in H, Ha.
  destruct (trail_ranges c) as [ranges|] eqn:Er; [|done]. apply trail_ranges_needed in Er.
  rewrite (prefix_in_app ranges a b s y Ha E) in H; [done|cbn in Hn; lia].
Qed.

Lemma viable_continued c s :
  viable (c :: s) = true -> Z.of_nat (length (c :: s)) <= needed c -> exists r, well_formed (c :: s ++ r) = true.
Proof.
  intros H Hn. cbn in *. destruct (trail_ranges c) as [ranges|] eqn:Er; [|done].
  pose proof (trail_ranges_needed c ranges Er). pose proof (trail_ranges_inhabited c ranges Er) as Hi.
  destruct (prefix_in_continued ranges s Hi H ltac:(lia)) as (r & Hr & _). by exists r.
Qed.

Lemma utf8_split_dead c s : utf8_split (c :: s) = None -> needed c <= Z.of_nat (length (c :: s)) -> dead (c :: s).
Proof.
  intros E Hn y Hv. destruct (valid_utf8_inv _ Hv) as [?|(a & b & E' & Ha & _)]; [done|].
  destruct a as [|c' a]; [done|]. cbn in E'. injection E' as <- E'. cbn in E, Ha.
  destruct (trail_ranges c) as [ranges|] eqn:Er; [|done]. apply trail_ranges_needed in Er.
  assert (take (length ranges) s = a) as Ht.
  { pose proof (in_ranges_length _ _ Ha) as Hl. rewrite <- (take_app_length' a b (length ranges)), <- E' by done.
    rewrite take_app_le; [done|]. cbn in Hn. lia. }
  by rewrite Ht, Ha in E.
Qed.

Ltac fast_close :=
  unfold trail_ranges;
  repeat (match goal with
          | |- context [if in_range ?a ?b ?c then _ else _] => destruct (in_range a b c) eqn:?
          | |- context [?a <? ?b] => destruct (Z.ltb_spec a b)
          | |- context [?a =? ?b] => destruct (Z.eqb_spec a b)
          | |- context [in_range ?a ?b ?c] => destruct (in_range a b c) eqn:?
          end; cbn [negb andb orb obind prefix_in]); try done;
  exfalso; range_cases; lia.

Ltac fast_close2 c :=
  (destruct (in_range 240 247 c) eqn:H4; [rewrite ?(bits_above c H4)|]); fast_close.

(** [fail_fast] on the bytes of an incomplete code point. *)
Lemma fail_fast_spec c s :
  Forall u8 (c :: s) -> Z.of_nat (length (c :: s)) < needed c -> fail_fast (c :: s) = Ret (negb (viable (c :: s))).
Proof.
  intros Hu Hn. pose proof Hu as [U0 Hu']%Forall_cons. unfold in_width in U0. unfold needed in Hn.
  assert (192 <= c < 248) as Hc by (cbn in Hn; revert Hn; zcases).
  destruct s as [|p1 [|p2 [|p3 s]]]; [| | |exfalso; cbn in Hn; revert Hn; zcases];
    unfold fail_fast, viable; tests_unfold; replace (c <? 128) with false by lia;
    rewrite (bits_two c U0), (bits_three c U0), (bits_four c U0);
    try (apply Forall_cons in Hu' as [U1 Hu']); try (apply Forall_cons in Hu' as [U2 Hu']).
  - destruct (in_range 192 223 c) eqn:H2; [rewrite (bits_overlong2 c H2)|];
      (destruct (in_range 240 247 c) eqn:H4; [rewrite ?(bits_above c H4)|]); fast_close.
  - cbn in Hn. assert (224 <= c) by (revert Hn; zcases). trail_case p1; fast_close2 c.
  - cbn in Hn. assert (240 <= c) by (revert Hn; zcases). trail_case p1; [trail_case p2|]; fast_close2 c.
Qed.

(** ** Texts without a valid continuation *)

Lemma valid_utf8_drop u w : valid_utf8 u -> valid_utf8 (u ++ w) -> valid_utf8 w.
Proof.
  intros (cs & Hcs & ->) Hv. induction Hcs as [|c cs Hc _ IH]; [done|].
  cbn in Hv. rewrite <- app_assoc in Hv. apply IH. revert Hv.
  rewrite (valid_utf8_split _ (utf8_encode c) (utf8_text cs ++ w)); [done|].
  apply utf8_split_spec. split; [done|by apply encode_well_formed].
Qed.

Lemma dead_after u w : valid_utf8 u -> dead w -> dead (u ++ w).
Proof. intros Hu Hw y Hv. rewrite <- app_assoc in Hv. by apply (Hw y), (valid_utf8_drop u). Qed.

Lemma dead_more w z : dead w -> dead (w ++ z).
Proof. intros Hw y Hv. rewrite <- app_assoc in Hv. by apply (Hw (z ++ y)). Qed.

Lemma needed_range v : 0 <= needed v <= 4.
Proof. unfold needed. zcases. Qed.

(** A code point at the start of a buffer with enough bytes. *)
Lemma valid_front c s :
  Forall u8 (c :: s) -> needed c <= Z.of_nat (length (c :: s)) ->
  (exists a b, c :: s = a ++ b /\ a <> [] /\ valid_utf8 a /\ valid (c :: s) = Ret (true, b)) \/
  (valid (c :: s) = Ret (false, c :: s) /\ dead (c :: s)).
Proof.
  intros Hu Hn. rewrite (valid_spec c s Hu Hn). unfold valid_answer.
  destruct (utf8_split (c :: s)) as [[a b]|] eqn:E; [left|right].
  - apply utf8_split_spec in E as [E Ha]. exists a, b. split; [done|]. split; [by intros ->|]. split; [|done].
    rewrite <- (app_nil_r a). apply valid_utf8_char; [done|apply valid_utf8_nil].
  - split; [done|]. by apply utf8_split_dead.
Qed.

(** ** The loops *)

Lemma valid_loop_spec fuel z p :
  Forall u8 p -> (length p < fuel)%nat -> z <= Z.of_nat (length p) - 3 ->
  exists r, valid_loop fuel z p = Ret r /\
    match r with Some q => exists u, p = u ++ q /\ valid_utf8 u | None => dead p end.
Proof.
  revert z p. induction fuel as [|fuel IH]; intros z p Hu Hf Hz; [lia|]. cbn [valid_loop].
  destruct (Z.ltb_spec 0 z) as [Hpos|]; [|exists (Some p); split; [done|]; exists []; split; [done|apply valid_utf8_nil]].
  destruct p as [|c s]; [cbn in Hz; lia|]. pose proof (needed_range c).
  destruct (valid_front c s Hu ltac:(lia)) as [(a & b & E & Hne & Ha & ->)|[-> Hd]]; [|by exists None]. cbn [obind].
  rewrite E in *. apply Forall_app in Hu as [_ Hu]. rewrite length_app in *.
  assert (0 < length a)%nat by (destruct a; [done|cbn; lia]).
  destruct (IH (z - Z.of_nat (length a + length b - length b)) b Hu ltac:(lia) ltac:(lia)) as (r & -> & Hr).
  exists r. split; [done|]. destruct r as [q|].
  - destruct Hr as (u & -> & Hv). exists (a ++ u). rewrite <- app_assoc. split; [done|]. by apply valid_utf8_app.
  - by apply dead_after.
Qed.

(** What the checker knows after the text [x]: all but its last code point is valid,
    and the bytes kept of that one can become a code point. *)
Definition incomplete (c : utf8_checker) : Prop :=
  match cp_ c with
  | [] => need_ c = 0
  | v :: s => viable (v :: s) = true /\ 0 < need_ c /\ need_ c = needed v - Z.of_nat (length (v :: s))
  end.

Definition checked (x : bytes) (c : utf8_checker) : Prop :=
  exists u, x = u ++ cp_ c /\ valid_utf8 u /\ incomplete c.

(** The answer of [write] after which the text is [x]. *)
Definition answers (x : bytes) (m : cpp (bool * utf8_checker)) : Prop :=
  exists b c, m = Ret (b, c) /\ if b : bool then checked x c else dead x.

Lemma answers_after u x m : valid_utf8 u -> answers x m -> answers (u ++ x) m.
Proof.
  intros Hu (b & c & -> & H). exists b, c. split; [done|]. destruct b.
  - destruct H as (w & -> & Hw & Hc). exists (u ++ w). rewrite app_assoc. split; [done|]. split; [by apply valid_utf8_app|done].
  - by apply dead_after.
Qed.

(** A checker that has no incomplete code point. *)
Definition idle (c : utf8_checker) : Prop := cp_ c = [] /\ need_ c = 0.

Lemma append_spec cp p n :
  n <= Z.of_nat (length p) -> Z.of_nat (length cp) + Z.max n 0 <= 4 -> append cp p n = Ret (cp ++ take (Z.to_nat n) p).
Proof.
  intros Hn Hl. unfold append. rewrite length_take.
  destruct (Z.ltb_spec (Z.of_nat (length p)) n); [lia|].
  by destruct (Z.ltb_spec 4 (Z.of_nat (length cp + Z.to_nat n `min` length p))); [lia|].
Qed.

Lemma tail_loop_spec fuel p c :
  Forall u8 p -> (length p < fuel)%nat -> idle c -> answers p (tail_loop fuel p c).
Proof.
  intros Hu Hf [Hcp Hneed]. revert p Hu Hf. induction fuel as [|fuel IH]; intros p Hu Hf; [lia|]. cbn [tail_loop].
  destruct p as [|v s]; cbn [length Z.of_nat Z.eqb].
  { exists true, c. split; [done|]. exists []. unfold incomplete. rewrite Hcp. split; [done|]. split; [apply valid_utf8_nil|done]. }
  destruct (Z.eqb_spec (Z.of_nat (S (length s))) 0); [lia|]. unfold at_. cbn [lookup list_lookup obind].
  pose proof (needed_range v). destruct (Z.eqb_spec (needed v) 0) as [E0|E0].
  { exists false, c. split; [done|]. destruct (valid_front v s Hu ltac:(lia)) as [(a & b & E & Hne & Ha & Hv)|[_ Hd]]; [|done].
    exfalso. rewrite (valid_spec v s Hu) in Hv by lia. unfold valid_answer in Hv.
    destruct (utf8_split (v :: s)) as [[a' b']|] eqn:Es; [|done]. apply utf8_split_spec in Es as [Es Ha'].
    destruct a' as [|v' a']; [done|]. injection Es as <- _. cbn in Ha'. destruct (trail_ranges v) eqn:Et; [|done].
    apply trail_ranges_needed in Et. lia. }
  destruct (Z.leb_spec (needed v) (Z.of_nat (S (length s)))) as [Hle|Hgt].
  - destruct (valid_front v s Hu Hle) as [(a & b & E & Hne & Ha & ->)|[-> Hd]]; cbn [obind]; [|by exists false, c].
    rewrite E in *. apply Forall_app in Hu as [_ Hu]. rewrite length_app in Hf.
    assert (0 < length a)%nat by (destruct a; [done|cbn; lia]). apply answers_after; [done|]. apply IH; [done|lia].
  - rewrite Hcp, append_spec by (cbn [length]; lia). rewrite Nat2Z.id, take_ge by (cbn [length]; lia). cbn [obind app].
    rewrite (fail_fast_spec v s Hu) by (cbn; lia). cbn [obind]. eexists _, _. split; [done|]. rewrite negb_involutive.
    destruct (viable (v :: s)) eqn:Ev.
    + exists []. split; [done|]. split; [apply valid_utf8_nil|]. unfold incomplete. cbn [cp_ need_]. split; [done|]. cbn. lia.
    + apply not_viable_dead; [done|cbn; lia].
Qed.

Lemma tail_spec p c : Forall u8 p -> idle c -> answers p (tail_ p c).
Proof. intros Hu Hc. apply tail_loop_spec; [done|lia|done]. Qed.

Lemma then_tail_spec z p c :
  Forall u8 p -> idle c -> z <= Z.of_nat (length p) - 3 -> answers p (then_tail (valid_loop (S (length p)) z p) c).
Proof.
  intros Hu Hc Hz. destruct (valid_loop_spec (S (length p)) z p Hu ltac:(lia) Hz) as ([q|] & -> & H); cbn [then_tail obind].
  - destruct H as (u & -> & Hv). apply Forall_app in Hu as [_ Hu]. apply answers_after; [done|]. by apply tail_spec.
  - by exists false, c.
Qed.

Lemma align_loop_spec z p :
  Forall u8 p -> (z <= length p)%nat ->
  exists stop u q, align_loop z p = Ret (stop, q) /\ p = u ++ q /\ valid_utf8 u.
Proof.
  revert p. induction z as [|z IH]; intros p Hu Hz; cbn [align_loop].
  - exists false, [], p. split; [done|]. split; [done|apply valid_utf8_nil].
  - destruct p as [|v p]; [cbn in Hz; lia|]. pose proof Hu as [Uv Hu']%Forall_cons.
    unfold at_. cbn [lookup list_lookup obind]. rewrite (bits_ascii v Uv). destruct (Z.ltb_spec v 128); cbn [negb drop]; rewrite ?drop_0.
    + destruct (IH p Hu' ltac:(cbn in Hz; lia)) as (stop & u & q & -> & -> & Hv). exists stop, (v :: u), q.
      split; [done|]. split; [done|]. apply (valid_utf8_app [v]); [|done]. apply ascii_valid. unfold in_width in Uv. constructor; [lia|constructor].
    + exists true, [], (v :: p). split; [done|]. split; [done|apply valid_utf8_nil].
Qed.

Lemma word_masked_ascii p :
  Forall u8 p -> word_masked p = Ret false -> Forall (fun c => 0 <= c < 128) (take 8 p).
Proof.
  intros Hu. unfold word_masked. destruct (_ <? _)%nat; [done|]. intros [= H].
  apply Forall_forall. intros v Hv. assert (u8 v) as Uv by (by apply (proj1 (Forall_forall u8 (take 8 p))); [apply Forall_take|]).
  destruct (Z.ltb_spec v 128); [unfold in_width in Uv; lia|].
  assert (existsb (fun v => negb (Z.land v 0x80 =? 0)) (take 8 p) = true) as E; [|by rewrite E in H].
  apply existsb_exists. exists v. split; [by apply list_elem_of_In|]. rewrite (bits_ascii v Uv). by replace (v <? 128) with false by lia.
Qed.

Lemma fast_loop_spec fuel z p :
  Forall u8 p -> (length p < fuel)%nat -> z <= Z.of_nat (length p) - 7 ->
  exists stop u q, fast_loop fuel z p = Ret (stop, z - Z.of_nat (length u), q) /\ p = u ++ q /\ valid_utf8 u.
Proof.
  revert z p. induction fuel as [|fuel IH]; intros z p Hu Hf Hz; [lia|]. cbn [fast_loop].
  assert (forall stop, exists stop' u q, (Ret (stop, z, p) : cpp (bool * Z * bytes)) = Ret (stop', z - Z.of_nat (length u), q) /\
    p = u ++ q /\ valid_utf8 u) as Hstop.
  { intros stop. exists stop, [], p. cbn. rewrite Z.sub_0_r. split; [done|]. split; [done|apply valid_utf8_nil]. }
  destruct (Z.ltb_spec 0 z); [|apply Hstop]. destruct (word_masked p) as [m| |] eqn:Em;
    [|unfold word_masked in Em; by destruct (_ <? _)%nat|unfold word_masked in Em; destruct (Nat.ltb_spec (length p) 8); [lia|done]].
  cbn [obind]. destruct m; [apply Hstop|]. pose proof (word_masked_ascii p Hu Em) as Ha.
  pose proof (length_take_le p 8 ltac:(lia)) as Hl.
  destruct (IH (z - 8) (drop 8 p) (Forall_drop _ _ _ Hu)) as (stop & u & q & -> & E & Hv); [rewrite length_drop; lia..|].
  exists stop, (take 8 p ++ u), q. rewrite length_app, Hl. split; [do 2 f_equal; f_equal; lia|].
  split; [by rewrite <- app_assoc, <- E, take_drop|]. apply valid_utf8_app; [by apply ascii_valid|done].
Qed.

(** ** write *)

Lemma write_rest_spec addr p size c :
  Forall u8 p -> size = Z.of_nat (length p) -> idle c -> answers p (write_rest addr p size c).
Proof.
  intros Hu -> Hc. unfold write_rest. destruct (Z.leb_spec (Z.of_nat (length p)) 8); [apply then_tail_spec; [done|done|lia]|].
  pose proof (Z.mod_pos_bound (- addr) 8 ltac:(lia)).
  destruct (align_loop_spec (Z.to_nat ((- addr) mod 8)) p Hu ltac:(lia)) as (stop & u & q & -> & -> & Hv). cbn [obind].
  apply Forall_app in Hu as [_ Hu]. apply answers_after; [done|]. rewrite length_app in *.
  replace (Z.of_nat (length u + length q) - Z.of_nat (length u + length q - length q)) with (Z.of_nat (length q)) by lia.
  destruct stop; [apply then_tail_spec; [done|done|lia]|].
  destruct (fast_loop_spec (S (length q)) (Z.of_nat (length q) - 7) q Hu ltac:(lia) ltac:(lia))
    as (stop & u2 & r & -> & -> & Hv2). cbn [obind].
  apply Forall_app in Hu as [_ Hu]. apply answers_after; [done|]. rewrite length_app in *.
  destruct stop; (apply then_tail_spec; [done|done|lia]).
Qed.

Lemma checked_new : checked [] new_checker.
Proof. exists []. split; [done|]. split; [apply valid_utf8_nil|done]. Qed.

(** A buffer that completes the code point, or does not. *)
Lemma write_spec addr p x c : Forall u8 x -> Forall u8 p -> checked x c -> answers (x ++ p) (write addr p c).
Proof.
  intros Hx Hu (u & -> & Hv & Hc). rewrite <- app_assoc. apply answers_after; [done|]. apply Forall_app in Hx as [_ Hx].
  unfold write, incomplete in *. destruct (cp_ c) as [|v s] eqn:Ecp.
  { rewrite Hc. cbn [Z.ltb Z.compare app]. by apply write_rest_spec. }
  destruct Hc as (Hviable & Hpos & Hneed). replace (0 <? need_ c) with true by lia.
  pose proof (needed_range v) as Hr. set (n := Z.min (Z.of_nat (length p)) (need_ c)).
  rewrite append_spec by lia. cbn [obind].
  rewrite <- (take_drop (Z.to_nat n) p) at 1. rewrite app_assoc.
  assert (Forall u8 ((v :: s) ++ take (Z.to_nat n) p)) as Hcp by (apply Forall_app; split; [done|by apply Forall_take]).
  assert (Z.of_nat (length ((v :: s) ++ take (Z.to_nat n) p)) = needed v - need_ c + n) as Hlen
    by (rewrite length_app, length_take; lia).
  assert (Forall u8 (drop (Z.to_nat n) p)) as Hd by by apply Forall_drop.
  cbn [app] in *. destruct (Z.ltb_spec 0 (need_ c - n)) as [Hmore|Hfull].
  - rewrite (fail_fast_spec _ _ Hcp) by lia. cbn [obind]. eexists _, _. split; [done|]. rewrite negb_involutive.
    rewrite drop_ge, app_nil_r by lia. destruct (viable (v :: s ++ _)) eqn:Ev.
    + exists []. split; [done|]. split; [apply valid_utf8_nil|]. unfold incomplete. cbn [cp_ need_]. rewrite Ev, Hlen. lia.
    + apply not_viable_dead; [done|lia].
  - destruct (valid_front _ _ Hcp ltac:(lia)) as [(a & b & E & Hne & Ha & Ev)|[-> Hdead]].
    + assert (b = []) as ->.
      { rewrite (valid_spec _ _ Hcp) in Ev by lia. unfold valid_answer in Ev.
        destruct (utf8_split _) as [[a' b']|] eqn:Es; [|done]. injection Ev as <-. apply utf8_split_spec in Es as [Es Hw].
        destruct a' as [|v' a']; [done|]. injection Es as <- Es. cbn in Hw. destruct (trail_ranges v) as [rs|] eqn:Et; [|done].
        apply trail_ranges_needed in Et. apply in_ranges_length in Hw. apply (f_equal length) in Es.
        rewrite (length_app a') in Es. cbn [length] in Hlen. destruct b'; [done|cbn [length] in Es; lia]. }
      rewrite app_nil_r in E. rewrite Ev. cbn [obind]. rewrite app_comm_cons, E. apply answers_after; [done|].
      apply write_rest_spec; [done|rewrite length_drop; lia|]. split; [done|]. cbn. lia.
    + cbn [obind]. eexists _, _. split; [done|]. rewrite app_comm_cons. by apply dead_more.
Qed.

(** A text that was checked can be continued to a valid one, and is one exactly when
    nothing is needed. *)
Lemma checked_alive x c : checked x c -> ~ dead x.
Proof.
  intros (u & -> & Hv & Hc) Hd. unfold incomplete in Hc. destruct (cp_ c) as [|v s].
  - apply (Hd []). by rewrite !app_nil_r.
  - destruct Hc as (Hviable & Hpos & Hneed). destruct (viable_continued v s Hviable ltac:(lia)) as (r & Hr).
    apply (Hd r). rewrite <- app_assoc. apply valid_utf8_app; [done|]. cbn [app]. rewrite <- (app_nil_r (v :: s ++ r)).
    apply valid_utf8_char; [done|apply valid_utf8_nil].
Qed.

Lemma well_formed_needed v s : well_formed (v :: s) = true -> needed v = Z.of_nat (length (v :: s)).
Proof.
  cbn [well_formed]. destruct (trail_ranges v) as [rs|] eqn:Et; [|done]. intros H%in_ranges_length.
  rewrite (trail_ranges_needed v rs Et). cbn [length]. lia.
Qed.

Lemma checked_finish x c : checked x c -> fst (finish c) = true <-> valid_utf8 x.
Proof.
  intros (u & -> & Hv & Hc). unfold finish, incomplete in *. cbn [fst]. destruct (cp_ c) as [|v s].
  - rewrite app_nil_r, Hc. done.
  - destruct Hc as (_ & Hpos & Hneed). destruct (Z.eqb_spec (need_ c) 0); [lia|]. split; [done|]. intros Hx%valid_utf8_drop; [|done].
    destruct (valid_utf8_inv _ Hx) as [?|(a & b & E & Ha & _)]; [done|]. destruct a as [|v' a]; [done|].
    injection E as <- E. apply well_formed_needed in Ha. apply (f_equal length) in E. rewrite length_app in E. cbn [length] in *. lia.
Qed.

Lemma write_buffers_spec bs x c :
  Forall u8 x -> Forall (fun b => Forall u8 (snd b)) bs -> checked x c ->
  exists b c', write_buffers bs c = Ret (b, c') /\
    if b then checked (x ++ concat (map snd bs)) c' else dead (x ++ concat (map snd bs)).
Proof.
  intros Hx Hbs. revert x c Hx. induction Hbs as [|[addr p] bs Hp _ IH]; intros x c Hx Hc; cbn [write_buffers map concat snd].
  - exists true, c. by rewrite app_nil_r.
  - destruct (write_spec addr p x c Hx Hp Hc) as (b & c1 & -> & H). cbn [obind]. rewrite app_assoc. destruct b.
    + apply IH; [|done]. by apply Forall_app.
    + exists false, c1. split; [done|]. by apply dead_more.
Qed.

(** ** The contract *)

(** C20: [write] on any buffer sequence: for every text cut in any way into buffers at
    any addresses, the checker reads only bytes of the buffers and writes at most four
    into its own, answers false exactly when no continuation of the text is valid
    UTF-8, and otherwise [finish] tells whether the whole text is valid. *)
Theorem utf8_checker_incremental (bs : list (Z * bytes)) (text : bytes) :
  Forall u8 text -> concat (map snd bs) = text ->
  exists ok c, write_buffers bs new_checker = Ret (ok, c) /\
    (ok = false <-> forall y, ~ valid_utf8 (text ++ y)) /\
    (ok = true -> fst (finish c) = true <-> valid_utf8 text).
Proof.
  intros Hu <-. assert (Forall (fun b => Forall u8 (snd b)) bs) as Hbs by by apply Forall_map, Forall_concat.
  destruct (write_buffers_spec bs [] new_checker (Forall_nil_2 _) Hbs checked_new) as (ok & c & -> & H). cbn [app] in H.
  exists ok, c. split; [done|]. destruct ok.
  - split; [split; [done|]|intros _; by apply checked_finish]. intros Hd. by destruct (checked_alive _ _ H).
  - split; [split; [intros _; exact H|done]|done].
Qed.

Lemma utf8_checker_incremental_witness :
  Forall u8 [206; 186; 97] /\
  exists ok c, write_buffers [(0, [206]); (5, [186; 97])] new_checker = Ret (ok, c) /\
    (ok = false <-> forall y, ~ valid_utf8 ([206; 186; 97] ++ y)) /\ (ok = true -> fst (finish c) = true <-> valid_utf8 [206; 186; 97]).
Proof.
  assert (Forall u8 [206; 186; 97]) as H by (repeat constructor; unfold in_width; lia).
  split; [exact H|]. apply (utf8_checker_incremental [(0, [206]); (5, [186; 97])] _ H eq_refl).
Defined.

(** [check_utf8] decides whether a text is valid. *)
Lemma check_utf8_spec addr s : Forall u8 s -> exists b, check_utf8 addr s = Ret b /\ (b = true <-> valid_utf8 s).
Proof.
  intros Hu. destruct (write_spec addr s [] new_checker (Forall_nil_2 _) Hu checked_new) as (ok & c & E & H).
  unfold check_utf8. rewrite E. cbn [obind app] in *. destruct ok.
  - exists (fst (finish c)). split; [done|]. by apply checked_finish.
  - exists false. split; [done|]. split; [done|]. intros Hv. destruct (H []). by rewrite app_nil_r.
Qed.
