(* ===== verification/WsFrame.v ===== *)
(** * Frames of the websocket protocol

    src/externals/boost/boost/beast/websocket/detail/frame.hpp, detail/mask.hpp, the
    close codes and reasons of rfc6455.hpp, the errors of error.hpp and
    boost/beast/core/detail/clamp.hpp: the header of a frame and the bytes it is
    written as, the mask on a payload, the payload of a close frame. *)

From Stdlib Require Import ZArith Lia String Ascii.
From stdpp Require Import base list.
From S2P Require Import Prelude Utf8 Exceptions StaticBuffer WsUtf8.

(** ** Errors *)

(** [enum class error], without the errors of the handshake, and the errors of asio
    that the stream compares with or creates; [io_error] is any other one. *)
Inductive ws_error :=
  | closed | buffer_overflow | partial_deflate_block | message_too_big
  | bad_opcode | bad_data_frame | bad_continuation | bad_reserved_bits | bad_control_fragment
  | bad_control_size | bad_unmasked_frame | bad_masked_frame | bad_size | bad_frame_payload
  | bad_close_code | bad_close_size | bad_close_payload
  | operation_aborted | eof | io_error (code : Z).

#[export] Instance ws_error_eq_dec : EqDecision ws_error.
Proof. solve_decision. Defined.

(** [error_code]: none is success. *)
Abbreviation error_code := (option ws_error).

(** [enum close_code]. *)
Definition close_none : Z := 0.
Definition close_normal : Z := 1000.
Definition close_protocol_error : Z := 1002.
Definition close_bad_payload : Z := 1007.
Definition close_too_big : Z := 1009.

(** [struct close_reason]. *)
Record close_reason := mk_close_reason { code : Z; reason : bytes }.
Definition new_close_reason : close_reason := mk_close_reason close_none [].

(** ** Integers *)

Definition byte_at (p : bytes) (i : nat) : Z := nth i p 0.

(** [big_uint16_to_native], [big_uint64_to_native], [little_uint32_to_native] and
    [native_to_little_uint32]. *)
Definition big_uint16_to_native (p : bytes) : Z := wrap 16 (Z.shiftl (byte_at p 0) 8 + byte_at p 1).

Definition big_uint64_to_native (p : bytes) : Z :=
  wrap 64 (Z.shiftl (byte_at p 0) 56 + Z.shiftl (byte_at p 1) 48 + Z.shiftl (byte_at p 2) 40 +
           Z.shiftl (byte_at p 3) 32 + Z.shiftl (byte_at p 4) 24 + Z.shiftl (byte_at p 5) 16 +
           Z.shiftl (byte_at p 6) 8 + byte_at p 7).

Definition little_uint32_to_native (p : bytes) : Z :=
  wrap 32 (byte_at p 0 + Z.shiftl (byte_at p 1) 8 + Z.shiftl (byte_at p 2) 16 + Z.shiftl (byte_at p 3) 24).

Definition native_to_little_uint32 (v : Z) : bytes :=
  [Z.land v 0xff; Z.land (Z.shiftr v 8) 0xff; Z.land (Z.shiftr v 16) 0xff; Z.land (Z.shiftr v 24) 0xff].

(** [big_uint16_buf_t] and [big_uint64_buf_t] of boost::endian. *)
Definition big_bytes (n : nat) (v : Z) : bytes :=
  map (fun i => Z.land (Z.shiftr v (8 * Z.of_nat (n - 1 - i))) 0xff) (seq 0 n).

(** [clamp(x)], [clamp(x, limit)] and [sum_exceeds(x, y, z)]. *)
Definition size_max : Z := 2 ^ 64 - 1.
Definition clamp_to (x limit : Z) : Z := if limit <=? x then limit else x.
Definition clamp (x : Z) : Z := clamp_to x size_max.
Definition sum_exceeds (x y z : Z) : bool := (z <? y) || (z - y <? x).

(** ** Frame headers *)

(** [enum class opcode]. *)
Inductive opcode :=
  | cont | text | binary | rsv3 | rsv4 | rsv5 | rsv6 | rsv7
  | close | ping | pong | crsvb | crsvc | crsvd | crsve | crsvf.

#[export] Instance opcode_eq_dec : EqDecision opcode.
Proof. solve_decision. Defined.

Definition opcodes : list opcode :=
  [cont; text; binary; rsv3; rsv4; rsv5; rsv6; rsv7; close; ping; pong; crsvb; crsvc; crsvd; crsve; crsvf].

(** The number of an opcode, and [static_cast] to one. *)
Definition opcode_value (op : opcode) : Z :=
  match op with
  | cont => 0 | text => 1 | binary => 2 | rsv3 => 3 | rsv4 => 4 | rsv5 => 5 | rsv6 => 6 | rsv7 => 7
  | close => 8 | ping => 9 | pong => 10 | crsvb => 11 | crsvc => 12 | crsvd => 13 | crsve => 14 | crsvf => 15
  end.
Definition to_opcode (v : Z) : opcode := nth (Z.to_nat v) opcodes crsvf.

(** [struct frame_header]. *)
Record frame_header := mk_fh {
  len : Z;
  key : Z;
  op : opcode;
  fin : bool;
  mask : bool;
  rsv1 : bool;
  rsv2 : bool;
  rsv3_ : bool
}.

Definition is_reserved (op : opcode) : bool :=
  let v := opcode_value op in ((3 <=? v) && (v <=? 7)) || ((11 <=? v) && (v <=? 15)).
Definition is_control (op : opcode) : bool := 8 <=? opcode_value op.

(** [is_valid_close_code]. *)
Definition is_valid_close_code (v : Z) : bool :=
  if existsb (Z.eqb v) [1000; 1001; 1002; 1003; 1007; 1008; 1009; 1010; 1011; 1012; 1013] then true
  else if existsb (Z.eqb v) [1004; 1005; 1006; 1014; 1015] then false
  else if (1016 <=? v) && (v <=? 2999) then false
  else if v <=? 999 then false
  else true.

Definition bit (b : bool) (v : Z) : Z := if b then v else 0.

(** The bytes [b[0]] to [b[n - 1]] that [write] fills in. *)
Definition header_bytes (fh : frame_header) : bytes :=
  let b0 := Z.lor (bit (fin fh) 0x80) (opcode_value (op fh)) in
  let b0 := Z.lor b0 (bit (rsv1 fh) 0x40) in
  let b0 := Z.lor b0 (bit (rsv2 fh) 0x20) in
  let b0 := Z.lor b0 (bit (rsv3_ fh) 0x10) in
  let b1 := bit (mask fh) 0x80 in
  let size :=
    if len fh <=? 125 then [wrap 8 (Z.lor b1 (len fh))]
    else if len fh <=? 65535 then Z.lor b1 126 :: big_bytes 2 (wrap 16 (len fh))
    else Z.lor b1 127 :: big_bytes 8 (len fh) in
  b0 :: size ++ (if mask fh then native_to_little_uint32 (key fh) else []).

(** [write(db, fh)]. *)
Definition write (db : Flat.flat_static_buffer) (fh : frame_header) : cpp Flat.flat_static_buffer :=
  let b := header_bytes fh in Flat.append (length b) b db.

(** ** The mask *)

(** [prepare_key]. *)
Definition prepare_key (key : Z) : bytes := native_to_little_uint32 key.

(** [rol]. *)
Definition rol (v : bytes) (n : nat) : bytes := map (fun i => byte_at v ((i + n) mod length v)) (seq 0 (length v)).

(** [mask_inplace] on the bytes of a buffer: what they become, and the key. *)
Fixpoint mask_buffer (key : bytes) (p : bytes) : bytes * bytes :=
  match p with
  | a :: b :: c :: d :: p =>
      let (p, k) := mask_buffer key p in
      (Z.lxor a (byte_at key 0) :: Z.lxor b (byte_at key 1) :: Z.lxor c (byte_at key 2) :: Z.lxor d (byte_at key 3) :: p, k)
  | [] => ([], key)
  | _ => (zip_with Z.lxor p (take (length p) key), rol key (length p))
  end.

(** [mask_inplace] on a buffer sequence. *)
Definition mask_inplace (bs : list buffer) (m : bytes) (key : bytes) : bytes * bytes := transform mask_buffer bs m key.

(** ** The payloads of control frames *)

(** [read_ping]; the largest payload of a control frame has 125 bytes. *)
Definition read_ping (payload : bytes) : cpp bytes := if (length payload <=? 125)%nat then Ret payload else Undef.

(** [read_close] on the bytes of the buffers, with the address of the string that the
    reason is copied to. *)
Definition read_close (addr : Z) (payload : bytes) : cpp (close_reason * error_code) :=
  let n := length payload in
  if (125 <? n)%nat then Undef
  else if (n =? 0)%nat then Ret (new_close_reason, None)
  else if (n =? 1)%nat then Ret (new_close_reason, Some bad_close_size)
  else
    let code := big_uint16_to_native payload in
    if negb (is_valid_close_code code) then Ret (mk_close_reason code [], Some bad_close_code)
    else
      let reason := drop 2 payload in
      if (0 <? n - 2)%nat then
        let* ok := check_utf8 addr reason in
        Ret (mk_close_reason code reason, if ok then None else Some bad_close_payload)
      else Ret (mk_close_reason code [], None).

Example header_text : header_bytes (mk_fh 5 0x3d21fa37 text true true false false false) = [0x81; 0x85; 0x37; 0xfa; 0x21; 0x3d].
Proof. reflexivity. Qed.
Example mask_hello : mask_buffer (prepare_key 0x3d21fa37) (str "Hello") = ([0x7f; 0x9f; 0x4d; 0x51; 0x58], [0xfa; 0x21; 0x3d; 0x37]).
Proof. reflexivity. Qed.
Example close_bad : read_close 0 [3; 236] = Ret (mk_close_reason 1004 [], Some bad_close_code).
Proof. reflexivity. Qed.

(** ** The mask, octet by octet *)

(** The mask with the key rotated after every octet. *)
Fixpoint mask_ref (key p : bytes) : bytes * bytes :=
  match p with
  | [] => ([], key)
  | c :: p => let (q, k) := mask_ref (rol key 1) p in (Z.lxor c (byte_at key 0) :: q, k)
  end.

Definition is_key (key : bytes) : Prop := length key = 4%nat /\ Forall u8 key.

Lemma mask_buffer_ref key p : length key = 4%nat -> mask_buffer key p = mask_ref key p.
Proof.
  intros H. destruct key as [|k0 [|k1 [|k2 [|k3 [|]]]]]; try done. clear H.
  induction p as [|a|a b|a b c|a b c d p IH] using list_ind4; try done.
  cbn [mask_buffer mask_ref]. rewrite IH. by destruct (mask_ref [k0; k1; k2; k3] p) eqn:E; cbn in E |- *; rewrite E.
Qed.

Lemma length_rol key n : length (rol key n) = length key.
Proof. unfold rol. by rewrite length_map, length_seq. Qed.

Lemma rol_add key a b : length key = 4%nat -> rol (rol key a) b = rol key (a + b).
Proof.
  intros H. unfold rol at 1. rewrite length_rol. unfold rol at 2. apply map_ext_in. intros i Hi. apply in_seq in Hi.
  unfold byte_at, rol. rewrite H in *. rewrite (nth_indep _ 0 (nth ((0 + a) mod 4) key 0)) by (rewrite length_map, length_seq; by apply Nat.mod_upper_bound).
  rewrite (map_nth (fun i => nth ((i + a) mod 4) key 0)), seq_nth by (by apply Nat.mod_upper_bound).
  f_equal. cbn [Nat.add]. rewrite Nat.Div0.add_mod_idemp_l. f_equal. lia.
Qed.

Lemma rol_0 key : length key = 4%nat -> rol key 0 = key.
Proof. intros H. by destruct key as [|k0 [|k1 [|k2 [|k3 [|]]]]]. Qed.

Lemma byte_at_rol key n i : (i < length key)%nat -> byte_at (rol key n) i = byte_at key ((i + n) mod length key).
Proof.
  intros H. unfold rol. unfold byte_at at 1. rewrite (nth_indep _ 0 (byte_at key ((0 + n) mod length key))) by (by rewrite length_map, length_seq).
  by rewrite (map_nth (fun i => byte_at key ((i + n) mod length key))), seq_nth.
Qed.

Lemma mask_ref_spec key p :
  length key = 4%nat ->
  snd (mask_ref key p) = rol key (length p) /\
  length (fst (mask_ref key p)) = length p /\
  forall i c, p !! i = Some c -> fst (mask_ref key p) !! i = Some (Z.lxor c (byte_at key (i mod 4))).
Proof.
  revert key. induction p as [|c p IH]; intros key H; cbn [mask_ref length].
  - split; [by rewrite rol_0|]. split; [done|]. intros i c Hi. done.
  - destruct (IH (rol key 1)) as (Hk & Hl & Hi); [by rewrite length_rol|].
    destruct (mask_ref (rol key 1) p) as [q k]. cbn [fst snd length] in *. split; [|split; [lia|]].
    + rewrite Hk, rol_add by done. done.
    + intros [|i] x Hx; cbn in Hx; [by injection Hx as ->|]. change (q !! i = Some (Z.lxor x (byte_at key (S i mod 4)))). rewrite (Hi i x Hx).
      rewrite byte_at_rol, H by (rewrite H; by apply Nat.mod_upper_bound).
      by rewrite Nat.Div0.add_mod_idemp_l, Nat.add_1_r.
Qed.

Lemma mask_ref_app key a b :
  mask_ref key (a ++ b) = let (a', k) := mask_ref key a in let (b', k') := mask_ref k b in (a' ++ b', k').
Proof.
  revert key. induction a as [|c a IH]; intros key; cbn [app mask_ref]; [by destruct (mask_ref key b)|].
  rewrite IH. destruct (mask_ref (rol key 1) a) as [a' k]. by destruct (mask_ref k b).
Qed.

Lemma mask_ref_twice key p : fst (mask_ref key (fst (mask_ref key p))) = p.
Proof.
  revert key. induction p as [|c p IH]; intros key; [done|]. cbn [mask_ref].
  pose proof (IH (rol key 1)) as E. destruct (mask_ref (rol key 1) p) as [q k]. cbn [fst] in *. cbn [mask_ref].
  destruct (mask_ref (rol key 1) q) as [r k']. cbn [fst] in *. subst r.
  by rewrite Z.lxor_assoc, Z.lxor_nilpotent, Z.lxor_0_r.
Qed.

Lemma lxor_u8 a b : u8 a -> u8 b -> u8 (Z.lxor a b).
Proof.
  intros Ha Hb. unfold in_width in *. assert (0 <= Z.lxor a b) as H0 by (apply Z.lxor_nonneg; lia).
  assert (forall z, 0 <= z < 2 ^ 8 -> Z.log2 z < Z.log2 (2 ^ 8)) as Hlog.
  { intros z Hz. rewrite (Z.log2_pow2 8) by lia. destruct (Z.eq_dec z 0) as [->|]; [done|]. apply Z.log2_lt_pow2; lia. }
  split; [done|]. apply Z.log2_lt_cancel. eapply Z.le_lt_trans; [apply Z.log2_lxor; lia|]. by apply Z.max_lub_lt; apply Hlog.
Qed.

Lemma byte_at_u8 key i : Forall u8 key -> u8 (byte_at key i).
Proof.
  intros H. unfold byte_at. destruct (nth_in_or_default i key 0) as [Hi| ->]; [|by split].
  rewrite Forall_forall in H. by apply H, list_elem_of_In.
Qed.

Lemma rol_key key n : is_key key -> is_key (rol key n).
Proof.
  intros [Hl Hu]. split; [by rewrite length_rol|]. unfold rol. apply Forall_forall. intros x (i & <- & _)%list_elem_of_In%in_map_iff.
  by apply byte_at_u8.
Qed.

Lemma mask_ref_u8 key p : is_key key -> Forall u8 p -> Forall u8 (fst (mask_ref key p)).
Proof.
  intros Hk Hp. revert key Hk. induction Hp as [|c p Hc _ IH]; intros key Hk; [constructor|]. cbn [mask_ref].
  specialize (IH (rol key 1) (rol_key key 1 Hk)). destruct (mask_ref (rol key 1) p) as [q k]. cbn [fst] in *.
  constructor; [|done]. apply lxor_u8; [done|]. by apply byte_at_u8, Hk.
Qed.

Lemma land_ff_u8 v : u8 (Z.land v 0xff).
Proof. change 0xff with (2 ^ 8 - 1). rewrite land_low by lia. apply wrap_range. lia. Qed.

Lemma prepare_key_is_key k : is_key (prepare_key k).
Proof. split; [done|]. repeat constructor; apply land_ff_u8. Qed.

(** The octets of [n] bytes in place. *)
Lemma mask_inplace_ring b v n key :
  is_key key -> ring_holds b v ->
  exists m, mask_inplace (buffers_prefix n (Ring.mutable_data b)) (Ring.buf_ b) key = (m, rol key (length (take n v))) /\
    length m = Ring.capacity b /\ ring_holds (Ring.set_buf m b) (fst (mask_ref key (take n v)) ++ drop n v).
Proof.
  intros [Hk _] Hh. unfold mask_inplace.
  (* the keys that occur have four octets *)
  set (f := fun k p => if (length k =? 4)%nat then mask_ref k p else (p, k)).
  assert (forall bs m k, length k = 4%nat -> transform mask_buffer bs m k = transform f bs m k) as Ef.
  { induction bs as [|[off l] bs IH]; intros m k Hl; [done|]. cbn [transform]. rewrite mask_buffer_ref by done.
    unfold f at 1. rewrite Hl. cbn [Nat.eqb]. destruct (mask_ref_spec k (load m (off, l)) Hl) as (Hs & _).
    destruct (mask_ref k (load m (off, l))) as [d k']. cbn in Hs. subst k'. apply IH. by rewrite length_rol. }
  rewrite Ef by done.
  destruct (ring_transform f) with (b := b) (v := v) (n := n) (s := key) as (m & E & Hm & Hc); try done.
  - intros k d. unfold f. destruct (Nat.eqb_spec (length k) 4); [|done]. by apply mask_ref_spec.
  - intros k. unfold f. by destruct (_ =? _)%nat.
  - intros k a c. unfold f. destruct (Nat.eqb_spec (length k) 4) as [Hl|Hl].
    + rewrite mask_ref_app. destruct (mask_ref_spec k a Hl) as (Hs & _). destruct (mask_ref k a) as [a' k1]. cbn in Hs. subst k1.
      by rewrite length_rol, Hl.
    + by rewrite (proj2 (Nat.eqb_neq _ _)).
  - exists m. unfold f in E, Hc. rewrite Hk in E, Hc. cbn [Nat.eqb] in E, Hc.
    by rewrite (proj1 (mask_ref_spec key (take n v) Hk)) in E.
Qed.

(** ** Integers in network order *)

Fixpoint big_value (p : bytes) : Z :=
  match p with [] => 0 | b :: p => b * 256 ^ Z.of_nat (length p) + big_value p end.

Lemma big_value_range p : Forall u8 p -> 0 <= big_value p < 256 ^ Z.of_nat (length p).
Proof.
  induction 1 as [|b p Hb _ IH]; [done|]. unfold in_width in Hb. cbn [big_value length]. rewrite Nat2Z.inj_succ, Z.pow_succ_r by lia. nia.
Qed.

Lemma land_ff v : Z.land v 0xff = v mod 256.
Proof. change 0xff with (2 ^ 8 - 1). by rewrite land_low. Qed.

Lemma big_bytes_S n v : big_bytes (S n) v = Z.land (Z.shiftr v (8 * Z.of_nat n)) 0xff :: big_bytes n v.
Proof.
  unfold big_bytes. cbn [seq map]. rewrite Nat.sub_0_r. replace (S n - 1)%nat with n by lia. f_equal.
  rewrite <- seq_shift, map_map. apply map_ext. intros i. do 4 f_equal. lia.
Qed.

Lemma length_big_bytes n v : length (big_bytes n v) = n.
Proof. unfold big_bytes. by rewrite length_map, length_seq. Qed.

Lemma big_bytes_u8 n v : Forall u8 (big_bytes n v).
Proof. apply Forall_forall. intros x (i & <- & _)%list_elem_of_In%in_map_iff. apply land_ff_u8. Qed.

Lemma pow_256 n : 2 ^ (8 * Z.of_nat n) = 256 ^ Z.of_nat n.
Proof. by rewrite Z.pow_mul_r by lia. Qed.

Lemma big_value_bytes n v : big_value (big_bytes n v) = v mod 256 ^ Z.of_nat n.
Proof.
  induction n as [|n IH]; [by rewrite Z.mod_1_r|]. rewrite big_bytes_S. cbn [big_value]. rewrite IH, length_big_bytes.
  rewrite land_ff, Z.shiftr_div_pow2, pow_256 by lia. rewrite Nat2Z.inj_succ, Z.pow_succ_r, (Z.mul_comm 256), Z.rem_mul_r by lia. lia.
Qed.

Lemma big_bytes_low n b x : big_bytes n (b * 256 ^ Z.of_nat n + x) = big_bytes n x.
Proof.
  revert b x. induction n as [|n IH]; intros b x; [done|]. rewrite !big_bytes_S.
  rewrite !land_ff, !Z.shiftr_div_pow2, pow_256 by lia. rewrite Nat2Z.inj_succ, Z.pow_succ_r by lia.
  replace (b * (256 * 256 ^ Z.of_nat n) + x) with (b * 256 * 256 ^ Z.of_nat n + x) by lia. f_equal; [|apply IH].
  rewrite Z.div_add_l by lia. replace (b * 256 + x / 256 ^ Z.of_nat n) with (x / 256 ^ Z.of_nat n + b * 256) by lia. apply Z.mod_add. lia.
Qed.

Lemma big_bytes_value p : Forall u8 p -> big_bytes (length p) (big_value p) = p.
Proof.
  induction 1 as [|b p Hb Hp IH]; [done|]. cbn [length big_value]. rewrite big_bytes_S, big_bytes_low, IH. f_equal.
  rewrite land_ff, Z.shiftr_div_pow2, pow_256, Z.div_add_l by lia. rewrite Z.div_small by (by apply big_value_range).
  unfold in_width in Hb. rewrite Z.add_0_r. apply Z.mod_small. lia.
Qed.

Lemma big_uint16_value p q : Forall u8 p -> length p = 2%nat -> big_uint16_to_native (p ++ q) = big_value p.
Proof.
  intros Hp Hl. pose proof (big_value_range p Hp) as Hr. destruct p as [|a [|b [|]]]; try done.
  unfold big_uint16_to_native, byte_at. cbn [app nth]. rewrite Z.shiftl_mul_pow2 by lia. cbn in *. rewrite wrap_small; [|unfold in_width]; lia.
Qed.

Lemma big_uint64_value p q : Forall u8 p -> length p = 8%nat -> big_uint64_to_native (p ++ q) = big_value p.
Proof.
  intros Hp Hl. pose proof (big_value_range p Hp) as Hr. do 8 (destruct p as [|? p]; [done|]). destruct p; [|done].
  unfold big_uint64_to_native, byte_at. cbn [app nth]. rewrite !Z.shiftl_mul_pow2 by lia. rewrite wrap_small; cbn in *; [lia|].
  unfold in_width. lia.
Qed.

Lemma little_uint32_bytes k q : u32 k -> little_uint32_to_native (native_to_little_uint32 k ++ q) = k.
Proof.
  intros Hk. unfold in_width in Hk. unfold little_uint32_to_native, native_to_little_uint32, byte_at. cbn [app nth].
  rewrite !land_ff, !Z.shiftr_div_pow2, !Z.shiftl_mul_pow2 by lia.
  replace (2 ^ 24) with (2 ^ 8 * 2 ^ 16) by done. replace (2 ^ 16) with (2 ^ 8 * 2 ^ 8) by done.
  rewrite <- !Z.div_div by lia. rewrite wrap_small; [|unfold in_width];
    change (2 ^ 8) with 256; change (2 ^ 32) with 4294967296 in *; Z.to_euclidean_division_equations; lia.
Qed.

Lemma little_bytes_value p : Forall u8 p -> length p = 4%nat ->
  native_to_little_uint32 (little_uint32_to_native p) = p /\ u32 (little_uint32_to_native p).
Proof.
  intros Hp Hl. destruct p as [|a [|b [|c [|d [|]]]]]; try done.
  repeat match goal with H : Forall _ (_ :: _) |- _ => apply Forall_cons in H as [? H] end. unfold in_width in *.
  unfold little_uint32_to_native, native_to_little_uint32, byte_at. cbn [nth]. rewrite !Z.shiftl_mul_pow2 by lia.
  rewrite wrap_small by (unfold in_width; cbn; lia). rewrite !land_ff, !Z.shiftr_div_pow2 by lia. split; [|lia].
  change (2 ^ 8) with 256; change (2 ^ 16) with 65536; change (2 ^ 24) with 16777216.
  repeat f_equal; Z.to_euclidean_division_equations; lia.
Qed.

(** ** The bytes of a header *)

(** The members are in their range; a header without mask has no key. *)
Definition header_ok (fh : frame_header) : Prop := u64 (len fh) /\ u32 (key fh) /\ (mask fh = false -> key fh = 0).

(** The first byte, the seven bits of length of the second, the length and the key. *)
Definition flags_byte (fh : frame_header) : Z :=
  Z.lor (Z.lor (Z.lor (Z.lor (bit (fin fh) 0x80) (opcode_value (op fh))) (bit (rsv1 fh) 0x40)) (bit (rsv2 fh) 0x20)) (bit (rsv3_ fh) 0x10).
Definition size_bits (fh : frame_header) : Z := if len fh <=? 125 then len fh else if len fh <=? 65535 then 126 else 127.
Definition size_bytes (fh : frame_header) : bytes :=
  if len fh <=? 125 then [] else if len fh <=? 65535 then big_bytes 2 (len fh) else big_bytes 8 (len fh).
Definition key_bytes (fh : frame_header) : bytes := if mask fh then native_to_little_uint32 (key fh) else [].

Lemma size_bits_range fh : header_ok fh -> 0 <= size_bits fh < 128.
Proof. intros ([? ?] & _). unfold size_bits. zcases. Qed.

Lemma size_bits_byte m l : 0 <= l < 128 ->
  u8 (Z.lor (bit m 0x80) l) /\ Z.land (Z.lor (bit m 0x80) l) 0x7f = l /\ negb (Z.land (Z.lor (bit m 0x80) l) 0x80 =? 0) = m.
Proof.
  intros Hl. assert (all_below 128 (fun l => (Z.lor (bit m 0x80) l <? 256) && (0 <=? Z.lor (bit m 0x80) l) && (Z.land (Z.lor (bit m 0x80) l) 0x7f =? l) &&
    Bool.eqb (negb (Z.land (Z.lor (bit m 0x80) l) 0x80 =? 0)) m) = true) as H by (destruct m; vm_compute; reflexivity).
  apply (all_below_spec _ _ l) in H; [|lia]. cbn beta in H. bool_prop. unfold in_width. split; [lia|]. split; [done|]. by apply Bool.eqb_prop.
Qed.

Lemma header_bytes_eq fh : header_ok fh ->
  header_bytes fh = flags_byte fh :: Z.lor (bit (mask fh) 0x80) (size_bits fh) :: size_bytes fh ++ key_bytes fh.
Proof.
  intros H. pose proof (size_bits_byte (mask fh) (size_bits fh) (size_bits_range fh H)) as (Hu & _). destruct H as ([? ?] & _).
  unfold header_bytes, size_bits, size_bytes, key_bytes, flags_byte in *. f_equal. destruct (Z.leb_spec (len fh) 125); [by rewrite wrap_small|].
  destruct (Z.leb_spec (len fh) 65535); [|done]. rewrite (wrap_small 16) by (unfold in_width; lia). done.
Qed.

Lemma length_size_bytes fh : length (size_bytes fh) = if len fh <=? 125 then 0%nat else if len fh <=? 65535 then 2%nat else 8%nat.
Proof. unfold size_bytes. by repeat case_match. Qed.

Lemma length_header_bytes fh : header_ok fh -> (2 <= length (header_bytes fh) <= 14)%nat.
Proof.
  intros H. rewrite header_bytes_eq by done. cbn [length]. rewrite length_app, length_size_bytes. unfold key_bytes.
  repeat case_match; cbn; lia.
Qed.

Lemma flags_byte_u8 fh : u8 (flags_byte fh).
Proof. unfold flags_byte. destruct (op fh), (fin fh), (rsv1 fh), (rsv2 fh), (rsv3_ fh); by split. Qed.

Lemma header_bytes_u8 fh : header_ok fh -> Forall u8 (header_bytes fh).
Proof.
  intros H. rewrite header_bytes_eq by done. constructor; [apply flags_byte_u8|]. constructor; [by apply size_bits_byte, size_bits_range|].
  apply Forall_app. split.
  - unfold size_bytes. repeat case_match; [constructor|apply big_bytes_u8..].
  - unfold key_bytes. case_match; [|constructor]. repeat constructor; apply land_ff_u8.
Qed.
