(* ===== verification/WsStream.v ===== *)
(** * The websocket stream

    The members of [stream] of
    src/externals/boost/boost/beast/websocket/stream.hpp and the operations of
    impl/stream.ipp that its asynchronous operations are made of, for a stream without
    the permessage-deflate extension, which the program never enables: [pmd_] is null.
    [detail::soft_mutex] and [detail::pausation] order the reads and the writes. *)

From Stdlib Require Import ZArith Lia.
From stdpp Require Import base list.
From S2P Require Import Prelude Utf8 Exceptions StaticBuffer WsUtf8 WsFrame.

(** A [BOOST_ASSERT]. *)
Definition assert_ (b : bool) : cpp unit := if b then Ret tt else Undef.

(** ** soft_mutex *)

(** The operations, by their [id]; 0 is no operation. *)
Definition id_none : Z := 0.
Definition id_read : Z := 1.
Definition id_write : Z := 2.

(** [is_locked(this)], [lock], [unlock], [try_lock], [try_unlock] by the operation
    [id] on the mutex [m]. *)
Definition is_locked (id m : Z) : bool := m =? id.
Definition mutex_lock (id m : Z) : cpp Z := let* _ := assert_ (m =? 0) in Ret id.
Definition mutex_unlock (id m : Z) : cpp Z := let* _ := assert_ (m =? id) in Ret 0.
Definition mutex_try_lock (id m : Z) : cpp (bool * Z) :=
  let* _ := assert_ (negb (m =? id)) in
  if negb (m =? 0) then Ret (false, m) else Ret (true, id).
Definition mutex_try_unlock (id m : Z) : bool * Z := if negb (m =? id) then (false, m) else (true, 0).

(** ** The stream *)

Inductive role_type := client | server.
Inductive status := status_open | status_closing | status_closed | status_failed.

#[export] Instance role_eq_dec : EqDecision role_type.
Proof. solve_decision. Defined.
#[export] Instance status_eq_dec : EqDecision status.
Proof. solve_decision. Defined.

Definition tcp_frame_size : nat := 1536.

(** The members that start with [rd_], but the mutex. *)
Record rd_state := mk_rd {
  rd_size_ : Z;
  rd_remain_ : Z;
  rd_fh_ : frame_header;
  rd_key_ : bytes;
  rd_utf8_ : utf8_checker;
  rd_buf_ : Ring.static_buffer;
  rd_op_ : opcode;
  rd_cont_ : bool;
  rd_done_ : bool;
  rd_close_ : bool
}.

(** The members that start with [wr_]; [wr_buf_] is null or the buffer. *)
Record wr_state := mk_wr {
  wr_close_ : bool;
  wr_cont_ : bool;
  wr_frag_ : bool;
  wr_frag_opt_ : bool;
  wr_opcode_ : opcode;
  wr_buf_ : option bytes;
  wr_buf_size_ : nat;
  wr_buf_opt_ : nat;
  wr_fb_ : Flat.flat_static_buffer
}.

(** [paused_rd_] and [paused_wr_] say whether they hold the operation. The other
    pausations hold operations that the program never starts. *)
Record stream := mk_stream {
  rd :> rd_state;
  wr :> wr_state;
  rd_fb_ : Flat.flat_static_buffer;
  rd_msg_max_ : Z;
  role_ : role_type;
  status_ : status;
  cr_ : close_reason;
  rd_block_ : Z;
  wr_block_ : Z;
  paused_rd_ : bool;
  paused_wr_ : bool;
  masks : nat
}.

Definition set_rd (r : rd_state) (s : stream) : stream :=
  mk_stream r (wr s) (rd_fb_ s) (rd_msg_max_ s) (role_ s) (status_ s) (cr_ s) (rd_block_ s) (wr_block_ s) (paused_rd_ s) (paused_wr_ s) (masks s).
Definition set_wr (w : wr_state) (s : stream) : stream :=
  mk_stream (rd s) w (rd_fb_ s) (rd_msg_max_ s) (role_ s) (status_ s) (cr_ s) (rd_block_ s) (wr_block_ s) (paused_rd_ s) (paused_wr_ s) (masks s).
Definition set_rd_fb (b : Flat.flat_static_buffer) (s : stream) : stream :=
  mk_stream (rd s) (wr s) b (rd_msg_max_ s) (role_ s) (status_ s) (cr_ s) (rd_block_ s) (wr_block_ s) (paused_rd_ s) (paused_wr_ s) (masks s).
Definition set_status (x : status) (s : stream) : stream :=
  mk_stream (rd s) (wr s) (rd_fb_ s) (rd_msg_max_ s) (role_ s) x (cr_ s) (rd_block_ s) (wr_block_ s) (paused_rd_ s) (paused_wr_ s) (masks s).
Definition set_cr (x : close_reason) (s : stream) : stream :=
  mk_stream (rd s) (wr s) (rd_fb_ s) (rd_msg_max_ s) (role_ s) (status_ s) x (rd_block_ s) (wr_block_ s) (paused_rd_ s) (paused_wr_ s) (masks s).
Definition set_rd_block (x : Z) (s : stream) : stream :=
  mk_stream (rd s) (wr s) (rd_fb_ s) (rd_msg_max_ s) (role_ s) (status_ s) (cr_ s) x (wr_block_ s) (paused_rd_ s) (paused_wr_ s) (masks s).
Definition set_wr_block (x : Z) (s : stream) : stream :=
  mk_stream (rd s) (wr s) (rd_fb_ s) (rd_msg_max_ s) (role_ s) (status_ s) (cr_ s) (rd_block_ s) x (paused_rd_ s) (paused_wr_ s) (masks s).
Definition set_paused_rd (x : bool) (s : stream) : stream :=
  mk_stream (rd s) (wr s) (rd_fb_ s) (rd_msg_max_ s) (role_ s) (status_ s) (cr_ s) (rd_block_ s) (wr_block_ s) x (paused_wr_ s) (masks s).
Definition set_paused_wr (x : bool) (s : stream) : stream :=
  mk_stream (rd s) (wr s) (rd_fb_ s) (rd_msg_max_ s) (role_ s) (status_ s) (cr_ s) (rd_block_ s) (wr_block_ s) (paused_rd_ s) x (masks s).
Definition next_mask (s : stream) : stream :=
  mk_stream (rd s) (wr s) (rd_fb_ s) (rd_msg_max_ s) (role_ s) (status_ s) (cr_ s) (rd_block_ s) (wr_block_ s) (paused_rd_ s) (paused_wr_ s) (S (masks s)).

Definition set_rd_fh (fh : frame_header) (r : rd_state) : rd_state :=
  mk_rd (rd_size_ r) (rd_remain_ r) fh (rd_key_ r) (rd_utf8_ r) (rd_buf_ r) (rd_op_ r) (rd_cont_ r) (rd_done_ r) (rd_close_ r).
Definition set_rd_buf (b : Ring.static_buffer) (r : rd_state) : rd_state :=
  mk_rd (rd_size_ r) (rd_remain_ r) (rd_fh_ r) (rd_key_ r) (rd_utf8_ r) b (rd_op_ r) (rd_cont_ r) (rd_done_ r) (rd_close_ r).
Definition set_rd_key (k : bytes) (r : rd_state) : rd_state :=
  mk_rd (rd_size_ r) (rd_remain_ r) (rd_fh_ r) k (rd_utf8_ r) (rd_buf_ r) (rd_op_ r) (rd_cont_ r) (rd_done_ r) (rd_close_ r).
Definition set_rd_done (x : bool) (r : rd_state) : rd_state :=
  mk_rd (rd_size_ r) (rd_remain_ r) (rd_fh_ r) (rd_key_ r) (rd_utf8_ r) (rd_buf_ r) (rd_op_ r) (rd_cont_ r) x (rd_close_ r).
Definition set_rd_close (x : bool) (r : rd_state) : rd_state :=
  mk_rd (rd_size_ r) (rd_remain_ r) (rd_fh_ r) (rd_key_ r) (rd_utf8_ r) (rd_buf_ r) (rd_op_ r) (rd_cont_ r) (rd_done_ r) x.
Definition set_rd_utf8 (u : utf8_checker) (r : rd_state) : rd_state :=
  mk_rd (rd_size_ r) (rd_remain_ r) (rd_fh_ r) (rd_key_ r) u (rd_buf_ r) (rd_op_ r) (rd_cont_ r) (rd_done_ r) (rd_close_ r).
Definition set_rd_size (x : Z) (r : rd_state) : rd_state :=
  mk_rd x (rd_remain_ r) (rd_fh_ r) (rd_key_ r) (rd_utf8_ r) (rd_buf_ r) (rd_op_ r) (rd_cont_ r) (rd_done_ r) (rd_close_ r).
Definition set_rd_remain (x : Z) (r : rd_state) : rd_state :=
  mk_rd (rd_size_ r) x (rd_fh_ r) (rd_key_ r) (rd_utf8_ r) (rd_buf_ r) (rd_op_ r) (rd_cont_ r) (rd_done_ r) (rd_close_ r).

Definition upd_rd (f : rd_state -> rd_state) (s : stream) : stream := set_rd (f (rd s)) s.

Definition set_wr_close (x : bool) (w : wr_state) : wr_state :=
  mk_wr x (wr_cont_ w) (wr_frag_ w) (wr_frag_opt_ w) (wr_opcode_ w) (wr_buf_ w) (wr_buf_size_ w) (wr_buf_opt_ w) (wr_fb_ w).
Definition set_wr_cont (x : bool) (w : wr_state) : wr_state :=
  mk_wr (wr_close_ w) x (wr_frag_ w) (wr_frag_opt_ w) (wr_opcode_ w) (wr_buf_ w) (wr_buf_size_ w) (wr_buf_opt_ w) (wr_fb_ w).
Definition set_wr_buf (b : option bytes) (w : wr_state) : wr_state :=
  mk_wr (wr_close_ w) (wr_cont_ w) (wr_frag_ w) (wr_frag_opt_ w) (wr_opcode_ w) b (wr_buf_size_ w) (wr_buf_opt_ w) (wr_fb_ w).
Definition set_wr_fb (b : Flat.flat_static_buffer) (w : wr_state) : wr_state :=
  mk_wr (wr_close_ w) (wr_cont_ w) (wr_frag_ w) (wr_frag_opt_ w) (wr_opcode_ w) (wr_buf_ w) (wr_buf_size_ w) (wr_buf_opt_ w) b.

Definition upd_wr (f : wr_state -> wr_state) (s : stream) : stream := set_wr (f (wr s)) s.

(** A header whose members are not initialized. *)
Definition no_header : frame_header := mk_fh 0 0 cont false false false false false.

(** The stream after its constructor; the arguments are what the storage of the
    buffers holds. *)
Definition new_stream (storage fb_storage wr_storage : bytes) : stream :=
  mk_stream
    (mk_rd 0 0 no_header [0; 0; 0; 0] new_checker (Ring.new_static_buffer storage) text false true false)
    (mk_wr false false false true text None 0 4096 (Flat.new_flat wr_storage))
    (Flat.new_flat fb_storage) (16 * 1024 * 1024) client status_closed new_close_reason id_none id_none false false 0.

(** [open(role)]. *)
Definition open_ (role : role_type) (s : stream) : stream :=
  let r := rd s in
  let w := wr s in
  mk_stream
    (mk_rd (rd_size_ r) 0
       (mk_fh (len (rd_fh_ r)) (key (rd_fh_ r)) (op (rd_fh_ r)) false (mask (rd_fh_ r)) (rsv1 (rd_fh_ r)) (rsv2 (rd_fh_ r)) (rsv3_ (rd_fh_ r)))
       (rd_key_ r) (rd_utf8_ r) (rd_buf_ r) (rd_op_ r) false true false)
    (mk_wr false false (wr_frag_ w) (wr_frag_opt_ w) (wr_opcode_ w) (wr_buf_ w) 0 (wr_buf_opt_ w) (wr_fb_ w))
    (rd_fb_ s) (rd_msg_max_ s) role status_open (mk_close_reason close_none (reason (cr_ s))) 0 0 (paused_rd_ s) (paused_wr_ s) (masks s).

(** [close()]. *)
Definition close_ (s : stream) : stream := upd_wr (set_wr_buf None) s.

(** [begin_msg()]; [noinit] is what the memory allocator returns. *)
Definition begin_msg (noinit : nat -> bytes) (s : stream) : stream :=
  let w := wr s in
  let fresh := mk_wr (wr_close_ w) (wr_cont_ w) (wr_frag_opt_ w) (wr_frag_opt_ w) (wr_opcode_ w) in
  match role_ s with
  | client =>
      if match wr_buf_ w with None => true | Some _ => negb (wr_buf_size_ w =? wr_buf_opt_ w)%nat end
      then set_wr (fresh (Some (noinit (wr_buf_opt_ w))) (wr_buf_opt_ w) (wr_buf_opt_ w) (wr_fb_ w)) s
      else set_wr (fresh (wr_buf_ w) (wr_buf_size_ w) (wr_buf_opt_ w) (wr_fb_ w)) s
  | server => set_wr (fresh None (wr_buf_opt_ w) (wr_buf_opt_ w) (wr_fb_ w)) s
  end.

(** [check_open] and [check_ok]. *)
Definition check_open (s : stream) (ec : error_code) : bool * error_code :=
  if bool_decide (status_ s = status_open) then (true, None) else (false, Some operation_aborted).

Definition check_ok (ec : error_code) (s : stream) : bool * stream :=
  match ec with
  | Some _ => (false, if bool_decide (status_ s = status_closed) then s else set_status status_failed s)
  | None => (true, s)
  end.

(** [rd_deflated()] and [rd_deflated(rsv1)]. *)
Definition rd_deflated : bool := false.
Definition rd_deflated_set (rsv1 : bool) : bool := negb rsv1.

(** [read_size_hint(initial_size)], and with a buffer of which [size] of [max_size]
    bytes are used. *)
Definition read_size_hint_initial (initial_size : Z) (s : stream) : cpp Z :=
  let* _ := assert_ (0 <? initial_size) in
  let* result :=
    if rd_done_ s then Ret initial_size
    else if fin (rd_fh_ s) then
      let* _ := assert_ (0 <? rd_remain_ s) in Ret (clamp (rd_remain_ s))
    else Ret (Z.max initial_size (clamp (rd_remain_ s))) in
  let* _ := assert_ (negb (result =? 0)) in
  Ret result.

Definition read_size_hint (max_size size : Z) (s : stream) : cpp Z :=
  let initial_size := Z.min (Z.of_nat tcp_frame_size) (max_size - size) in
  if initial_size =? 0 then Ret 1 else read_size_hint_initial initial_size s.

(** [read_size(buffer, max_size)] of boost/beast/core/impl/read_size.ipp. *)
Definition read_size (b : Ring.static_buffer) (max_size : nat) : cpp nat :=
  let* _ := assert_ (1 <=? max_size)%nat in
  let size := Ring.size b in
  let limit := (Ring.max_size b - size)%nat in
  let* _ := assert_ (size <=? Ring.max_size b)%nat in
  Ret (Nat.min (Nat.max 512 (Ring.capacity b - size)) (Nat.min max_size limit)).

(** ** pausation *)

(** [paused_rd_.emplace] and [paused_wr_.emplace]. *)
Definition pause_rd (s : stream) : cpp stream := let* _ := assert_ (negb (paused_rd_ s)) in Ret (set_paused_rd true s).
Definition pause_wr (s : stream) : cpp stream := let* _ := assert_ (negb (paused_wr_ s)) in Ret (set_paused_wr true s).

(** [paused_rd_.maybe_invoke()] and [paused_wr_.maybe_invoke()]: the operation
    acquires the write block and posts itself. *)
Definition invoke_rd (s : stream) : cpp (bool * stream) :=
  if paused_rd_ s then
    let s := set_paused_rd false s in
    let* m := mutex_lock id_read (wr_block_ s) in Ret (true, set_wr_block m s)
  else Ret (false, s).
Definition invoke_wr (s : stream) : cpp (bool * stream) :=
  if paused_wr_ s then
    let s := set_paused_wr false s in
    let* m := mutex_lock id_write (wr_block_ s) in Ret (true, set_wr_block m s)
  else Ret (false, s).

(** ** parse_fh *)

(** The two bytes of the header: [need] and what is assigned to [fh] before more
    bytes may be needed. *)
Definition parse_size (b1 : Z) (fh : frame_header) : nat * frame_header :=
  let l := Z.land b1 0x7f in
  let m := negb (Z.land b1 0x80 =? 0) in
  let need := if l =? 126 then 2%nat else if l =? 127 then 8%nat else 0%nat in
  ((if m then need + 4 else need)%nat, mk_fh l (key fh) (op fh) (fin fh) m (rsv1 fh) (rsv2 fh) (rsv3_ fh)).

Definition parse_flags (b0 : Z) (fh : frame_header) : frame_header :=
  mk_fh (len fh) (key fh) (to_opcode (Z.land b0 0x0f)) (negb (Z.land b0 0x80 =? 0)) (mask fh)
    (negb (Z.land b0 0x40 =? 0)) (negb (Z.land b0 0x20 =? 0)) (negb (Z.land b0 0x10 =? 0)).

(** The checks of the [switch] on the opcode and of the mask. *)
Definition check_header (fh : frame_header) (s : stream) : error_code :=
  let of_opcode :=
    match op fh with
    | binary | text =>
        if rd_cont_ s then Some bad_data_frame
        else if rsv2 fh || rsv3_ fh || negb (rd_deflated_set (rsv1 fh)) then Some bad_reserved_bits
        else None
    | cont =>
        if negb (rd_cont_ s) then Some bad_continuation
        else if rsv1 fh || rsv2 fh || rsv3_ fh then Some bad_reserved_bits
        else None
    | op =>
        if is_reserved op then Some bad_opcode
        else if negb (fin fh) then Some bad_control_fragment
        else if 125 <? len fh then Some bad_control_size
        else if rsv1 fh || rsv2 fh || rsv3_ fh then Some bad_reserved_bits
        else None
    end in
  match of_opcode with
  | Some e => Some e
  | None =>
      if bool_decide (role_ s = server) && negb (mask fh) then Some bad_unmasked_frame
      else if bool_decide (role_ s = client) && mask fh then Some bad_masked_frame
      else None
  end.

Definition set_len (l : Z) (fh : frame_header) : frame_header :=
  mk_fh l (key fh) (op fh) (fin fh) (mask fh) (rsv1 fh) (rsv2 fh) (rsv3_ fh).
Definition set_key (k : Z) (fh : frame_header) : frame_header :=
  mk_fh (len fh) k (op fh) (fin fh) (mask fh) (rsv1 fh) (rsv2 fh) (rsv3_ fh).

(** The [switch] on the length: the header and the bytes that follow, with an error
    when the length is not canonical. *)
Definition parse_length (fh : frame_header) (cb : bytes) : cpp (frame_header * bytes * error_code) :=
  if len fh =? 126 then
    let* _ := assert_ (2 <=? length cb)%nat in
    let l := big_uint16_to_native cb in
    Ret (set_len l fh, drop 2 cb, if l <? 126 then Some bad_size else None)
  else if len fh =? 127 then
    let* _ := assert_ (8 <=? length cb)%nat in
    let l := big_uint64_to_native cb in
    Ret (set_len l fh, drop 8 cb, if l <? 65536 then Some bad_size else None)
  else Ret (fh, cb, None).

(** The key of the mask, and [rd_key_]. *)
Definition parse_key (fh : frame_header) (cb : bytes) (s : stream) : cpp (frame_header * bytes * stream) :=
  if mask fh then
    let* _ := assert_ (4 <=? length cb)%nat in
    let k := little_uint32_to_native cb in
    Ret (set_key k fh, drop 4 cb, upd_rd (set_rd_key (prepare_key k)) s)
  else Ret (set_key 0 fh, cb, s).

(** What the header of a data frame changes, with an error when the message is too
    big. *)
Definition start_data (fh : frame_header) (s : stream) : error_code * stream :=
  if is_control (op fh) then (None, s)
  else
    let first := negb (bool_decide (op fh = cont)) in
    let r := rd s in
    let s := if first
      then set_rd (mk_rd 0 (rd_remain_ r) (rd_fh_ r) (rd_key_ r) (rd_utf8_ r) (rd_buf_ r) (op fh) (rd_cont_ r) (rd_done_ r) (rd_close_ r)) s
      else s in
    if negb first && (2 ^ 64 - 1 - len fh <? rd_size_ s) then (Some message_too_big, s)
    else if negb rd_deflated && (negb (rd_msg_max_ s =? 0) && sum_exceeds (rd_size_ s) (len fh) (rd_msg_max_ s))
    then (Some message_too_big, s)
    else
      let r := rd s in
      (None, set_rd (mk_rd (rd_size_ r) (len fh) (rd_fh_ r) (rd_key_ r) (rd_utf8_ r) (rd_buf_ r) (rd_op_ r) (negb (fin fh)) (rd_done_ r) (rd_close_ r)) s).

(** [parse_fh(rd_fh_, rd_buf_, ec)]: whether it read a header, [ec], and the stream. *)
Definition parse_fh (ec : error_code) (s : stream) : cpp (bool * error_code * stream) :=
  let b := rd_buf_ s in
  let fail (fh : frame_header) ec s := Ret (false, ec, upd_rd (set_rd_fh fh) s) in
  match Ring.contents b with
  | b0 :: b1 :: cb =>
      let (need, fh) := parse_size b1 (rd_fh_ s) in
      if (length cb <? need)%nat then fail fh None s
      else
        let fh := parse_flags b0 fh in
        match check_header fh s with
        | Some e => fail fh (Some e) s
        | None =>
            if is_control (op fh) && (Z.of_nat (length cb) <? Z.of_nat need + len fh) then fail fh ec s
            else
              let* (fh, cb, ec) := parse_length fh cb in
              match ec with
              | Some e => fail fh (Some e) s
              | None =>
                  let* (fh, cb, s) := parse_key fh cb s in
                  let (ec, s) := start_data fh s in
                  match ec with
                  | Some e => fail fh (Some e) s
                  | None =>
                      let b := Ring.consume (Ring.size b - length cb) b in
                      Ret (true, None, upd_rd (fun r => set_rd_buf b (set_rd_fh fh r)) s)
                  end
              end
        end
  | _ => Ret (false, None, s)
  end.

(** ** Control frames *)

Section Mask.
(** The keys that [create_mask] returns. *)
Context (create_mask : nat -> Z).

(** [mb = db.prepare(n); buffer_copy(mb, data); if(fh.mask) mask_inplace(mb, key);
    db.commit(n)]: the buffer and the key. *)
Definition put_masked (masked : bool) (data : bytes) (key : bytes) (db : Flat.flat_static_buffer) : cpp (Flat.flat_static_buffer * bytes) :=
  let n := length data in
  let* (db, mb) := Flat.prepare n db in
  let (_, m) := buffer_copy [mb] data (Flat.buf_ db) in
  let (m, key) := if masked then mask_inplace [mb] m key else (m, key) in
  Ret (Flat.commit n (Flat.set_buf m db), key).

(** The header of a frame that is sent whole: the mask and its key. *)
Definition whole_header (op : opcode) (n : Z) (s : stream) : frame_header * stream :=
  match role_ s with
  | client => (mk_fh n (create_mask (masks s)) op true true false false false, next_mask s)
  | server => (mk_fh n 0 op true false false false false, s)
  end.

(** [write_ping(rd_fb_, code, data)]. *)
Definition write_ping (code : opcode) (data : bytes) (s : stream) : cpp stream :=
  let (fh, s) := whole_header code (Z.of_nat (length data)) s in
  let* db := WsFrame.write (rd_fb_ s) fh in
  if (length data =? 0)%nat then Ret (set_rd_fb db s)
  else
    let* (db, _) := put_masked (mask fh) data (prepare_key (key fh)) db in
    Ret (set_rd_fb db s).

(** [write_close(rd_fb_, cr)]. *)
Definition write_close (cr : close_reason) (s : stream) : cpp stream :=
  let none := code cr =? close_none in
  let (fh, s) := whole_header close (if none then 0 else 2 + Z.of_nat (length (reason cr))) s in
  let* db := WsFrame.write (rd_fb_ s) fh in
  if none then Ret (set_rd_fb db s)
  else
    let* (db, k) := put_masked (mask fh) (big_bytes 2 (wrap 16 (code cr))) (prepare_key (key fh)) db in
    if (length (reason cr) =? 0)%nat then Ret (set_rd_fb db s)
    else
      let* (db, _) := put_masked (mask fh) (reason cr) k db in
      Ret (set_rd_fb db s).

End Mask.

Example parse_hello :
  match new_stream (repeat 0 64) [] [] with
  | s =>
      let s := upd_rd (set_rd_buf (Ring.mk_static_buffer ([0x81; 0x85; 0x37; 0xfa; 0x21; 0x3d; 0x7f; 0x9f] ++ repeat 0 56) 0 8 0)) (open_ server s) in
      match parse_fh None s with
      | Ret (true, None, s) => (rd_fh_ s, Ring.contents (rd_buf_ s), rd_key_ s, rd_remain_ s)
      | _ => (no_header, [], [], 0)
      end
  end = (mk_fh 5 0x3d21fa37 text true true false false false, [0x7f; 0x9f], [0x37; 0xfa; 0x21; 0x3d], 5).
Proof. reflexivity. Qed.
