(* ===== verification/WsParse.v ===== *)
(** * What the websocket stream accepts and writes

    [parse_fh] accepts exactly the headers that RFC 6455 allows in the state of the
    stream, and takes no other byte; [write_ping] and [write_close] write one frame. *)

From Stdlib Require Import ZArith Lia.
From stdpp Require Import base list.
From S2P Require Import Prelude Utf8 Exceptions StaticBuffer WsUtf8 WsFrame WsStream.

(** ** The headers that are allowed *)

(** The size of the message with the frame. *)
Definition message_size (s : stream) (fh : frame_header) : Z := (if bool_decide (op fh = cont) then rd_size_ s else 0) + len fh.

Record acceptable (s : stream) (fh : frame_header) : Prop := {
  acc_ok : header_ok fh;
  acc_opcode : is_reserved (op fh) = false;
  acc_rsv : rsv1 fh = false /\ rsv2 fh = false /\ rsv3_ fh = false;
  acc_mask : mask fh = true <-> role_ s = server;
  acc_control : is_control (op fh) = true -> fin fh = true /\ len fh <= 125;
  acc_data : is_control (op fh) = false -> op fh = cont <-> rd_cont_ s = true;
  acc_size : is_control (op fh) = false ->
    message_size s fh < 2 ^ 64 /\ (rd_msg_max_ s = 0 \/ message_size s fh <= rd_msg_max_ s)
}.

(** What the stream becomes, but for [rd_fh_] and [rd_buf_]. *)
Definition accept (fh : frame_header) (s : stream) : stream :=
  snd (start_data fh (if mask fh then upd_rd (set_rd_key (prepare_key (key fh))) s else s)).

Lemma parse_flags_byte fh fh' :
  parse_flags (flags_byte fh) fh' = mk_fh (len fh') (key fh') (op fh) (fin fh) (mask fh') (rsv1 fh) (rsv2 fh) (rsv3_ fh).
Proof. unfold parse_flags, flags_byte. destruct (op fh), (fin fh), (rsv1 fh), (rsv2 fh), (rsv3_ fh); reflexivity. Qed.

Lemma parse_size_byte fh fh' : header_ok fh ->
  parse_size (Z.lor (bit (mask fh) 0x80) (size_bits fh)) fh' =
  (length (size_bytes fh ++ key_bytes fh), mk_fh (size_bits fh) (key fh') (op fh') (fin fh') (mask fh) (rsv1 fh') (rsv2 fh') (rsv3_ fh')).
Proof.
  intros H. unfold parse_size. pose proof (size_bits_range fh H) as Hr.
  destruct (size_bits_byte (mask fh) (size_bits fh) Hr) as (_ & -> & ->). f_equal.
  rewrite length_app, length_size_bytes. unfold key_bytes, size_bits in *.
  destruct (Z.leb_spec (len fh) 125); [|destruct (Z.leb_spec (len fh) 65535)].
  - destruct (Z.eqb_spec (len fh) 126); [lia|]. destruct (Z.eqb_spec (len fh) 127); [lia|]. by destruct (mask fh).
  - cbn. by destruct (mask fh).
  - cbn. by destruct (mask fh).
Qed.

(** The checks see only the seven bits of the length. *)
Lemma check_header_acceptable s fh fh' :
  acceptable s fh -> op fh' = op fh -> fin fh' = fin fh -> mask fh' = mask fh -> len fh' = size_bits fh ->
  rsv1 fh' = rsv1 fh -> rsv2 fh' = rsv2 fh -> rsv3_ fh' = rsv3_ fh -> check_header fh' s = None.
Proof.
  intros [Hok Hop (R1 & R2 & R3) Hm Hc Hd _] Eo Ef Em El E1 E2 E3. unfold check_header, rd_deflated_set.
  rewrite Eo, Ef, Em, El, E1, E2, E3, R1, R2, R3.
  assert (bool_decide (role_ s = server) && negb (mask fh) = false /\ bool_decide (role_ s = client) && mask fh = false) as [-> ->].
  { destruct (mask fh), (role_ s); cbn; try done; exfalso; [discriminate (proj1 Hm eq_refl)|discriminate (proj2 Hm eq_refl)]. }
  assert (is_control (op fh) = true -> (125 <? size_bits fh) = false /\ fin fh = true) as Hs.
  { intros H. destruct (Hc H) as [-> Hl]. unfold size_bits. rewrite (proj2 (Z.leb_le _ _) Hl). split; [|done]. by apply Z.ltb_ge. }
  destruct (op fh); try done; cbn in *.
  - specialize (Hd eq_refl). rewrite (proj1 Hd eq_refl). done.
  - destruct (rd_cont_ s); [|done]. discriminate (proj2 (Hd eq_refl) eq_refl).
  - destruct (rd_cont_ s); [|done]. discriminate (proj2 (Hd eq_refl) eq_refl).
  - by destruct (Hs eq_refl) as [-> ->].
  - by destruct (Hs eq_refl) as [-> ->].
  - by destruct (Hs eq_refl) as [-> ->].
Qed.

Lemma parse_length_header fh fh' rest :
  header_ok fh -> len fh' = size_bits fh -> parse_length fh' (size_bytes fh ++ rest) = Ret (set_len (len fh) fh', rest, None).
Proof.
  intros ([H0 H1] & _) El. unfold parse_length. rewrite El. unfold size_bits, size_bytes.
  destruct (Z.leb_spec (len fh) 125); [|destruct (Z.leb_spec (len fh) 65535)].
  - destruct (Z.eqb_spec (len fh) 126); [lia|]. destruct (Z.eqb_spec (len fh) 127); [lia|].
    unfold size_bits in El. rewrite (proj2 (Z.leb_le (len fh) 125)) in El by done. destruct fh'. cbn in *. by subst.
  - cbn [Z.eqb Pos.eqb]. rewrite length_app, length_big_bytes. cbn [Nat.leb Nat.add assert_ obind].
    rewrite big_uint16_value, big_value_bytes by (apply big_bytes_u8 || apply length_big_bytes). change (256 ^ Z.of_nat 2) with 65536.
    rewrite Z.mod_small by lia. rewrite drop_app_length' by (by rewrite length_big_bytes). destruct (Z.ltb_spec (len fh) 126); [lia|done].
  - cbn [Z.eqb Pos.eqb]. rewrite length_app, length_big_bytes. cbn [Nat.leb Nat.add assert_ obind].
    rewrite big_uint64_value, big_value_bytes by (apply big_bytes_u8 || apply length_big_bytes). change (256 ^ Z.of_nat 8) with (2 ^ 64).
    rewrite Z.mod_small by lia. rewrite drop_app_length' by (by rewrite length_big_bytes). destruct (Z.ltb_spec (len fh) 65536); [lia|done].
Qed.

Lemma parse_key_header fh fh' rest s :
  header_ok fh -> mask fh' = mask fh ->
  parse_key fh' (key_bytes fh ++ rest) s = Ret (set_key (key fh) fh', rest, if mask fh then upd_rd (set_rd_key (prepare_key (key fh))) s else s).
Proof.
  intros (_ & Hk & Hz) Em. unfold parse_key, key_bytes. rewrite Em. destruct (mask fh); [|by rewrite Hz].
  cbn [native_to_little_uint32 app length Nat.leb assert_ obind]. change (Z.land (key fh) 0xff :: _) with (native_to_little_uint32 (key fh) ++ rest) at 1 2 3.
  rewrite little_uint32_bytes by done. done.
Qed.

Lemma start_data_acceptable s fh fh' :
  acceptable s fh -> 0 <= rd_size_ s -> op fh' = op fh -> len fh' = len fh -> fin fh' = fin fh ->
  start_data fh' s = start_data fh s /\ fst (start_data fh s) = None.
Proof.
  intros [[[H0 H1] _] _ _ _ _ _ Hsz] Hs Eo El Ef. unfold start_data. rewrite Eo, El, Ef. split; [done|].
  destruct (is_control (op fh)); [done|]. specialize (Hsz eq_refl). unfold message_size, sum_exceeds, rd_deflated in *. cbn [negb andb].
  destruct (bool_decide_reflect (op fh = cont)) as [E|E]; cbn [negb andb].
  - destruct (Z.ltb_spec (2 ^ 64 - 1 - len fh) (rd_size_ s)); [lia|]. destruct Hsz as [_ [-> | Hm]]; [done|].
    destruct (Z.ltb_spec (rd_msg_max_ s) (len fh)); [lia|]. destruct (Z.ltb_spec (rd_msg_max_ s - len fh) (rd_size_ s)); [lia|].
    by rewrite andb_false_r.
  - cbn [rd_size_ set_rd rd rd_msg_max_]. destruct Hsz as [_ [-> | Hm]]; [done|].
    destruct (Z.ltb_spec (rd_msg_max_ s) (len fh)); [lia|]. destruct (Z.ltb_spec (rd_msg_max_ s - len fh) 0); [lia|].
    by rewrite andb_false_r.
Qed.

Lemma acceptable_short fh : is_control (op fh) = true -> len fh <= 125 -> size_bits fh = len fh.
Proof. intros _ H. unfold size_bits. by rewrite (proj2 (Z.leb_le _ _) H). Qed.

Lemma acceptable_key s fh k : acceptable s fh -> acceptable (upd_rd (set_rd_key k) s) fh.
Proof. by intros [? ? ? ? ? ? ?]. Qed.

(** A header that is allowed is read, with the payload if it is the header of a
    control frame. *)
Lemma parse_fh_header s fh rest ec :
  acceptable s fh -> 0 <= rd_size_ s -> ring_holds (rd_buf_ s) (header_bytes fh ++ rest) ->
  if is_control (op fh) && (Z.of_nat (length rest) <? len fh)
  then exists fh', parse_fh ec s = Ret (false, ec, upd_rd (set_rd_fh fh') s)
  else exists b, ring_holds b rest /\ Ring.capacity b = Ring.capacity (rd_buf_ s) /\
    parse_fh ec s = Ret (true, None, upd_rd (fun r => set_rd_buf b (set_rd_fh fh r)) (accept fh s)).
Proof.
  intros Ha Hs Hh. pose proof (acc_ok s fh Ha) as Hok.
  destruct (ring_consume _ _ (length (header_bytes fh)) Hh) as [Hb Hcap]. rewrite drop_app_length in Hb.
  pose proof (ring_size_holds _ _ Hh) as Hl. rewrite length_app in Hl. destruct Hh as [_ Hc].
  set (part := mk_fh (size_bits fh) (key (rd_fh_ s)) (op fh) (fin fh) (mask fh) (rsv1 fh) (rsv2 fh) (rsv3_ fh)).
  set (b := Ring.consume (length (header_bytes fh)) (rd_buf_ s)) in *.
  assert (parse_fh ec s =
    if is_control (op fh) && (Z.of_nat (length rest) <? len fh) then Ret (false, ec, upd_rd (set_rd_fh part) s)
    else Ret (true, None, upd_rd (fun r => set_rd_buf b (set_rd_fh fh r)) (accept fh s))) as E.
  2: { destruct (is_control (op fh) && _); eexists; [exact E|]. split; [exact Hb|]. split; [exact Hcap|exact E]. }
  replace b with (Ring.consume (Ring.size (rd_buf_ s) - length rest) (rd_buf_ s)) by (unfold b; f_equal; lia). clear b Hb Hcap Hl.
  rewrite (header_bytes_eq fh Hok) in Hc. unfold parse_fh. cbv zeta. rewrite Hc. cbn [app]. rewrite (parse_size_byte fh _ Hok).
  rewrite (proj2 (Nat.ltb_ge _ _)) by (rewrite !length_app; lia). rewrite parse_flags_byte. cbn [op fin mask len key rsv1 rsv2 rsv3_].
  fold part. rewrite (check_header_acceptable s fh part) by done.
  assert ((Z.of_nat (length ((size_bytes fh ++ key_bytes fh) ++ rest)) <? Z.of_nat (length (size_bytes fh ++ key_bytes fh)) + size_bits fh) =
    (Z.of_nat (length rest) <? size_bits fh)) as -> by (rewrite !(length_app (_ ++ _)); zcases).
  assert (is_control (op fh) && (Z.of_nat (length rest) <? size_bits fh) = is_control (op fh) && (Z.of_nat (length rest) <? len fh)) as ->.
  { destruct (is_control (op fh)) eqn:E; [|done]. destruct (acc_control s fh Ha E) as [_ H]. by rewrite acceptable_short. }
  destruct (is_control (op fh) && _); [done|].
  rewrite <- app_assoc, (parse_length_header fh) by done. cbn [obind]. rewrite (parse_key_header fh) by done. cbn [obind].
  assert (set_key (key fh) (set_len (len fh) part) = fh) as -> by (by destruct fh).
  unfold accept. set (s1 := if mask fh then _ else s).
  assert (acceptable s1 fh /\ 0 <= rd_size_ s1) as [Ha1 Hs1] by (unfold s1; destruct (mask fh); [by split; [apply acceptable_key|]|done]).
  destruct (start_data_acceptable s1 fh fh Ha1 Hs1 eq_refl eq_refl eq_refl) as [_ E].
  destruct (start_data fh s1) as [e s2]. cbn in E. by subst e.
Qed.

(** An incomplete header. *)
Lemma parse_fh_short s fh v y ec :
  acceptable s fh -> ring_holds (rd_buf_ s) v -> v ++ y = header_bytes fh -> y <> [] ->
  exists fh', parse_fh ec s = Ret (false, None, upd_rd (set_rd_fh fh') s).
Proof.
  intros Ha [_ Hc] E Hy. pose proof (acc_ok s fh Ha) as Hok. unfold parse_fh. cbv zeta. rewrite Hc.
  assert (forall s : stream, s = upd_rd (set_rd_fh (rd_fh_ s)) s) as Hsame.
  { by intros [[]]. }
  destruct v as [|b0 [|b1 cb]]; [by eexists; rewrite <- Hsame..|].
  rewrite (header_bytes_eq fh Hok) in E. cbn [app] in E. injection E as -> -> E.
  rewrite (parse_size_byte fh _ Hok). apply (f_equal length) in E. rewrite length_app in E.
  assert (0 < length y)%nat by (destruct y; [done|cbn; lia]). rewrite (proj2 (Nat.ltb_lt _ _)) by lia. by eexists.
Qed.

(** ** Only the headers that are allowed *)

Lemma flags_byte_parse b0 fh : u8 b0 -> flags_byte (parse_flags b0 fh) = b0.
Proof.
  intros H. assert (all_below 256 (fun b => flags_byte (parse_flags b no_header) =? b) = true) as Hall by (vm_compute; reflexivity).
  apply (all_below_spec _ _ b0) in Hall; [|done]. apply Z.eqb_eq in Hall. rewrite <- Hall at 2. done.
Qed.

Lemma size_byte_parse b1 : u8 b1 ->
  0 <= Z.land b1 0x7f < 128 /\ Z.lor (bit (negb (Z.land b1 0x80 =? 0)) 0x80) (Z.land b1 0x7f) = b1.
Proof.
  intros H. assert (all_below 256 (fun b => (Z.land b 0x7f <? 128) && (0 <=? Z.land b 0x7f) && (Z.lor (bit (negb (Z.land b 0x80 =? 0)) 0x80) (Z.land b 0x7f) =? b)) = true) as Hall
    by (vm_compute; reflexivity).
  apply (all_below_spec _ _ b1) in Hall; [|done]. cbn beta in Hall. bool_prop. split; [lia|done].
Qed.

(** What [check_header] has checked. *)
Lemma check_header_none fh s :
  check_header fh s = None ->
  is_reserved (op fh) = false /\ (rsv1 fh = false /\ rsv2 fh = false /\ rsv3_ fh = false) /\ (mask fh = true <-> role_ s = server) /\
  (is_control (op fh) = true -> fin fh = true /\ len fh <= 125) /\ (is_control (op fh) = false -> op fh = cont <-> rd_cont_ s = true).
Proof.
  unfold check_header, rd_deflated_set. intros H.
  assert (mask fh = true <-> role_ s = server) as Hm.
  { destruct (mask fh), (role_ s); try done; exfalso; revert H; cbn; by repeat case_match. }
  destruct (op fh) eqn:Eo; cbn in *; repeat case_match; try done; bool_prop;
    repeat match goal with E : (_ || _) = false |- _ => apply orb_false_iff in E as [? ?] end; repeat split; intros; (done || congruence || tauto || lia).
Qed.

(** The length that follows, when there are enough bytes: it is canonical, or the
    error is given. *)
Lemma parse_length_sound fh cb :
  0 <= len fh < 128 -> Forall u8 cb ->
  ((if len fh =? 126 then 2 else if len fh =? 127 then 8 else 0) <= Z.of_nat (length cb)) ->
  exists l cb' e, parse_length fh cb = Ret (set_len l fh, cb', e) /\
    (e = None -> cb = size_bytes (set_len l fh) ++ cb' /\ size_bits (set_len l fh) = len fh /\ u64 l).
Proof.
  intros Hl Hu Hn. unfold parse_length, size_bytes, size_bits. cbn [len set_len].
  assert (forall n, (n <= length cb)%nat -> Forall u8 (take n cb) /\ length (take n cb) = n) as Ht.
  { intros n H. split; [by apply Forall_take|]. rewrite length_take. lia. }
  destruct (Z.eqb_spec (len fh) 126) as [E|E]; [|destruct (Z.eqb_spec (len fh) 127) as [E2|E2]].
  - destruct (Ht 2%nat ltac:(lia)) as [Hp Hlp]. rewrite (proj2 (Nat.leb_le _ _)) by lia. cbn [assert_ obind].
    assert (big_uint16_to_native cb = big_value (take 2 cb)) as -> by (rewrite <- (take_drop 2 cb) at 1; by apply big_uint16_value). pose proof (big_value_range _ Hp) as Hr. rewrite Hlp in Hr.
    eexists _, _, _. split; [done|]. cbn [len]. destruct (Z.ltb_spec (big_value (take 2 cb)) 126); [done|]. intros _.
    destruct (Z.leb_spec (big_value (take 2 cb)) 125); [lia|]. change (256 ^ Z.of_nat 2) with 65536 in Hr.
    destruct (Z.leb_spec (big_value (take 2 cb)) 65535); [|lia].
    assert (big_bytes 2 (big_value (take 2 cb)) = take 2 cb) as -> by (rewrite <- (big_bytes_value (take 2 cb) Hp) at 2; by rewrite Hlp).
    rewrite take_drop. unfold in_width. repeat split; lia.
  - destruct (Ht 8%nat ltac:(lia)) as [Hp Hlp]. rewrite (proj2 (Nat.leb_le _ _)) by lia. cbn [assert_ obind].
    assert (big_uint64_to_native cb = big_value (take 8 cb)) as -> by (rewrite <- (take_drop 8 cb) at 1; by apply big_uint64_value). pose proof (big_value_range _ Hp) as Hr. rewrite Hlp in Hr.
    eexists _, _, _. split; [done|]. cbn [len]. destruct (Z.ltb_spec (big_value (take 8 cb)) 65536); [done|]. intros _.
    destruct (Z.leb_spec (big_value (take 8 cb)) 125); [lia|]. change (256 ^ Z.of_nat 8) with (2 ^ 64) in Hr.
    destruct (Z.leb_spec (big_value (take 8 cb)) 65535); [lia|].
    assert (big_bytes 8 (big_value (take 8 cb)) = take 8 cb) as -> by (rewrite <- (big_bytes_value (take 8 cb) Hp) at 2; by rewrite Hlp).
    rewrite take_drop. unfold in_width. repeat split; lia.
  - exists (len fh), cb, None. split; [by destruct fh|]. intros _. destruct (Z.leb_spec (len fh) 125); [|lia]. unfold in_width. repeat split; lia.
Qed.

Lemma parse_key_sound fh cb s :
  Forall u8 cb -> ((if mask fh then 4 else 0) <= length cb)%nat ->
  exists k cb', parse_key fh cb s = Ret (set_key k fh, cb', if mask fh then upd_rd (set_rd_key (prepare_key k)) s else s) /\
    cb = key_bytes (set_key k fh) ++ cb' /\ u32 k /\ (mask fh = false -> k = 0).
Proof.
  intros Hu Hn. unfold parse_key, key_bytes. cbn [mask set_key key]. destruct (mask fh).
  - rewrite (proj2 (Nat.leb_le _ _)) by lia. cbn [assert_ obind].
    assert (Forall u8 (take 4 cb) /\ length (take 4 cb) = 4%nat) as [Hp Hlp] by (split; [by apply Forall_take|rewrite length_take; lia]).
    assert (little_uint32_to_native cb = little_uint32_to_native (take 4 cb)) as ->.
    { destruct cb as [|a [|b [|c [|d cb]]]]; done. }
    destruct (little_bytes_value _ Hp Hlp) as [E Hk]. eexists _, _. split; [done|]. rewrite E, take_drop. done.
  - exists 0, cb. split; [done|]. split; [done|]. split; [by split|done].
Qed.

(** The size of the message is checked. *)
Lemma start_data_sound s fh s' :
  start_data fh s = (None, s') -> u64 (len fh) -> 0 <= rd_size_ s -> is_control (op fh) = false ->
  message_size s fh < 2 ^ 64 /\ (rd_msg_max_ s = 0 \/ message_size s fh <= rd_msg_max_ s).
Proof.
  intros H [H0 H1] Hs Hc. unfold start_data in H. rewrite Hc in H. unfold message_size, sum_exceeds, rd_deflated in *. cbn [negb andb] in H.
  destruct (bool_decide (op fh = cont)); cbn [negb andb] in H.
  - destruct (Z.ltb_spec (2 ^ 64 - 1 - len fh) (rd_size_ s)); [done|]. split; [lia|].
    destruct (Z.eqb_spec (rd_msg_max_ s) 0); [by left|right]. cbn [negb andb] in H.
    destruct (Z.ltb_spec (rd_msg_max_ s) (len fh)); [done|]. destruct (Z.ltb_spec (rd_msg_max_ s - len fh) (rd_size_ s)); [done|lia].
  - split; [lia|]. cbn [rd_size_ set_rd rd rd_msg_max_] in H. destruct (Z.eqb_spec (rd_msg_max_ s) 0); [by left|right]. cbn [negb andb] in H.
    destruct (Z.ltb_spec (rd_msg_max_ s) (len fh)); [done|]. lia.
Qed.

(** [parse_fh] ends, and what it takes is a header that is allowed. *)
Lemma parse_fh_sound (s : stream) v :
  ring_holds (rd_buf_ s) v -> Forall u8 v -> 0 <= rd_size_ s ->
  exists ok ec s', parse_fh None s = Ret (ok, ec, s') /\
    if ok : bool then exists fh rest, v = header_bytes fh ++ rest /\ acceptable s fh /\ (is_control (op fh) = true -> len fh <= Z.of_nat (length rest)) else True.
Proof.
  intros [_ Hc] Hu Hs. unfold parse_fh. cbv zeta. rewrite Hc.
  destruct v as [|b0 [|b1 cb]]; [by do 3 eexists..|]. apply Forall_cons in Hu as [U0 Hu]. apply Forall_cons in Hu as [U1 Hu].
  destruct (size_byte_parse b1 U1) as [Hl7 E1]. unfold parse_size. set (l7 := Z.land b1 0x7f) in *. set (m := negb (Z.land b1 0x80 =? 0)) in *.
  destruct (Nat.ltb_spec (length cb) (if m then (if l7 =? 126 then 2%nat else if l7 =? 127 then 8%nat else 0%nat) + 4 else if l7 =? 126 then 2%nat else if l7 =? 127 then 8%nat else 0%nat)) as [|Hneed];
    [by do 3 eexists|].
  set (fh1 := parse_flags b0 _). assert (flags_byte fh1 = b0) as E0 by (by apply flags_byte_parse).
  assert (len fh1 = l7 /\ mask fh1 = m) as [El Em] by done.
  destruct (check_header fh1 s) eqn:Ech; [by do 3 eexists|]. apply check_header_none in Ech as (Hop & Hrsv & Hm & Hctl & Hdata).
  destruct (is_control (op fh1) && _) eqn:Eshort; [by do 3 eexists|].
  destruct (parse_length_sound fh1 cb) as (l & cb2 & e & -> & Hlen); [lia|done|rewrite El; destruct m; repeat case_match; lia|]. cbn [obind].
  destruct e as [e|]; [by do 3 eexists|]. destruct (Hlen eq_refl) as (Ecb & Eb & Hl). clear Hlen.
  set (fh2 := set_len l fh1) in *.
  assert (Forall u8 cb2) as Hu2 by (rewrite Ecb in Hu; by apply Forall_app in Hu as [_ ?]).
  assert (length (size_bytes fh2) = if l7 =? 126 then 2%nat else if l7 =? 127 then 8%nat else 0%nat) as Esz.
  { rewrite length_size_bytes. unfold size_bits in Eb. rewrite El in Eb. cbn [len set_len fh2] in *.
    destruct (Z.leb_spec l 125); [|destruct (Z.leb_spec l 65535)]; destruct (Z.eqb_spec l7 126), (Z.eqb_spec l7 127); lia. }
  pose proof (f_equal length Ecb) as Elc. rewrite length_app, Esz in Elc.
  destruct (parse_key_sound fh2 cb2 s Hu2) as (k & cb3 & -> & Ecb2 & Hk & Hkz); [change (mask fh2) with m; destruct m; lia|]. cbn [obind].
  set (fh := set_key k fh2) in *. set (s1 := if mask fh2 then _ else s).
  destruct (start_data fh s1) as [[e|] s2] eqn:Esd; [by do 3 eexists|]. do 3 eexists. split; [done|].
  exists fh, cb3.
  assert (rd_size_ s1 = rd_size_ s /\ rd_msg_max_ s1 = rd_msg_max_ s) as [Es1 Es2] by (unfold s1; by destruct (mask fh2)).
  assert (header_ok fh) as Hok by done.
  split; [|split].
  - rewrite header_bytes_eq by done. change (flags_byte fh) with (flags_byte fh1). change (mask fh) with m. change (size_bits fh) with (size_bits fh2).
    change (size_bytes fh) with (size_bytes fh2). rewrite E0, Eb, El, E1. cbn [app]. by rewrite <- app_assoc, <- Ecb2, <- Ecb.
  - split; try done.
    + intros H. destruct (Hctl H) as [Hf H']. split; [exact Hf|]. rewrite El in H'. change (len fh) with l.
      unfold size_bits in Eb. change (len fh2) with l in Eb. rewrite El in Eb. revert Eb. zcases.
    + intros H. destruct (start_data_sound s1 fh s2 Esd (proj1 Hok) ltac:(lia) H) as [Ha Hb]. unfold message_size in *. by rewrite Es1, Es2 in *.
  - intros H. change (op fh1) with (op fh) in Eshort. rewrite H in Eshort. cbn [andb] in Eshort. apply Z.ltb_ge in Eshort.
    destruct (Hctl H) as [_ H']. rewrite El in *. change (len fh) with l. unfold size_bits in Eb. change (len fh2) with l in Eb. rewrite Ecb2, length_app in Elc.
    assert (length (key_bytes fh) = if m then 4%nat else 0%nat) as Ekl by (unfold key_bytes; change (mask fh) with m; by destruct m).
    assert (l = l7) by (revert Eb; zcases). destruct m; lia.
Qed.

(** When [parse_fh] answers false: the header, or the payload of a control frame, has
    not arrived in full, or the error is one of the protocol. *)
Lemma parse_fh_refused (s : stream) v ec s' :
  Ring.contents (rd_buf_ s) = v -> parse_fh None s = Ret (false, ec, s') ->
  match ec with
  | None => (length v < 139)%nat /\ exists fh, s' = upd_rd (set_rd_fh fh) s
  | Some e => e <> closed /\ exists f, s' = upd_rd f s
  end.
Proof.
  intros Hc H. unfold parse_fh in H. cbv zeta in H. rewrite Hc in H.
  assert (s = upd_rd (set_rd_fh (rd_fh_ s)) s) as Eid by (by destruct s as [[]]).
  destruct v as [|b0 [|b1 cb]]; [injection H as <- <-; split; [cbn; lia|by eexists]..|].
  destruct (parse_size b1 (rd_fh_ s)) as [need fh0] eqn:Eps.
  assert (need <= 12)%nat as Hneed by (unfold parse_size in Eps; injection Eps as <- _; repeat case_match; lia).
  destruct (Nat.ltb_spec (length cb) need); [injection H as <- <-; split; [cbn [length]; lia|by eexists]|].
  set (fh1 := parse_flags b0 fh0) in *. destruct (check_header fh1 s) as [e|] eqn:Ech.
  { injection H as <- <-. split; [|by eexists]. intros ->. revert Ech. unfold check_header. repeat case_match; congruence. }
  destruct (is_control (op fh1) && _) eqn:Ec.
  { injection H as <- <-. apply andb_true_iff in Ec as [Ec El]. apply Z.ltb_lt in El. split; [|by eexists].
    apply check_header_none in Ech as (_ & _ & _ & Hctl & _). destruct (Hctl Ec) as [_ ?]. cbn [length]. lia. }
  destruct (parse_length fh1 cb) as [[[fh2 cb2] e]| |] eqn:El; try done. cbn [obind] in H.
  destruct e as [e|].
  { injection H as <- <-. split; [|by eexists]. unfold parse_length, assert_ in El. repeat case_match; cbn [obind] in *; congruence. }
  destruct (parse_key fh2 cb2 s) as [[[fh3 cb3] s1]| |] eqn:Ek; try done. cbn [obind] in H.
  destruct (start_data fh3 s1) as [[e|] s2] eqn:Esd; [|done]. injection H as <- <-.
  assert (exists f, s1 = upd_rd f s) as [f ->].
  { unfold parse_key, assert_ in Ek. repeat case_match; cbn [obind] in *; try done; injection Ek as _ _ <-; [by eexists|by exists (set_rd_fh (rd_fh_ s))]. }
  unfold start_data in Esd. split; [intros ->; repeat case_match; congruence|].
  repeat case_match; try congruence; injection Esd as _ <-; unfold upd_rd, set_rd; cbn [rd wr rd_fb_ rd_msg_max_ role_ status_ cr_ rd_block_ wr_block_ paused_rd_ paused_wr_ masks];
    lazymatch goal with |- exists f, mk_stream ?r _ _ _ _ _ _ _ _ _ _ _ = _ => by exists (fun _ => r) end.
Qed.

(** The frame [fh] with its payload, or the part of it, that begins in [v]. *)
Definition starts_with (s : stream) (v : bytes) (fh : frame_header) (rest : bytes) : Prop :=
  v = header_bytes fh ++ rest /\ acceptable s fh /\ (is_control (op fh) = true -> len fh <= Z.of_nat (length rest)).

(** C19: [parse_fh] on what the read buffer holds. It always ends without a failed
    assertion. It answers true exactly when the buffer starts with a header that RFC
    6455 allows in this state of the stream (known opcode, no reserved bits, a mask
    exactly from a client, control frames whole, short and with their payload, data
    frames in order, lengths in their shortest form, messages within the limit), and
    then it has taken this header and no other byte, keeps its mask, and the next
    header is a continuation exactly when the frame was not final. An error means that
    no such header begins here, whatever bytes follow. *)
Theorem parse_fh_correct (s : stream) (v : bytes) :
  ring_holds (rd_buf_ s) v -> Forall u8 v -> 0 <= rd_size_ s ->
  exists ok ec s', parse_fh None s = Ret (ok, ec, s') /\
    (ok = true <-> exists fh rest, starts_with s v fh rest) /\
    match ec with
    | None => forall fh rest, starts_with s v fh rest ->
        rd_fh_ s' = fh /\ ring_holds (rd_buf_ s') rest /\ (mask fh = true -> rd_key_ s' = prepare_key (key fh)) /\
        (is_control (op fh) = false -> rd_remain_ s' = len fh /\ rd_cont_ s' = negb (fin fh) /\ (op fh <> cont -> rd_op_ s' = op fh))
    | Some e => ok = false /\ forall fh y z, acceptable s fh -> v ++ y <> header_bytes fh ++ z
    end.
Proof.
  intros Hh Hu Hs. destruct (parse_fh_sound s v Hh Hu Hs) as (ok & ec & s' & E & Hok). exists ok, ec, s'. split; [done|].
  assert (forall fh rest, starts_with s v fh rest -> ok = true /\ ec = None /\ exists b, ring_holds b rest /\ s' = upd_rd (fun r => set_rd_buf b (set_rd_fh fh r)) (accept fh s)) as Hst.
  { intros fh rest (-> & Ha & Hc). pose proof (parse_fh_header s fh rest None Ha Hs Hh) as H.
    destruct (is_control (op fh) && _) eqn:Es.
    { apply andb_true_iff in Es as [Ec Es]. specialize (Hc Ec). apply Z.ltb_lt in Es. lia. }
    destruct H as (b & Hb & _ & H). rewrite E in H. injection H as -> -> ->. split; [done|]. split; [done|]. by exists b. }
  split; [split; [|by intros (fh & rest & H); apply (Hst fh rest)]|].
  { intros ->. destruct Hok as (fh & rest & H). by exists fh, rest. }
  destruct ec as [e|].
  - split.
    + destruct ok; [|done]. destruct Hok as (fh & rest & H). destruct (Hst fh rest H) as (_ & ? & _). done.
    + intros fh y z Ha Hy. destruct (Nat.lt_ge_cases (length v) (length (header_bytes fh))) as [Hl|Hl].
      * destruct (parse_fh_short s fh v (drop (length v) (header_bytes fh)) None Ha Hh) as (fh' & H); [| |by rewrite E in H].
        { rewrite <- (take_drop (length v) (header_bytes fh)) at 2. f_equal.
          rewrite <- (take_app_le _ z) by lia. by rewrite <- Hy, take_app_length. }
        intros H. apply (f_equal length) in H. rewrite length_drop in H. cbn [length] in H. lia.
      * assert (v = header_bytes fh ++ drop (length (header_bytes fh)) v) as Hv.
        { rewrite <- (take_drop (length (header_bytes fh)) v) at 1. f_equal.
          rewrite <- (take_app_le v y) by done. by rewrite Hy, take_app_length. }
        rewrite Hv in Hh. pose proof (parse_fh_header s fh _ None Ha Hs Hh) as H.
        destruct (is_control (op fh) && _); [destruct H as (fh' & H)|destruct H as (b & _ & _ & H)]; by rewrite E in H.
  - intros fh rest H. destruct (Hst fh rest H) as (_ & _ & b & Hb & ->). split; [done|]. split; [done|].
    destruct H as (_ & Ha & _).
    set (s1 := if mask fh then upd_rd (set_rd_key (prepare_key (key fh))) s else s).
    assert (acceptable s1 fh /\ 0 <= rd_size_ s1) as [Ha1 Hs1] by (unfold s1; destruct (mask fh); [by split; [apply acceptable_key|]|done]).
    destruct (start_data_acceptable s1 fh fh Ha1 Hs1 eq_refl eq_refl eq_refl) as [_ Hn]. unfold accept. fold s1.
    assert (mask fh = true -> rd_key_ s1 = prepare_key (key fh)) as Hk by (unfold s1; by destruct (mask fh)).
    unfold start_data in *. destruct (is_control (op fh)); [done|].
    destruct (bool_decide_reflect (op fh = cont)) as [Ec|Ec]; cbn [negb andb] in *; repeat case_match; done.
Qed.

(** ** The frames that are written *)

(** The frame with a payload. *)
Definition frame_bytes (fh : frame_header) (payload : bytes) : bytes :=
  header_bytes fh ++ if mask fh then fst (mask_ref (prepare_key (key fh)) payload) else payload.

Lemma list_inserts_twice (i : nat) (a b l : bytes) : length a = length b -> list_inserts i a (list_inserts i b l) = list_inserts i a l.
Proof.
  intros H. apply list_eq. intros j. rewrite !inserts_lookup, length_inserts, H.
  destruct ((i <=? j) && (j <? i + length b) && (j <? length l))%nat eqn:E; [done|]. done.
Qed.

Lemma put_masked_holds (m : bool) db v data k :
  flat_holds db v -> (length v + length data <= Flat.max_size db)%nat -> length k = 4%nat ->
  exists db', put_masked m data k db = Ret (db', if m then rol k (length data) else k) /\
    flat_holds db' (v ++ if m then fst (mask_ref k data) else data) /\ Flat.max_size db' = Flat.max_size db.
Proof.
  intros Hh Hn Hk. set (d := if m then fst (mask_ref k data) else data).
  destruct (mask_ref_spec k data Hk) as (Es & El & _).
  assert (length d = length data) as Hd by (unfold d; by destruct m).
  destruct (flat_append db v (length data) d Hh Hn Hd) as (db' & E & Hh' & Hm).
  exists db'. split; [|done]. unfold put_masked, Flat.append in *. pose proof (flat_size_holds _ _ Hh) as Hsz.
  destruct (Flat.prepare (length data) db) as [[db1 [off n]]| |] eqn:Ep; try done. cbn [obind] in *.
  assert (n = length data /\ (off + length data <= length (Flat.buf_ db1))%nat) as [-> Hoff].
  { unfold Flat.prepare, Flat.capacity, Flat.max_size, Flat.size in *. destruct Hh as [Ho _]. unfold Flat.max_size in Ho.
    destruct (Nat.leb_spec (length data) (length (Flat.buf_ db) - Flat.out_ db)).
    - injection Ep as <- <- <-. split; [done|]. cbn. lia.
    - destruct (Nat.ltb_spec (length (Flat.buf_ db) - (Flat.out_ db - Flat.in_ db)) (length data)); [done|]. injection Ep as <- <- <-. split; [done|].
      cbn [Flat.buf_]. clear E. destruct (0 <? Flat.out_ db - Flat.in_ db)%nat; rewrite ?length_inserts; lia. }
  cbn [buffer_copy] in E |- *. rewrite take_ge in E by lia. rewrite (take_ge data) by lia. rewrite Hd, Nat.add_0_r in E.
  injection E as <-. unfold mask_inplace. cbn [transform fst]. destruct m; [|done].
  rewrite (load_inserts_same off data (Flat.buf_ db1)) by done. rewrite mask_buffer_ref by done. unfold d.
  destruct (mask_ref k data) as [q k']. cbn [fst snd] in *. subst k'. by rewrite list_inserts_twice.
Qed.

Lemma mask_ref_2 k a b : fst (mask_ref k a) ++ fst (mask_ref (snd (mask_ref k a)) b) = fst (mask_ref k (a ++ b)).
Proof. rewrite mask_ref_app. destruct (mask_ref k a) as [a' k1]. cbn. by destruct (mask_ref k1 b). Qed.

Lemma write_header_holds db v fh :
  header_ok fh -> flat_holds db v -> (length v + length (header_bytes fh) <= Flat.max_size db)%nat ->
  exists db', WsFrame.write db fh = Ret db' /\ flat_holds db' (v ++ header_bytes fh) /\ Flat.max_size db' = Flat.max_size db.
Proof. intros _ Hh Hl. by apply flat_append. Qed.

Lemma prepare_key_length k : length (prepare_key k) = 4%nat.
Proof. done. Qed.

Section Frames.
Context (create_mask : nat -> Z).

(** The key of the next frame of a client has its 32 bits. *)
Definition mask_ready (s : stream) : Prop := role_ s = client -> u32 (create_mask (masks s)).

Lemma whole_header_ok op n s : mask_ready s -> 0 <= n < 2 ^ 64 -> header_ok (fst (whole_header create_mask op n s)).
Proof. intros Hr H. unfold whole_header, mask_ready in *. destruct (role_ s); split; (exact H || (split; [by apply Hr || by split|done])). Qed.

Lemma rd_fb_whole_header op n s : rd_fb_ (snd (whole_header create_mask op n s)) = rd_fb_ s.
Proof. unfold whole_header. by destruct (role_ s). Qed.

(** A frame and no other byte. *)
Lemma write_ping_frame (s : stream) op data :
  mask_ready s -> flat_holds (rd_fb_ s) [] -> (14 + length data <= Flat.max_size (rd_fb_ s))%nat -> Z.of_nat (length data) < 2 ^ 64 ->
  let (fh, s1) := whole_header create_mask op (Z.of_nat (length data)) s in
  exists db, write_ping create_mask op data s = Ret (set_rd_fb db s1) /\ flat_holds db (frame_bytes fh data) /\
    Flat.max_size db = Flat.max_size (rd_fb_ s).
Proof.
  intros Hr Hh Hl Hd. pose proof (whole_header_ok op (Z.of_nat (length data)) s Hr ltac:(lia)) as Hok.
  pose proof (rd_fb_whole_header op (Z.of_nat (length data)) s) as Efb.
  unfold write_ping. destruct (whole_header create_mask op (Z.of_nat (length data)) s) as [fh s1]. cbn [fst snd] in *. rewrite Efb.
  pose proof (length_header_bytes fh Hok) as Hlh.
  destruct (write_header_holds (rd_fb_ s) [] fh Hok Hh) as (db & -> & Hdb & Hm); [cbn [length]; lia|]. cbn [obind app] in *.
  destruct (Nat.eqb_spec (length data) 0) as [E|E].
  - destruct data; [|done]. exists db. split; [done|]. split; [|done]. unfold frame_bytes. by destruct (mask fh); rewrite app_nil_r.
  - destruct (put_masked_holds (mask fh) db _ data (prepare_key (key fh)) Hdb) as (db2 & -> & H2 & Hm2); [rewrite Hm; lia|done|].
    cbn [obind]. exists db2. split; [done|]. split; [done|]. by rewrite Hm2.
Qed.

(** The payload of a close frame. *)
Definition close_payload (cr : close_reason) : bytes :=
  if code cr =? close_none then [] else big_bytes 2 (wrap 16 (code cr)) ++ reason cr.

Lemma write_close_frame (s : stream) cr :
  mask_ready s -> flat_holds (rd_fb_ s) [] -> (16 + length (reason cr) <= Flat.max_size (rd_fb_ s))%nat -> Z.of_nat (length (reason cr)) < 2 ^ 64 - 2 ->
  let (fh, s1) := whole_header create_mask close (Z.of_nat (length (close_payload cr))) s in
  exists db, write_close create_mask cr s = Ret (set_rd_fb db s1) /\ flat_holds db (frame_bytes fh (close_payload cr)) /\
    Flat.max_size db = Flat.max_size (rd_fb_ s).
Proof.
  intros Hr Hh Hl Hd. unfold write_close, close_payload.
  assert ((if code cr =? close_none then 0 else 2 + Z.of_nat (length (reason cr))) =
    Z.of_nat (length (if code cr =? close_none then [] else big_bytes 2 (wrap 16 (code cr)) ++ reason cr))) as ->.
  { destruct (_ =? _); [done|]. rewrite length_app, length_big_bytes. lia. }
  set (payload := if code cr =? close_none then [] else _).
  assert (length payload <= 2 + length (reason cr))%nat as Hp by (unfold payload; destruct (_ =? _); rewrite ?length_app, ?length_big_bytes; cbn; lia).
  pose proof (whole_header_ok close (Z.of_nat (length payload)) s Hr ltac:(lia)) as Hok.
  pose proof (rd_fb_whole_header close (Z.of_nat (length payload)) s) as Efb.
  destruct (whole_header create_mask close (Z.of_nat (length payload)) s) as [fh s1]. cbn [fst snd] in *. rewrite Efb.
  pose proof (length_header_bytes fh Hok) as Hlh.
  destruct (write_header_holds (rd_fb_ s) [] fh Hok Hh) as (db & -> & Hdb & Hm); [cbn [length]; lia|]. cbn [obind app] in *.
  unfold payload, frame_bytes. destruct (code cr =? close_none).
  - exists db. split; [done|]. split; [|done]. by destruct (mask fh); rewrite app_nil_r.
  - destruct (put_masked_holds (mask fh) db _ (big_bytes 2 (wrap 16 (code cr))) (prepare_key (key fh)) Hdb) as (db2 & -> & H2 & Hm2);
      [rewrite Hm, length_big_bytes; lia|done|]. cbn [obind].
    destruct (Nat.eqb_spec (length (reason cr)) 0) as [E|E].
    + destruct (reason cr); [|done]. exists db2. split; [done|]. rewrite app_nil_r. split; [done|]. by rewrite Hm2.
    + destruct (put_masked_holds (mask fh) db2 _ (reason cr) (if mask fh then rol (prepare_key (key fh)) (length (big_bytes 2 (wrap 16 (code cr)))) else prepare_key (key fh)) H2)
        as (db3 & -> & H3 & Hm3); [rewrite Hm2, Hm, !length_app; destruct (mask fh); rewrite ?(proj1 (proj2 (mask_ref_spec _ _ (prepare_key_length _)))), ?length_big_bytes; lia|by destruct (mask fh); rewrite ?length_rol|].
      cbn [obind]. exists db3. split; [done|]. split; [|by rewrite Hm3, Hm2]. rewrite <- app_assoc in H3. destruct (mask fh); [|done].
      by rewrite <- (proj1 (mask_ref_spec _ (big_bytes 2 (wrap 16 (code cr))) (prepare_key_length (key fh)))), mask_ref_2 in H3.
Qed.

End Frames.

Lemma parse_fh_correct_witness :
  let s := upd_rd (set_rd_buf (Ring.mk_static_buffer ([0x81; 0x85; 0x37; 0xfa; 0x21; 0x3d; 0x7f; 0x9f] ++ repeat 0 56) 0 8 0))
    (open_ server (new_stream (repeat 0 64) [] [])) in
  let v := [0x81; 0x85; 0x37; 0xfa; 0x21; 0x3d; 0x7f; 0x9f] in
  ring_holds (rd_buf_ s) v /\ exists ok ec s', parse_fh None s = Ret (ok, ec, s') /\ (ok = true <-> exists fh rest, starts_with s v fh rest).
Proof.
  intros s v. assert (ring_holds (rd_buf_ s) v) as H by (split; [split; cbn; lia|reflexivity]). split; [exact H|].
  assert (Forall u8 v) as Hu by (repeat constructor; unfold in_width; lia).
  destruct (parse_fh_correct s v H Hu ltac:(cbn; lia)) as (ok & ec & s' & E & Hok & _). exists ok, ec, s'. exact (conj E Hok).
Defined.

(** ** Close frames *)

(** How a close frame with the payload is answered: the error code of the read, and the
    code in the close frame that is sent. *)
Inductive close_answer : bytes -> ws_error -> Z -> Prop :=
  | close_empty : close_answer [] closed close_normal
  | close_short a : close_answer [a] bad_close_size close_protocol_error
  | close_code a b r : is_valid_close_code (a * 256 + b) = false -> close_answer (a :: b :: r) bad_close_code close_protocol_error
  | close_text a b r : is_valid_close_code (a * 256 + b) = true -> ~ valid_utf8 r -> close_answer (a :: b :: r) bad_close_payload close_protocol_error
  | close_valid a b r : is_valid_close_code (a * 256 + b) = true -> valid_utf8 r -> close_answer (a :: b :: r) closed (a * 256 + b).

Lemma read_close_answer addr p e c : Forall u8 p -> (length p <= 125)%nat -> close_answer p e c ->
  exists cr err, read_close addr p = Ret (cr, err) /\
    match err with
    | Some e' => e' = e /\ e <> closed /\ c = close_protocol_error
    | None => e = closed /\ c = if code cr =? close_none then close_normal else code cr
    end.
Proof.
  intros Hu Hl Ha. unfold read_close. rewrite (proj2 (Nat.ltb_ge _ _)) by done.
  destruct Ha as [|a|a b r Hc|a b r Hc Hr|a b r Hc Hr]; [by do 2 eexists|by do 2 eexists|..]; cbn [length Nat.eqb].
  all: assert (big_uint16_to_native (a :: b :: r) = a * 256 + b) as Ec by (apply Forall_cons in Hu as [? Hu]; apply Forall_cons in Hu as [? _]; unfold big_uint16_to_native, byte_at; cbn; rewrite wrap_small by (unfold in_width in *; rewrite Z.shiftl_mul_pow2 by done; lia); rewrite Z.shiftl_mul_pow2 by done; lia).
  all: rewrite Ec, Hc; change (drop 2 (a :: b :: r)) with r; cbn [negb].
  { by do 2 eexists. }
  all: assert (Forall u8 r) as Hur by (by apply Forall_cons in Hu as [_ [_ Hu]%Forall_cons]).
  all: destruct (check_utf8_spec addr r Hur) as (ok & Eu & Hok).
  - destruct r as [|r0 r]; [by destruct Hr; apply valid_utf8_nil|]. rewrite (proj2 (Nat.ltb_lt _ _)), Eu by (cbn [length]; lia). cbn [obind].
    destruct ok; [by destruct Hr; apply Hok|]. by do 2 eexists.
  - assert ((a * 256 + b =? close_none) = false) as Hn by (apply Z.eqb_neq; intros E; by rewrite E in Hc).
    destruct (0 <? _)%nat; [rewrite Eu; cbn [obind]; rewrite (proj2 Hok Hr)|]; do 2 eexists; (split; [done|]); cbn [code]; by rewrite Hn.
Qed.
