(* ===== verification/WsRead.v ===== *)
(** * Reading from the websocket stream

    [read_some_op] and [read_op] of
    src/externals/boost/boost/beast/websocket/impl/read.ipp, the coroutines behind
    [async_read]. A coroutine runs until it waits for something: [read_wait] has the
    places where it yields, with what it started there, and for each of them there is
    the function that resumes it. The stream has no control callback. *)

From Stdlib Require Import ZArith Lia String Ascii.
From stdpp Require Import base list.
From S2P Require Import Prelude Utf8 Exceptions StaticBuffer WsUtf8 WsFrame WsStream WsParse MultiBuffer.

(** ** read_some_op *)

(** The data members; [cb_] has the addresses and sizes of the caller's buffers,
    [received] the bytes that were written into them. *)
Record read_some_op := mk_read_some {
  cb_ : list (Z * nat);
  bytes_written_ : nat;
  received : bytes;
  result_ : error_code;
  code_ : Z;
  cont_ : bool
}.

(** [read_some_op(h, ws, bs)]. *)
Definition new_read_some (bs : list (Z * nat)) : read_some_op := mk_read_some bs 0 [] None close_none false.

Definition set_result (e : error_code) (o : read_some_op) : read_some_op :=
  mk_read_some (cb_ o) (bytes_written_ o) (received o) e (code_ o) (cont_ o).
Definition set_code (c : Z) (o : read_some_op) : read_some_op :=
  mk_read_some (cb_ o) (bytes_written_ o) (received o) (result_ o) c (cont_ o).
Definition set_cont (c : bool) (o : read_some_op) : read_some_op :=
  mk_read_some (cb_ o) (bytes_written_ o) (received o) (result_ o) (code_ o) c.

(** [buffer_size(cb_)]. *)
Definition cb_size (o : read_some_op) : nat := sum_list (map snd (cb_ o)).

(** What the operation waits for: the completion of a read into [rd_buf_], for a
    header or for a payload, or of a read of at most [n] bytes into the caller's
    buffers, the read or the write block, the completion of the write of a frame, the
    end of the connection, and its own posted completion. *)
Inductive read_wait :=
  | WaitReadBlock
  | WaitHeader (n : nat)
  | WaitFill (n : nat)
  | WaitDirect (n : nat)
  | WaitPongBlock
  | WaitPong (frame : bytes)
  | WaitCloseBlock
  | WaitClose (frame : bytes)
  | WaitTeardown
  | WaitUpcall (ec : error_code).

(** The operation suspends itself, or calls its handler with the error code and
    [bytes_written_]. *)
Inductive read_result :=
  | Suspend (w : read_wait) (o : read_some_op)
  | Upcall (ec : error_code) (o : read_some_op).

Section Read.
Context (create_mask : nat -> Z).

(** [rd_buf_.prepare(read_size(rd_buf_, rd_buf_.max_size()))], for a read that is
    started. *)
Definition prepare_read (wait : nat -> read_wait) (o : read_some_op) (s : stream) : cpp (read_result * stream) :=
  let* n := read_size (rd_buf_ s) (Ring.max_size (rd_buf_ s)) in
  let* (b, _) := Ring.prepare n (rd_buf_ s) in
  Ret (Suspend (wait n) o, upd_rd (set_rd_buf b) s).

(** The label [upcall]. *)
Definition upcall (ec : error_code) (o : read_some_op) (s : stream) : cpp (read_result * stream) :=
  let (_, m) := mutex_try_unlock id_read (rd_block_ s) in
  let s := set_rd_block m s in
  let (unlocked, m) := mutex_try_unlock id_read (wr_block_ s) in
  let s := set_wr_block m s in
  let* (_, s) := if unlocked then invoke_wr s else Ret (false, s) in
  if negb (cont_ o) then Ret (Suspend (WaitUpcall ec) o, s) else Ret (Upcall ec o, s).

(** Closing the connection: from the status to the end. *)
Definition teardown (o : read_some_op) (s : stream) : cpp (read_result * stream) :=
  let* _ := assert_ (is_locked id_read (wr_block_ s)) in
  Ret (Suspend WaitTeardown o, s).

Definition send_close (o : read_some_op) (s : stream) : cpp (read_result * stream) :=
  let s := set_status status_closing s in
  if negb (wr_close_ s) then
    let s := upd_wr (set_wr_close true) s in
    let s := set_rd_fb (Flat.reset (rd_fb_ s)) s in
    let* s := write_close create_mask (mk_close_reason (code_ o) []) s in
    let* _ := assert_ (is_locked id_read (wr_block_ s)) in
    Ret (Suspend (WaitClose (Flat.contents (rd_fb_ s))) o, s)
  else teardown o s.

(** The label [close]. *)
Definition fail_connection (o : read_some_op) (s : stream) : cpp (read_result * stream) :=
  let* (locked, m) := mutex_try_lock id_read (wr_block_ s) in
  let s := set_wr_block m s in
  if negb locked then let* s := pause_rd s in Ret (Suspend WaitCloseBlock o, s)
  else send_close o s.

(** The end of the payload that was read: [rd_done_] and [upcall]; [ec] is no error
    here, since [check_ok] has accepted it. *)
Definition finish_payload (o : read_some_op) (s : stream) : cpp (read_result * stream) :=
  upcall None o (upd_rd (set_rd_done ((rd_remain_ s =? 0) && fin (rd_fh_ s))) s).

(** [buffers_prefix(n, cb_)] with the bytes in it. *)
Fixpoint addressed (bs : list (Z * nat)) (data : bytes) : list (Z * bytes) :=
  match bs with
  | [] => []
  | (addr, n) :: bs =>
      if (length data <=? n)%nat then [(addr, data)] else (addr, take n data) :: addressed bs (drop n data)
  end.

(** [mask_inplace] on buffers with these bytes. *)
Fixpoint mask_buffers (bs : list (Z * bytes)) (key : bytes) : bytes * bytes :=
  match bs with
  | [] => ([], key)
  | (_, b) :: bs =>
      let (d, k) := mask_buffer key b in
      let (ds, k) := mask_buffers bs k in
      (d ++ ds, k)
  end.

(** The check of the bytes [data] of a text, which were written to the caller's
    buffers: the utf8 checker after it, or none when it fails. *)
Definition check_text (data : bytes) (o : read_some_op) (s : stream) : cpp (bool * stream) :=
  if bool_decide (rd_op_ s = text) then
    let* (ok, u) := write_buffers (addressed (cb_ o) data) (rd_utf8_ s) in
    let s := upd_rd (set_rd_utf8 u) s in
    if negb ok then Ret (false, s)
    else if (rd_remain_ s =? 0) && fin (rd_fh_ s) then
      let (ok, u) := finish u in Ret (ok, upd_rd (set_rd_utf8 u) s)
    else Ret (true, s)
  else Ret (true, s).

(** [code_ = close_code::bad_payload; result_ = error::bad_frame_payload;]. *)
Definition bad_payload (o : read_some_op) : read_some_op := set_result (Some bad_frame_payload) (set_code close_bad_payload o).

(** [data] in the caller's buffers, of a payload. *)
Definition take_payload (data : bytes) (o : read_some_op) : read_some_op :=
  mk_read_some (cb_ o) (bytes_written_ o + length data) (received o ++ data) (result_ o) (code_ o) (cont_ o).

(** The payload, after the read buffer was filled if it was empty. *)
Definition copy_payload (o : read_some_op) (s : stream) : cpp (read_result * stream) :=
  if (0 <? Ring.size (rd_buf_ s))%nat then
    let n := Nat.min (Nat.min (cb_size o) (Ring.size (rd_buf_ s))) (Z.to_nat (clamp (rd_remain_ s))) in
    let data := take n (Ring.contents (rd_buf_ s)) in
    let s := upd_rd (set_rd_remain (rd_remain_ s - Z.of_nat n)) s in
    let* (ok, s) := check_text data o s in
    if negb ok then fail_connection (bad_payload o) s
    else
      let o := take_payload data o in
      let s := upd_rd (set_rd_size (wrap 64 (rd_size_ s + Z.of_nat n))) s in
      let s := upd_rd (set_rd_buf (Ring.consume n (rd_buf_ s))) s in
      finish_payload o s
  else
    let n := Nat.min (Z.to_nat (clamp (rd_remain_ s))) (cb_size o) in
    let* _ := assert_ (0 <? rd_remain_ s) in
    let* _ := assert_ (0 <? cb_size o)%nat in
    let* _ := assert_ (0 <? n)%nat in
    Ret (Suspend (WaitDirect n) o, s).

Definition read_payload (o : read_some_op) (s : stream) : cpp (read_result * stream) :=
  if 0 <? rd_remain_ s then
    if (Ring.size (rd_buf_ s) =? 0)%nat &&
       (Nat.min (Z.to_nat (clamp (rd_remain_ s))) (cb_size o) <? Ring.max_size (rd_buf_ s))%nat
    then prepare_read WaitFill o s
    else copy_payload o s
  else finish_payload o s.

(** [mask_inplace(buffers_prefix(clamp(n), rd_buf_.mutable_data()), rd_key_)]. *)
Definition mask_read (n : Z) (s : stream) : stream :=
  let b := rd_buf_ s in
  let (m, k) := mask_inplace (buffers_prefix (Z.to_nat (clamp n)) (Ring.mutable_data b)) (Ring.buf_ b) (rd_key_ s) in
  upd_rd (fun r => set_rd_key k (set_rd_buf (Ring.set_buf m b) r)) s.

(** The payload of a control frame, which the read buffer has in full. *)
Definition control_payload (s : stream) : cpp bytes :=
  let b := take (Z.to_nat (clamp (len (rd_fh_ s)))) (Ring.contents (rd_buf_ s)) in
  let* _ := assert_ (Z.of_nat (length b) =? len (rd_fh_ s)) in
  Ret b.

Definition consume_read (n : nat) (s : stream) : stream := upd_rd (set_rd_buf (Ring.consume n (rd_buf_ s))) s.

(** Sending the pong, with the write block. *)
Definition send_pong (o : read_some_op) (s : stream) : cpp (read_result * stream) :=
  let* _ := assert_ (is_locked id_read (wr_block_ s)) in
  Ret (Suspend (WaitPong (Flat.contents (rd_fb_ s))) o, s).

(** A ping frame, unless the stream is closing: the pong is written to [rd_fb_], the
    read block given up and the write block acquired. *)
Definition answer_ping (payload : bytes) (o : read_some_op) (s : stream) : cpp (read_result * stream) :=
  let s := set_rd_fb (Flat.reset (rd_fb_ s)) s in
  let* s := write_ping create_mask pong payload s in
  let* m := mutex_unlock id_read (rd_block_ s) in
  let s := set_rd_block m s in
  let* (locked, m) := mutex_try_lock id_read (wr_block_ s) in
  let s := set_wr_block m s in
  if negb locked then let* s := pause_rd s in Ret (Suspend WaitPongBlock o, s)
  else send_pong o s.

(** A close frame; [addr] is the address of the reason in [cr]. *)
Definition receive_close (addr : Z) (o : read_some_op) (s : stream) : cpp (read_result * stream) :=
  let* payload := control_payload s in
  let* _ := assert_ (negb (rd_close_ s)) in
  let s := upd_rd (set_rd_close true) s in
  let* (cr, e) := read_close addr payload in
  let o := set_result e o in
  match e with
  | Some _ => fail_connection (set_code close_protocol_error o) s
  | None =>
      let s := set_cr cr s in
      let s := consume_read (length payload) s in
      if bool_decide (status_ s = status_closing) then
        let* _ := assert_ (wr_close_ s) in
        fail_connection (set_result (Some closed) (set_code close_none o)) s
      else
        let c := if code cr =? close_none then close_normal else code cr in
        fail_connection (set_result (Some closed) (set_code c o)) s
  end.

(** Whether a frame header has to be read: the condition at the label [loop]. *)
Definition needs_header (s : stream) : bool := (rd_remain_ s =? 0) && (negb (fin (rd_fh_ s)) || rd_done_ s).

(** The label [loop]; [read] is the loop that reads a header. *)
Definition goto_loop (read : read_some_op -> stream -> cpp (read_result * stream)) (o : read_some_op) (s : stream) : cpp (read_result * stream) :=
  let* _ := assert_ (is_locked id_read (rd_block_ s)) in
  if needs_header s then read o s else read_payload o s.

(** What follows a header: the mask is applied, control frames are handled. *)
Definition handle_header (read : read_some_op -> stream -> cpp (read_result * stream)) (addr : Z) (o : read_some_op) (s : stream) : cpp (read_result * stream) :=
  let s := if (0 <? len (rd_fh_ s)) && mask (rd_fh_ s) then mask_read (len (rd_fh_ s)) s else s in
  if is_control (op (rd_fh_ s)) then
    let fh := rd_fh_ s in
    let s := upd_rd (set_rd_fh (mk_fh (len fh) (key fh) (op fh) false (mask fh) (rsv1 fh) (rsv2 fh) (rsv3_ fh))) s in
    if bool_decide (op fh = ping) then
      let* b := control_payload s in
      let* payload := read_ping b in
      let s := consume_read (length b) s in
      if bool_decide (status_ s = status_closing) then goto_loop read o s
      else answer_ping payload o s
    else if bool_decide (op fh = pong) then
      let* b := control_payload s in
      let* _ := read_ping b in
      goto_loop read o (consume_read (length b) s)
    else
      let* _ := assert_ (bool_decide (op fh = close)) in
      receive_close addr o s
  else if (len (rd_fh_ s) =? 0) && negb (fin (rd_fh_ s)) then goto_loop read o s
  else read_payload o (upd_rd (set_rd_done false) s).

(** The loop [while(! parse_fh(..))] and what follows it; [fuel] bounds the headers
    that the read buffer can hold. *)
Fixpoint read_header (addr : Z) (fuel : nat) (o : read_some_op) (s : stream) : cpp (read_result * stream) :=
  match fuel with
  | O => Undef
  | S fuel =>
      let* (ok, e, s) := parse_fh (result_ o) s in
      let o := set_result e o in
      if negb ok then
        match e with
        | Some e =>
            let c := if bool_decide (e = message_too_big) then close_too_big else close_protocol_error in
            fail_connection (set_code c o) s
        | None =>
            let* _ := assert_ (is_locked id_read (rd_block_ s)) in
            prepare_read WaitHeader o s
        end
      else handle_header (read_header addr fuel) addr o s
  end.

(** The loop on what the read buffer holds. *)
Definition run_header (addr : Z) (o : read_some_op) (s : stream) : cpp (read_result * stream) :=
  read_header addr (S (Ring.size (rd_buf_ s))) o s.

(** The label [do_maybe_suspend]: the first call of [operator()], and after a pong. *)
Definition start_read (addr : Z) (o : read_some_op) (s : stream) : cpp (read_result * stream) :=
  let* (locked, m) := mutex_try_lock id_read (rd_block_ s) in
  let s := set_rd_block m s in
  if locked then
    if bool_decide (status_ s = status_closed) || bool_decide (status_ s = status_failed)
    then upcall (Some operation_aborted) o s
    else goto_loop (run_header addr) o s
  else Ret (Suspend WaitReadBlock o, s).

(** What the completion of a read does before the operation is resumed: [data] is in
    the region that [prepare] handed out. *)
Definition receive_read (data : bytes) (s : stream) : stream :=
  let (_, m) := buffer_copy (Ring.room (rd_buf_ s)) data (Ring.buf_ (rd_buf_ s)) in
  upd_rd (set_rd_buf (Ring.set_buf m (rd_buf_ s))) s.

Definition commit_read (n : nat) (s : stream) : stream := upd_rd (set_rd_buf (Ring.commit n (rd_buf_ s))) s.

(** After a read for a header: no close operation is waiting for the read block. *)
Definition resume_header (addr : Z) (ec : error_code) (data : bytes) (o : read_some_op) (s : stream) : cpp (read_result * stream) :=
  let s := receive_read data s in
  let* _ := assert_ (is_locked id_read (rd_block_ s)) in
  let (ok, s) := check_ok ec s in
  if negb ok then upcall ec o s
  else
    let s := commit_read (length data) s in
    let* m := mutex_unlock id_read (rd_block_ s) in
    let* m := mutex_lock id_read m in
    run_header addr o (set_rd_block m s).

(** After a read for a payload into [rd_buf_]. *)
Definition resume_fill (ec : error_code) (data : bytes) (o : read_some_op) (s : stream) : cpp (read_result * stream) :=
  let s := receive_read data s in
  let (ok, s) := check_ok ec s in
  if negb ok then upcall ec o s
  else
    let s := commit_read (length data) s in
    let s := if mask (rd_fh_ s) then mask_read (rd_remain_ s) s else s in
    copy_payload o s.

(** After a read into the caller's buffers. *)
Definition resume_direct (ec : error_code) (data : bytes) (o : read_some_op) (s : stream) : cpp (read_result * stream) :=
  let (ok, s) := check_ok ec s in
  if negb ok then upcall ec o s
  else
    let* _ := assert_ (0 <? length data)%nat in
    let s := upd_rd (set_rd_remain (rd_remain_ s - Z.of_nat (length data))) s in
    let (data, s) :=
      if mask (rd_fh_ s) then
        let (data, k) := mask_buffers (addressed (cb_ o) data) (rd_key_ s) in (data, upd_rd (set_rd_key k) s)
      else (data, s) in
    let* (ok, s) := check_text data o s in
    if negb ok then fail_connection (bad_payload o) s
    else
      let o := take_payload data o in
      finish_payload o (upd_rd (set_rd_size (wrap 64 (rd_size_ s + Z.of_nat (length data)))) s).

(** With the write block, for a pong and for a close frame. *)
Definition resume_pong_block (o : read_some_op) (s : stream) : cpp (read_result * stream) :=
  let* _ := assert_ (is_locked id_read (wr_block_ s)) in
  let (ok, ec) := check_open s None in
  if negb ok then upcall ec o s else send_pong o s.

Definition resume_close_block (o : read_some_op) (s : stream) : cpp (read_result * stream) :=
  let* _ := assert_ (is_locked id_read (wr_block_ s)) in
  let (ok, ec) := check_open s None in
  if negb ok then upcall ec o s else send_close o s.

(** After a pong and after a close frame. *)
Definition resume_pong (addr : Z) (ec : error_code) (o : read_some_op) (s : stream) : cpp (read_result * stream) :=
  let* _ := assert_ (is_locked id_read (wr_block_ s)) in
  let (ok, s) := check_ok ec s in
  if negb ok then upcall ec o s
  else
    let* m := mutex_unlock id_read (wr_block_ s) in
    let* (_, s) := invoke_wr (set_wr_block m s) in
    start_read addr o s.

Definition resume_close (ec : error_code) (o : read_some_op) (s : stream) : cpp (read_result * stream) :=
  let* _ := assert_ (is_locked id_read (wr_block_ s)) in
  let (ok, s) := check_ok ec s in
  if negb ok then upcall ec o s else teardown o s.

(** After [async_teardown]. *)
Definition resume_teardown (ec : error_code) (o : read_some_op) (s : stream) : cpp (read_result * stream) :=
  let* _ := assert_ (is_locked id_read (wr_block_ s)) in
  let ec := if bool_decide (ec = Some eof) then None else ec in
  let ec := match ec with None => result_ o | Some _ => ec end in
  let failed := match ec with Some e => negb (bool_decide (e = closed)) | None => false end in
  upcall ec o (close_ (set_status (if failed then status_failed else status_closed) s)).

(** After [paused_r_rd_]. *)
Definition resume_read_block (o : read_some_op) (s : stream) : cpp (read_result * stream) :=
  let* _ := assert_ (is_locked id_read (rd_block_ s)) in
  let* _ := assert_ (wr_close_ s) in
  let* _ := assert_ (negb (bool_decide (status_ s = status_open))) in
  upcall (Some operation_aborted) o s.

(** [operator()(ec, bytes_transferred)] at the place where the operation waits, with
    the bytes that a read received. Only the first call has [cont = false]. *)
Definition resume_read (addr : Z) (w : read_wait) (ec : error_code) (data : bytes) (o : read_some_op) (s : stream) : cpp (read_result * stream) :=
  let o := set_cont true o in
  match w with
  | WaitReadBlock => resume_read_block o s
  | WaitHeader _ => resume_header addr ec data o s
  | WaitFill _ => resume_fill ec data o s
  | WaitDirect _ => resume_direct ec data o s
  | WaitPongBlock => resume_pong_block o s
  | WaitPong _ => resume_pong addr ec o s
  | WaitCloseBlock => resume_close_block o s
  | WaitClose _ => resume_close ec o s
  | WaitTeardown => resume_teardown ec o s
  | WaitUpcall ec => Ret (Upcall ec o, s)
  end.

End Read.

(** ** read_op *)

(** A read operation between two calls: the [read_some_op] it started waits, or it has
    posted itself with [buffer_overflow], or its handler was called. [total] is
    [bytes_written_]. *)
Inductive read_conf (B : Type) :=
  | Reading (w : read_wait) (o : read_some_op) (b : B) (total : nat) (s : stream)
  | Overflow (b : B) (total : nat) (s : stream)
  | ReadDone (ec : error_code) (total : nat) (b : B) (s : stream).

Arguments Reading {B} w o b total s.
Arguments Overflow {B} b total s.
Arguments ReadDone {B} ec total b s.

(** Where the memory that [prepare(n)] returns lies: the addresses and sizes of its
    buffers. *)
Class Placement (B : Type) := {
  place : B -> nat -> list (Z * nat);
  place_size : forall b n, sum_list (map snd (place b n)) = n
}.

Section ReadOp.
Context {B : Type} `{DB : !DynamicBuffer B} `{PL : !Placement B}.
Context (create_mask : nat -> Z) (addr : Z).
(** [limit_] and [some_]. *)
Context (limit_ : Z) (some_ : bool).

(** One turn of the loop, up to its yield: the first call of a [read_some_op] never
    calls its handler itself. *)
Definition read_op_turn (b : B) (total : nat) (s : stream) : cpp (read_conf B) :=
  let* hint := read_size_hint (db_max_size b) (Z.of_nat (db_size b)) s in
  let n := Z.to_nat (clamp_to hint limit_) in
  match db_prepare n b with
  | Throw std_length_error => Ret (Overflow b total s)
  | Throw e => Throw e
  | Undef => Undef
  | Ret b =>
      let* (r, s) := start_read create_mask addr (new_read_some (place b n)) s in
      match r with
      | Suspend w o => Ret (Reading w o b total s)
      | Upcall _ _ => Undef
      end
  end.

(** [operator()(ec, bytes_transferred)] as the handler of the [read_some_op]; what that
    one wrote into the buffers is committed. *)
Definition read_op_resume (ec : error_code) (o : read_some_op) (b : B) (total : nat) (s : stream) : cpp (read_conf B) :=
  match ec with
  | Some _ => Ret (ReadDone ec total b s)
  | None =>
      let (_, b) := db_write (received o) b in
      let b := db_commit (bytes_written_ o) b in
      let total := (total + bytes_written_ o)%nat in
      if negb some_ && negb (rd_done_ s) then read_op_turn b total s else Ret (ReadDone None total b s)
  end.

(** A completion: of what the operation waits for. *)
Definition read_complete (ec : error_code) (data : bytes) (c : read_conf B) : cpp (read_conf B) :=
  match c with
  | Reading w o b total s =>
      let* (r, s) := resume_read create_mask addr w ec data o s in
      match r with
      | Suspend w o => Ret (Reading w o b total s)
      | Upcall ec o => read_op_resume ec o b total s
      end
  | Overflow b total s => Ret (ReadDone (Some buffer_overflow) total b s)
  | ReadDone _ _ _ _ => Undef
  end.

End ReadOp.

(** [async_read(buffer, handler)]. *)
Definition async_read {B} `{DB : !DynamicBuffer B} `{PL : !Placement B} (create_mask : nat -> Z) (addr : Z) (b : B) (s : stream) : cpp (read_conf B) :=
  read_op_turn create_mask addr size_max b 0 s.

Definition read_completion {B} `{DB : !DynamicBuffer B} `{PL : !Placement B} (create_mask : nat -> Z) (addr : Z) (ec : error_code) (data : bytes) (c : read_conf B) : cpp (read_conf B) :=
  read_complete create_mask addr size_max false ec data c.

(** A message in one piece, and in two pieces that cut its header. *)
#[local] Instance one_buffer : Placement multi_buffer := {| place := fun _ n => [(0, n)]; place_size := fun _ n => Nat.add_0_r n |}.

Definition example_stream : stream := open_ server (new_stream (repeat 0 1536) (repeat 0 139) (repeat 0 14)).
Definition example_mask (n : nat) : Z := 7.

Definition read_result_of (c : cpp (read_conf multi_buffer)) : option (error_code * cpp bytes) :=
  match c with Ret (ReadDone ec _ b _) => Some (ec, copy_out b) | _ => None end.

Example read_hello :
  read_result_of (let* c := async_read example_mask 0 new_multi_buffer example_stream in
    let* c := read_completion example_mask 0 None [0x81; 0x85; 0x37; 0xfa; 0x21; 0x3d; 0x7f; 0x9f; 0x4d; 0x51; 0x58] c in Ret c)
  = Some (None, Ret (str "Hello")).
Proof. vm_compute. reflexivity. Qed.
Example read_hello_cut :
  read_result_of (let* c := async_read example_mask 0 new_multi_buffer example_stream in
    let* c := read_completion example_mask 0 None [0x81] c in
    let* c := read_completion example_mask 0 None [0x85; 0x37; 0xfa; 0x21; 0x3d; 0x7f; 0x9f; 0x4d] c in
    let* c := read_completion example_mask 0 None [0x51; 0x58] c in Ret c)
  = Some (None, Ret (str "Hello")).
Proof. vm_compute. reflexivity. Qed.
