(* ===== verification/WsDeliver.v ===== *)
(** * Messages on the websocket stream are delivered

    A client sends a message as frames, in any number, with pings and pongs between
    them. However the network cuts their bytes into reads, the read operation of a
    server ends without an error, with the payload of the message in the caller's
    buffer, every ping answered, and the bytes after the message left for the next
    read. *)

From Stdlib Require Import ZArith Lia.
From stdpp Require Import base list.
From S2P Require Import Prelude Utf8 Exceptions StaticBuffer WsUtf8 WsFrame WsStream WsParse MultiBuffer WsRead.

(** ** Messages *)

(** A frame: its header and its payload without the mask. *)
Abbreviation frame := (frame_header * bytes)%type.

Definition wire (fs : list frame) : bytes := concat (map (fun f => frame_bytes (fst f) (snd f)) fs).

(** A frame that a client may send. *)
Record client_frame (f : frame) : Prop := {
  cf_header : header_ok (fst f);
  cf_len : len (fst f) = Z.of_nat (length (snd f));
  cf_bytes : Forall u8 (snd f);
  cf_mask : mask (fst f) = true;
  cf_rsv : rsv1 (fst f) = false /\ rsv2 (fst f) = false /\ rsv3_ (fst f) = false
}.

(** How the frames of a message end: with its last frame; with a close frame, for which
    the operation fails with [e] after a close frame with the code [c]; or with bytes
    that no frame begins with. *)
Inductive ending := Complete | Closing (e : ws_error) (c : Z) | Violation.

(** ** Operations of the stream on its records *)

(** A read buffer in which [prepare] made room for a read of [n] bytes. *)
Definition prepared (n : nat) (s s' : stream) : Prop :=
  exists b, Ring.prepare n (rd_buf_ s) = Ret (b, Ring.room b) /\ s' = upd_rd (set_rd_buf b) s.

Definition with_buf (b : Ring.static_buffer) (s : stream) : stream := upd_rd (set_rd_buf b) s.

Lemma read_size_ok (s : stream) v :
  ring_holds (rd_buf_ s) v -> (length v + 1 <= Ring.capacity (rd_buf_ s))%nat ->
  exists n, read_size (rd_buf_ s) (Ring.max_size (rd_buf_ s)) = Ret n /\ (1 <= n)%nat /\ (length v + n <= Ring.capacity (rd_buf_ s))%nat.
Proof.
  intros Hh Hl. pose proof (ring_size_holds _ _ Hh) as Es. unfold read_size, Ring.max_size in *. rewrite Es.
  rewrite (proj2 (Nat.leb_le _ _)) by lia. cbn [assert_ obind]. rewrite (proj2 (Nat.leb_le _ _)) by lia. cbn [assert_ obind].
  eexists. split; [done|]. lia.
Qed.

Lemma prepare_read_ok wait o (s : stream) v :
  ring_holds (rd_buf_ s) v -> (length v + 1 <= Ring.capacity (rd_buf_ s))%nat ->
  exists n s', prepare_read wait o s = Ret (Suspend (wait n) o, s') /\ prepared n s s' /\ (1 <= n)%nat /\
    (length v + n <= Ring.capacity (rd_buf_ s))%nat.
Proof.
  intros Hh Hl. destruct (read_size_ok s v Hh Hl) as (n & E & H1 & Hn). unfold prepare_read. rewrite E. cbn [obind].
  destruct (ring_fill _ _ n Hh Hn) as (b & Ep & _). rewrite Ep. cbn [obind]. exists n, (upd_rd (set_rd_buf b) s).
  split; [done|]. split; [by exists b|done].
Qed.

(** What a read of [d] leaves, from the stream before [prepare]. *)
Lemma prepared_receive n (s s' : stream) v d :
  prepared n s s' -> ring_holds (rd_buf_ s) v -> (length v + n <= Ring.capacity (rd_buf_ s))%nat -> (length d <= n)%nat ->
  exists b, commit_read (length d) (receive_read d s') = with_buf b s /\ ring_holds b (v ++ d) /\ Ring.capacity b = Ring.capacity (rd_buf_ s).
Proof.
  intros (b & E & ->) Hh Hn Hd. destruct (ring_fill _ _ n Hh Hn) as (b' & E' & Hcap & _ & Hfill). rewrite E in E'. injection E' as <-.
  destruct (Hfill d Hd) as (m & Em & Hm & Hc). unfold receive_read. cbn [rd upd_rd set_rd set_rd_buf rd_buf_]. rewrite Em.
  exists (Ring.commit (length d) (Ring.set_buf m b)). done.
Qed.

(** [mask_read] on a buffer whose first bytes are a masked payload. *)
Lemma mask_read_ok (s : stream) v n :
  is_key (rd_key_ s) -> ring_holds (rd_buf_ s) v -> 0 <= n < 2 ^ 64 - 1 ->
  let k := length (take (Z.to_nat n) v) in
  exists b, mask_read n s = upd_rd (fun r => set_rd_key (rol (rd_key_ s) k) (set_rd_buf b r)) s /\
    ring_holds b (fst (mask_ref (rd_key_ s) (take (Z.to_nat n) v)) ++ drop (Z.to_nat n) v) /\ Ring.capacity b = Ring.capacity (rd_buf_ s).
Proof.
  intros Hk Hh Hn k. unfold mask_read. assert (clamp n = n) as -> by (unfold clamp, clamp_to, size_max; zcases).
  destruct (mask_inplace_ring (rd_buf_ s) v (Z.to_nat n) (rd_key_ s) Hk Hh) as (m & -> & Hm & Hb).
  eexists. split; [done|]. done.
Qed.

(** The bytes of a masked payload that have arrived, and the others. *)
Lemma mask_ref_cut key p k : is_key key ->
  fst (mask_ref key (take k (fst (mask_ref key p)))) = take k p /\
  drop k (fst (mask_ref key p)) = fst (mask_ref (rol key (length (take k p))) (drop k p)).
Proof.
  intros [Hk _]. assert (mask_ref key p = mask_ref key (take k p ++ drop k p)) as E by by rewrite take_drop.
  rewrite mask_ref_app in E. destruct (mask_ref_spec key (take k p) Hk) as (Es & El & _).
  pose proof (mask_ref_twice key (take k p)) as Et.
  destruct (mask_ref key (take k p)) as [a k1] eqn:Ea. cbn [fst snd] in *. subst k1.
  pose proof (proj1 (proj2 (mask_ref_spec (rol key (length (take k p))) (drop k p) ltac:(by rewrite length_rol)))) as Eb.
  destruct (mask_ref (rol key (length (take k p))) (drop k p)) as [b k2]. cbn [fst] in *. rewrite E. cbn [fst].
  destruct (Nat.le_gt_cases k (length p)).
  - assert (length a = k) as Hka by (rewrite El, length_take; lia). rewrite take_app_length', drop_app_length' by done. done.
  - assert (b = []) as -> by (apply length_zero_iff_nil; rewrite Eb, length_drop; lia). rewrite app_nil_r.
    assert (length a <= k)%nat by (rewrite El, length_take; lia). rewrite take_ge, drop_ge by done. done.
Qed.

(** What [accept] changes. *)
Lemma accept_control s fh : is_control (op fh) = true -> mask fh = true -> accept fh s = upd_rd (set_rd_key (prepare_key (key fh))) s.
Proof. intros H Hm. unfold accept, start_data. by rewrite Hm, H. Qed.

Lemma accept_data s fh :
  acceptable s fh -> 0 <= rd_size_ s -> is_control (op fh) = false -> mask fh = true ->
  accept fh s = set_rd (mk_rd (if bool_decide (op fh = cont) then rd_size_ s else 0) (len fh) (rd_fh_ s) (prepare_key (key fh)) (rd_utf8_ s) (rd_buf_ s)
    (if bool_decide (op fh = cont) then rd_op_ s else op fh) (negb (fin fh)) (rd_done_ s) (rd_close_ s)) s.
Proof.
  intros Ha Hs Hc Hm. unfold accept. rewrite Hm. set (s1 := upd_rd _ s).
  destruct (start_data_acceptable s1 fh fh (acceptable_key s fh _ Ha) Hs eq_refl eq_refl eq_refl) as [_ E].
  unfold start_data in *. rewrite Hc in *. destruct (bool_decide (op fh = cont)); cbn [negb andb] in *; repeat case_match; done.
Qed.

(** ** The state of the stream while a message arrives *)

Section State.
Context (t : opcode) (limit : Z) (strict : bool) (en : ending) (tail : bytes).
Hypothesis limit_range : 0 < limit < 2 ^ 63.
Hypothesis data_opcode : t = text \/ t = binary.

(** A header that the client may send with [n] bytes of the message sent before; the
    message has begun when [inside]. *)
Record fits (inside : bool) (n : Z) (fh : frame_header) : Prop := {
  fits_header : header_ok fh;
  fits_opcode : is_reserved (op fh) = false;
  fits_rsv : rsv1 fh = false /\ rsv2 fh = false /\ rsv3_ fh = false;
  fits_mask : mask fh = true;
  fits_control : is_control (op fh) = true -> fin fh = true /\ len fh <= 125;
  fits_data : is_control (op fh) = false -> op fh = cont <-> inside = true;
  fits_size : is_control (op fh) = false -> n + len fh <= limit
}.

(** The frames of a message of type [t], or the rest of them when the message has
    begun ([inside]) with [n] bytes; its payload, and the payloads of the pings. A
    message is not larger than [limit]; its last frame is not empty when [strict]. *)
Inductive message : bool -> Z -> list frame -> bytes -> list bytes -> Prop :=
  | message_ping inside n f fs data pings :
      client_frame f -> op (fst f) = ping -> fin (fst f) = true -> len (fst f) <= 125 ->
      message inside n fs data pings -> message inside n (f :: fs) data (snd f :: pings)
  | message_pong inside n f fs data pings :
      client_frame f -> op (fst f) = pong -> fin (fst f) = true -> len (fst f) <= 125 ->
      message inside n fs data pings -> message inside n (f :: fs) data pings
  | message_part inside n f fs data pings :
      client_frame f -> op (fst f) = (if inside : bool then cont else t) -> fin (fst f) = false -> n + len (fst f) <= limit ->
      message true (n + len (fst f)) fs data pings -> message inside n (f :: fs) (snd f ++ data) pings
  | message_last inside n f :
      client_frame f -> op (fst f) = (if inside : bool then cont else t) -> fin (fst f) = true -> n + len (fst f) <= limit ->
      (strict = true -> snd f <> []) -> en = Complete -> message inside n [f] (snd f) []
  | message_close inside n f e c :
      client_frame f -> op (fst f) = close -> fin (fst f) = true -> len (fst f) <= 125 ->
      close_answer (snd f) e c -> en = Closing e c -> message inside n [f] [] []
  | message_violation inside n :
      (139 <= length tail)%nat -> Forall u8 tail -> (forall fh z, fits inside n fh -> tail <> header_bytes fh ++ z) ->
      en = Violation -> message inside n [] [] [].

(** What follows a data frame, after which the message has the payload [y]. *)
Definition follows (final : bool) (y : bytes) (fs : list frame) (data : bytes) (pings : list bytes) : Prop :=
  if final then fs = [] /\ data = [] /\ pings = [] /\ en = Complete else message true (Z.of_nat (length y)) fs data pings.

(** The stream of a server on which nothing is written. *)
Record steady (s : stream) : Prop := {
  st_role : role_ s = server;
  st_status : status_ s = status_open;
  st_close : wr_close_ s = false /\ rd_close_ s = false;
  st_wr_block : wr_block_ s = id_none;
  st_paused : paused_rd_ s = false /\ paused_wr_ s = false;
  st_capacity : Ring.capacity (rd_buf_ s) = tcp_frame_size;
  st_rd_fb : Flat.max_size (rd_fb_ s) = 139%nat;
  st_limit : rd_msg_max_ s = limit
}.

(** The part of the message [x] that the utf8 checker has seen. *)
Definition checked_part (x : bytes) : bytes := if bool_decide (t = text) then x else [].

(** Between two frames, with [x] of the message received and [v] in the read buffer. *)
Record between_frames (inside : bool) (x v : bytes) (s : stream) : Prop := {
  bf_steady : steady s;
  bf_remain : rd_remain_ s = 0;
  bf_cont : rd_cont_ s = inside;
  bf_done : inside = false -> rd_done_ s = true /\ x = [];
  bf_size : 0 <= rd_size_ s;
  bf_inside : inside = true -> rd_size_ s = Z.of_nat (length x) /\ rd_op_ s = t;
  bf_text : checked (checked_part x) (rd_utf8_ s);
  bf_buf : ring_holds (rd_buf_ s) v
}.

(** In a frame with [p] of its payload to come. Of [p] the read buffer has the first
    [k] bytes without the mask; the others come masked. *)
Record in_frame (final : bool) (x p : bytes) (k : nat) (v rest : bytes) (s : stream) : Prop := {
  if_steady : steady s;
  if_remain : rd_remain_ s = Z.of_nat (length p);
  if_more : p <> [];
  if_done : rd_done_ s = false;
  if_fin : fin (rd_fh_ s) = final;
  if_mask : mask (rd_fh_ s) = true;
  if_cont : rd_cont_ s = negb final;
  if_size : rd_size_ s = Z.of_nat (length x);
  if_op : rd_op_ s = t;
  if_key : is_key (rd_key_ s);
  if_bytes : Forall u8 p;
  if_text : checked (checked_part x) (rd_utf8_ s);
  if_limit : Z.of_nat (length x + length p) <= limit;
  if_part : (k <= length p)%nat /\ (k = length p \/ rest = []);
  if_buf : ring_holds (rd_buf_ s) v;
  if_contents : v = take k p ++ rest
}.

(** The state in which [data] of the message is missing, with [pings] to answer, when
    [w] is to come on the connection; [m] bounds what the operation still does. *)
Inductive mid (x data : bytes) (pings : list bytes) (w : bytes) (m : nat) (s : stream) : Prop :=
  | mid_between inside fs v :
      between_frames inside x v s -> fin (rd_fh_ s) = false \/ rd_done_ s = true ->
      message inside (Z.of_nat (length x)) fs data pings -> v ++ w = wire fs ++ tail -> m = (2 * length w + length v)%nat -> mid x data pings w m s
  | mid_in final p k rest fs data' v :
      in_frame final x p k v rest s -> data = p ++ data' ->
      rest ++ w = fst (mask_ref (rd_key_ s) (drop k p)) ++ wire fs ++ tail ->
      follows final (x ++ p) fs data' pings ->
      m = (2 * length w + length v)%nat -> mid x data pings w m s.

(** The whole message was received. *)
Record finished (w : bytes) (m : nat) (s : stream) : Prop := {
  fi_done : rd_done_ s = true;
  fi_between : exists v, between_frames false [] v s /\ v ++ w = tail /\ m = (2 * length w + length v)%nat
}.

(** A text is known to be valid. *)
Definition valid_message (x data : bytes) : Prop := strict = false -> t = text -> en = Complete -> valid_utf8 (x ++ data).

(** A text that is not valid, whatever follows. *)
Definition invalid (x data : bytes) : Prop :=
  t = text /\ if en is Complete then ~ valid_utf8 (x ++ data) else forall y, ~ valid_utf8 (x ++ data ++ y).

(** ** The check of a text *)

Lemma addressed_concat bs data : (length data <= sum_list (map snd bs))%nat -> concat (map snd (addressed bs data)) = data.
Proof.
  revert data. induction bs as [|[a n] bs IH]; intros data Hl; cbn [addressed map snd] in *.
  - by destruct data; [|cbn in Hl; lia].
  - change (sum_list (n :: map snd bs)) with (n + sum_list (map snd bs))%nat in Hl.
    destruct (Nat.leb_spec (length data) n); cbn [map concat snd]; [by rewrite app_nil_r|].
    rewrite IH by (rewrite length_drop; lia). by rewrite take_drop.
Qed.

Lemma mask_buffers_ref bs key : length key = 4%nat -> mask_buffers bs key = mask_ref key (concat (map snd bs)).
Proof.
  revert key. induction bs as [|[a b] bs IH]; intros key Hk; [done|]. cbn [mask_buffers map concat snd]. rewrite mask_ref_app, mask_buffer_ref by done.
  destruct (mask_ref_spec key b Hk) as (Es & _). destruct (mask_ref key b) as [d k]. cbn in Es. subst k.
  rewrite IH by (by rewrite length_rol). done.
Qed.

Lemma checked_part_app x c : checked_part (x ++ c) = checked_part x ++ checked_part c.
Proof. unfold checked_part. by case_bool_decide. Qed.

Lemma checked_part_u8 x : Forall u8 x -> Forall u8 (checked_part x).
Proof. unfold checked_part. by case_bool_decide. Qed.

(** The check of a chunk; at the end of the message the checker is as at the start. *)
Lemma check_text_ok x c o (s : stream) :
  Forall u8 x -> Forall u8 c -> (length c <= cb_size o)%nat -> rd_op_ s = t -> checked (checked_part x) (rd_utf8_ s) ->
  let last := (rd_remain_ s =? 0) && fin (rd_fh_ s) in
  exists b u, check_text c o s = Ret (b, upd_rd (set_rd_utf8 u) s) /\
    if b then checked (checked_part (if last then [] else x ++ c)) u /\ (last = true -> t = text -> valid_utf8 (x ++ c))
    else t = text /\ (last = true /\ ~ valid_utf8 (x ++ c) \/ forall y, ~ valid_utf8 ((x ++ c) ++ y)).
Proof.
  intros Hx Hc Hl Hop Hck last. unfold check_text. rewrite Hop. unfold checked_part in *.
  case_bool_decide as Et.
  - destruct (write_buffers_spec (addressed (cb_ o) c) x (rd_utf8_ s) Hx) as (b & u & -> & H); [|done|].
    { apply Forall_map, Forall_concat. by rewrite addressed_concat by exact Hl. }
    cbn [obind]. rewrite addressed_concat in H by exact Hl. destruct b.
    + cbn [negb rd upd_rd set_rd set_rd_utf8 rd_remain_ rd_fh_]. fold last. destruct last; [|by exists true, u].
      destruct (finish u) as [ok u'] eqn:Ef. pose proof (checked_finish _ _ H) as Hok. rewrite Ef in Hok. cbn [fst] in Hok.
      injection Ef as _ <-. exists ok, new_checker. split; [done|].
      destruct ok; [split; [apply checked_new|intros _ _; by apply Hok]|]. split; [done|]. left. split; [done|]. intros Hv. by apply Hok in Hv.
    + exists false, u. split; [done|]. split; [done|]. by right.
  - exists true, (rd_utf8_ s). assert (s = upd_rd (set_rd_utf8 (rd_utf8_ s)) s) as <- by (by destruct s as [[]]).
    split; [done|]. by destruct last.
Qed.

Lemma clamp_small z : 0 <= z < 2 ^ 63 -> clamp z = z.
Proof. intros H. unfold clamp, clamp_to, size_max. zcases. Qed.

(** ** What an operation reaches *)

(** [room] is the size of the caller's buffers. *)
Context (create_mask : nat -> Z) (addr : Z) (room : nat).
Hypothesis room_positive : (1 <= room)%nat.

(** An operation that has read nothing. *)
Definition fresh (o : read_some_op) : Prop := received o = [] /\ bytes_written_ o = 0%nat /\ result_ o = None /\ cb_size o = room.

(** The frame that answers a ping. *)
Definition pong_frame (payload : bytes) : bytes :=
  frame_bytes (mk_fh (Z.of_nat (length payload)) 0 pong true false false false false) payload.

(** The close frame that is sent with the code [c]. *)
Definition close_frame (c : Z) : bytes := frame_bytes (mk_fh 2 0 close true false false false false) (big_bytes 2 c).

(** Why the connection is failed with the error code [e] and the close code [c]: the
    message ends so, or a part of a text is not valid. *)
Definition ends_with (e : ws_error) (c : Z) : Prop :=
  en = Closing e c \/
  en = Violation /\ e <> closed /\ c = if bool_decide (e = message_too_big) then close_too_big else close_protocol_error.

Definition fails (x data : bytes) (pings : list bytes) (e : ws_error) (c : Z) : Prop :=
  data = [] /\ pings = [] /\ ends_with e c \/
  e = bad_frame_payload /\ c = close_bad_payload /\ invalid x data.

(** The stream while the operation closes the connection. *)
Record shutting (s : stream) : Prop := {
  sh_status : status_ s = status_closing;
  sh_rd_block : rd_block_ s = id_read;
  sh_wr_block : wr_block_ s = id_read;
  sh_paused : paused_rd_ s = false /\ paused_wr_ s = false
}.

(** The results of an operation with [data] of the message missing, by what it waits
    for; [m] bounds what is left to do after it. *)
Inductive good (x data : bytes) (pings : list bytes) (w : bytes) (m : nat) : read_result -> stream -> Prop :=
  | good_header o n s0 s v inside fs :
      fresh o -> between_frames inside x v s0 -> message inside (Z.of_nat (length x)) fs data pings ->
      v ++ w = wire fs ++ tail -> prepared n s0 s -> (1 <= n)%nat -> (length v + n <= tcp_frame_size)%nat ->
      rd_block_ s0 = id_read -> w <> [] -> (2 * (2 * length w + length v) <= m)%nat ->
      good x data pings w m (Suspend (WaitHeader n) o) s
  | good_fill o n s0 s final p fs data' :
      fresh o -> in_frame final x p 0 [] [] s0 -> data = p ++ data' ->
      w = fst (mask_ref (rd_key_ s0) p) ++ wire fs ++ tail ->
      follows final (x ++ p) fs data' pings ->
      prepared n s0 s -> (1 <= n)%nat -> (n <= tcp_frame_size)%nat -> rd_block_ s0 = id_read -> (2 * (2 * length w) <= m)%nat ->
      good x data pings w m (Suspend (WaitFill n) o) s
  | good_direct o n s final p fs data' :
      fresh o -> in_frame final x p 0 [] [] s -> data = p ++ data' ->
      w = fst (mask_ref (rd_key_ s) p) ++ wire fs ++ tail ->
      follows final (x ++ p) fs data' pings ->
      (1 <= n <= length p)%nat -> (n <= cb_size o)%nat -> rd_block_ s = id_read -> (2 * (2 * length w) <= m)%nat ->
      good x data pings w m (Suspend (WaitDirect n) o) s
  | good_pong o s p pings' m' :
      fresh o -> pings = p :: pings' -> mid x data pings' w m' (set_wr_block id_none s) ->
      wr_block_ s = id_read -> rd_block_ s = id_none -> (2 * m' + 1 <= m)%nat ->
      good x data pings w m (Suspend (WaitPong (pong_frame p)) o) s
  | good_upcall o s c data' m' :
      received o = c -> bytes_written_ o = length c -> cb_size o = room -> (length c <= room)%nat -> data = c ++ data' ->
      (finished w m' s /\ data' = [] /\ pings = [] /\ en = Complete /\ (t = text -> valid_utf8 (x ++ c)) \/ rd_done_ s = false /\ mid (x ++ c) data' pings w m' s) ->
      rd_block_ s = id_none -> (2 * m' + 1 <= m)%nat ->
      good x data pings w m (if cont_ o then Upcall None o else Suspend (WaitUpcall None) o) s
  | good_close o s e c :
      result_ o = Some e -> fails x data pings e c -> shutting s ->
      good x data pings w m (Suspend (WaitClose (close_frame c)) o) s.

(** Failing the connection. *)
Lemma fail_connection_ok f x data pings w m o s e c :
  steady (upd_rd f s) -> rd_block_ s = id_read -> result_ o = Some e -> code_ o = c -> 0 < c < 2 ^ 16 -> fails x data pings e c ->
  exists r s', fail_connection create_mask o s = Ret (r, s') /\ good x data pings w m r s'.
Proof.
  intros Hst Hblk Hres Hc Hr Hf. unfold fail_connection. pose proof (st_wr_block _ Hst) as Hwb. change (wr_block_ s = id_none) in Hwb. rewrite Hwb. unfold mutex_try_lock.
  change (negb (id_none =? id_read)) with true. change (negb (id_none =? 0)) with false. cbn [assert_ obind negb].
  unfold send_close. rewrite Hc. set (s1 := set_status status_closing _). change (wr_close_ s1) with (wr_close_ s).
  destruct (st_close _ Hst) as [Hwc _]. change (wr_close_ s = false) in Hwc. rewrite Hwc. cbn [negb].
  set (s2 := set_rd_fb _ _). destruct (flat_reset (rd_fb_ s)) as [Hreset Hmax].
  pose proof (st_rd_fb _ Hst) as Hfb. change (Flat.max_size (rd_fb_ s) = 139%nat) in Hfb. rewrite Hfb in Hmax.
  pose proof (write_close_frame create_mask s2 (mk_close_reason c [])) as H. unfold mask_ready, whole_header in H.
  change (role_ s2) with (role_ (upd_rd f s)) in H. rewrite (st_role _ Hst) in H.
  destruct H as (db & -> & Hdb & _); [done|done|change (rd_fb_ s2) with (Flat.reset (rd_fb_ s)); rewrite Hmax; cbn; lia|done|]. cbn [obind].
  change (wr_block_ (set_rd_fb db s2)) with id_read. change (is_locked id_read id_read) with true. cbn [assert_ obind].
  eexists _, _. split; [done|]. change (rd_fb_ (set_rd_fb db s2)) with db. rewrite (flat_contents _ _ Hdb).
  assert (close_payload (mk_close_reason c []) = big_bytes 2 c) as ->.
  { unfold close_payload. cbn [code reason]. rewrite (proj2 (Z.eqb_neq _ _)) by (unfold close_none; lia). rewrite wrap_small by (unfold in_width; lia). apply app_nil_r. }
  rewrite length_big_bytes. apply (good_close _ _ _ _ _ o _ e c); [done|done|]. split; try done. by apply Hst.
Qed.

Lemma upcall_ok ec o s : rd_block_ s = id_read -> wr_block_ s = id_none ->
  upcall ec o s = Ret (if cont_ o then Upcall ec o else Suspend (WaitUpcall ec) o, set_rd_block id_none s).
Proof.
  intros Hr Hw. unfold upcall, mutex_try_unlock. rewrite Hr. change (id_read =? id_read) with true. cbn [negb].
  change (wr_block_ (set_rd_block 0 s)) with (wr_block_ s). rewrite Hw. change (id_none =? id_read) with false. cbn [negb obind].
  assert (set_wr_block id_none (set_rd_block 0 s) = set_rd_block id_none s) as -> by (unfold set_wr_block; cbn; destruct s; cbn in *; by subst).
  by destruct (cont_ o).
Qed.

Lemma steady_set_rd_block i s : steady s -> steady (set_rd_block i s).
Proof. by intros []. Qed.

(** The end of a chunk [c], with [p] of the payload of the frame to come. *)
Lemma finish_chunk final x c p k v rest w fs data' pings m o s :
  steady s -> rd_remain_ s = Z.of_nat (length p) -> fin (rd_fh_ s) = final -> mask (rd_fh_ s) = true -> rd_cont_ s = negb final ->
  rd_size_ s = Z.of_nat (length (x ++ c)) -> rd_op_ s = t -> is_key (rd_key_ s) -> Forall u8 p ->
  checked (checked_part (if (rd_remain_ s =? 0) && final then [] else x ++ c)) (rd_utf8_ s) ->
  ((rd_remain_ s =? 0) && final = true -> t = text -> valid_utf8 (x ++ c)) ->
  Z.of_nat (length (x ++ c) + length p) <= limit ->
  (k <= length p)%nat /\ (k = length p \/ rest = []) -> ring_holds (rd_buf_ s) v -> v = take k p ++ rest ->
  rest ++ w = fst (mask_ref (rd_key_ s) (drop k p)) ++ wire fs ++ tail ->
  follows final (x ++ c ++ p) fs data' pings ->
  received o = c -> bytes_written_ o = length c -> cb_size o = room -> (length c <= room)%nat -> rd_block_ s = id_read ->
  (2 * (2 * length w + length v) + 1 <= m)%nat ->
  exists r s', finish_payload o s = Ret (r, s') /\ good x (c ++ p ++ data') pings w m r s'.
Proof.
  intros Hst Hrem Hfin Hmask Hcont Hsize Hop Hkey Hu Hck Hval Hlim Hk Hbuf Hv Hw Hms Hrc Hbw Hroom Hcr Hblk Hm.
  unfold finish_payload. rewrite upcall_ok by (done || by apply Hst). eexists _, _. split; [done|].
  apply (good_upcall _ _ _ _ _ o _ c (p ++ data') (2 * length w + length v)); try done. rewrite Hfin in *.
  destruct p as [|b p].
  - cbn in Hrem. rewrite Hrem in *. change (0 =? 0) with true in *. cbn [andb length app] in *. rewrite firstn_nil in Hv. rewrite drop_nil in Hw. cbn [app fst mask_ref] in *. subst v.
    destruct final; cbn [negb andb] in *.
    + left. destruct Hms as (-> & -> & -> & He). split; [|by split; [|split; [|split; [|apply Hval]]]]. split; [done|]. exists rest. split; [|done].
      split; try done; cbn; rewrite ?Hrem; try done; first [by destruct Hst|rewrite Hsize; lia].
    + right. split; [done|]. rewrite app_nil_r in Hms. apply (mid_between _ _ _ _ _ _ true fs rest); try done; [|by left].
      split; try done; cbn; rewrite ?Hrem; try done; first [by destruct Hst|rewrite Hsize; lia].
  - assert ((rd_remain_ s =? 0) = false) as Hne by (rewrite Hrem; by apply Z.eqb_neq). rewrite Hne in Hck. cbn [andb] in Hck.
    right. split; [cbn; by rewrite ?Hne|]. apply (mid_in _ _ _ _ _ _ final (b :: p) k rest fs data' v); try done.
    + split; try done; cbn [rd set_rd_block upd_rd set_rd set_rd_done rd_done_ rd_remain_ rd_fh_]; try done; [by destruct Hst|by rewrite Hne].
    + destruct final; [done|]. by rewrite <- app_assoc.
Qed.

(** A chunk that the check rejects. *)
Lemma chunk_invalid final x c p fs data' pings last :
  follows final (x ++ c ++ p) fs data' pings -> t = text -> (last = true -> final = true /\ p = []) ->
  (last = true /\ ~ valid_utf8 (x ++ c) \/ forall y, ~ valid_utf8 ((x ++ c) ++ y)) -> invalid x (c ++ p ++ data').
Proof.
  intros Hms Ht Hlast H. split; [done|]. destruct H as [[Hl Hn]|Hn].
  - destruct (Hlast Hl) as [-> ->]. destruct Hms as (_ & -> & _ & ->). by rewrite app_nil_r.
  - destruct en; [rewrite app_assoc; apply Hn|..]; intros y; rewrite <- !app_assoc, app_assoc; apply Hn.
Qed.

(** A payload, of which the read buffer has something. *)
Lemma copy_payload_ok final x p k v rest w fs data' pings m o s :
  in_frame final x p k v rest s -> fresh o -> rd_block_ s = id_read -> Forall u8 x -> v <> [] ->
  rest ++ w = fst (mask_ref (rd_key_ s) (drop k p)) ++ wire fs ++ tail ->
  follows final (x ++ p) fs data' pings ->
  (2 * (2 * length w + length v) <= m)%nat ->
  exists r s', copy_payload create_mask o s = Ret (r, s') /\ good x (p ++ data') pings w m r s'.
Proof.
  intros [Hst Hrem Hmore Hdone Hfin Hmask Hcont Hsize Hop Hkey Hu Hck Hlim Hk Hbuf Hv] (Ho1 & Ho2 & _ & Hcb) Hblk Hx Hne Hw Hms Hm.
  pose proof (ring_size_holds _ _ Hbuf) as Hsz. assert (0 < length v)%nat by (destruct v; [done|cbn; lia]).
  assert (0 < length p)%nat by (destruct p; [done|cbn; lia]).
  unfold copy_payload. rewrite Hsz, (proj2 (Nat.ltb_lt _ _)) by done. rewrite (proj2 Hbuf), Hrem, clamp_small, Nat2Z.id by lia.
  set (n := Nat.min (Nat.min (cb_size o) (length v)) (length p)).
  assert (n <= k)%nat as Hnk.
  { pose proof (f_equal length Hv) as Hl. rewrite length_app, length_take in Hl. destruct Hk as [? [-> | ->]]; [lia|]. cbn in Hl. lia. }
  assert (take n v = take n p) as -> by (rewrite Hv, take_app_le by (rewrite length_take; lia); by rewrite take_take, Nat.min_l by lia).
  assert (length (take n p) = n) as Hln by (rewrite length_take; lia).
  set (s1 := upd_rd _ s).
  assert (p = take n p ++ drop n p) as Ep by by rewrite take_drop.
  destruct (check_text_ok x (take n p) o s1) as (b & u & -> & Hcu); try done; [by apply Forall_take|lia|].
  cbn [obind]. change (rd_remain_ s1) with (Z.of_nat (length p) - Z.of_nat n) in Hcu. change (fin (rd_fh_ s1)) with (fin (rd_fh_ s)) in Hcu. rewrite Hfin in Hcu.
  destruct b; cbn [negb]; [destruct Hcu as [Hcu Hvalid]|]; swap 1 2.
  { destruct Hcu as [Ht Hcu]. apply (fail_connection_ok (fun r => r) x (p ++ data') pings w m (bad_payload o) _ bad_frame_payload close_bad_payload); try done; [by destruct Hst|].
    right. split; [done|]. split; [done|]. rewrite Ep at 1. rewrite <- app_assoc. apply (chunk_invalid final x (take n p) (drop n p) fs data' pings _ ltac:(by rewrite take_drop) Ht) in Hcu; [done|].
    intros [Hz Hf]%andb_true_iff. apply Z.eqb_eq in Hz. split; [done|]. apply drop_ge. lia. }
  destruct (ring_consume _ _ n Hbuf) as [Hbuf' Hcap']. replace (p ++ data') with (take n p ++ drop n p ++ data') by (by rewrite app_assoc, take_drop).
  apply (finish_chunk final x (take n p) (drop n p) (k - n) (drop n v) rest w fs data' pings); try done.
  - destruct Hst. split; try done. cbn. by rewrite Hcap'.
  - cbn. rewrite length_drop. lia.
  - cbn. rewrite wrap_small; [rewrite Hsize, length_app; lia|]. unfold in_width. lia.
  - by apply Forall_drop.
  - rewrite length_app, length_drop, Hln. lia.
  - rewrite length_drop. destruct Hk as [? [-> | ->]]; split; (lia || by right).
  - rewrite Hv, skipn_app, length_take. replace (n - Nat.min k (length p))%nat with 0%nat by lia. by rewrite drop_0, skipn_firstn_comm.
  - rewrite drop_drop. by replace (n + (k - n))%nat with k by lia.
  - destruct final; [done|]. by rewrite take_drop.
  - cbn. by rewrite Ho1.
  - cbn. by rewrite Ho2.
  - lia.
  - rewrite length_drop. lia.
Qed.

(** A payload, with or without a byte in the read buffer. *)
Lemma read_payload_ok final x p k v rest w fs data' pings m o s :
  in_frame final x p k v rest s -> fresh o -> rd_block_ s = id_read -> Forall u8 x ->
  rest ++ w = fst (mask_ref (rd_key_ s) (drop k p)) ++ wire fs ++ tail ->
  follows final (x ++ p) fs data' pings ->
  (2 * (2 * length w + length v) <= m)%nat ->
  exists r s', read_payload create_mask o s = Ret (r, s') /\ good x (p ++ data') pings w m r s'.
Proof.
  intros Hf Ho Hblk Hx Hw Hms Hm. pose proof (ring_size_holds _ _ (if_buf _ _ _ _ _ _ _ Hf)) as Hsz.
  assert (0 < length p)%nat by (pose proof (if_more _ _ _ _ _ _ _ Hf); destruct p; [done|cbn; lia]).
  unfold read_payload. rewrite (if_remain _ _ _ _ _ _ _ Hf). rewrite (proj2 (Z.ltb_lt _ _)) by lia. rewrite Hsz.
  destruct v as [|b v]; [|by rewrite andb_false_l; apply (copy_payload_ok final x p k (b :: v) rest w fs)].
  assert (k = 0%nat /\ rest = []) as [-> ->].
  { pose proof (if_contents _ _ _ _ _ _ _ Hf) as E. symmetry in E. apply app_nil in E as [E ->]. split; [|done].
    apply (f_equal length) in E. rewrite length_take in E. cbn in E. lia. }
  cbn [length Nat.eqb andb app] in *. rewrite drop_0 in Hw.
  pose proof (st_capacity _ (if_steady _ _ _ _ _ _ _ Hf)) as Hcap. pose proof (if_limit _ _ _ _ _ _ _ Hf) as Hlim.
  rewrite clamp_small, Nat2Z.id by lia. destruct (Nat.ltb_spec (Nat.min (length p) (cb_size o)) (Ring.max_size (rd_buf_ s))) as [|Hge].
  - destruct (prepare_read_ok WaitFill o s [] (if_buf _ _ _ _ _ _ _ Hf)) as (n & s' & -> & Hp & H1 & Hn); [rewrite Hcap; cbn; unfold tcp_frame_size; lia|].
    eexists _, _. split; [done|]. apply (good_fill _ _ _ _ _ o n s s' final p fs data'); try done; cbn [length] in *; lia.
  - unfold copy_payload. rewrite Hsz, (if_remain _ _ _ _ _ _ _ Hf). change (0 <? 0)%nat with false. cbv zeta.
    destruct Ho as (Ho1 & Ho2 & Ho3 & Hcb). rewrite clamp_small, Nat2Z.id by lia.
    rewrite (proj2 (Z.ltb_lt _ _)), (proj2 (Nat.ltb_lt _ (cb_size o))), (proj2 (Nat.ltb_lt _ (Nat.min _ _))) by lia. cbn [assert_ obind].
    eexists _, _. split; [done|]. apply (good_direct _ _ _ _ _ o _ s final p fs data'); try done; lia.
Qed.

(** The first bytes of a masked payload with what follows. *)
Lemma arrived key p d w r : is_key key ->
  d ++ w = fst (mask_ref key p) ++ r ->
  let k := Nat.min (length d) (length p) in
  length (take (length p) d) = k /\ fst (mask_ref key (take (length p) d)) = take k p /\
  drop (length p) d ++ w = fst (mask_ref (rol key k) (drop k p)) ++ r.
Proof.
  intros Hk E k. pose proof (proj1 (proj2 (mask_ref_spec key p (proj1 Hk)))) as El.
  assert (take (length p) d = take k (fst (mask_ref key p))) as Et.
  { rewrite <- (take_app_le (fst (mask_ref key p)) r) by lia. rewrite <- E. unfold k.
    destruct (Nat.le_ge_cases (length d) (length p)).
    - rewrite Nat.min_l by done. by rewrite take_ge, take_app_length by done.
    - rewrite Nat.min_r by done. by rewrite take_app_le. }
  destruct (mask_ref_cut key p k Hk) as [E1 E2]. rewrite Et, E1. rewrite length_take, El.
  assert (length (take k p) = k) as Hlk by (rewrite length_take; lia). rewrite Hlk in E2.
  split; [lia|]. split; [done|]. rewrite <- E2. apply (app_inv_head (take (length p) d)). rewrite app_assoc, take_drop, E, Et, app_assoc, take_drop. done.
Qed.

(** After a read for a payload. *)
Lemma resume_fill_ok final x p w fs data' pings m o n s0 s d w' :
  fresh o -> in_frame final x p 0 [] [] s0 -> rd_block_ s0 = id_read -> Forall u8 x ->
  w = fst (mask_ref (rd_key_ s0) p) ++ wire fs ++ tail ->
  follows final (x ++ p) fs data' pings ->
  prepared n s0 s -> (n <= tcp_frame_size)%nat -> d <> [] -> (length d <= n)%nat -> w = d ++ w' -> (2 * (2 * length w' + length d) <= m)%nat ->
  exists r s', resume_fill create_mask None d o s = Ret (r, s') /\ good x (p ++ data') pings w' m r s'.
Proof.
  intros Ho Hf Hblk Hx Hw Hms Hp Hn Hd Hdn Ew Hm. pose proof (if_steady _ _ _ _ _ _ _ Hf) as Hst.
  destruct (prepared_receive n s0 s [] d Hp (if_buf _ _ _ _ _ _ _ Hf)) as (b & Eb & Hb & Hcb); [rewrite (st_capacity _ Hst); done|done|].
  unfold resume_fill. cbn [check_ok negb]. rewrite Eb. change (mask (rd_fh_ (with_buf b s0))) with (mask (rd_fh_ s0)).
  rewrite (if_mask _ _ _ _ _ _ _ Hf). cbn [app] in Hb. pose proof (if_key _ _ _ _ _ _ _ Hf) as Hkey. pose proof (if_limit _ _ _ _ _ _ _ Hf) as Hlim.
  change (rd_remain_ (with_buf b s0)) with (rd_remain_ s0). rewrite (if_remain _ _ _ _ _ _ _ Hf).
  destruct (mask_read_ok (with_buf b s0) d (Z.of_nat (length p)) Hkey Hb ltac:(lia)) as (b2 & E2 & Hb2 & Hcb2). rewrite E2. clear E2.
  rewrite Nat2Z.id in *. change (rd_key_ (with_buf b s0)) with (rd_key_ s0) in *.
  destruct (arrived (rd_key_ s0) p d w' (wire fs ++ tail) Hkey) as (El & Et & Er); [by rewrite <- Ew|].
  rewrite El, Et in *. set (k := Nat.min (length d) (length p)) in *. set (s2 := upd_rd _ (with_buf b s0)).
  assert (0 < length d)%nat by (destruct d; [done|cbn; lia]).
  apply (copy_payload_ok final x p k (take k p ++ drop (length p) d) (drop (length p) d) w' fs data' pings m o s2); try done.
  - destruct Hf. split; try done.
    + destruct if_steady0. split; try done. change (Ring.capacity b2 = tcp_frame_size). rewrite Hcb2. change (Ring.capacity b = tcp_frame_size). by rewrite Hcb.
    + by apply rol_key.
    + split; [lia|]. destruct (Nat.le_gt_cases (length d) (length p)); [right; by apply drop_ge|left; lia].
  - intros E. apply (f_equal length) in E. rewrite length_app, length_take, length_drop in E. cbn [length] in E. lia.
  - rewrite length_app, length_take, length_drop. lia.
Qed.

(** After a read into the caller's buffers. *)
Lemma resume_direct_ok final x p w fs data' pings m o n s d w' :
  fresh o -> in_frame final x p 0 [] [] s -> rd_block_ s = id_read -> Forall u8 x ->
  w = fst (mask_ref (rd_key_ s) p) ++ wire fs ++ tail ->
  follows final (x ++ p) fs data' pings ->
  (n <= length p)%nat -> (n <= cb_size o)%nat -> d <> [] -> (length d <= n)%nat -> w = d ++ w' -> (2 * (2 * length w') + 1 <= m)%nat ->
  exists r s', resume_direct create_mask None d o s = Ret (r, s') /\ good x (p ++ data') pings w' m r s'.
Proof.
  intros (Ho1 & Ho2 & Ho3 & Hcb) Hf Hblk Hx Hw Hms Hnp Hnc Hd Hdn Ew Hm.
  destruct Hf as [Hst Hrem Hmore Hdone Hfin Hmask Hcont Hsize Hop Hkey Hu Hck Hlim _ Hbuf _].
  assert (0 < length d)%nat by (destruct d; [done|cbn; lia]). unfold resume_direct. cbn [check_ok negb].
  rewrite (proj2 (Nat.ltb_lt _ _)) by done. cbn [assert_ obind]. set (s1 := upd_rd _ s).
  change (mask (rd_fh_ s1)) with (mask (rd_fh_ s)). rewrite Hmask. change (rd_key_ s1) with (rd_key_ s).
  rewrite mask_buffers_ref by apply Hkey. rewrite addressed_concat by (unfold cb_size in *; lia).
  destruct (arrived (rd_key_ s) p d w' (wire fs ++ tail) Hkey) as (El & Et & Er); [by rewrite <- Ew|].
  rewrite take_ge in El, Et by lia. rewrite drop_ge in Er by lia. rewrite Nat.min_l in * by lia.
  destruct (mask_ref_spec (rd_key_ s) d (proj1 Hkey)) as (Ek & Eld & _). destruct (mask_ref (rd_key_ s) d) as [c key'] eqn:Em. cbn [fst snd] in *.
  subst key'. clear Em. set (s2 := upd_rd _ s1). assert (length c = length d) as Hlc by done.
  assert (p = c ++ drop (length d) p) as Ep by (by rewrite Et, take_drop).
  destruct (check_text_ok x c o s2) as (b & u & -> & Hcu); try done; [rewrite Et; by apply Forall_take|lia|].
  cbn [obind]. change (rd_remain_ s2) with (rd_remain_ s - Z.of_nat (length d)) in Hcu. change (fin (rd_fh_ s2)) with (fin (rd_fh_ s)) in Hcu. rewrite Hfin in Hcu.
  replace (p ++ data') with (c ++ drop (length d) p ++ data') by (by rewrite app_assoc, <- Ep).
  destruct b; cbn [negb]; [destruct Hcu as [Hcu Hvalid]|]; swap 1 2.
  { destruct Hcu as [Ht Hcu]. apply (fail_connection_ok (fun r => r) _ _ _ _ _ (bad_payload o) _ bad_frame_payload close_bad_payload); try done; [by destruct Hst|].
    right. split; [done|]. split; [done|]. apply (chunk_invalid final x c (drop (length d) p) fs data' pings _ ltac:(by rewrite <- Ep) Ht) in Hcu; [done|].
    intros [Hz Hf]%andb_true_iff. apply Z.eqb_eq in Hz. split; [done|]. apply drop_ge. lia. }
  apply (finish_chunk final x c (drop (length d) p) 0 [] [] w' fs data' pings); try done.
  - by destruct Hst.
  - cbn. rewrite Hrem, length_drop. lia.
  - cbn. rewrite wrap_small; [rewrite Hsize, length_app; lia|]. unfold in_width. lia.
  - by apply rol_key.
  - by apply Forall_drop.
  - rewrite length_app, length_drop. lia.
  - split; [lia|by right].
  - destruct final; [done|]. by rewrite Et, take_drop.
  - cbn. by rewrite Ho1.
  - cbn. by rewrite Ho2.
  - lia.
  - cbn [length]. lia.
Qed.

(** ** Headers *)

(** The frames of a message are among those that fit, and these are the ones that the
    stream accepts. *)
Lemma frame_fits (inside : bool) n fh p :
  client_frame (fh, p) ->
  (is_control (op fh) = true /\ is_reserved (op fh) = false /\ fin fh = true /\ len fh <= 125 \/
   op fh = (if inside then cont else t) /\ n + len fh <= limit) ->
  fits inside n fh.
Proof.
  intros [Hok Hlen _ Hmask Hrsv] Hcase. cbn [fst snd] in *.
  assert (op fh = (if inside then cont else t) -> is_control (op fh) = false /\ is_reserved (op fh) = false /\ (op fh = cont <-> inside = true)) as Hop.
  { intros ->. destruct inside; [done|]. by destruct data_opcode as [-> | ->]. }
  destruct Hcase as [(Hc & Hr & Hf & Hl)|[E Hl]]; [by split; try done; rewrite Hc|].
  destruct (Hop E) as (Hc & Hr & Hi). by split; try done; rewrite Hc.
Qed.

Lemma fits_acceptable inside x v s fh :
  between_frames inside x v s -> fits inside (Z.of_nat (length x)) fh <-> acceptable s fh.
Proof.
  intros [Hst _ Hcont Hdone Hsize Hin _ _]. pose proof (st_role _ Hst) as Hrole. pose proof (st_limit _ Hst) as Hlim.
  assert (forall (Hd : op fh = cont <-> inside = true), message_size s fh = Z.of_nat (length x) + len fh) as Hms.
  { intros Hd. unfold message_size. case_bool_decide as Ec; [by destruct (Hin (proj1 Hd Ec)) as [-> _]|].
    destruct inside; [by destruct Ec; apply Hd|]. by destruct (Hdone eq_refl) as [_ ->]. }
  split; intros [H1 H2 H3 H4 H5 H6 H7]; split; try done.
  - by rewrite Hcont.
  - intros Hc. rewrite (Hms (H6 Hc)), Hlim. specialize (H7 Hc). destruct H1 as ([? ?] & _). split; [lia|by right].
  - by apply H4.
  - by rewrite <- Hcont.
  - intros Hc. rewrite Hcont in H6. destruct (H7 Hc) as [_ Hs]. rewrite (Hms (H6 Hc)), Hlim in Hs. lia.
Qed.

(** The mask is removed from what has arrived of the payload. *)
Lemma unmask_ok fh p v0 w r (s : stream) :
  client_frame (fh, p) -> rd_fh_ s = fh -> rd_key_ s = prepare_key (key fh) -> ring_holds (rd_buf_ s) v0 -> Z.of_nat (length p) < 2 ^ 63 ->
  v0 ++ w = fst (mask_ref (prepare_key (key fh)) p) ++ r ->
  let k := Nat.min (length v0) (length p) in
  exists b key', (if (0 <? len (rd_fh_ s)) && mask (rd_fh_ s) then mask_read (len (rd_fh_ s)) s else s) = upd_rd (fun r => set_rd_key key' (set_rd_buf b r)) s /\
    ring_holds b (take k p ++ drop (length p) v0) /\ Ring.capacity b = Ring.capacity (rd_buf_ s) /\ is_key key' /\
    drop (length p) v0 ++ w = fst (mask_ref key' (drop k p)) ++ r.
Proof.
  intros [_ Hlen _ Hmask _] Hfh Hkey Hb Hp E k. cbn [fst snd] in *. rewrite Hfh, Hmask, Hlen, andb_true_r.
  assert (is_key (rd_key_ s)) as Hk by (rewrite Hkey; apply prepare_key_is_key).
  destruct (Z.ltb_spec 0 (Z.of_nat (length p))) as [Hpos|Hpos].
  - destruct (mask_read_ok s v0 (Z.of_nat (length p)) Hk Hb ltac:(lia)) as (b & -> & Hb' & Hc).
    rewrite Nat2Z.id in *. rewrite Hkey in *. destruct (arrived (prepare_key (key fh)) p v0 w r Hk E) as (El & Et & Er).
    rewrite El, Et in *. exists b, (rol (prepare_key (key fh)) k). split; [done|]. split; [done|]. split; [done|]. split; [by apply rol_key|done].
  - assert (p = []) as -> by (destruct p; [done|cbn in Hpos; lia]). exists (rd_buf_ s), (rd_key_ s). split; [by destruct s as [[]]|].
    rewrite firstn_nil, drop_nil, drop_0. done.
Qed.

(** The records after the header of a control frame. *)
Lemma between_control inside x v s fh b key' v' :
  between_frames inside x v s -> ring_holds b v' -> Ring.capacity b = Ring.capacity (rd_buf_ s) -> 
  between_frames inside x v' (upd_rd (fun r => set_rd_key key' (set_rd_buf b (set_rd_fh fh r))) s).
Proof. intros [] Hb Hc. split; try done. destruct bf_steady0. split; try done. change (Ring.capacity b = tcp_frame_size). by rewrite Hc. Qed.

(** The pong for a ping. *)
Lemma answer_ping_ok o s payload :
  steady s -> rd_block_ s = id_read -> (length payload <= 125)%nat ->
  exists db, answer_ping create_mask payload o s =
    Ret (Suspend (WaitPong (pong_frame payload)) o, set_wr_block id_read (set_rd_block id_none (set_rd_fb db s))) /\ Flat.max_size db = 139%nat.
Proof.
  intros Hst Hblk Hl. unfold answer_ping. destruct (flat_reset (rd_fb_ s)) as [Hr Hm]. rewrite (st_rd_fb _ Hst) in Hm.
  pose proof (write_ping_frame create_mask (set_rd_fb (Flat.reset (rd_fb_ s)) s) pong payload) as H.
  unfold mask_ready, whole_header in H. change (role_ (set_rd_fb (Flat.reset (rd_fb_ s)) s)) with (role_ s) in H. rewrite (st_role _ Hst) in H.
  destruct H as (db & -> & Hdb & Hmdb); [done|done|cbn [rd_fb_ set_rd_fb]; rewrite Hm; lia|lia|]. cbn [obind].
  cbn [rd_fb_ set_rd_fb] in Hmdb. rewrite Hm in Hmdb.
  change (rd_block_ (set_rd_fb db _)) with (rd_block_ s). rewrite Hblk. unfold mutex_unlock. cbn [assert_ Z.eqb Pos.eqb id_read obind].
  change (wr_block_ (set_rd_block 0 _)) with (wr_block_ s). rewrite (st_wr_block _ Hst). unfold mutex_try_lock.
  change (negb (id_none =? id_read)) with true. change (negb (id_none =? 0)) with false. cbn [assert_ obind negb]. unfold send_pong.
  change (is_locked id_read (wr_block_ (set_wr_block id_read _))) with true. cbn [assert_ obind].
  exists db. split; [|done]. change (rd_fb_ (set_wr_block id_read _)) with db. by rewrite (flat_contents _ _ Hdb).
Qed.

(** The header of the next frame is incomplete, or read. *)
Lemma header_cases fh p v w r s :
  acceptable s fh -> client_frame (fh, p) -> 0 <= rd_size_ s -> ring_holds (rd_buf_ s) v -> v ++ w = frame_bytes fh p ++ r ->
  (exists fh', parse_fh None s = Ret (false, None, upd_rd (set_rd_fh fh') s) /\ (length v <= 139)%nat /\ w <> []) \/
  (exists v0 b, v = header_bytes fh ++ v0 /\ v0 ++ w = fst (mask_ref (prepare_key (key fh)) p) ++ r /\ ring_holds b v0 /\
    Ring.capacity b = Ring.capacity (rd_buf_ s) /\ (is_control (op fh) = true -> (length p <= length v0)%nat) /\
    parse_fh None s = Ret (true, None, upd_rd (fun r => set_rd_buf b (set_rd_fh fh r)) (accept fh s))).
Proof.
  intros Ha [Hok Hlen _ Hmask _] Hs Hb E. cbn [fst snd] in *. unfold frame_bytes in E. rewrite Hmask in E. rewrite <- app_assoc in E.
  pose proof (length_header_bytes fh Hok) as Hlh.
  destruct (Nat.lt_ge_cases (length v) (length (header_bytes fh))) as [Hl|Hl].
  - left. destruct (parse_fh_short s fh v (drop (length v) (header_bytes fh)) None Ha Hb) as (fh' & H).
    + rewrite <- (take_drop (length v) (header_bytes fh)) at 2. f_equal.
      rewrite <- (take_app_le (header_bytes fh) (fst (mask_ref (prepare_key (key fh)) p) ++ r)) by lia. by rewrite <- E, take_app_length.
    + intros H. apply (f_equal length) in H. rewrite length_drop in H. cbn [length] in H. lia.
    + exists fh'. split; [done|]. split; [lia|]. intros ->. apply (f_equal length) in E. rewrite app_nil_r, !length_app in E. lia.
  - set (v0 := drop (length (header_bytes fh)) v).
    assert (v = header_bytes fh ++ v0) as Hv.
    { rewrite <- (take_drop (length (header_bytes fh)) v) at 1. f_equal.
      rewrite <- (take_app_le v w) by done. by rewrite E, take_app_length. }
    rewrite Hv in E, Hb. rewrite <- app_assoc in E. apply app_inv_head in E.
    pose proof (parse_fh_header s fh v0 None Ha Hs Hb) as H.
    destruct (is_control (op fh) && (Z.of_nat (length v0) <? len fh)) eqn:Ec.
    + left. destruct H as (fh' & H). exists fh'. split; [done|]. apply andb_true_iff in Ec as [Ec Hv0]. apply Z.ltb_lt in Hv0.
      destruct (acc_control _ _ Ha Ec) as [_ H125]. split; [rewrite Hv, length_app; lia|]. intros ->.
      apply (f_equal length) in E. rewrite app_nil_r, length_app, (proj1 (proj2 (mask_ref_spec _ p (prepare_key_length _)))) in E. lia.
    + right. destruct H as (b & Hb' & Hcap & H). exists v0, b. split; [done|]. split; [done|]. split; [done|]. split; [done|]. split; [|done].
      intros Hc. rewrite Hc in Ec. cbn [andb] in Ec. apply Z.ltb_ge in Ec. lia.
Qed.

(** Waiting for the rest of a header. *)
Lemma wait_header_ok inside x v fs data pings w m o s fh' :
  between_frames inside x v s -> fresh o -> rd_block_ s = id_read -> message inside (Z.of_nat (length x)) fs data pings ->
  v ++ w = wire fs ++ tail -> (length v <= 139)%nat -> w <> [] -> (2 * (2 * length w + length v) <= m)%nat ->
  exists r s', prepare_read WaitHeader (set_result None o) (upd_rd (set_rd_fh fh') s) = Ret (r, s') /\ good x data pings w m r s'.
Proof.
  intros Hb Ho Hblk Hms Hw Hl Hne Hm. assert (between_frames inside x v (upd_rd (set_rd_fh fh') s)) as Hb1.
  { destruct Hb. split; try done. by destruct bf_steady0. }
  pose proof (st_capacity _ (bf_steady _ _ _ _ Hb1)) as Hcap.
  destruct (prepare_read_ok WaitHeader (set_result None o) _ v (bf_buf _ _ _ _ Hb1)) as (n & s' & -> & Hp & H1 & Hn); [rewrite Hcap; unfold tcp_frame_size; lia|].
  eexists _, _. split; [done|]. rewrite Hcap in Hn. apply (good_header _ _ _ _ _ _ n (upd_rd (set_rd_fh fh') s) s' v inside fs); try done. by destruct Ho as (? & ? & ? & ?).
Qed.

Lemma fresh_set_result o : fresh o -> fresh (set_result None o).
Proof. by intros (? & ? & ? & ?). Qed.

Lemma control_payload_ok (s : stream) p rest :
  ring_holds (rd_buf_ s) (p ++ rest) -> len (rd_fh_ s) = Z.of_nat (length p) -> (length p <= 125)%nat -> control_payload s = Ret p.
Proof.
  intros [_ Hb] Hl Hp. unfold control_payload. rewrite Hl, Hb, clamp_small, Nat2Z.id by lia. rewrite take_app_length, Z.eqb_refl. done.
Qed.

Lemma between_consume inside x p v s :
  between_frames inside x (p ++ v) s -> between_frames inside x v (consume_read (length p) s).
Proof.
  intros []. destruct (ring_consume _ _ (length p) bf_buf0) as [Hb Hc]. rewrite drop_app_length in Hb. split; try done.
  destruct bf_steady0. split; try done. change (Ring.capacity (Ring.consume (length p) (rd_buf_ s)) = tcp_frame_size). by rewrite Hc.
Qed.

Lemma needs_header_fin (s : stream) : rd_remain_ s = 0 -> fin (rd_fh_ s) = false -> needs_header s = true.
Proof. intros Hr Hf. unfold needs_header. by rewrite Hr, Hf. Qed.

Lemma wire_cons f fs : wire (f :: fs) ++ tail = frame_bytes (fst f) (snd f) ++ wire fs ++ tail.
Proof. unfold wire. cbn [map concat]. by rewrite <- app_assoc. Qed.

(** What the loop has to do for the next frame: the operation returns to it ([next])
    with the rest of the message. *)
Section Frame.
Context (inside : bool) (x v w : bytes) (fh : frame_header) (p : bytes) (fs : list frame) (o : read_some_op) (s : stream) (v0 : bytes) (b : Ring.static_buffer).
Hypothesis Hbf : between_frames inside x v s.
Hypothesis Hcf : client_frame (fh, p).
Hypothesis Hacc : acceptable s fh.
Hypothesis Hv : v = header_bytes fh ++ v0.
Hypothesis Hw : v0 ++ w = fst (mask_ref (prepare_key (key fh)) p) ++ wire fs ++ tail.
Hypothesis Hring : ring_holds b v0.
Hypothesis Hcap : Ring.capacity b = Ring.capacity (rd_buf_ s).
Hypothesis Hsmall : Z.of_nat (length p) < 2 ^ 63.

Let s1 := upd_rd (fun r => set_rd_buf b (set_rd_fh fh r)) (accept fh s).
Let s2 := if (0 <? len (rd_fh_ s1)) && mask (rd_fh_ s1) then mask_read (len (rd_fh_ s1)) s1 else s1.
Let unfin (fh : frame_header) := mk_fh (len fh) (key fh) (op fh) false (mask fh) (rsv1 fh) (rsv2 fh) (rsv3_ fh).

(** A control frame with its payload. *)
Lemma control_frame_state :
  is_control (op fh) = true -> (length p <= length v0)%nat ->
  exists rest key' b', s2 = upd_rd (fun r => set_rd_key key' (set_rd_buf b' (set_rd_fh fh r))) s /\ v0 = fst (mask_ref (prepare_key (key fh)) p) ++ rest /\
    rest ++ w = wire fs ++ tail /\ between_frames inside x (p ++ rest) (upd_rd (set_rd_fh (unfin fh)) s2).
Proof.
  intros Hc Hl. assert (rd_fh_ s1 = fh) as Hfh by done.
  assert (rd_key_ s1 = prepare_key (key fh)) as Hkey by (unfold s1; rewrite accept_control by (done || apply Hcf); done).
  destruct (unmask_ok fh p v0 w (wire fs ++ tail) s1 Hcf Hfh Hkey Hring Hsmall Hw) as (b' & key' & E & Hb' & Hcb & _ & Er).
  fold s2 in E. rewrite Nat.min_r, firstn_all in Hb' by done. rewrite Nat.min_r, drop_all in Er by done. cbn [mask_ref fst app] in Er.
  assert (s2 = upd_rd (fun r => set_rd_key key' (set_rd_buf b' (set_rd_fh fh r))) s) as E2.
  { rewrite E. unfold s1. rewrite accept_control by (done || apply Hcf). done. }
  exists (drop (length p) v0), key', b'. split; [done|]. split.
  - apply (app_inv_tail w). by rewrite <- app_assoc, Er, Hw.
  - split; [done|]. rewrite E2. apply (between_control inside x v s (unfin fh) b' key'); [done|done|]. by rewrite Hcb, <- Hcap.
Qed.

(** A data frame: what has arrived of its payload is in the read buffer. *)
Lemma data_frame_state :
  is_control (op fh) = false -> op fh = (if inside then cont else t) -> Z.of_nat (length x) + len fh <= limit ->
  exists v', ring_holds (rd_buf_ s2) v' /\ (length v' = length v0)%nat /\ rd_fh_ s2 = fh /\
  (p = [] -> fin fh = false -> between_frames true x v0 s2 /\ v' = v0) /\
  (p = [] -> fin fh = true -> v' = v0 /\ steady s2 /\ rd_remain_ s2 = 0 /\ rd_cont_ s2 = false /\ 0 <= rd_size_ s2 /\ checked (checked_part x) (rd_utf8_ s2)) /\
  (p <> [] ->
    in_frame (fin fh) x p (Nat.min (length v0) (length p)) v' (drop (length p) v0) (upd_rd (set_rd_done false) s2) /\
    drop (length p) v0 ++ w = fst (mask_ref (rd_key_ s2) (drop (Nat.min (length v0) (length p)) p)) ++ wire fs ++ tail).
Proof.
  intros Hc Hop Hlim. pose proof (cf_mask _ Hcf) as Hmask. pose proof (cf_len _ Hcf) as Hlen. cbn [fst snd] in *.
  pose proof (accept_data s fh Hacc (bf_size _ _ _ _ Hbf) Hc Hmask) as Ea.
  assert (rd_fh_ s1 = fh) as Hfh by done.
  assert (rd_key_ s1 = prepare_key (key fh)) as Hkey by (unfold s1; rewrite Ea; done).
  destruct (unmask_ok fh p v0 w (wire fs ++ tail) s1 Hcf Hfh Hkey Hring Hsmall Hw) as (b' & key' & E & Hb' & Hcb & Hkk & Er).
  fold s2 in E. destruct Hbf as [Hst Hrem Hcont Hdone Hsize Hin Htext Hbuf].
  assert (rd_op_ s2 = t /\ rd_size_ s2 = Z.of_nat (length x)) as [Hop2 Hsize2].
  { rewrite E. unfold s1. rewrite Ea. destruct inside; rewrite Hop in *; cbn [bool_decide decide].
    - rewrite bool_decide_true by done. destruct (Hin eq_refl). done.
    - rewrite bool_decide_false by (by destruct data_opcode as [-> | ->]). cbn. destruct (Hdone eq_refl) as [_ ->]. done. }
  assert (steady s2) as Hst2.
  { rewrite E. unfold s1. rewrite Ea. destruct Hst. split; try done. change (Ring.capacity b' = tcp_frame_size). by rewrite Hcb, <- st_capacity0, <- Hcap. }
  assert (rd_remain_ s2 = len fh /\ rd_cont_ s2 = negb (fin fh) /\ rd_utf8_ s2 = rd_utf8_ s /\ rd_key_ s2 = key' /\ rd_buf_ s2 = b' /\ rd_fh_ s2 = fh) as (R1 & R2 & R3 & R4 & R5 & R6).
  { rewrite E. unfold s1. by rewrite Ea. }
  exists (take (Nat.min (length v0) (length p)) p ++ drop (length p) v0).
  split; [by rewrite R5|]. split; [rewrite length_app, length_take, length_drop; lia|]. split; [done|]. split; [|split].
  - intros Hp Hf. rewrite Hp in *. cbn [length] in *. rewrite firstn_nil, drop_0 in *. split; [|done]. rewrite Hf in R2.
    split; try done; [by rewrite R1, Hlen|rewrite Hsize2; lia|by rewrite R3|by rewrite R5].
  - intros Hp Hf. rewrite Hp in *. cbn [length] in *. rewrite firstn_nil, drop_0 in *. rewrite Hf in R2. rewrite R1, Hlen, R3. repeat split; try done; try apply Hst2. lia.
  - intros Hp. split; [|by rewrite R4].
    split; try done; try (cbn; rewrite ?R1, ?R2, ?R3, ?R4, ?R5, ?R6; done).
    + by destruct Hst2.
    + apply (cf_bytes _ Hcf).
    + lia.
    + split; [lia|]. destruct (Nat.le_gt_cases (length v0) (length p)); [right; by apply drop_ge|left; lia].
Qed.

End Frame.

(** A valid text leaves nothing incomplete. *)
Lemma checked_valid x u : checked x u -> valid_utf8 x -> checked [] u.
Proof.
  intros H Hv. pose proof (proj2 (checked_finish x u H) Hv) as Hn. unfold finish in Hn. cbn [fst] in Hn. apply Z.eqb_eq in Hn.
  destruct H as (y & _ & _ & Hi). unfold incomplete in Hi. exists []. destruct (cp_ u) as [|c cp] eqn:E; [|lia].
  unfold incomplete. rewrite E. split; [done|]. split; [apply valid_utf8_nil|done].
Qed.

(** A message whose last frame is empty ends when its header is read. *)
Lemma finish_empty x v w fh m o s :
  steady s -> rd_remain_ s = 0 -> rd_cont_ s = false -> 0 <= rd_size_ s -> checked (checked_part x) (rd_utf8_ s) -> en = Complete -> (t = text -> valid_utf8 x) ->
  ring_holds (rd_buf_ s) v -> rd_fh_ s = fh -> fin fh = true -> v ++ w = tail -> fresh o -> rd_block_ s = id_read ->
  (2 * (2 * length w + length v) + 1 <= m)%nat ->
  exists r s', read_payload create_mask o s = Ret (r, s') /\ good x [] [] w m r s'.
Proof.
  intros Hst Hrem Hcont Hsize Hck Hen Hval Hb Hfh Hfin Hw (Ho1 & Ho2 & _ & Hcb) Hblk Hm. unfold read_payload. rewrite Hrem. cbn [Z.ltb Z.compare].
  unfold finish_payload. rewrite upcall_ok by (done || by apply Hst). eexists _, _. split; [done|].
  apply (good_upcall _ _ _ _ _ o _ [] [] (2 * length w + length v)); try done; [cbn; lia|]. left. split; [|by rewrite app_nil_r].
  rewrite Hrem, Hfh, Hfin. split; [done|]. exists v. split; [|done]. split; try done; [by destruct Hst|].
  change (checked (checked_part []) (rd_utf8_ s)). unfold checked_part in *. case_bool_decide as Et; [|done].
  by apply (checked_valid x), Hval.
Qed.

(** The loop for the rest of a message, while [n] bounds what the read buffer holds. *)
Definition loop_ok (n : nat) (read : read_some_op -> stream -> cpp (read_result * stream)) : Prop :=
  forall inside x v fs data pings w m o s,
  between_frames inside x v s -> fresh o -> rd_block_ s = id_read -> Forall u8 x -> valid_message x data ->
  message inside (Z.of_nat (length x)) fs data pings -> v ++ w = wire fs ++ tail -> (length v < n)%nat ->
  (2 * (2 * length w + length v) <= m)%nat ->
  exists r s', read o s = Ret (r, s') /\ good x data pings w m r s'.

Lemma goto_loop_ok n read inside x v fs data pings w m o s :
  loop_ok n read -> between_frames inside x v s -> fin (rd_fh_ s) = false -> fresh o -> rd_block_ s = id_read -> Forall u8 x -> valid_message x data ->
  message inside (Z.of_nat (length x)) fs data pings -> v ++ w = wire fs ++ tail -> (length v < n)%nat ->
  (2 * (2 * length w + length v) <= m)%nat ->
  exists r s', goto_loop create_mask read o s = Ret (r, s') /\ good x data pings w m r s'.
Proof.
  intros Hr Hbf Hfin Ho Hblk Hx Hval Hms Hw Hn Hm. unfold goto_loop, is_locked. rewrite Hblk. cbn [Z.eqb Pos.eqb id_read assert_ obind].
  rewrite needs_header_fin by (done || apply Hbf). by apply (Hr inside x v fs).
Qed.

(** A ping, and a pong, in the read buffer. *)
Lemma handle_control_ok n read inside x v w fh p fs v0 b data pings m o s :
  loop_ok n read -> between_frames inside x v s -> client_frame (fh, p) -> v = header_bytes fh ++ v0 ->
  v0 ++ w = fst (mask_ref (prepare_key (key fh)) p) ++ wire fs ++ tail -> ring_holds b v0 -> Ring.capacity b = Ring.capacity (rd_buf_ s) ->
  len fh <= 125 -> (length p <= length v0)%nat -> (length v <= n)%nat -> fresh o -> rd_block_ s = id_read -> Forall u8 x -> valid_message x data ->
  message inside (Z.of_nat (length x)) fs data pings -> (2 * (2 * length w + length v) <= m)%nat ->
  let s1 := upd_rd (fun r => set_rd_buf b (set_rd_fh fh r)) (accept fh s) in
  (op fh = ping -> exists r s', handle_header create_mask read addr o s1 = Ret (r, s') /\ good x data (p :: pings) w m r s') /\
  (op fh = pong -> exists r s', handle_header create_mask read addr o s1 = Ret (r, s') /\ good x data pings w m r s').
Proof.
  intros Hr Hbf Hcf Hv Hw Hb Hcap H125 Hpl Hn Ho Hblk Hx Hval Hms Hm s1.
  pose proof (length_header_bytes fh (cf_header _ Hcf)) as Hlh. pose proof (cf_len _ Hcf) as Hlen. cbn [fst snd] in *.
  assert (op fh = ping \/ op fh = pong -> exists r s', handle_header create_mask read addr o s1 = Ret (r, s') /\
    good x data (if bool_decide (op fh = ping) then p :: pings else pings) w m r s') as H.
  2: { split; intros E; rewrite E in *; apply H; [left|right]; done. }
  intros Hop. assert (is_control (op fh) = true) as Hc by (by destruct Hop as [-> | ->]).
  destruct (control_frame_state inside x v w fh p fs s v0 b Hbf Hcf Hw Hb Hcap ltac:(lia) Hc Hpl) as (rest & key' & b' & E2 & -> & Er & Hbf').
  fold s1 in E2, Hbf'. unfold handle_header. set (s2 := if _ && _ then _ else s1) in *. assert (rd_fh_ s2 = fh) as Efh by (by rewrite E2).
  rewrite Efh, Hc. cbv zeta. set (s3 := upd_rd _ s2) in *.
  assert (control_payload s3 = Ret p) as Ecp by (apply (control_payload_ok s3 p rest (bf_buf _ _ _ _ Hbf')); [done|lia]).
  assert (read_ping p = Ret p) as Erp by (unfold read_ping; rewrite (proj2 (Nat.leb_le _ _)); [done|lia]).
  pose proof (between_consume _ _ _ _ _ Hbf') as Hbc. set (s4 := consume_read (length p) s3) in *.
  assert (rd_block_ s4 = id_read) as Hblk4 by (unfold s4, s3; rewrite E2; done).
  assert (length v = length (header_bytes fh) + length p + length rest)%nat as Elv.
  { rewrite Hv, !length_app, (proj1 (proj2 (mask_ref_spec _ p (prepare_key_length _)))). lia. }
  assert (fin (rd_fh_ s4) = false) as Hfin4 by done.
  case_bool_decide as Ep; rewrite ?(bool_decide_true (op fh = pong)) by (by destruct Hop); rewrite Ecp; cbn [obind]; rewrite Erp; cbn [obind]; fold s4.
  - pose proof (bf_steady _ _ _ _ Hbc) as Hst. rewrite bool_decide_false by (by rewrite (st_status _ Hst)).
    destruct (answer_ping_ok o s4 p Hst Hblk4) as (db & -> & Hdb); [lia|]. eexists _, _. split; [done|].
    apply (good_pong _ _ _ _ _ o _ p pings (2 * length w + length rest)); try done; [|lia].
    apply (mid_between _ _ _ _ _ _ inside fs rest); try done; [|by left]. destruct Hbc. split; try done.
    by destruct bf_steady0.
  - apply (goto_loop_ok n read inside x rest fs); try done; lia.
Qed.

(** A data frame of the message. *)
Lemma handle_data_ok n read inside x v w fh p fs v0 b data' pings m o s :
  loop_ok n read -> between_frames inside x v s -> client_frame (fh, p) -> acceptable s fh -> v = header_bytes fh ++ v0 ->
  v0 ++ w = fst (mask_ref (prepare_key (key fh)) p) ++ wire fs ++ tail -> ring_holds b v0 -> Ring.capacity b = Ring.capacity (rd_buf_ s) ->
  op fh = (if inside then cont else t) -> Z.of_nat (length x) + len fh <= limit ->
  (length v <= n)%nat -> fresh o -> rd_block_ s = id_read -> Forall u8 x -> valid_message x (p ++ data') -> (fin fh = true -> strict = true -> p <> []) ->
  follows (fin fh) (x ++ p) fs data' pings ->
  (2 * (2 * length w + length v) <= m)%nat ->
  exists r s', handle_header create_mask read addr o (upd_rd (fun r => set_rd_buf b (set_rd_fh fh r)) (accept fh s)) = Ret (r, s') /\
    good x (p ++ data') pings w m r s'.
Proof.
  intros Hr Hbf Hcf Hacc Hv Hw Hb Hcap Hop Hlim Hn Ho Hblk Hx Hval Hstrict Hms Hm.
  pose proof (length_header_bytes fh (cf_header _ Hcf)) as Hlh. pose proof (cf_len _ Hcf) as Hlen. cbn [fst snd] in *.
  assert (is_control (op fh) = false) as Hc by (rewrite Hop; destruct inside; [done|by destruct data_opcode as [-> | ->]]).
  assert (length v = length (header_bytes fh) + length v0)%nat as Elv by (by rewrite Hv, length_app).
  destruct (data_frame_state inside x v w fh p fs s v0 b Hbf Hcf Hacc Hw Hb Hcap ltac:(lia) Hc Hop Hlim)
    as (v' & Hb' & Elv' & Efh & Hpart & Hlast & Hmore).
  unfold handle_header. set (s1 := upd_rd _ _) in *. set (s2 := if _ && _ then _ else s1) in *.
  assert (rd_block_ s2 = id_read) as Hblk2.
  { unfold s2, s1, mask_read. rewrite (accept_data s fh Hacc (bf_size _ _ _ _ Hbf) Hc (cf_mask _ Hcf)).
    destruct ((0 <? _) && _); [|done]. destruct (mask_inplace _ _ _). done. }
  rewrite Efh, Hc. cbv zeta. rewrite Hlen in *.
  destruct (decide (p = [])) as [Hp|Hp].
  - subst p. cbn [app length] in *. change (Z.of_nat 0 =? 0) with true. rewrite app_nil_r in Hms. destruct (fin fh) eqn:Hfin; cbn [negb andb].
    + destruct Hms as (-> & -> & -> & Hen). destruct (Hlast eq_refl eq_refl) as (-> & Hst & Hrem & Hcont & Hsize & Hck).
      apply (finish_empty x v0 w fh); try done; [by destruct Hst| |lia].
      intros Ht. unfold valid_message in Hval. rewrite app_nil_r in Hval. destruct strict; [by destruct (Hstrict eq_refl eq_refl)|by apply Hval].
    + destruct (Hpart eq_refl eq_refl) as [Hbt _]. apply (goto_loop_ok n read true x v0 fs); try done; [by rewrite Efh|lia..].
  - assert (0 < length p)%nat by (destruct p; [done|cbn; lia]). rewrite (proj2 (Z.eqb_neq _ _)) by lia. cbn [andb].
    destruct (Hmore Hp) as [Hin Ew].
    apply (read_payload_ok (fin fh) x p (Nat.min (length v0) (length p)) v' (drop (length p) v0) w fs); try done. lia.
Qed.

(** A close frame. *)
Lemma close_answer_range p e c : Forall u8 p -> close_answer p e c -> 0 < c < 2 ^ 16.
Proof.
  intros Hu Ha. destruct Ha as [|a|a b r H|a b r H _|a b r H _]; try (cbv; done).
  apply Forall_cons in Hu as [[? ?] [[? ?] _]%Forall_cons]. split; [|lia].
  destruct (Z.eq_dec (a * 256 + b) 0) as [E|E]; [by rewrite E in H|lia].
Qed.

Lemma handle_close_ok read inside x v w fh p s v0 b e c m o :
  between_frames inside x v s -> client_frame (fh, p) ->
  v0 ++ w = fst (mask_ref (prepare_key (key fh)) p) ++ wire [] ++ tail -> ring_holds b v0 -> Ring.capacity b = Ring.capacity (rd_buf_ s) ->
  op fh = close -> len fh <= 125 -> (length p <= length v0)%nat -> fresh o -> rd_block_ s = id_read -> close_answer p e c -> en = Closing e c ->
  exists r s', handle_header create_mask read addr o (upd_rd (fun r => set_rd_buf b (set_rd_fh fh r)) (accept fh s)) = Ret (r, s') /\ good x [] [] w m r s'.
Proof.
  intros Hbf Hcf Hw Hb Hcap Hop H125 Hpl Ho Hblk Ha Hen. pose proof (cf_len _ Hcf) as Hlen. pose proof (cf_bytes _ Hcf) as Hu. cbn [fst snd] in *.
  assert (is_control (op fh) = true) as Hc by by rewrite Hop.
  destruct (control_frame_state inside x v w fh p [] s v0 b Hbf Hcf Hw Hb Hcap ltac:(lia) Hc Hpl) as (rest & key' & b' & E2 & -> & Er & Hbf').
  set (s1 := upd_rd _ (accept fh s)) in *. unfold handle_header. set (s2 := if _ && _ then _ else s1) in *.
  assert (rd_fh_ s2 = fh) as Efh by (by rewrite E2). rewrite Efh, Hc, Hop. cbv zeta. rewrite Hop in Hbf'. set (s3 := upd_rd _ s2) in *.
  cbn [bool_decide decide assert_ obind]. rewrite !bool_decide_false, bool_decide_true by done. cbn [assert_ obind]. unfold receive_close.
  assert (rd_block_ s3 = id_read) as Hblk3 by (unfold s3; rewrite E2; done).
  rewrite (control_payload_ok s3 p rest (bf_buf _ _ _ _ Hbf')) by (done || lia). cbn [obind].
  pose proof (bf_steady _ _ _ _ Hbf') as Hst. destruct (st_close _ Hst) as [_ Hrc]. rewrite Hrc. cbn [negb assert_ obind].
  destruct (read_close_answer addr p e c Hu ltac:(lia) Ha) as (cr & err & -> & Herr). cbn [obind].
  pose proof (close_answer_range p e c Hu Ha) as Hcr. assert (fails x [] [] e c) as Hf by (left; split; [done|]; split; [done|]; by left).
  destruct err as [e'|]; [destruct Herr as (-> & Hne & ->)|destruct Herr as [-> ->]].
  - by apply (fail_connection_ok (fun _ => rd s3) _ _ _ _ _ _ _ e close_protocol_error).
  - set (s5 := consume_read _ _). change (status_ s5) with (status_ s3). rewrite (st_status _ Hst), bool_decide_false by done.
    apply (fail_connection_ok (fun _ => rd s3) _ _ _ _ _ _ _ closed (if code cr =? close_none then close_normal else code cr)); try done. by destruct Hst.
Qed.

(** Bytes that no frame begins with. *)
Lemma violation_ok fuel inside x v w m o s :
  between_frames inside x v s -> fresh o -> rd_block_ s = id_read -> v ++ w = tail ->
  message inside (Z.of_nat (length x)) [] [] [] -> (2 * (2 * length w + length v) <= m)%nat ->
  exists r s', read_header create_mask addr (S fuel) o s = Ret (r, s') /\ good x [] [] w m r s'.
Proof.
  intros Hbf Ho Hblk Hw Hms Hm. pose proof (bf_buf _ _ _ _ Hbf) as Hb.
  assert ((139 <= length tail)%nat /\ Forall u8 tail /\ en = Violation /\ forall fh z, fits inside (Z.of_nat (length x)) fh -> tail <> header_bytes fh ++ z) as (H139 & Hu & Hen & Hno) by by inversion Hms.
  assert (Forall u8 v) as Huv by (rewrite <- Hw in Hu; by apply Forall_app in Hu as [? _]).
  cbn [read_header]. pose proof Ho as (_ & _ & Hres & _). rewrite Hres. pose proof (fresh_set_result o Ho) as Ho'.
  destruct (parse_fh_sound s v Hb Huv (bf_size _ _ _ _ Hbf)) as (ok & ec & s' & E & Hok). rewrite E. cbn [obind].
  destruct ok; cbn [negb].
  { destruct Hok as (fh & rest & -> & Ha & _). exfalso. apply (Hno fh (rest ++ w)); [by apply (fits_acceptable _ _ _ _ _ Hbf)|]. by rewrite <- Hw, <- app_assoc. }
  pose proof (parse_fh_refused s v ec s' (proj2 Hb) E) as H. destruct ec as [e|].
  - destruct H as (Hne & f & ->). set (c := if bool_decide (e = message_too_big) then close_too_big else close_protocol_error).
    apply (fail_connection_ok (fun _ => rd s) x [] [] w m _ _ e c); try done.
    + pose proof (bf_steady _ _ _ _ Hbf) as Hst. by destruct Hst.
    + unfold c. by case_bool_decide.
    + left. split; [done|]. split; [done|]. by right.
  - destruct H as (Hl & fh' & ->). unfold is_locked. change (rd_block_ (upd_rd (set_rd_fh fh') s)) with (rd_block_ s). rewrite Hblk.
    cbn [Z.eqb Pos.eqb id_read assert_ obind]. apply (wait_header_ok inside x v [] [] [] w m o s fh'); try done; [lia|].
    intros ->. rewrite app_nil_r in Hw. rewrite <- Hw in H139. lia.
Qed.

(** The next of the frames. *)
Lemma message_cases inside n fs data pings :
  message inside n fs data pings ->
  fs = [] /\ data = [] /\ pings = [] \/
  exists fh p fs', fs = (fh, p) :: fs' /\ client_frame (fh, p) /\ fits inside n fh /\ (is_control (op fh) = true \/ n + len fh <= limit).
Proof.
  assert (forall inside n fh p, client_frame (fh, p) -> (op fh = ping \/ op fh = pong \/ op fh = close) -> fin fh = true -> len fh <= 125 ->
    fits inside n fh /\ (is_control (op fh) = true \/ n + len fh <= limit)) as Hctl.
  { intros i k fh p Hcf Hop Hf Hl. assert (is_control (op fh) = true /\ is_reserved (op fh) = false) as [Hc Hr] by (by destruct Hop as [-> |[-> | ->]]).
    split; [|by left]. apply (frame_fits i k fh p Hcf). by left. }
  intros [? ? [fh p] ? ? ? Hcf Hop Hf Hl _|? ? [fh p] ? ? ? Hcf Hop Hf Hl _|? ? [fh p] ? ? ? Hcf Hop Hf Hl _|? ? [fh p] Hcf Hop Hf Hl _ _|? ? [fh p] e c Hcf Hop Hf Hl _ _|];
    cbn [fst snd] in *; [right; do 3 eexists; split; [done|]; split; [done|]..|by left].
  - apply (Hctl _ _ fh p); [done|by left|done..].
  - apply (Hctl _ _ fh p); [done|by right; left|done..].
  - split; [apply (frame_fits _ _ fh p Hcf)|]; by right.
  - split; [apply (frame_fits _ _ fh p Hcf)|]; by right.
  - apply (Hctl _ _ fh p); [done|by right; right|done..].
Qed.

(** The loop reaches one of the results. *)
Lemma read_header_ok fuel : loop_ok fuel (read_header create_mask addr fuel).
Proof.
  induction fuel as [|fuel IH]; intros inside x v fs data pings w m o s Hbf Ho Hblk Hx Hval Hms Hw Hf Hm; [lia|].
  destruct (message_cases _ _ _ _ _ Hms) as [(-> & -> & ->)|(fh & p & fs' & -> & Hcf & Hfit & Hsz)].
  { by apply (violation_ok fuel inside x v). }
  pose proof Ho as (_ & _ & Hres & _). pose proof (fresh_set_result o Ho) as Ho'.
  pose proof (proj1 (fits_acceptable inside x v s fh Hbf) Hfit) as Hacc. pose proof (cf_len _ Hcf) as El. cbn [fst snd] in El.
  assert (Z.of_nat (length p) < 2 ^ 63) as Hsmall.
  { destruct Hsz as [Hc|?]; [destruct (fits_control _ _ _ Hfit Hc)|]; lia. }
  pose proof Hw as Hw1. rewrite wire_cons in Hw. cbn [fst snd] in Hw. cbn [read_header]. rewrite Hres.
  destruct (header_cases fh p v w _ s Hacc Hcf (bf_size _ _ _ _ Hbf) (bf_buf _ _ _ _ Hbf) Hw) as [(fh' & -> & Hl & Hne)|(v0 & b & Ev & Hw0 & Hb & Hcap & Hctl & ->)];
    cbn [obind negb].
  { unfold is_locked. change (rd_block_ (upd_rd (set_rd_fh fh') s)) with (rd_block_ s). rewrite Hblk. cbn [Z.eqb Pos.eqb id_read assert_ obind].
    by apply (wait_header_ok inside x v ((fh, p) :: fs') data pings w m o s fh'). }
  inversion Hms as [? ? ? ? ? ps ? Hop|? ? ? ? ? ? ? Hop|? ? ? ? dat ? ? Hop Hfin|? ? ? ? Hop Hfin ? ? Hstrict|? ? ? e c ? Hop ? ? Ha|]; subst; cbn [fst snd] in *.
  - destruct (handle_control_ok fuel _ inside x _ w fh p fs' v0 b data ps m (set_result None o) s IH Hbf Hcf eq_refl Hw0 Hb Hcap) as [Hctl' _]; try done; [|lia|by apply Hctl'].
    apply Hctl. by rewrite Hop.
  - destruct (handle_control_ok fuel _ inside x _ w fh p fs' v0 b data pings m (set_result None o) s IH Hbf Hcf eq_refl Hw0 Hb Hcap) as [_ Hctl']; try done; [|lia|by apply Hctl'].
    apply Hctl. by rewrite Hop.
  - apply (handle_data_ok fuel _ inside x _ w fh p fs' v0 b dat pings m (set_result None o) s IH Hbf Hcf Hacc eq_refl Hw0 Hb Hcap); try done; [lia|by rewrite Hfin|].
    unfold follows. rewrite Hfin, length_app, Nat2Z.inj_add, <- El. done.
  - rewrite <- (app_nil_r p) in Hval |- *.
    apply (handle_data_ok fuel _ inside x _ w fh p [] v0 b [] [] m (set_result None o) s IH Hbf Hcf Hacc eq_refl Hw0 Hb Hcap); try done; [lia|].
    unfold follows. by rewrite Hfin.
  - apply (handle_close_ok _ inside x _ w fh p s v0 b e c m (set_result None o) Hbf Hcf Hw0 Hb Hcap); try done. apply Hctl. by rewrite Hop.
Qed.

(** ** Resuming the operation *)

(** The start of an operation, and its continuation after a pong. *)
Lemma start_mid_ok x data pings w m0 m o s :
  mid x data pings w m0 s -> rd_block_ s = id_none -> fresh o -> Forall u8 x -> valid_message x data -> (2 * m0 <= m)%nat ->
  exists r s', start_read create_mask addr o s = Ret (r, s') /\ good x data pings w m r s'.
Proof.
  intros Hmid Hblk Ho Hx Hval Hm. unfold start_read, mutex_try_lock. rewrite Hblk. change (negb (id_none =? id_read)) with true. cbn [assert_ obind].
  change (negb (id_none =? 0)) with false. cbv iota. cbn [obind]. set (s1 := set_rd_block id_read s).
  assert (status_ s1 = status_open -> (bool_decide (status_ s1 = status_closed) || bool_decide (status_ s1 = status_failed)) = false) as Hop by (by intros ->).
  destruct Hmid as [inside fs v Hbf Hfin Hms Hw ->|final p k rest fs data' v Hf -> Hw Hms ->].
  - assert (between_frames inside x v s1) as Hb1.
    { destruct Hbf. split; try done. by destruct bf_steady0. }
    rewrite Hop by (apply Hbf). unfold goto_loop, is_locked. change (rd_block_ s1 =? id_read) with true. cbn [assert_ obind].
    assert (needs_header s1 = true) as ->.
    { unfold needs_header. rewrite (bf_remain _ _ _ _ Hb1). change (rd_fh_ s1) with (rd_fh_ s). change (rd_done_ s1) with (rd_done_ s).
      by destruct Hfin as [-> | ->]; cbn; rewrite ?orb_true_r. }
    unfold run_header. rewrite (ring_size_holds _ _ (bf_buf _ _ _ _ Hb1)). by apply (read_header_ok (S (length v)) inside x v fs); try done; lia.
  - assert (in_frame final x p k v rest s1) as Hf1.
    { destruct Hf. split; try done. by destruct if_steady0. }
    rewrite Hop by (apply Hf). unfold goto_loop, is_locked. change (rd_block_ s1 =? id_read) with true. cbn [assert_ obind].
    assert (needs_header s1 = false) as ->.
    { unfold needs_header. rewrite (if_remain _ _ _ _ _ _ _ Hf1). pose proof (if_more _ _ _ _ _ _ _ Hf). by destruct p. }
    by apply (read_payload_ok final x p k v rest w fs).
Qed.

(** What [resume_read] does first. *)
Lemma fresh_set_cont o : fresh o -> fresh (set_cont true o).
Proof. by intros (? & ? & ? & ?). Qed.

(** After a read for a header. *)
Lemma resume_header_ok inside x v fs data pings w w' m o n s0 s d :
  fresh o -> between_frames inside x v s0 -> message inside (Z.of_nat (length x)) fs data pings -> v ++ w = wire fs ++ tail ->
  prepared n s0 s -> (length v + n <= tcp_frame_size)%nat -> rd_block_ s0 = id_read -> Forall u8 x -> valid_message x data ->
  (length d <= n)%nat -> w = d ++ w' -> (2 * (2 * length w' + length v + length d) <= m)%nat ->
  exists r s', resume_header create_mask addr None d o s = Ret (r, s') /\ good x data pings w' m r s'.
Proof.
  intros Ho Hbf Hms Hw Hp Hn Hblk Hx Hval Hd -> Hm. pose proof (st_capacity _ (bf_steady _ _ _ _ Hbf)) as Hcap.
  destruct (prepared_receive n s0 s v d Hp (bf_buf _ _ _ _ Hbf)) as (b & Eb & Hb & Hcb); [rewrite Hcap; lia|done|].
  assert (rd_block_ (receive_read d s) = id_read) as Hrb.
  { destruct Hp as (b' & _ & ->). unfold receive_read. by destruct (buffer_copy _ _ _). }
  unfold resume_header. cbv zeta. unfold is_locked. rewrite Hrb. change (id_read =? id_read) with true. cbn [assert_ obind check_ok negb]. rewrite Eb.
  change (rd_block_ (with_buf b s0)) with (rd_block_ s0). rewrite Hblk. unfold mutex_unlock, mutex_lock.
  change (id_read =? id_read) with true. cbn [assert_ obind]. change (0 =? 0) with true. cbn [assert_ obind].
  unfold run_header. set (s1 := set_rd_block id_read (with_buf b s0)).
  assert (between_frames inside x (v ++ d) s1) as Hb1.
  { destruct Hbf. split; try done. destruct bf_steady0. split; try done. change (Ring.capacity b = tcp_frame_size). by rewrite Hcb. }
  rewrite (ring_size_holds _ _ (bf_buf _ _ _ _ Hb1)).
  apply (read_header_ok (S (length (v ++ d))) inside x (v ++ d) fs); try done; [by rewrite <- app_assoc|lia|rewrite length_app; lia].
Qed.

(** After a pong. *)
Lemma resume_pong_ok x data pings w m m' o s :
  fresh o -> mid x data pings w m' (set_wr_block id_none s) -> wr_block_ s = id_read -> rd_block_ s = id_none -> Forall u8 x -> valid_message x data ->
  (2 * m' <= m)%nat ->
  exists r s', resume_pong create_mask addr None o s = Ret (r, s') /\ good x data pings w m r s'.
Proof.
  intros Ho Hmid Hwr Hrd Hx Hval Hm. unfold resume_pong, is_locked. rewrite Hwr. change (id_read =? id_read) with true. cbn [assert_ obind check_ok negb].
  rewrite Hwr. unfold mutex_unlock. change (id_read =? id_read) with true. cbn [assert_ obind].
  assert (paused_rd_ s = false /\ paused_wr_ s = false) as [Hp1 Hp2].
  { destruct Hmid as [? ? ? Hb ? ? ? ?|? ? ? ? ? ? ? Hf ? ? ? ?]; [apply (st_paused _ (bf_steady _ _ _ _ Hb))|apply (st_paused _ (if_steady _ _ _ _ _ _ _ Hf))]. }
  unfold invoke_wr. cbn [paused_rd_ paused_wr_ set_wr_block]. rewrite ?Hp1, ?Hp2. cbn [obind].
  by apply (start_mid_ok x data pings w m').
Qed.

End State.
