(* ===== verification/WsReceive.v ===== *)
(** * Receiving messages from the network

    The completions that the operating system may report to the operation that
    [async_read] starts ([net_step]), and what [async_read] comes to for a message that
    a client sends: every order of completions and every cutting of the bytes into
    reads ends it with the message. *)

From Stdlib Require Import ZArith Lia String Ascii.
From stdpp Require Import base list.
From S2P Require Import Prelude Utf8 Exceptions StaticBuffer WsUtf8 WsFrame WsStream WsParse MultiBuffer WsRead WsDeliver.

(** ** The first call *)

Create HintDb suspends.

(** Only a resumed operation calls its handler itself. *)
Definition suspends (c : cpp (read_result * stream)) : Prop :=
  match c with Ret (Upcall _ _, _) => False | _ => True end.

Lemma suspends_bind {A} (c : cpp A) (f : A -> cpp (read_result * stream)) : (forall x, suspends (f x)) -> suspends (obind c f).
Proof. intros H. destruct c; cbn; [apply H|done|done]. Qed.

Ltac suspends :=
  cbv zeta; cbn [negb]; first
    [ solve [auto with suspends]
    | match goal with
      | |- suspends (obind _ _) => apply suspends_bind; intros; suspends
      | |- suspends (Ret (Suspend _ _, _)) => exact I
      | |- context [match ?x with _ => _ end] => destruct x; suspends
      end ].

Section Suspends.
Context (create_mask : nat -> Z).

Lemma upcall_suspends ec o s : cont_ o = false -> suspends (upcall ec o s).
Proof. intros Ho. unfold upcall. rewrite Ho. suspends. Qed.

Lemma fail_connection_suspends o s : suspends (fail_connection create_mask o s).
Proof. unfold fail_connection, send_close, teardown. suspends. Qed.

Lemma prepare_read_suspends wait o s : suspends (prepare_read wait o s).
Proof. unfold prepare_read. suspends. Qed.

#[local] Hint Resolve upcall_suspends fail_connection_suspends prepare_read_suspends : suspends.

Lemma read_payload_suspends o s : cont_ o = false -> suspends (read_payload create_mask o s).
Proof. intros Ho. unfold read_payload, copy_payload, finish_payload. suspends. Qed.

#[local] Hint Resolve read_payload_suspends : suspends.

Lemma goto_loop_suspends read o s :
  (forall o s, cont_ o = false -> suspends (read o s)) -> cont_ o = false -> suspends (goto_loop create_mask read o s).
Proof. intros H Ho. unfold goto_loop. suspends. Qed.

#[local] Hint Resolve goto_loop_suspends : suspends.

Lemma handle_header_suspends read addr o s :
  (forall o s, cont_ o = false -> suspends (read o s)) -> cont_ o = false -> suspends (handle_header create_mask read addr o s).
Proof. intros H Ho. unfold handle_header, answer_ping, send_pong, receive_close. suspends. Qed.

#[local] Hint Resolve handle_header_suspends : suspends.

Lemma read_header_suspends addr fuel o s : cont_ o = false -> suspends (read_header create_mask addr fuel o s).
Proof.
  revert o s. induction fuel as [|fuel IH]; intros o s Ho; [done|]. cbn [read_header]. suspends.
Qed.

#[local] Hint Resolve read_header_suspends : suspends.

Lemma start_read_suspends addr o s : cont_ o = false -> suspends (start_read create_mask addr o s).
Proof. intros Ho. unfold start_read, run_header. suspends. Qed.

End Suspends.

(** ** The network *)

Section Net.
Context {B : Type} `{DB : !DynamicBuffer B} `{PL : !Placement B}.
Context (create_mask : nat -> Z) (addr : Z).

(** The result of the last call, the bytes that are still to come, and the frames that
    were sent. *)
Record net := mk_net { conf : cpp (read_conf B); incoming : bytes; sent : list bytes }.

(** The number of bytes that an operation reads at most, and the frame it writes. *)
Definition reads (w : read_wait) : option nat :=
  match w with WaitHeader n | WaitFill n | WaitDirect n => Some n | _ => None end.

Definition writes (w : read_wait) : option bytes :=
  match w with WaitPong f | WaitClose f => Some f | _ => None end.

(** The completions: a read of some bytes, a write of all, a posted one, and the end of
    the connection. *)
Inductive net_step : net -> net -> Prop :=
  | net_read w n o b total s d rest fs :
      reads w = Some n -> d <> [] -> (length d <= n)%nat ->
      net_step (mk_net (Ret (Reading w o b total s)) (d ++ rest) fs)
        (mk_net (read_completion create_mask addr None d (Reading w o b total s)) rest fs)
  | net_write w f o b total s rest fs :
      writes w = Some f ->
      net_step (mk_net (Ret (Reading w o b total s)) rest fs)
        (mk_net (read_completion create_mask addr None [] (Reading w o b total s)) rest (fs ++ [f]))
  | net_posted ec o b total s rest fs :
      net_step (mk_net (Ret (Reading (WaitUpcall ec) o b total s)) rest fs)
        (mk_net (read_completion create_mask addr ec [] (Reading (WaitUpcall ec) o b total s)) rest fs)
  | net_teardown ec o b total s rest fs :
      ec = None \/ ec = Some eof ->
      net_step (mk_net (Ret (Reading WaitTeardown o b total s)) rest fs)
        (mk_net (read_completion create_mask addr ec [] (Reading WaitTeardown o b total s)) rest fs).

(** ** One message *)

(** What is known of the payload of a message. *)
Lemma message_payload t limit strict en tail inside n fs data pings :
  message t limit strict en tail inside n fs data pings -> n <= limit -> n + Z.of_nat (length data) <= limit /\ Forall u8 data.
Proof.
  induction 1 as [| |inside n f fs data pings [_ El Hf _ _] _ _ Hl _ IH|inside n f [_ El Hf _ _] _ _ Hl _ _| |]; intros Hn; try tauto.
  - destruct (IH Hl) as [? ?]. rewrite length_app. split; [lia|by apply Forall_app].
  - split; [lia|done].
  - cbn [length]. split; [lia|by apply Forall_nil].
  - cbn [length]. split; [lia|by apply Forall_nil].
Qed.

Lemma invalid_whole t en x data : invalid t en x data -> invalid t en [] (x ++ data).
Proof. intros [Ht H]. split; [done|]. destruct en; [done|..]; intros y; cbn [app]; rewrite <- app_assoc; apply H. Qed.

Section Message.
Context (t : opcode) (limit : Z) (strict : bool) (en : ending) (tail : bytes).
Hypothesis limit_range : 0 < limit < 2 ^ 63.
Hypothesis data_opcode : t = text \/ t = binary.
(** What the caller's buffer has at the start, the payload of the message, and the
    payloads of the pings. *)
Context (before whole : bytes) (all : list bytes).
Hypothesis before_size : Z.of_nat (length before) + limit < 2 ^ 63.
Hypothesis whole_size : Z.of_nat (length whole) <= limit.
Hypothesis whole_bytes : Forall u8 whole.
Hypothesis whole_text : valid_message t strict en [] whole.

(** The caller's buffer with [x] of the message, after [prepare]. *)
Definition placed (x : bytes) (room : nat) (b : B) : Prop :=
  (1 <= room)%nat /\ Z.of_nat (length (before ++ x) + room) < 2 ^ 64 /\ exists b0, db_holds b0 (before ++ x) /\ db_prepare room b0 = Ret b.

(** A read operation with [data] of the message missing. *)
Inductive expecting (pings : list bytes) (w : bytes) (m : nat) : read_conf B -> Prop :=
  | expecting_intro wt o b s room x data :
      placed x room b -> whole = x ++ data -> good t limit strict en tail room x data pings w m (Suspend wt o) s ->
      expecting pings w m (Reading wt o b (length x) s).

(** The connection was closed, after [e]. *)
Record ended (e : ws_error) (s : stream) : Prop := {
  ended_status : status_ s = if bool_decide (e = closed) then status_closed else status_failed;
  ended_rd_block : rd_block_ s = id_none;
  ended_wr_block : wr_block_ s = id_none
}.

(** The close frame was sent, and the operation waits for the end of the connection. *)
Inductive closing : net -> Prop :=
  | closing_intro o b s x data e c pings pings' w :
      db_holds b (before ++ x) -> whole = x ++ data -> result_ o = Some e -> fails t en x data pings' e c -> shutting s -> all = pings ++ pings' ->
      closing (mk_net (Ret (Reading WaitTeardown o b (length x) s)) w (map pong_frame pings ++ [close_frame c])).

(** The ways in which the operation ends: the message was received and the stream is
    ready for the next one; the close frame was answered, or bytes that begin no frame
    refused, after everything before them was received; or the text is not valid. *)
Inductive outcome : net -> Prop :=
  | outcome_delivered b s v w :
      en = Complete -> (t = text -> valid_utf8 whole) -> db_holds b (before ++ whole) ->
      between_frames t limit false [] v s -> rd_block_ s = id_none -> v ++ w = tail ->
      outcome (mk_net (Ret (ReadDone None (length whole) b s)) w (map pong_frame all))
  | outcome_closed e c b s w :
      ends_with en e c -> db_holds b (before ++ whole) -> ended e s ->
      outcome (mk_net (Ret (ReadDone (Some e) (length whole) b s)) w (map pong_frame all ++ [close_frame c]))
  | outcome_rejected x y pings pings' b s w :
      invalid t en [] whole -> whole = x ++ y -> all = pings ++ pings' -> db_holds b (before ++ x) -> ended bad_frame_payload s ->
      outcome (mk_net (Ret (ReadDone (Some bad_frame_payload) (length x) b s)) w (map pong_frame pings ++ [close_frame close_bad_payload])).

(** The size of the buffers for a turn. *)
Lemma hint_ok (s : stream) size x data pings w m :
  mid t limit strict en tail x data pings w m s -> whole = x ++ data -> size = Z.of_nat (length (before ++ x)) ->
  exists hint, read_size_hint (2 ^ 64 - 1) size s = Ret hint /\ 1 <= hint /\ size + hint < 2 ^ 63 + 2048.
Proof.
  intros Hmid Hw ->. unfold read_size_hint.
  assert (Z.of_nat (length (before ++ x)) <= Z.of_nat (length before) + limit) as Hx.
  { rewrite Hw, length_app in whole_size. rewrite length_app. lia. }
  replace (Z.min (Z.of_nat tcp_frame_size) _) with 1536 by (unfold tcp_frame_size; lia). change (1536 =? 0) with false. cbv iota.
  unfold read_size_hint_initial. change (0 <? 1536) with true. cbn [assert_ obind].
  destruct Hmid as [inside fs v Hbf Hfin _ _ _|final p k rest fs data' v Hf _ _ _ _].
  - destruct (rd_done_ s); [exists 1536; split; [done|lia]|]. destruct Hfin as [-> |]; [|done]. rewrite (bf_remain _ _ _ _ _ _ Hbf).
    exists 1536. split; [done|lia].
  - rewrite (if_done _ _ _ _ _ _ _ _ _ Hf), (if_remain _ _ _ _ _ _ _ _ _ Hf). pose proof (if_limit _ _ _ _ _ _ _ _ _ Hf) as Hl.
    assert (0 < Z.of_nat (length p)) by (pose proof (if_more _ _ _ _ _ _ _ _ _ Hf); destruct p; [done|cbn [length]; lia]).
    rewrite clamp_small by lia. rewrite length_app in *.
    destruct (fin (rd_fh_ s)).
    + rewrite (proj2 (Z.ltb_lt _ _)) by done. cbn [assert_ obind]. rewrite (proj2 (Z.eqb_neq _ _)) by lia. cbn [negb assert_ obind].
      eexists. split; [done|]. lia.
    + cbn [obind]. rewrite (proj2 (Z.eqb_neq _ _)) by lia. cbn [negb assert_ obind]. eexists. split; [done|]. lia.
Qed.

(** A turn of the loop of [read_op]. *)
Lemma turn_ok x data pings w m b s :
  mid t limit strict en tail x data pings w m s -> rd_block_ s = id_none -> db_holds b (before ++ x) -> whole = x ++ data ->
  exists c, read_op_turn create_mask addr size_max b (length x) s = Ret c /\ expecting pings w (2 * m) c.
Proof.
  intros Hmid Hblk Hb Hw. unfold read_op_turn. rewrite (db_max_size_holds b _ Hb), (db_size_holds b _ Hb).
  destruct (hint_ok s _ x data pings w m Hmid Hw eq_refl) as (hint & -> & H1 & H2). cbn [obind].
  unfold clamp_to, size_max. rewrite (proj2 (Z.leb_gt _ _)) by lia. set (room := Z.to_nat hint).
  destruct (db_write_holds b _ [] room 0 Hb) as (b1 & _ & Ep & _); [lia|cbn; lia..|]. rewrite Ep.
  assert (Forall u8 x) as Hx by (rewrite Hw in whole_bytes; by apply Forall_app in whole_bytes as [? _]).
  destruct (start_mid_ok t limit strict en tail limit_range data_opcode create_mask addr room ltac:(lia) x data pings w m (2 * m) (new_read_some (place b1 room)) s)
    as (r & s' & E & Hg); try done.
  { unfold fresh, cb_size. cbn. by rewrite place_size. }
  { unfold valid_message in *. by rewrite <- Hw. }
  rewrite E. cbn [obind]. clear Hmid. destruct r as [wt o|ec o].
  - eexists. split; [done|]. apply (expecting_intro _ _ _ wt o b1 s' room x data); try done. split; [lia|]. split; [lia|]. by exists b.
  - exfalso. pose proof (start_read_suspends create_mask addr (new_read_some (place b1 room)) s eq_refl) as H. by rewrite E in H.
Qed.

(** The bytes that were read are committed. *)
Lemma placed_commit x room b c : placed x room b -> (length c <= room)%nat ->
  exists b', db_write c b = (length c, b') /\ db_holds (db_commit (length c) b') (before ++ x ++ c).
Proof.
  intros (H1 & Hs & b0 & Hb & Ep) Hc. destruct (db_write_holds b0 _ c room (length c) Hb Hs Hc) as (b1 & b2 & Ep' & Ew & Hh); [done|].
  rewrite Ep in Ep'. injection Ep' as <-. exists b2. rewrite firstn_all, <- app_assoc in Hh. done.
Qed.

(** What a completion leads to: less is missing, or the operation has ended, or it
    closes the connection. *)
Definition continues (m : nat) (c : net) : Prop :=
  (exists r pings pings' w m', c = mk_net (Ret r) w (map pong_frame pings) /\ all = pings ++ pings' /\ (m' < m)%nat /\ expecting pings' w m' r) \/
  outcome c \/ closing c.

(** The configuration after the operation has run to a result. *)
Lemma result_ok room x data pings pings' w m m1 r s b :
  placed x room b -> whole = x ++ data -> all = pings ++ pings' -> good t limit strict en tail room x data pings' w m1 r s ->
  (match r with Suspend _ _ => m1 < m | Upcall _ _ => m1 <= m end)%nat ->
  exists c, match r with
    | Suspend wt o => Ret (Reading wt o b (length x) s)
    | Upcall ec o => read_op_resume create_mask addr size_max false ec o b (length x) s
    end = Ret c /\ continues m (mk_net (Ret c) w (map pong_frame pings)).
Proof.
  intros Hb Hw Hall Hg Hm1. destruct r as [wt o|ec o].
  { eexists. split; [done|]. left. do 5 eexists. split; [done|]. split; [done|]. split; [done|]. by apply (expecting_intro _ _ _ wt o b s room x data). }
  remember (Upcall ec o) as r eqn:Er. destruct Hg as [| | | |o' s c data' m' Hrc Hbw Hcb Hcr Hd Hend Hblk Hm|]; try done.
  destruct (cont_ o'); [|done]. injection Er as <- <-. subst c.
  destruct (placed_commit x room b _ Hb Hcr) as (b' & Eb & Hb').
  unfold read_op_resume. rewrite Eb, Hbw. rewrite <- length_app. cbn [negb andb].
  destruct Hend as [([Hdone (v & Hbf & Hv & Em)] & -> & -> & Hen & Hval)|(Hdone & Hmid)]; rewrite Hdone; cbn [negb].
  - eexists. split; [done|]. right. left. rewrite app_nil_r in Hd, Hall. subst data pings.
    rewrite <- Hw in Hval, Hb' |- *. by apply (outcome_delivered _ s v w).
  - destruct (turn_ok (x ++ received o') data' pings' w m' (db_commit (length (received o')) b') s Hmid Hblk Hb') as (c & Ec & He).
    { by rewrite Hw, Hd, app_assoc. }
    exists c. split; [done|]. left. exists c, pings, pings', w, (2 * m')%nat. split; [done|]. split; [done|]. split; [lia|done].
Qed.

(** The completion of the write of a close frame, and the end of the connection. *)
Lemma resume_close_ok o s : shutting s -> resume_close None o s = Ret (Suspend WaitTeardown o, s).
Proof. intros [_ _ Hw _]. unfold resume_close, teardown, is_locked. rewrite Hw. cbn. by rewrite Hw. Qed.

Lemma closing_step c c' : closing c -> net_step c c' -> outcome c'.
Proof.
  intros [o b s x data e k pings pings' w Hb Hw Hres Hf [Hst Hrd Hwr [Hp1 Hp2]] Hall] Hstep. inversion Hstep; subst; try done.
  assert (exists s', read_completion create_mask addr ec [] (Reading WaitTeardown o b (length x) s) = Ret (ReadDone (Some e) (length x) b s') /\ ended e s') as (s' & -> & He).
  { unfold read_completion, read_complete. cbn [resume_read]. unfold resume_teardown, is_locked. rewrite Hwr. change (id_read =? id_read) with true. cbn [assert_ obind].
    assert ((if bool_decide (ec = Some eof) then None else ec) = None) as -> by (match goal with H : _ \/ _ |- _ => by destruct H as [-> | ->] end).
    cbn [result_ set_cont]. rewrite Hres. set (s1 := close_ _). unfold upcall, mutex_try_unlock.
    change (rd_block_ s1) with (rd_block_ s). rewrite Hrd. change (negb (id_read =? id_read)) with false. cbv iota.
    change (wr_block_ (set_rd_block 0 s1)) with (wr_block_ s). rewrite Hwr. change (negb (id_read =? id_read)) with false. cbv iota.
    unfold invoke_wr. cbn [paused_wr_ set_wr_block set_rd_block]. change (paused_wr_ s1) with (paused_wr_ s). rewrite Hp2. cbn [obind cont_ set_cont negb read_op_resume].
    eexists. split; [done|]. split; try done. unfold s1. cbn. by case_bool_decide. }
  destruct Hf as [(-> & -> & Hf)|(-> & -> & Hinv)].
  - rewrite app_nil_r in Hw, Hall. subst x pings. by apply outcome_closed.
  - apply (outcome_rejected x data pings pings'); try done. rewrite Hw. by apply invalid_whole.
Qed.

Lemma closing_progress c : closing c -> exists c', net_step c c'.
Proof. intros []. eexists. apply net_teardown. by left. Qed.

(** A completion. *)
Lemma net_step_ok done pings w m c c' :
  expecting pings w m c -> all = done ++ pings -> net_step (mk_net (Ret c) w (map pong_frame done)) c' -> continues m c'.
Proof.
  intros He Hall Hstep. destruct He as [wt o b s room x data Hb Hw Hg].
  assert (Forall u8 x) as Hx by (rewrite Hw in whole_bytes; by apply Forall_app in whole_bytes as [? _]).
  assert (valid_message t strict en x data) as Hval by (unfold valid_message in *; by rewrite <- Hw).
  pose proof (proj1 Hb) as Hroom.
  assert (forall wt d ec done' pings' w' m1 r s', all = done' ++ pings' -> (m1 < m)%nat -> good t limit strict en tail room x data pings' w' m1 r s' ->
    resume_read create_mask addr wt ec d o s = Ret (r, s') ->
    continues m (mk_net (read_completion create_mask addr ec d (Reading wt o b (length x) s)) w' (map pong_frame done'))) as Hfin.
  { intros wt' d ec done' pings' w' m1 r s' Hall' Hm Hg' E. unfold read_completion, read_complete. rewrite E. cbn [obind].
    destruct (result_ok room x data done' pings' w' m m1 r s' b Hb Hw Hall' Hg') as (c1 & -> & H); [destruct r; lia|done]. }
  remember (Suspend wt o) as r0 eqn:Er.
  destruct Hg as [o' n s0 s v inside fs0 Ho Hbf Hms Hv Hp H1 Hn Hblk Hne Hm|o' n s0 s final p fs0 data' Ho Hf Hd Hv Hms Hp H1 Hn Hblk Hm
    |o' n s final p fs0 data' Ho Hf Hd Hv Hms Hn Hcb Hblk Hm|o' s p pings' m' Ho Hpings Hmid Hwr Hrd Hm|o' s k data' m' Hrc Hbw Hcb Hcr Hd Hend Hblk Hm|o' s e k Hres Hf Hsh];
    [injection Er as <- <-..| |injection Er as <- <-]; [inversion Hstep; subst..| |inversion Hstep; subst]; try done; cbn [reads writes] in *; simplify_eq.
  - pose proof (fresh_set_cont room _ Ho) as Ho'. cbn [length] in *. rewrite length_app in Hm.
    assert (0 < length d)%nat by (destruct d; [done|cbn [length]; lia]).
    destruct (resume_header_ok t limit strict en tail limit_range data_opcode create_mask addr room Hroom inside x v fs0 data pings (d ++ rest) rest
      (2 * (2 * length rest + length v + length d)) (set_cont true o') n0 s0 s d) as (r & s' & E & Hg); try done.
    apply (Hfin _ _ _ done pings rest (2 * (2 * length rest + length v + length d))%nat r s'); try done. lia.
  - pose proof (fresh_set_cont room _ Ho) as Ho'.
    assert (0 < length d)%nat by (destruct d; [done|cbn [length]; lia]).
    match goal with E : d ++ rest = _ |- _ => rename E into Ew end. rewrite <- Ew, length_app in Hm.
    destruct (resume_fill_ok t limit strict en tail limit_range create_mask room Hroom final x p (d ++ rest) fs0 data' pings
      (2 * (2 * length rest + length d)) (set_cont true o') n0 s0 s d rest) as (r & s' & E & Hg); try done.
    apply (Hfin _ _ _ done pings rest (2 * (2 * length rest + length d))%nat r s'); try done. lia.
  - pose proof (fresh_set_cont room _ Ho) as Ho'.
    assert (0 < length d)%nat by (destruct d; [done|cbn [length]; lia]).
    match goal with E : d ++ rest = _ |- _ => rename E into Ew end. rewrite <- Ew, length_app in Hm.
    destruct (resume_direct_ok t limit strict en tail limit_range create_mask room Hroom final x p (d ++ rest) fs0 data' pings
      (2 * (2 * length rest) + 1) (set_cont true o') n0 s d rest) as (r & s' & E & Hg); try done; [lia|].
    apply (Hfin _ _ _ done pings rest (2 * (2 * length rest) + 1)%nat r s'); try done. lia.
  - pose proof (fresh_set_cont room _ Ho) as Ho'.
    destruct (resume_pong_ok t limit strict en tail limit_range data_opcode create_mask addr room Hroom x data pings' w (2 * m') m' (set_cont true o') s)
      as (r & s' & E & Hg); try done.
    replace (map pong_frame done ++ [pong_frame p]) with (map pong_frame (done ++ [p])) by apply map_app. apply (Hfin _ _ _ (done ++ [p]) pings' w (2 * m')%nat r s'); try done; [by rewrite <- app_assoc|lia].
  - destruct (cont_ o'); [done|]. injection Er as <- <-. inversion Hstep; subst; try done.
    assert (good t limit strict en tail (cb_size o') x (received o' ++ data') pings w m (Upcall None (set_cont true o')) s) as Hg.
    { apply (good_upcall _ _ _ _ _ _ _ _ _ _ _ (set_cont true o') s (received o') data' m'); done. }
    unfold read_completion, read_complete. cbn [resume_read obind].
    destruct (result_ok (cb_size o') x _ done pings w m m _ s b Hb Hw Hall Hg) as (c1 & -> & H); done.
  - unfold read_completion, read_complete. cbn [resume_read]. rewrite resume_close_ok by done. cbn [obind].
    right. right. destruct Hb as (_ & Hsz & b0 & Hb0 & Ep). rewrite length_app in Hsz.
    apply (closing_intro (set_cont true o') b s x data e k done pings); try done. apply (db_prepare_holds b0 _ room); [done|rewrite length_app; lia|done].
Qed.

(** Something can complete. *)
Lemma net_progress pings w m c fs : expecting pings w m c -> exists c', net_step (mk_net (Ret c) w fs) c'.
Proof.
  intros [wt o b s room x data Hb Hw Hg]. remember (Suspend wt o) as r0 eqn:Er.
  assert (forall n, reads wt = Some n -> (1 <= n)%nat -> w <> [] -> exists c', net_step (mk_net (Ret (Reading wt o b (length x) s)) w fs) c') as Hread.
  { intros n Hn H1 Hne. destruct w as [|b0 w]; [done|]. eexists. by apply (net_read wt n o b (length x) s [b0] w fs). }
  assert (forall key p r, p <> [] -> w = fst (mask_ref key p) ++ r -> length key = 4%nat -> w <> []) as Hmask.
  { intros key p r Hp -> Hk [E _]%app_nil. pose proof (proj1 (proj2 (mask_ref_spec key p Hk))) as El. rewrite E in El. by destruct p. }
  destruct Hg as [o' n s0 s v inside fs0 Ho Hbf Hms Hv Hp H1 Hn Hblk Hne Hm|o' n s0 s final p fs0 data' Ho Hf Hd Hv Hms Hp H1 Hn Hblk Hm
    |o' n s final p fs0 data' Ho Hf Hd Hv Hms Hn Hcb Hblk Hm|o' s p pings' m' Ho Hpings Hmid Hwr Hrd Hm|o' s k data' m' Hrc Hbw Hcb Hcr Hd Hend Hblk Hm|o' s e k Hres Hf Hsh];
    [injection Er as <- <-..| |injection Er as <- <-].
  - by apply (Hread n).
  - apply (Hread n); [done..|]. apply (Hmask (rd_key_ s0) p (wire fs0 ++ tail)); [apply Hf|done|apply Hf].
  - apply (Hread n); [done|lia|]. apply (Hmask (rd_key_ s) p (wire fs0 ++ tail)); [apply Hf|done|apply Hf].
  - eexists. by apply (net_write _ (pong_frame p)).
  - destruct (cont_ o'); [done|]. injection Er as <- <-. eexists. apply net_posted.
  - eexists. by apply (net_write _ (close_frame k)).
Qed.

(** The operation ends, however the completions come. *)
Lemma closing_eventually c : closing c -> eventually net_step outcome c.
Proof.
  intros Hc. apply eventually_step; [by apply closing_progress|]. intros c' Hstep. apply eventually_now. by apply (closing_step c).
Qed.

Lemma expecting_eventually m done pings w c :
  expecting pings w m c -> all = done ++ pings -> eventually net_step outcome (mk_net (Ret c) w (map pong_frame done)).
Proof.
  revert done pings w c. induction m as [m IH] using lt_wf_ind. intros done pings w c He Hall. apply eventually_step; [by apply (net_progress pings w m)|].
  intros c' Hstep. destruct (net_step_ok done pings w m c c' He Hall Hstep) as [(r & done' & pings' & w' & m' & -> & Hall' & Hm & He')|[H|H]].
  - by apply (IH m' Hm done' pings').
  - by apply eventually_now.
  - by apply closing_eventually.
Qed.

End Message.

(** The results of reading a message, with the bytes [tail] after it. *)
Lemma async_read_ends t limit strict en fs data pings tail v w before b s :
  0 < limit < 2 ^ 63 -> t = text \/ t = binary -> Z.of_nat (length before) + limit < 2 ^ 63 ->
  message t limit strict en tail false 0 fs data pings -> valid_message t strict en [] data ->
  between_frames t limit false [] v s -> rd_block_ s = id_none -> db_holds b before -> v ++ w = wire fs ++ tail ->
  eventually net_step (outcome t limit en tail before data pings) (mk_net (async_read create_mask addr b s) w []).
Proof.
  intros Hlim Ht Hbefore Hms Hval Hbf Hblk Hb Hw. destruct (message_payload _ _ _ _ _ _ _ _ _ _ Hms) as [Hsize Hbytes]; [lia|].
  destruct (turn_ok t limit strict en tail Hlim Ht before data Hbefore Hsize Hbytes Hval [] data pings w (2 * length w + length v) b s) as (c & E & He); try done.
  - apply (mid_between _ _ _ _ _ _ _ _ _ _ _ false fs v); try done. right. by apply Hbf.
  - by rewrite app_nil_r.
  - cbn [length] in E. unfold async_read. rewrite E. by apply (expecting_eventually t limit strict en tail Hlim Ht before data pings Hbefore Hsize Hbytes Hval (2 * (2 * length w + length v)) [] pings).
Qed.

(** A message was received: the payload is in the buffer, and the stream ready. *)
Definition received_message (t : opcode) (limit : Z) (tail before data : bytes) (frames : list bytes) (c : net) : Prop :=
  exists b s v, conf c = Ret (ReadDone None (length data) b s) /\ db_holds b (before ++ data) /\
    between_frames t limit false [] v s /\ rd_block_ s = id_none /\ v ++ incoming c = tail /\ sent c = frames.

(** The connection was closed with these bytes of the message received. *)
Definition closed_connection (e : ws_error) (code : Z) (before data : bytes) (frames : list bytes) (c : net) : Prop :=
  exists b s, conf c = Ret (ReadDone (Some e) (length data) b s) /\ db_holds b (before ++ data) /\ ended e s /\ sent c = frames ++ [close_frame code].

(** A message that is valid is received. *)
Lemma async_read_received t limit fs data pings tail v w before b s :
  0 < limit < 2 ^ 63 -> t = text \/ t = binary -> Z.of_nat (length before) + limit < 2 ^ 63 ->
  message t limit false Complete tail false 0 fs data pings -> (t = text -> valid_utf8 data) ->
  between_frames t limit false [] v s -> rd_block_ s = id_none -> db_holds b before -> v ++ w = wire fs ++ tail ->
  eventually net_step (received_message t limit tail before data (map pong_frame pings)) (mk_net (async_read create_mask addr b s) w []).
Proof.
  intros Hlim Ht Hbefore Hms Hval Hbf Hblk Hb Hw.
  eapply eventually_mono; [|by apply (async_read_ends t limit false Complete fs data pings tail v w before b s); try done; intros _ ? _; apply Hval].
  intros c [b' s' v' w' _ _ Hb' Hbf' Hblk' Hv|e c' b' s' w' [H|[H _]] _ _|x y ps ps' b' s' w' [Htext Hinv] _ _ _ _]; [|done|done|].
  - by exists b', s', v'.
  - by destruct Hinv; apply Hval.
Qed.

End Net.

(** ** Delivery *)

Section Delivery.
Context {B : Type} `{DB : !DynamicBuffer B} `{PL : !Placement B}.
Context (create_mask : nat -> Z) (addr : Z).

(** C5: a server stream is between two messages, with [v] in its read buffer, while the
    frames of a message are on their way: any number of data frames, with pings and
    pongs between them. In whatever pieces the network hands over their bytes, the read
    operation ends without an error: the caller's buffer has the payload after what it
    had, every ping has been answered with its payload, in order, and the stream is
    ready for the next message, with the bytes that follow still to be read. *)
Theorem async_read_delivers (t : opcode) (limit : Z) (fs : list frame) (data : bytes) (pings : list bytes) (tail v w before : bytes) (b : B) (s : stream) :
  0 < limit < 2 ^ 63 -> t = text \/ t = binary -> Z.of_nat (length before) + limit < 2 ^ 63 ->
  message t limit false Complete tail false 0 fs data pings -> (t = text -> valid_utf8 data) ->
  between_frames t limit false [] v s -> rd_block_ s = id_none -> db_holds b before -> v ++ w = wire fs ++ tail ->
  eventually (net_step create_mask addr) (received_message t limit tail before data (map pong_frame pings)) (mk_net (async_read create_mask addr b s) w []).
Proof. apply async_read_received. Qed.

(** C11: texts of which nothing is known, as long as the last frame is not empty. The
    read operation delivers exactly the valid ones. For the others it sends a close
    frame with the code 1007 and ends with [bad_frame_payload] and a failed connection,
    having delivered a part of the text and answered the pings before. *)
Theorem async_read_text (limit : Z) (fs : list frame) (data : bytes) (pings : list bytes) (tail v w before : bytes) (b : B) (s : stream) :
  0 < limit < 2 ^ 63 -> Z.of_nat (length before) + limit < 2 ^ 63 ->
  message text limit true Complete tail false 0 fs data pings ->
  between_frames text limit false [] v s -> rd_block_ s = id_none -> db_holds b before -> v ++ w = wire fs ++ tail ->
  eventually (net_step create_mask addr)
    (fun c => valid_utf8 data /\ received_message text limit tail before data (map pong_frame pings) c \/
      ~ valid_utf8 data /\ exists x y ps ps', data = x ++ y /\ pings = ps ++ ps' /\
        closed_connection bad_frame_payload close_bad_payload before x (map pong_frame ps) c)
    (mk_net (async_read create_mask addr b s) w []).
Proof.
  intros Hlim Hbefore Hms Hbf Hblk Hb Hw.
  eapply eventually_mono; [|apply (async_read_ends create_mask addr text limit true Complete fs data pings tail v w before b s); try done; by left].
  intros c [b' s' v' w' _ Hval Hb' Hbf' Hblk' Hv|e c' b' s' w' [H|[H _]] _ _|x y ps ps' b' s' w' [_ Hinv] Hd Hp Hb' He]; [|done|done|].
  - left. split; [by apply Hval|]. by exists b', s', v'.
  - right. split; [done|]. exists x, y, ps, ps'. split; [done|]. split; [done|]. by exists b', s'.
Qed.


End Delivery.

(** A stream that was just opened is between two messages. *)
Lemma open_between t limit storage fb_storage wr_storage :
  length storage = tcp_frame_size -> length fb_storage = 139%nat -> limit = 16 * 1024 * 1024 ->
  between_frames t limit false [] [] (open_ server (new_stream storage fb_storage wr_storage)).
Proof.
  intros Hs Hf ->. split; try done.
  - change (checked (checked_part t []) new_checker). unfold checked_part. case_bool_decide; apply checked_new.
  - apply ring_new. rewrite Hs. unfold tcp_frame_size. lia.
Qed.

(** ** Reading again *)

(** A stream whose connection was closed, with no operation under way. *)
Record dead (s : stream) : Prop := {
  dead_status : status_ s = status_closed \/ status_ s = status_failed;
  dead_rd_block : rd_block_ s = id_none;
  dead_wr_block : wr_block_ s = id_none
}.

(** C39: a read on a stream whose connection was closed, as [Session::OnRead] starts it
    after a read of no bytes. If the connection failed in the last frame of a message,
    after its last byte, an assertion of [read_size_hint] fails. Otherwise the read
    completes with [operation_aborted] and no bytes, and leaves the stream as it was:
    the session reads for ever. *)
Theorem read_on_closed_stream {B} `{DB : !DynamicBuffer B} `{PL : !Placement B} (create_mask : nat -> Z) (addr : Z) (b : B) (before : bytes) (s : stream) :
  dead s -> db_holds b before -> Z.of_nat (length before) < 2 ^ 62 -> 0 <= rd_remain_ s < 2 ^ 62 ->
  if negb (rd_done_ s) && fin (rd_fh_ s) && (rd_remain_ s =? 0) then async_read create_mask addr b s = Undef
  else exists o b' s', async_read create_mask addr b s = Ret (Reading (WaitUpcall (Some operation_aborted)) o b' 0 s') /\ db_holds b' before /\
    read_completion create_mask addr (Some operation_aborted) [] (Reading (WaitUpcall (Some operation_aborted)) o b' 0 s') = Ret (ReadDone (Some operation_aborted) 0 b' s).
Proof.
  intros [Hst Hrd Hwr] Hb Hl Hrem. unfold async_read, read_op_turn. rewrite (db_max_size_holds b _ Hb), (db_size_holds b _ Hb).
  unfold read_size_hint. replace (Z.min (Z.of_nat tcp_frame_size) _) with 1536 by (unfold tcp_frame_size; lia). change (1536 =? 0) with false. cbv iota.
  unfold read_size_hint_initial. change (0 <? 1536) with true. cbn [assert_ obind].
  assert (forall hint, 1 <= hint < 2 ^ 62 -> exists o b' s',
    (match db_prepare (Z.to_nat (clamp_to hint size_max)) b with
     | Throw std_length_error => Ret (Overflow b 0 s)
     | Throw e => Throw e
     | Undef => Undef
     | Ret b =>
         let* (r, s) := start_read create_mask addr (new_read_some (place b (Z.to_nat (clamp_to hint size_max)))) s in
         match r with Suspend w o => Ret (Reading w o b 0 s) | Upcall _ _ => Undef end
     end = Ret (Reading (WaitUpcall (Some operation_aborted)) o b' 0 s')) /\ db_holds b' before /\
    read_completion create_mask addr (Some operation_aborted) [] (Reading (WaitUpcall (Some operation_aborted)) o b' 0 s') = Ret (ReadDone (Some operation_aborted) 0 b' s)) as Hhint.
  { intros hint Hh. unfold clamp_to, size_max. rewrite (proj2 (Z.leb_gt _ _)) by lia.
    destruct (db_write_holds b _ [] (Z.to_nat hint) 0 Hb) as (b1 & _ & Ep & _); [lia|cbn; lia..|]. rewrite Ep.
    unfold start_read, mutex_try_lock. rewrite Hrd. change (negb (id_none =? id_read)) with true. change (negb (id_none =? 0)) with false. cbn [assert_ obind].
    change (status_ (set_rd_block id_read s)) with (status_ s).
    assert ((bool_decide (status_ s = status_closed) || bool_decide (status_ s = status_failed)) = true) as -> by (by destruct Hst as [-> | ->]).
    rewrite upcall_ok by done. cbn [obind cont_ new_read_some]. eexists _, _, _. split; [done|].
    split; [apply (db_prepare_holds b _ (Z.to_nat hint)); [done|lia|done]|].
    unfold read_completion, read_complete. cbn [resume_read obind read_op_resume].
    assert (set_rd_block id_none (set_rd_block id_read s) = s) as -> by (unfold set_rd_block; destruct s; cbn in *; by subst). done. }
  destruct (rd_done_ s); cbn [negb andb]; [by apply (Hhint 1536)|]. rewrite clamp_small by lia. destruct (fin (rd_fh_ s)); cbn [andb].
  - destruct (Z.eqb_spec (rd_remain_ s) 0) as [E|E]; [by rewrite E|]. rewrite (proj2 (Z.ltb_lt _ _)) by lia. cbn [assert_ obind].
    rewrite (proj2 (Z.eqb_neq _ _)) by done. apply Hhint. lia.
  - cbn [obind]. rewrite (proj2 (Z.eqb_neq _ _)) by lia. apply Hhint. lia.
Qed.

(** ** Examples *)

(** A text of two frames of which the last is empty, and the text A. *)
Definition half_character : bytes := [0x01; 0x81; 7; 0; 0; 0; Z.lxor 206 7; 0x80; 0x80; 7; 0; 0; 0].
Definition text_A : bytes := [0x81; 0x81; 7; 0; 0; 0; Z.lxor 65 7].

(** When the last frame of a text is empty, [utf8_checker::finish] is not called: a
    text that ends in the middle of a character is delivered without an error. The
    checker keeps the half character, so that the next text, though valid, is rejected
    with 1007. *)
Theorem empty_last_frame_unchecked :
  let async_read := async_read (PL := one_buffer) example_mask 0 in
  let completes := read_completion (PL := one_buffer) example_mask 0 None in
  exists b s o b' s',
    (let* c := async_read new_multi_buffer example_stream in let* c := completes half_character c in completes [] c) = Ret (ReadDone None 1 b s) /\
    copy_out b = Ret [206] /\ ~ valid_utf8 [206] /\ status_ s = status_open /\
    valid_utf8 [65] /\ (let* c := async_read (consume 1 b) s in completes text_A c) = Ret (Reading (WaitClose (close_frame close_bad_payload)) o b' 0 s').
Proof.
  do 5 eexists. split; [vm_compute; reflexivity|]. split; [vm_compute; reflexivity|]. split; [|split; [reflexivity|split; [apply ascii_valid; by repeat constructor|vm_compute; reflexivity]]].
  apply utf8_split_none; [by vm_compute|done].
Qed.

(** A text in two frames, with a ping between them. *)
Definition example_frames : list frame :=
  [(mk_fh 2 0x3d21fa37 text false true false false false, str "He");
   (mk_fh 2 7 ping true true false false false, str "hi");
   (mk_fh 3 9 cont true true false false false, str "llo")].

Ltac is_client_frame := split; try done; try bytes_ok; repeat split; try done; unfold in_width; cbn; lia.

Lemma example_message : message text (16 * 1024 * 1024) false Complete [0x81] false 0 example_frames (str "Hello") [str "hi"].
Proof.
  change (str "Hello") with (str "He" ++ str "llo").
  apply (message_part _ _ _ _ _ false 0 (mk_fh 2 0x3d21fa37 text false true false false false, str "He")); [is_client_frame|done|done|cbn; lia|].
  apply (message_ping _ _ _ _ _ true _ (mk_fh 2 7 ping true true false false false, str "hi")); [is_client_frame|done|done|cbn; lia|].
  apply (message_last _ _ _ _ _ true _ (mk_fh 3 9 cont true true false false false, str "llo")); [is_client_frame|done|done|cbn; lia|done|done].
Qed.

Lemma example_between t : between_frames t (16 * 1024 * 1024) false [] [] example_stream.
Proof. by apply open_between. Qed.

Lemma async_read_delivers_witness :
  message text (16 * 1024 * 1024) false Complete [0x81] false 0 example_frames (str "Hello") [str "hi"] /\
  eventually (net_step (PL := one_buffer) example_mask 0)
    (received_message text (16 * 1024 * 1024) [0x81] [] (str "Hello") [[0x8a; 2; 104; 105]])
    (mk_net (async_read (PL := one_buffer) example_mask 0 new_multi_buffer example_stream) (wire example_frames ++ [0x81]) []).
Proof.
  split; [exact example_message|].
  apply (async_read_delivers (PL := one_buffer) example_mask 0 text (16 * 1024 * 1024) example_frames (str "Hello") [str "hi"] [0x81] [] (wire example_frames ++ [0x81]) [] new_multi_buffer example_stream).
  - lia.
  - by left.
  - cbn. lia.
  - exact example_message.
  - intros _. apply ascii_valid. repeat constructor; cbn; lia.
  - apply example_between.
  - reflexivity.
  - apply mb_new_holds.
  - reflexivity.
Defined.

(** A text that is not valid. *)
Lemma async_read_text_witness :
  let fs := [(mk_fh 2 7 text true true false false false, [206; 65])] in
  message text (16 * 1024 * 1024) true Complete [] false 0 fs [206; 65] [] /\
  eventually (net_step (PL := one_buffer) example_mask 0)
    (fun c => valid_utf8 [206; 65] /\ received_message text (16 * 1024 * 1024) [] [] [206; 65] [] c \/
      ~ valid_utf8 [206; 65] /\ exists x y ps ps' : list _, [206; 65] = x ++ y /\ [] = ps ++ ps' /\
        closed_connection bad_frame_payload close_bad_payload [] x (map pong_frame ps) c)
    (mk_net (async_read (PL := one_buffer) example_mask 0 new_multi_buffer example_stream) (wire fs) []).
Proof.
  intros fs.
  assert (message text (16 * 1024 * 1024) true Complete [] false 0 fs [206; 65] []) as Hms.
  { apply (message_last _ _ _ _ _ false 0 (mk_fh 2 7 text true true false false false, [206; 65])); [is_client_frame|done|done|cbn; lia|done|done]. }
  split; [exact Hms|].
  apply (async_read_text (PL := one_buffer) example_mask 0 (16 * 1024 * 1024) fs [206; 65] [] [] [] (wire fs) [] new_multi_buffer example_stream).
  - lia.
  - cbn. lia.
  - exact Hms.
  - apply example_between.
  - reflexivity.
  - apply mb_new_holds.
  - reflexivity.
Defined.


Lemma read_on_closed_stream_witness :
  let s := set_status status_failed example_stream in
  dead s /\ exists o b' s', async_read (PL := one_buffer) example_mask 0 new_multi_buffer s = Ret (Reading (WaitUpcall (Some operation_aborted)) o b' 0 s') /\ mb_holds b' [] /\
    read_completion (PL := one_buffer) example_mask 0 (Some operation_aborted) [] (Reading (WaitUpcall (Some operation_aborted)) o b' 0 s') =
    Ret (ReadDone (Some operation_aborted) 0 b' s).
Proof.
  intros s. assert (dead s) as Hd by (split; [by right|reflexivity|reflexivity]). split; [exact Hd|].
  assert (negb (rd_done_ s) && fin (rd_fh_ s) && (rd_remain_ s =? 0) = false) as E by reflexivity.
  assert (0 <= rd_remain_ s < 2 ^ 62) as Hr by (cbn; lia).
  pose proof (read_on_closed_stream (PL := one_buffer) example_mask 0 new_multi_buffer [] s Hd (db_new_holds (B := multi_buffer)) eq_refl Hr) as H.
  rewrite E in H. exact H.
Defined.
