(* ===== verification/WsWrite.v ===== *)
(** * Writing to the websocket stream

    [write_some_op] of src/externals/boost/boost/beast/websocket/impl/write.ipp, the
    coroutine behind [async_write], with its four ways of sending a message without
    compression, and what it sends. *)

From Stdlib Require Import ZArith Lia String Ascii.
From stdpp Require Import base list.
From S2P Require Import Prelude Utf8 Exceptions StaticBuffer WsUtf8 WsFrame WsStream WsParse MultiBuffer WsRead WsDeliver WsReceive.

(** ** write_some_op *)

(** [how_]; compression is never negotiated. *)
Inductive how := do_nomask_nofrag | do_nomask_frag | do_mask_nofrag | do_mask_frag.

(** The data members; [wcb_] is the bytes of [cb_]. *)
Record write_some_op := mk_write_some {
  fh_ : frame_header;
  key_ : bytes;
  wcb_ : bytes;
  bytes_transferred_ : nat;
  remain_ : nat;
  how_ : how;
  fin_ : bool;
  wcont_ : bool
}.

(** [write_some_op(h, ws, fin, bs)]. *)
Definition new_write_some (fin : bool) (bs : bytes) : write_some_op :=
  mk_write_some no_header [0; 0; 0; 0] bs 0 0 do_nomask_nofrag fin false.

Definition set_fh (fh : frame_header) (o : write_some_op) : write_some_op :=
  mk_write_some fh (key_ o) (wcb_ o) (bytes_transferred_ o) (remain_ o) (how_ o) (fin_ o) (wcont_ o).
Definition set_wkey (k : bytes) (o : write_some_op) : write_some_op :=
  mk_write_some (fh_ o) k (wcb_ o) (bytes_transferred_ o) (remain_ o) (how_ o) (fin_ o) (wcont_ o).
Definition wconsume (n : nat) (o : write_some_op) : write_some_op :=
  mk_write_some (fh_ o) (key_ o) (drop n (wcb_ o)) (bytes_transferred_ o) (remain_ o) (how_ o) (fin_ o) (wcont_ o).
Definition add_transferred (n : nat) (o : write_some_op) : write_some_op :=
  mk_write_some (fh_ o) (key_ o) (wcb_ o) (bytes_transferred_ o + n) (remain_ o) (how_ o) (fin_ o) (wcont_ o).
Definition set_remain (n : nat) (o : write_some_op) : write_some_op :=
  mk_write_some (fh_ o) (key_ o) (wcb_ o) (bytes_transferred_ o) n (how_ o) (fin_ o) (wcont_ o).
Definition set_how (h : how) (o : write_some_op) : write_some_op :=
  mk_write_some (fh_ o) (key_ o) (wcb_ o) (bytes_transferred_ o) (remain_ o) h (fin_ o) (wcont_ o).
Definition set_wcont (c : bool) (o : write_some_op) : write_some_op :=
  mk_write_some (fh_ o) (key_ o) (wcb_ o) (bytes_transferred_ o) (remain_ o) (how_ o) (fin_ o) c.

(** What the operation waits for: the write block, the write of a frame or of its
    beginning, the write of more of a payload, and its own posted completion. *)
Inductive write_wait :=
  | WaitWriteBlock
  | WaitFrame (data : bytes)
  | WaitChunk (data : bytes)
  | WaitWriteUpcall (ec : error_code).

Inductive write_result :=
  | WSuspend (w : write_wait) (o : write_some_op)
  | WUpcall (ec : error_code) (o : write_some_op).

Section Write.
(** The keys that [create_mask] returns, and what a new write buffer has in it. *)
Context (create_mask : nat -> Z) (noinit : nat -> bytes).

(** The label [upcall]. *)
Definition write_upcall (ec : error_code) (o : write_some_op) (s : stream) : cpp (write_result * stream) :=
  let* m := mutex_unlock id_write (wr_block_ s) in
  let* (_, s) := invoke_rd (set_wr_block m s) in
  if negb (wcont_ o) then Ret (WSuspend (WaitWriteUpcall ec) o, s) else Ret (WUpcall ec o, s).

(** [ws_.wr_fb_.reset(); write(ws_.wr_fb_, fh_); ws_.wr_cont_ = ! fin_]. *)
Definition put_header (o : write_some_op) (s : stream) : cpp stream :=
  let* db := WsFrame.write (Flat.reset (wr_fb_ s)) (fh_ o) in
  Ret (upd_wr (fun w => set_wr_cont (negb (fin_ o)) (set_wr_fb db w)) s).

(** [buffer_copy(buffer(ws_.wr_buf_.get(), n), cb_); mask_inplace(buffer(..), key_)]:
    the bytes that are then in that buffer. *)
Definition fill_masked (n : nat) (o : write_some_op) (s : stream) : cpp (bytes * write_some_op * stream) :=
  match wr_buf_ s with
  | None => Undef
  | Some m =>
      let (_, m) := buffer_copy [(0%nat, n)] (wcb_ o) m in
      let (m, k) := mask_inplace [(0%nat, n)] m (key_ o) in
      Ret (load m (0%nat, n), set_wkey k o, upd_wr (set_wr_buf (Some m)) s)
  end.

(** [clamp(remain_, ws_.wr_buf_size_)]. *)
Definition next_size (o : write_some_op) (s : stream) : nat :=
  Z.to_nat (clamp_to (Z.of_nat (remain_ o)) (Z.of_nat (wr_buf_size_ s))).

(** A new mask for the frame. *)
Definition new_key (fh : frame_header) (s : stream) : frame_header * stream :=
  (mk_fh (len fh) (create_mask (masks s)) (op fh) (fin fh) (mask fh) (rsv1 fh) (rsv2 fh) (rsv3_ fh), next_mask s).

Definition fin_len (f : bool) (n : nat) (fh : frame_header) : frame_header :=
  mk_fh (Z.of_nat n) (key fh) (op fh) f (mask fh) (rsv1 fh) (rsv2 fh) (rsv3_ fh).

(** The next frame, or the beginning of it, by [how_]. *)
Definition send_frame (o : write_some_op) (s : stream) : cpp (write_result * stream) :=
  match how_ o with
  | do_nomask_nofrag =>
      let o := set_fh (fin_len (fin_ o) (length (wcb_ o)) (fh_ o)) o in
      let* s := put_header o s in
      Ret (WSuspend (WaitFrame (Flat.contents (wr_fb_ s) ++ wcb_ o)) o, s)
  | do_nomask_frag =>
      let n := next_size o s in
      let o := set_remain (remain_ o - n) o in
      let o := set_fh (fin_len (if fin_ o then (remain_ o =? 0)%nat else false) n (fh_ o)) o in
      let* s := put_header o s in
      Ret (WSuspend (WaitFrame (Flat.contents (wr_fb_ s) ++ take (Z.to_nat (clamp (len (fh_ o)))) (wcb_ o))) o, s)
  | do_mask_nofrag =>
      let o := set_remain (length (wcb_ o)) o in
      let (fh, s) := new_key (fin_len (fin_ o) (remain_ o) (fh_ o)) s in
      let o := set_wkey (prepare_key (key fh)) (set_fh fh o) in
      let* s := put_header o s in
      let n := next_size o s in
      let* (d, o, s) := fill_masked n o s in
      Ret (WSuspend (WaitFrame (Flat.contents (wr_fb_ s) ++ d)) (set_remain (remain_ o - n) o), s)
  | do_mask_frag =>
      let n := next_size o s in
      let o := set_remain (remain_ o - n) o in
      let (fh, s) := new_key (fin_len (if fin_ o then (remain_ o =? 0)%nat else false) n (fh_ o)) s in
      let o := set_wkey (prepare_key (key fh)) (set_fh fh o) in
      let* (d, o, s) := fill_masked n o s in
      let* s := put_header o s in
      Ret (WSuspend (WaitFrame (Flat.contents (wr_fb_ s) ++ d)) o, s)
  end.

(** The loop for the rest of a masked frame. *)
Definition send_chunk (o : write_some_op) (s : stream) : cpp (write_result * stream) :=
  if (0 <? remain_ o)%nat then
    let o := wconsume (wr_buf_size_ s) o in
    let n := next_size o s in
    let* (d, o, s) := fill_masked n o s in
    Ret (WSuspend (WaitChunk d) (set_remain (remain_ o - n) o), s)
  else write_upcall None o s.

(** Another frame of the message: a read operation that waits for the write block goes
    first. *)
Definition next_frame (n : nat) (o : write_some_op) (s : stream) : cpp (write_result * stream) :=
  let o := add_transferred n o in
  if (remain_ o =? 0)%nat then write_upcall None o s
  else
    let o := wconsume n o in
    let fh := fh_ o in
    let o := set_fh (mk_fh (len fh) (key fh) cont (fin fh) (mask fh) (rsv1 fh) (rsv2 fh) (rsv3_ fh)) o in
    let* m := mutex_unlock id_write (wr_block_ s) in
    let* (invoked, s) := invoke_rd (set_wr_block m s) in
    if invoked : bool then
      let* _ := assert_ (negb (wr_block_ s =? id_none)) in
      let* s := pause_wr s in Ret (WSuspend WaitWriteBlock o, s)
    else
      let* m := mutex_lock id_write (wr_block_ s) in
      send_frame o (set_wr_block m s).

(** The choice of the algorithm, and [remain_]. *)
Definition choose_how (o : write_some_op) (s : stream) : cpp write_some_op :=
  let choose nofrag frag :=
    if negb (wr_frag_ s) then Ret (set_how nofrag o)
    else
      let* _ := assert_ (negb (wr_buf_size_ s =? 0)%nat) in
      let o := set_remain (length (wcb_ o)) o in
      Ret (set_how (if (wr_buf_size_ s <? remain_ o)%nat then frag else nofrag) o) in
  if negb (mask (fh_ o)) then choose do_nomask_nofrag do_nomask_frag else choose do_mask_nofrag do_mask_frag.

(** The first call of [operator()]. *)
Definition start_write (o : write_some_op) (s : stream) : cpp (write_result * stream) :=
  let s := if negb (wr_cont_ s) then begin_msg noinit s else s in
  let fh := mk_fh (len (fh_ o)) (key (fh_ o)) (if wr_cont_ s then cont else wr_opcode_ s) (fin (fh_ o))
    (bool_decide (role_ s = client)) false false false in
  let* o := choose_how (set_fh fh o) s in
  let* (locked, m) := mutex_try_lock id_write (wr_block_ s) in
  let s := set_wr_block m s in
  if locked then
    let (ok, ec) := check_open s None in
    if negb ok then write_upcall ec o s else send_frame o s
  else let* s := pause_wr s in Ret (WSuspend WaitWriteBlock o, s).

(** [operator()(ec, bytes_transferred)] where the operation waits. *)
Definition resume_write (w : write_wait) (ec : error_code) (bytes_transferred : nat) (o : write_some_op) (s : stream) : cpp (write_result * stream) :=
  let o := set_wcont true o in
  match w with
  | WaitWriteBlock =>
      let* _ := assert_ (is_locked id_write (wr_block_ s)) in
      let (ok, ec) := check_open s None in
      if negb ok then write_upcall ec o s else send_frame o s
  | WaitFrame _ =>
      let (ok, s) := check_ok ec s in
      if negb ok then write_upcall ec o s
      else
        match how_ o with
        | do_nomask_nofrag => write_upcall None (add_transferred (Z.to_nat (clamp (len (fh_ o)))) o) s
        | do_nomask_frag => next_frame (Z.to_nat (clamp (len (fh_ o)))) o s
        | do_mask_nofrag => send_chunk (add_transferred (bytes_transferred - Flat.size (wr_fb_ s)) o) s
        | do_mask_frag => next_frame (bytes_transferred - Flat.size (wr_fb_ s)) o s
        end
  | WaitChunk _ =>
      let (ok, s) := check_ok ec s in
      if negb ok then write_upcall ec o s else send_chunk (add_transferred bytes_transferred o) s
  | WaitWriteUpcall ec => Ret (WUpcall ec o, s)
  end.

(** [async_write(bs, handler)]. *)
Definition async_write (bs : bytes) (s : stream) : cpp (write_result * stream) := start_write (new_write_some true bs) s.

End Write.

(** ** What is sent *)

(** The operation and the stream, and the bytes that were sent. *)
Record wnet := mk_wnet { wconf : cpp (write_result * stream); written : bytes }.

Section Writes.
Context (create_mask : nat -> Z) (noinit : nat -> bytes).

(** A write is completed, or the posted completion runs. *)
Inductive write_step : wnet -> wnet -> Prop :=
  | step_frame d o s sent :
      write_step (mk_wnet (Ret (WSuspend (WaitFrame d) o, s)) sent)
        (mk_wnet (resume_write create_mask (WaitFrame d) None (length d) o s) (sent ++ d))
  | step_chunk d o s sent :
      write_step (mk_wnet (Ret (WSuspend (WaitChunk d) o, s)) sent)
        (mk_wnet (resume_write create_mask (WaitChunk d) None (length d) o s) (sent ++ d))
  | step_posted ec o s sent :
      write_step (mk_wnet (Ret (WSuspend (WaitWriteUpcall ec) o, s)) sent)
        (mk_wnet (resume_write create_mask (WaitWriteUpcall ec) ec 0 o s) sent).

(** The frames of a message, or of the rest of it, with these masks and opcodes. *)
Inductive sends (masked : bool) (t : opcode) : bool -> list frame -> bytes -> Prop :=
  | sends_last inside fh p :
      header_ok fh -> len fh = Z.of_nat (length p) -> mask fh = masked -> (rsv1 fh = false /\ rsv2 fh = false /\ rsv3_ fh = false) ->
      op fh = (if inside : bool then cont else t) -> fin fh = true ->
      sends masked t inside [(fh, p)] p
  | sends_part inside fh p fs data :
      header_ok fh -> len fh = Z.of_nat (length p) -> mask fh = masked -> (rsv1 fh = false /\ rsv2 fh = false /\ rsv3_ fh = false) ->
      op fh = (if inside : bool then cont else t) -> fin fh = false ->
      sends masked t true fs data -> sends masked t inside ((fh, p) :: fs) (p ++ data).

(** Frames with a mask are a message that a server accepts. *)
Lemma sends_message t limit tail inside fs data n :
  sends true t inside fs data -> Forall u8 data -> n + Z.of_nat (length data) <= limit ->
  message t limit false Complete tail inside n fs data [].
Proof.
  intros H. revert n. induction H as [inside fh p Hok Hl Hm Hr Hop Hf|inside fh p fs data Hok Hl Hm Hr Hop Hf _ IH]; intros n Hu Hn.
  - apply (message_last _ _ _ _ _ inside n (fh, p)); try done. cbn [fst]. lia.
  - apply Forall_app in Hu as [Hu1 Hu2]. rewrite length_app in Hn.
    apply (message_part _ _ _ _ _ inside n (fh, p) fs data []); try done; cbn [fst]; [lia|]. apply IH; [done|lia].
Qed.

(** A stream on which a message may be written. *)
Record writable (s : stream) : Prop := {
  wa_status : status_ s = status_open;
  wa_block : wr_block_ s = id_none;
  wa_paused : paused_rd_ s = false;
  wa_cont : wr_cont_ s = false;
  wa_fb : Flat.max_size (wr_fb_ s) = 14%nat;
  wa_opt : (0 < wr_buf_opt_ s)%nat /\ Z.of_nat (wr_buf_opt_ s) < 2 ^ 63;
  wa_buf : forall m, wr_buf_ s = Some m -> length m = wr_buf_size_ s
}.

(** The stream while a message is written. *)
Record writing (masked : bool) (t : opcode) (s : stream) : Prop := {
  wg_status : status_ s = status_open;
  wg_block : wr_block_ s = id_write;
  wg_paused : paused_rd_ s = false;
  wg_fb : Flat.max_size (wr_fb_ s) = 14%nat;
  wg_opt : (0 < wr_buf_opt_ s)%nat /\ Z.of_nat (wr_buf_opt_ s) < 2 ^ 63;
  wg_opcode : wr_opcode_ s = t;
  wg_size : (0 < wr_buf_size_ s)%nat /\ Z.of_nat (wr_buf_size_ s) < 2 ^ 63;
  wg_buf : match wr_buf_ s with Some m => length m = wr_buf_size_ s | None => masked = false end;
  wg_role : role_ s = if masked then client else server
}.

Hypothesis masks_u32 : forall n, u32 (create_mask n).
Hypothesis noinit_length : forall n, length (noinit n) = n.

Lemma next_size_min o s : next_size o s = Nat.min (remain_ o) (wr_buf_size_ s).
Proof. unfold next_size, clamp_to. destruct (Z.leb_spec (Z.of_nat (wr_buf_size_ s)) (Z.of_nat (remain_ o))); lia. Qed.

Lemma fill_masked_ok t n o s :
  writing true t s -> length (key_ o) = 4%nat -> (n <= wr_buf_size_ s)%nat -> (n <= length (wcb_ o))%nat ->
  exists m, fill_masked n o s = Ret (fst (mask_ref (key_ o) (take n (wcb_ o))), set_wkey (rol (key_ o) n) o, upd_wr (set_wr_buf (Some m)) s) /\
    writing true t (upd_wr (set_wr_buf (Some m)) s).
Proof.
  intros Hw Hk Hn Hl. pose proof (wg_buf _ _ _ Hw) as Hb. unfold fill_masked. destruct (wr_buf_ s) as [m|]; [|done].
  assert (length (take n (wcb_ o)) = n) as Ht by (rewrite length_take; lia).
  cbn [buffer_copy]. unfold mask_inplace. cbn [transform fst]. set (m1 := list_inserts 0 _ m).
  assert (load m1 (0%nat, n) = take n (wcb_ o)) as ->.
  { unfold m1. rewrite <- Ht at 2. apply load_inserts_same. lia. }
  rewrite mask_buffer_ref by done. destruct (mask_ref_spec (key_ o) (take n (wcb_ o)) Hk) as (Es & El & _). rewrite Ht in Es, El.
  destruct (mask_ref (key_ o) (take n (wcb_ o))) as [d k]. cbn [fst snd] in *. subst k.
  exists (list_inserts 0 d m1). split.
  - assert (load (list_inserts 0 d m1) (0%nat, n) = d) as ->; [|done].
    rewrite <- El. apply load_inserts_same. unfold m1. rewrite length_inserts. lia.
  - destruct Hw. split; try done. cbn. unfold m1. by rewrite !length_inserts.
Qed.

Lemma put_header_ok masked t o s :
  writing masked t s -> header_ok (fh_ o) -> fin_ o = true ->
  exists db, let s' := upd_wr (fun w => set_wr_cont false (set_wr_fb db w)) s in
    put_header o s = Ret s' /\ Flat.contents db = header_bytes (fh_ o) /\ Flat.size db = length (header_bytes (fh_ o)) /\ writing masked t s'.
Proof.
  intros Hw Hok Hf. unfold put_header. destruct (flat_reset (wr_fb_ s)) as [Hr Hm]. rewrite (wg_fb _ _ _ Hw) in Hm.
  pose proof (length_header_bytes (fh_ o) Hok) as Hl.
  destruct (write_header_holds (Flat.reset (wr_fb_ s)) [] (fh_ o) Hok Hr) as (db & -> & Hdb & Hmax); [rewrite Hm; cbn [length]; lia|]. cbn [obind app] in *.
  rewrite Hf. exists db. split; [done|]. split; [apply Hdb|]. split; [by apply flat_size_holds|].
  destruct Hw. split; try done. cbn. by rewrite Hmax, Hm.
Qed.

(** The operation between two frames. *)
Record between (masked : bool) (t : opcode) (inside : bool) (p : bytes) (o : write_some_op) : Prop := {
  bw_data : wcb_ o = p;
  bw_op : op (fh_ o) = (if inside then cont else t);
  bw_mask : mask (fh_ o) = masked;
  bw_rsv : rsv1 (fh_ o) = false /\ rsv2 (fh_ o) = false /\ rsv3_ (fh_ o) = false;
  bw_key : masked = false -> key (fh_ o) = 0;
  bw_fin : fin_ o = true
}.

(** The end of the operation: these frames were sent. *)
Definition sent_message (masked : bool) (t : opcode) (inside : bool) (p : bytes) (bt : nat) (sent : bytes) (c : wnet) : Prop :=
  exists o s fs, wconf c = Ret (WUpcall None o, s) /\ written c = sent ++ wire fs /\ sends masked t inside fs p /\
    bytes_transferred_ o = (bt + length p)%nat /\ writable s /\ wr_opcode_ s = t /\ role_ s = if masked then client else server.

Lemma write_upcall_ok masked t o s :
  writing masked t s -> wr_cont_ s = false -> wcont_ o = true ->
  exists s', write_upcall None o s = Ret (WUpcall None o, s') /\ writable s' /\ wr_opcode_ s' = t /\ role_ s' = if masked then client else server.
Proof.
  intros Hw Hc Ho. unfold write_upcall, mutex_unlock, invoke_rd. rewrite (wg_block _ _ _ Hw). change (id_write =? id_write) with true. cbn [assert_ obind].
  change (paused_rd_ (set_wr_block 0 s)) with (paused_rd_ s). rewrite (wg_paused _ _ _ Hw). cbn [obind]. rewrite Ho. cbn [negb].
  eexists. split; [done|]. destruct Hw. split; [|done]. split; try done. intros m E. change (wr_buf_ s = Some m) in E. rewrite E in wg_buf0. done.
Qed.

(** A write that is completed. *)
Lemma frame_completes P d o s sent :
  eventually write_step P (mk_wnet (resume_write create_mask (WaitFrame d) None (length d) o s) (sent ++ d)) ->
  eventually write_step P (mk_wnet (Ret (WSuspend (WaitFrame d) o, s)) sent).
Proof. intros H. apply eventually_step; [eexists; apply step_frame|]. intros c Hc. by inversion Hc; subst. Qed.

Lemma chunk_completes P d o s sent :
  eventually write_step P (mk_wnet (resume_write create_mask (WaitChunk d) None (length d) o s) (sent ++ d)) ->
  eventually write_step P (mk_wnet (Ret (WSuspend (WaitChunk d) o, s)) sent).
Proof. intros H. apply eventually_step; [eexists; apply step_chunk|]. intros c Hc. by inversion Hc; subst. Qed.

(** The operation has ended. *)
Lemma upcall_sent masked t inside p bt sent o s fs :
  writing masked t s -> wr_cont_ s = false -> wcont_ o = true -> bytes_transferred_ o = (bt + length p)%nat -> sends masked t inside fs p ->
  sent_message masked t inside p bt sent (mk_wnet (write_upcall None o s) (sent ++ wire fs)).
Proof.
  intros Hw Hc Ho Hbt Hs. destruct (write_upcall_ok masked t o s Hw Hc Ho) as (s' & E & H1 & H2 & H3). exists o, s', fs. done.
Qed.

(** *** A frame of several *)

Definition frag (masked : bool) : how := if masked then do_mask_frag else do_nomask_frag.
Definition nofrag (masked : bool) : how := if masked then do_mask_nofrag else do_nomask_nofrag.

(** The operation and the stream while a frame with the payload [p] is sent whole. *)
Record sending (masked : bool) (t : opcode) (p : bytes) (last : bool) (o : write_some_op) (s : stream) : Prop := {
  sg_writing : writing masked t s;
  sg_cont : wr_cont_ s = false;
  sg_header : header_ok (fh_ o);
  sg_len : len (fh_ o) = Z.of_nat (length p);
  sg_fin : fin (fh_ o) = last;
  sg_size : Flat.size (wr_fb_ s) = length (header_bytes (fh_ o))
}.

Lemma length_frame_bytes fh p : length (frame_bytes fh p) = (length (header_bytes fh) + length p)%nat.
Proof.
  unfold frame_bytes. rewrite length_app. f_equal. destruct (mask fh); [|done]. by rewrite (proj1 (proj2 (mask_ref_spec _ p (prepare_key_length _)))).
Qed.

Lemma clamp_length (p : bytes) : Z.of_nat (length p) < 2 ^ 63 -> Z.to_nat (clamp (Z.of_nat (length p))) = length p.
Proof. intros H. rewrite clamp_small by lia. lia. Qed.

Lemma send_frame_frag masked t inside p o s :
  writing masked t s -> between masked t inside p o -> how_ o = frag masked -> remain_ o = length p -> Z.of_nat (length p) < 2 ^ 63 ->
  let n := Nat.min (length p) (wr_buf_size_ s) in
  exists o' s', send_frame create_mask o s = Ret (WSuspend (WaitFrame (frame_bytes (fh_ o') (take n p))) o', s') /\
    sending masked t (take n p) (length p - n =? 0)%nat o' s' /\ between masked t inside p o' /\ how_ o' = frag masked /\
    remain_ o' = (length p - n)%nat /\ bytes_transferred_ o' = bytes_transferred_ o /\ wr_buf_size_ s' = wr_buf_size_ s.
Proof.
  intros Hw [Hd Hop Hm Hr Hk Hf] Hh Hrem Hl n. pose proof (next_size_min o s) as En. rewrite Hrem in En. fold n in En.
  assert (length (take n p) = n) as Ht by (rewrite length_take; unfold n; lia).
  unfold send_frame. rewrite Hh. destruct masked; cbn [frag]; rewrite En.
  - unfold new_key. cbn [set_remain fh_ fin_ remain_]. rewrite Hf, Hrem.
    set (fh := mk_fh _ _ _ _ _ _ _ _). set (o1 := set_wkey _ _). set (s1 := next_mask s).
    assert (writing true t s1) as Hw1 by (destruct Hw; by split).
    destruct (fill_masked_ok t n o1 s1 Hw1) as (m & -> & Hw2); [done|unfold n; cbn; lia|cbn [wcb_ o1 set_wkey set_fh set_remain]; rewrite Hd; unfold n; lia|].
    cbn [obind]. set (s2 := upd_wr _ s1). set (o2 := set_wkey _ o1).
    assert (header_ok fh) as Hok.
    { split; [unfold in_width; cbn; lia|]. split; [apply masks_u32|]. intros E. change (mask (fh_ o) = false) in E. by rewrite Hm in E. }
    destruct (put_header_ok true t o2 s2 Hw2 Hok Hf) as (db & -> & Ec & Es & Hw3). cbn [obind].
    exists o2, (upd_wr (fun w => set_wr_cont false (set_wr_fb db w)) s2). split.
    + do 3 f_equal. change (wr_fb_ (upd_wr _ s2)) with db. rewrite Ec. unfold frame_bytes. change (fh_ o2) with fh. change (mask fh) with (mask (fh_ o)). rewrite Hm.
      cbn [o1 key_ set_wkey set_fh wcb_ set_remain]. by rewrite Hd.
    + split; [by split; cbn; rewrite ?Ht|]. by split_and!.
  - cbn [set_remain fh_ fin_ remain_]. rewrite Hf, Hrem. set (fh := fin_len _ _ _). set (o1 := set_fh _ _).
    assert (header_ok fh) as Hok.
    { split; [unfold in_width; cbn; lia|]. split; [by change (u32 (key (fh_ o))); rewrite Hk|]. by intros _; apply Hk. }
    destruct (put_header_ok false t o1 s Hw Hok Hf) as (db & -> & Ec & Es & Hw3). cbn [obind].
    exists o1, (upd_wr (fun w => set_wr_cont false (set_wr_fb db w)) s). split.
    + do 3 f_equal. change (wr_fb_ (upd_wr _ s)) with db. rewrite Ec. unfold frame_bytes. change (fh_ o1) with fh. change (mask fh) with (mask (fh_ o)). rewrite Hm.
      change (len fh) with (Z.of_nat n). rewrite <- Ht, clamp_length by (rewrite Ht; lia). cbn [o1 set_fh wcb_ set_remain]. by rewrite Hd, Ht.
    + split; [by split; cbn; rewrite ?Ht|]. by split_and!.
Qed.

(** What completes a frame is its number of bytes. *)
Lemma resume_frag masked t p last o s d :
  sending masked t p last o s -> how_ o = frag masked -> mask (fh_ o) = masked -> Z.of_nat (length p) < 2 ^ 63 -> d = frame_bytes (fh_ o) p ->
  resume_write create_mask (WaitFrame d) None (length d) o s = next_frame create_mask (length p) (set_wcont true o) s.
Proof.
  intros [_ _ _ Hl _ Hs] Hh Hm Hp ->. cbn [resume_write check_ok negb set_wcont how_]. rewrite Hh.
  destruct masked; cbn [frag set_wcont fh_ fin_]; [by rewrite Hs, length_frame_bytes, Nat.add_comm, Nat.add_sub|by rewrite Hl, clamp_length].
Qed.

(** All the frames of a message in several. *)
Lemma frag_ok masked t k : forall inside p o s sent,
  (length p <= k)%nat -> p <> [] ->
  writing masked t s -> between masked t inside p o -> how_ o = frag masked -> remain_ o = length p -> Z.of_nat (length p) < 2 ^ 63 ->
  eventually write_step (sent_message masked t inside p (bytes_transferred_ o) sent) (mk_wnet (send_frame create_mask o s) sent).
Proof.
  induction k as [|k IH]; intros inside p o s sent Hk Hp Hw Hb Hh Hrem Hl; [destruct p; cbn in Hk; [done|lia]|].
  destruct (send_frame_frag masked t inside p o s Hw Hb Hh Hrem Hl) as (o' & s' & -> & Hsg & [Hd Hop Hm Hr Hkey Hf] & Hh' & Hrem' & Hbt & Hsz).
  set (n := Nat.min (length p) (wr_buf_size_ s)) in *. assert (0 < n)%nat as Hn by (pose proof (wg_size _ _ _ Hw); destruct p; [done|cbn [length] in n; lia]).
  assert (length (take n p) = n) as Ht by (rewrite length_take; lia).
  apply frame_completes. rewrite (resume_frag masked t (take n p) (length p - n =? 0)%nat o' s') by (done || (rewrite Ht; lia)).
  destruct Hsg as [Hw' Hc' Hok Hlen Hfin _]. unfold next_frame. cbn [add_transferred set_wcont remain_]. rewrite Hrem', Ht.
  destruct (Nat.eqb_spec (length p - n) 0) as [E|E].
  - assert (take n p = p) as Hall by (apply take_ge; lia). rewrite Hall in *. apply eventually_now.
    rewrite <- (app_nil_r (frame_bytes _ _)). apply (upcall_sent masked t inside p (bytes_transferred_ o) sent _ s' [(fh_ o', p)]); try done.
    + cbn. rewrite Hbt. lia.
    + by apply sends_last.
  - unfold mutex_unlock. rewrite (wg_block _ _ _ Hw'). change (id_write =? id_write) with true. cbn [assert_ obind]. unfold invoke_rd.
    change (paused_rd_ (set_wr_block 0 s')) with (paused_rd_ s'). rewrite (wg_paused _ _ _ Hw'). cbn [obind].
    unfold mutex_lock. change (wr_block_ (set_wr_block 0 s') =? 0) with true. cbn [assert_ obind].
    set (o2 := set_fh _ _). set (s2 := set_wr_block id_write _).
    apply (eventually_mono _ (sent_message masked t true (drop n p) (bytes_transferred_ o2) (sent ++ frame_bytes (fh_ o') (take n p)))).
    + intros c (o3 & s3 & fs & E1 & E2 & Hs & Hbt3 & Hrest). exists o3, s3, ((fh_ o', take n p) :: fs). split; [done|]. split.
      { rewrite E2. unfold wire. cbn [map concat fst snd]. by rewrite app_assoc. }
      split; [|split; [|done]].
      * rewrite <- (take_drop n p) at 2. by apply sends_part.
      * rewrite Hbt3, length_drop. cbn. rewrite Hbt. lia.
    + apply IH; try done.
      * rewrite length_drop. lia.
      * intros Hnil. apply (f_equal length) in Hnil. rewrite length_drop in Hnil. cbn in Hnil. lia.
      * destruct Hw'. by split.
      * split; try done. cbn. by rewrite Hd.
      * cbn. by rewrite Hrem', length_drop.
      * rewrite length_drop. lia.
Qed.

(** *** A frame of its own *)

(** The rest of a masked payload. *)
Definition sent_payload (t : opcode) (rest key : bytes) (bt : nat) (sent : bytes) (c : wnet) : Prop :=
  exists o s, wconf c = Ret (WUpcall None o, s) /\ written c = sent ++ fst (mask_ref key rest) /\ bytes_transferred_ o = (bt + length rest)%nat /\
    writable s /\ wr_opcode_ s = t /\ role_ s = client.

Lemma chunk_ok t k : forall before rest o s sent,
  (length rest <= k)%nat -> writing true t s -> wr_cont_ s = false -> wcont_ o = true -> length (key_ o) = 4%nat ->
  wcb_ o = before ++ rest -> remain_ o = length rest -> (rest <> [] -> length before = wr_buf_size_ s) ->
  eventually write_step (sent_payload t rest (key_ o) (bytes_transferred_ o) sent) (mk_wnet (send_chunk o s) sent).
Proof.
  induction k as [|k IH]; intros before rest o s sent Hk Hw Hc Ho Hkey Hcb Hrem Hbefore; unfold send_chunk; rewrite Hrem.
  all: destruct (Nat.ltb_spec 0 (length rest)) as [E|E];
    [try lia|destruct rest; [|cbn in E; lia]; destruct (write_upcall_ok true t o s Hw Hc Ho) as (s' & -> & ?); apply eventually_now; exists o, s';
      split; [done|]; cbn; rewrite app_nil_r; split; [done|split; [lia|done]]].
  assert (rest <> []) as Hne by (by destruct rest; [cbn in E; lia|]). specialize (Hbefore Hne).
  set (o1 := wconsume _ o). pose proof (next_size_min o1 s) as En. cbn [o1 wconsume remain_] in En. rewrite Hrem in En. fold o1 in En. rewrite En.
  set (n := Nat.min (length rest) (wr_buf_size_ s)) in *.
  assert (0 < n)%nat as Hn by (pose proof (wg_size _ _ _ Hw); lia).
  assert (wcb_ o1 = rest) as Hcb1 by (cbn; by rewrite Hcb, <- Hbefore, drop_app_length).
  assert (length (take n rest) = n) as Ht by (rewrite length_take; lia).
  destruct (fill_masked_ok t n o1 s Hw) as (m & -> & Hw'); [done|lia|rewrite Hcb1; lia|]. cbn [obind]. rewrite Hcb1.
  change (key_ o1) with (key_ o). destruct (mask_ref_spec (key_ o) (take n rest) Hkey) as (Es & El & _).
  assert (fst (mask_ref (key_ o) rest) = fst (mask_ref (key_ o) (take n rest)) ++ fst (mask_ref (rol (key_ o) n) (drop n rest))) as Eref.
  { rewrite <- (take_drop n rest) at 1. rewrite mask_ref_app. rewrite Ht in Es. destruct (mask_ref (key_ o) (take n rest)) as [a ka]. cbn [snd] in Es. subst ka.
    by destruct (mask_ref _ (drop n rest)). }
  apply chunk_completes. rewrite El, Ht. cbn [resume_write check_ok negb]. set (o2 := add_transferred _ _). set (s2 := upd_wr _ s) in *.
  apply (eventually_mono _ (sent_payload t (drop n rest) (key_ o2) (bytes_transferred_ o2) (sent ++ fst (mask_ref (key_ o) (take n rest))))).
  - intros c (o3 & s3 & E1 & E2 & Hbt & Hrest). exists o3, s3. split; [done|]. split; [|split; [|done]].
    + rewrite E2, Eref. by rewrite app_assoc.
    + rewrite Hbt, length_drop. cbn. lia.
  - apply (IH (take n rest)); try done.
    + rewrite length_drop. lia.
    + cbn. by rewrite length_rol.
    + cbn [o2 add_transferred set_wcont wcb_ set_remain set_wkey]. rewrite Hcb1. by rewrite take_drop.
    + cbn. by rewrite length_drop, Hrem.
    + intros Hd. change (wr_buf_size_ s2) with (wr_buf_size_ s). rewrite Ht. unfold n in *.
      destruct (Nat.le_gt_cases (length rest) (wr_buf_size_ s)); [|lia]. exfalso. apply Hd. apply drop_ge. lia.
Qed.

Lemma nofrag_ok masked t inside p o s sent :
  writing masked t s -> between masked t inside p o -> how_ o = nofrag masked -> Z.of_nat (length p) < 2 ^ 63 ->
  eventually write_step (sent_message masked t inside p (bytes_transferred_ o) sent) (mk_wnet (send_frame create_mask o s) sent).
Proof.
  intros Hw [Hd Hop Hm Hr Hk Hf] Hh Hl. unfold send_frame. rewrite Hh. destruct masked; cbn [nofrag].
  - unfold new_key. cbn [set_remain fh_ fin_ remain_]. rewrite Hf, Hd.
    set (fh := mk_fh _ _ _ _ _ _ _ _). set (o1 := set_wkey _ _). set (s1 := next_mask s).
    assert (writing true t s1) as Hw1 by (destruct Hw; by split).
    assert (header_ok fh) as Hok.
    { split; [unfold in_width; cbn; lia|]. split; [apply masks_u32|]. intros E. change (mask (fh_ o) = false) in E. by rewrite Hm in E. }
    destruct (put_header_ok true t o1 s1 Hw1 Hok Hf) as (db & -> & Ec & Es & Hw2). cbn [obind]. set (s2 := upd_wr _ s1) in *.
    pose proof (next_size_min o1 s2) as En. change (remain_ o1) with (length p) in En. rewrite En. set (n := Nat.min _ _) in *.
    assert (length (take n p) = n) as Ht by (rewrite length_take; lia).
    assert (wcb_ o1 = p) as Hcb by done.
    destruct (fill_masked_ok t n o1 s2 Hw2) as (m & -> & Hw3); [done|lia|rewrite Hcb; lia|]. cbn [obind]. rewrite Hcb.
    change (key_ o1) with (prepare_key (key fh)). set (k0 := prepare_key (key fh)) in *. destruct (mask_ref_spec k0 (take n p) (prepare_key_length _)) as (Ek & El & _).
    assert (fst (mask_ref k0 p) = fst (mask_ref k0 (take n p)) ++ fst (mask_ref (rol k0 n) (drop n p))) as Eref.
    { rewrite <- (take_drop n p) at 1. rewrite mask_ref_app. rewrite Ht in Ek. destruct (mask_ref k0 (take n p)) as [a ka]. cbn [snd] in Ek. subst ka.
      by destruct (mask_ref _ (drop n p)). }
    apply frame_completes. set (s3 := upd_wr _ s2) in *. change (wr_fb_ s3) with db. cbn [resume_write check_ok negb set_wcont how_ set_remain set_wkey].
    change (how_ o1) with (how_ o). rewrite Hh. cbn [nofrag]. change (wr_fb_ s3) with db. rewrite Ec, length_app, El, Ht, Es, Nat.add_comm, Nat.add_sub.
    set (o2 := add_transferred _ _).
    apply (eventually_mono _ (sent_payload t (drop n p) (key_ o2) (bytes_transferred_ o2) (sent ++ header_bytes fh ++ fst (mask_ref k0 (take n p))))).
    + intros c (o3 & s4 & E1 & E2 & Hbt & Hrest). exists o3, s4, [(fh, p)]. split; [done|]. split; [|split; [by apply sends_last|split; [|done]]].
      * rewrite E2. unfold wire. cbn [map concat fst snd]. rewrite app_nil_r. unfold frame_bytes. change (mask fh) with (mask (fh_ o)). rewrite Hm. fold k0.
        rewrite Eref. by rewrite <- !app_assoc.
      * rewrite Hbt, length_drop. cbn. lia.
    + apply (chunk_ok t (length p) (take n p)); try done.
      * rewrite length_drop. lia.
      * cbn [o2 add_transferred set_wcont wcb_ set_remain set_wkey]. rewrite Hcb. by rewrite take_drop.
      * cbn. by rewrite length_drop.
      * intros Hne. rewrite Ht. change (wr_buf_size_ s3) with (wr_buf_size_ s2). unfold n in *.
        destruct (Nat.le_gt_cases (length p) (wr_buf_size_ s2)); [|lia]. exfalso. apply Hne. apply drop_ge. lia.
  - rewrite Hf, Hd. set (fh := fin_len _ _ _). set (o1 := set_fh _ _).
    assert (header_ok fh) as Hok.
    { split; [unfold in_width; cbn; lia|]. split; [by change (u32 (key (fh_ o))); rewrite Hk|]. by intros _; apply Hk. }
    destruct (put_header_ok false t o1 s Hw Hok Hf) as (db & -> & Ec & Es & Hw2). cbn [obind]. set (s2 := upd_wr _ s) in *. change (wr_fb_ s2) with db.
    rewrite Ec. change (wcb_ o1) with (wcb_ o). rewrite Hd. apply frame_completes. cbn [resume_write check_ok negb set_wcont how_].
    change (how_ o1) with (how_ o). rewrite Hh. cbn [nofrag]. change (fh_ o1) with fh. apply eventually_now.
    assert (header_bytes fh ++ p = wire [(fh, p)]) as ->.
    { unfold wire. cbn [map concat fst snd]. rewrite app_nil_r. unfold frame_bytes. change (mask fh) with (mask (fh_ o)). by rewrite Hm. }
    apply (upcall_sent false t inside p _ sent _ s2 [(fh, p)]); try done; [|by apply sends_last].
    cbn [add_transferred set_wcont bytes_transferred_ fh_]. change (fh_ o1) with fh. cbn [len fh fin_len]. by rewrite clamp_length.
Qed.

(** ** The first call *)

(** The message begins. *)
Lemma begin_ok (masked : bool) t (s : stream) :
  writable (set_wr_block id_none s) -> role_ s = (if masked then client else server) -> wr_opcode_ s = t ->
  exists w, begin_msg noinit s = set_wr w s /\ writing masked t (set_wr_block id_write (set_wr w s)).
Proof.
  intros [Hst _ Hp Hc Hfb Hopt Hb] Hr Ht. unfold begin_msg. rewrite Hr. destruct masked.
  - change (Flat.max_size (wr_fb_ s) = 14%nat) in Hfb. destruct (wr_buf_ (wr s)) as [m|] eqn:Em; [destruct (Nat.eqb_spec (wr_buf_size_ (wr s)) (wr_buf_opt_ (wr s))) as [E|E]|];
      cbn [negb]; (eexists; split; [done|]; split; try done; cbn).
    + by rewrite E.
    + by apply Hb.
    + by rewrite noinit_length.
    + by rewrite noinit_length.
  - eexists. split; [done|]. by split.
Qed.

(** The algorithm that is chosen. *)
Record chosen (masked : bool) (t : opcode) (data : bytes) (o : write_some_op) : Prop := {
  ch_between : between masked t false data o;
  ch_none : bytes_transferred_ o = 0%nat;
  ch_how : how_ o = nofrag masked \/ how_ o = frag masked /\ remain_ o = length data /\ data <> []
}.

Lemma choose_ok (masked : bool) t data (s : stream) fh :
  (0 < wr_buf_size_ s)%nat -> mask fh = masked -> op fh = t -> key fh = 0 -> (rsv1 fh = false /\ rsv2 fh = false /\ rsv3_ fh = false) ->
  exists o, choose_how (set_fh fh (new_write_some true data)) s = Ret o /\ chosen masked t data o.
Proof.
  intros Hsize Hm Ho Hk Hr. unfold choose_how. change (fh_ (set_fh fh _)) with fh. rewrite Hm.
  rewrite (proj2 (Nat.eqb_neq _ _)) by lia. cbn [negb assert_ obind set_fh new_write_some wcb_ set_remain remain_].
  destruct masked; cbn [negb]; (destruct (wr_frag_ s); cbn [negb]; [|eexists; split; [done|]; split; [by split|done|by left]]);
    (destruct (Nat.ltb_spec (wr_buf_size_ s) (length data)) as [E|E]; (eexists; split; [done|]; split; [by split|done|]); [right|by left]);
    (split; [done|split; [done|]]; intros ->; cbn in E; lia).
Qed.

Lemma send_ok (masked : bool) t data o s sent :
  writing masked t s -> chosen masked t data o -> Z.of_nat (length data) < 2 ^ 63 ->
  eventually write_step (sent_message masked t false data 0 sent) (mk_wnet (send_frame create_mask o s) sent).
Proof.
  intros Hw [Hb Hn Hh] Hl. rewrite <- Hn. destruct Hh as [Hh|(Hh & Hrem & Hne)]; [by apply nofrag_ok|by apply (frag_ok masked t (length data))].
Qed.

(** Up to the mutex. *)
Lemma start_write_ok (masked : bool) t data (s : stream) :
  writable (set_wr_block id_none s) -> role_ s = (if masked then client else server) -> wr_opcode_ s = t ->
  exists o w, writing masked t (set_wr_block id_write (set_wr w s)) /\ chosen masked t data o /\
    async_write create_mask noinit data s =
      (let* (locked, m) := mutex_try_lock id_write (wr_block_ s) in
       let s := set_wr_block m (set_wr w s) in
       if locked then
         let (ok, ec) := check_open s None in
         if negb ok then write_upcall ec o s else send_frame create_mask o s
       else let* s := pause_wr s in Ret (WSuspend WaitWriteBlock o, s)).
Proof.
  intros Hw Hr Ht. destruct (begin_ok masked t s Hw Hr Ht) as (w & Ew & Hg). unfold async_write, start_write.
  pose proof (wa_cont _ Hw) as Hc. change (wr_cont_ (wr (set_wr_block id_none s))) with (wr_cont_ s) in Hc. rewrite Hc. cbn [negb]. rewrite Ew. set (s1 := set_wr w s) in *.
  assert (wr_cont_ s1 = false) as Hc1.
  { assert (wr_cont_ (begin_msg noinit s) = wr_cont_ s) as E by (unfold begin_msg; destruct (role_ s); cbn; repeat case_match; done). rewrite Ew in E. by rewrite E. }
  rewrite Hc1.
  set (fh := mk_fh _ _ _ _ _ _ _ _).
  destruct (choose_ok masked t data s1 fh) as (o & Eo & Ho); try done.
  { apply (wg_size _ _ _ Hg). }
  { cbn. rewrite Hr. by destruct masked. }
  { apply (wg_opcode _ _ _ Hg). }
  rewrite Eo. cbn [obind]. exists o, w. split; [done|]. split; [done|]. done.
Qed.

Lemma async_write_ends (masked : bool) t data s :
  writable s -> role_ s = (if masked then client else server) -> wr_opcode_ s = t -> Z.of_nat (length data) < 2 ^ 63 ->
  eventually write_step (sent_message masked t false data 0 []) (mk_wnet (async_write create_mask noinit data s) []).
Proof.
  intros Hw Hr Ht Hl. pose proof (wa_block _ Hw) as Hblk. pose proof (wa_status _ Hw) as Hst.
  assert (set_wr_block id_none s = s) as Es by (rewrite <- Hblk; by destruct s).
  destruct (start_write_ok masked t data s ltac:(by rewrite Es) Hr Ht) as (o & w & Hg & Ho & ->).
  unfold mutex_try_lock. rewrite Hblk. cbn [Z.eqb id_none id_write negb assert_ obind]. change id_write with 2 in Hg.
  unfold check_open. change (status_ (set_wr_block id_write (set_wr w s))) with (status_ s). rewrite Hst. rewrite bool_decide_eq_true_2 by done. cbn [negb].
  by apply send_ok.
Qed.

(** ** What a write sends *)

(** C14: a message written with [async_write] on an open stream with no operation under
    way, masked by a client and not by a server. When the writes on the socket
    complete, whatever the size of the buffer and of the message, the operation ends
    without an error, having sent the frames of the message and nothing else and
    reporting all of its bytes; the stream is ready for the next message. *)
Theorem async_write_sends (masked : bool) (t : opcode) (data : bytes) (s : stream) :
  writable s -> role_ s = (if masked then client else server) -> wr_opcode_ s = t -> Z.of_nat (length data) < 2 ^ 63 ->
  eventually write_step
    (fun c => exists o s' fs, wconf c = Ret (WUpcall None o, s') /\ written c = wire fs /\ sends masked t false fs data /\
      bytes_transferred_ o = length data /\ writable s' /\ wr_opcode_ s' = t /\ role_ s' = role_ s)
    (mk_wnet (async_write create_mask noinit data s) []).
Proof.
  intros Hw Hr Ht Hl. apply (eventually_mono _ (sent_message masked t false data 0 [])); [|by apply async_write_ends].
  intros c (o & s' & fs & H1 & H2 & H3 & H4 & H5 & H6 & H7). exists o, s', fs. by rewrite Hr.
Qed.

(** C40: when the mutex of the stream is not free. While another write is under way, an
    assertion fails. While a read operation holds it, to answer a ping or to close, the
    write sends nothing and waits; the read operation invokes it when it releases the
    mutex, and then either the whole message is sent, or, if the stream is no longer
    open, nothing is and the write ends with [operation_aborted]. *)
Theorem async_write_waits (masked : bool) (t : opcode) (data : bytes) (s : stream) :
  writable (set_wr_block id_none s) -> role_ s = (if masked then client else server) -> wr_opcode_ s = t -> Z.of_nat (length data) < 2 ^ 63 ->
  (wr_block_ s = id_write -> async_write create_mask noinit data s = Undef) /\
  (wr_block_ s = id_read -> paused_wr_ s = false -> exists o s1,
    async_write create_mask noinit data s = Ret (WSuspend WaitWriteBlock o, s1) /\ rd s1 = rd s /\ wr_block_ s1 = id_read /\ paused_wr_ s1 = true /\
    forall s2, wr_block_ s2 = id_none -> paused_rd_ s2 = false -> paused_wr_ s2 = true -> exists s3, invoke_wr s2 = Ret (true, s3) /\
      (status_ s2 = status_open -> role_ s2 = role_ s -> wr s2 = wr s1 ->
        eventually write_step (sent_message masked t false data 0 []) (mk_wnet (resume_write create_mask WaitWriteBlock None 0 o s3) [])) /\
      (status_ s2 <> status_open -> exists o' s4, resume_write create_mask WaitWriteBlock None 0 o s3 = Ret (WUpcall (Some operation_aborted) o', s4) /\
        bytes_transferred_ o' = 0%nat /\ wr_block_ s4 = id_none /\ paused_wr_ s4 = false)).
Proof.
  intros Hw Hr Ht Hl. destruct (start_write_ok masked t data s Hw Hr Ht) as (o & w & Hg & Ho & ->). split; intros Hblk; rewrite Hblk; [done|].
  intros Hp. unfold mutex_try_lock, pause_wr. cbn [Z.eqb Pos.eqb id_read id_write negb assert_ obind].
  change (paused_wr_ (set_wr_block _ (set_wr w s))) with (paused_wr_ s). rewrite Hp. cbn [negb assert_ obind].
  do 2 eexists. split; [done|]. do 3 (split; [done|]). intros s2 Hb2 Hr2 Hp2. unfold invoke_wr. rewrite Hp2.
  change (wr_block_ (set_paused_wr false s2)) with (wr_block_ s2). rewrite Hb2. unfold mutex_lock. cbn [Z.eqb id_none assert_ obind].
  eexists. split; [done|]. set (s3 := set_wr_block id_write (set_paused_wr false s2)). cbn [resume_write]. change (is_locked id_write (wr_block_ s3)) with true. cbn [assert_ obind].
  unfold check_open. change (status_ s3) with (status_ s2). split.
  - intros Hst Hrole Hwr. rewrite bool_decide_eq_true_2 by done. cbn [negb]. apply send_ok; [|by destruct Ho as [[] ? ?]|done].
    destruct Hg. split; try done; try (change (wr s3) with (wr s2); by rewrite Hwr). change (role_ s3) with (role_ s2). by rewrite Hrole.
  - intros Hst. rewrite bool_decide_eq_false_2 by done. cbn [negb]. unfold write_upcall, mutex_unlock, invoke_rd. change (wr_block_ s3 =? id_write) with true. cbn [assert_ obind].
    change (paused_rd_ (set_wr_block 0 s3)) with (paused_rd_ s2). rewrite Hr2. cbn [obind set_wcont wcont_ negb].
    do 2 eexists. split; [done|]. split; [apply (ch_none _ _ _ _ Ho)|done].
Qed.

End Writes.

(** ** Both ends *)

(** C13: what a client writes, a server reads: for every order of completions of the
    write of a message there are bytes that were sent, of which every order of
    completions and every cutting into reads delivers that message to a server, with
    the bytes that come after it left for the next read. *)
Theorem write_then_read {B} `{DB : !DynamicBuffer B} `{PL : !Placement B} (create_mask : nat -> Z) (noinit : nat -> bytes) (addr : Z)
    (t : opcode) (limit : Z) (data tail before : bytes) (c s : stream) (b : B) :
  (forall n, u32 (create_mask n)) -> (forall n, length (noinit n) = n) ->
  writable c -> role_ c = client -> wr_opcode_ c = t -> t = text \/ t = binary -> (t = text -> valid_utf8 data) -> Forall u8 data ->
  0 < limit < 2 ^ 63 -> Z.of_nat (length data) <= limit -> Z.of_nat (length before) + limit < 2 ^ 63 ->
  between_frames t limit false [] [] s -> rd_block_ s = id_none -> db_holds b before ->
  eventually (write_step create_mask)
    (fun n => (exists o c', wconf n = Ret (WUpcall None o, c') /\ bytes_transferred_ o = length data /\ writable c') /\
      eventually (net_step create_mask addr) (received_message t limit tail before data [])
        (mk_net (async_read create_mask addr b s) (written n ++ tail) []))
    (mk_wnet (async_write create_mask noinit data c) []).
Proof.
  intros Hm Hn Hw Hr Ho Ht Hval Hu Hlim Hl Hbefore Hbf Hblk Hb.
  apply (eventually_mono _ (sent_message true t false data 0 [])); [|by apply async_write_ends; [..|lia]].
  intros n (o & c' & fs & E1 & E2 & Hs & E4 & Hw' & _). split; [by exists o, c'|]. rewrite E2. cbn [app].
  pose proof (sends_message t limit tail false fs data 0 Hs Hu ltac:(lia)) as Hms.
  apply (async_read_received create_mask addr t limit fs data [] tail [] (wire fs ++ tail) before b s); done.
Qed.

(** ** Examples *)

Definition example_client : stream := open_ client (new_stream (repeat 0 1536) (repeat 0 139) (repeat 0 14)).
Definition example_memory (n : nat) : bytes := repeat 0 n.

Lemma example_memory_length n : length (example_memory n) = n.
Proof. apply repeat_length. Qed.

Lemma example_mask_u32 n : u32 (example_mask n).
Proof. done. Qed.

Lemma example_writable : writable example_client.
Proof. split; try done. cbn. lia. Qed.

(** A server's frame; and a client's message in two frames. *)
Example write_hi :
  match async_write example_mask example_memory (str "hi") example_stream with
  | Ret (WSuspend (WaitFrame d) _, _) => d = [0x81; 2; 104; 105]
  | _ => False
  end.
Proof. reflexivity. Qed.

Example write_two_frames :
  let small := upd_wr (fun w => mk_wr (wr_close_ w) (wr_cont_ w) (wr_frag_ w) (wr_frag_opt_ w) (wr_opcode_ w) None 0 2 (wr_fb_ w)) example_client in
  match async_write example_mask example_memory (str "abc") small with
  | Ret (WSuspend (WaitFrame d) o, s) =>
      d = [0x01; 0x82; 7; 0; 0; 0; Z.lxor 97 7; 98] /\
      match resume_write example_mask (WaitFrame d) None 8 o s with
      | Ret (WSuspend (WaitFrame d) o, s) =>
          d = [0x80; 0x81; 7; 0; 0; 0; Z.lxor 99 7] /\
          match resume_write example_mask (WaitFrame d) None 7 o s with Ret (WUpcall None o, _) => bytes_transferred_ o = 3%nat | _ => False end
      | _ => False
      end
  | _ => False
  end.
Proof. vm_compute. done. Qed.

Lemma async_write_sends_witness :
  writable example_client /\
  eventually (write_step example_mask)
    (fun c => exists o s' fs, wconf c = Ret (WUpcall None o, s') /\ written c = wire fs /\ sends true text false fs (str "Hello") /\
      bytes_transferred_ o = 5%nat /\ writable s' /\ wr_opcode_ s' = text /\ role_ s' = client)
    (mk_wnet (async_write example_mask example_memory (str "Hello") example_client) []).
Proof.
  split; [exact example_writable|].
  apply (async_write_sends example_mask example_memory example_mask_u32 example_memory_length true text (str "Hello") example_client example_writable).
  - reflexivity.
  - reflexivity.
  - cbn. lia.
Defined.

Lemma async_write_waits_witness :
  exists o s, async_write example_mask example_memory (str "Hello") (set_wr_block id_read example_client) = Ret (WSuspend WaitWriteBlock o, s) /\ paused_wr_ s = true.
Proof.
  assert (Z.of_nat (length (str "Hello")) < 2 ^ 63) as Hl by (cbn; lia).
  destruct (async_write_waits example_mask example_memory example_mask_u32 example_memory_length true text (str "Hello")
    (set_wr_block id_read example_client) example_writable eq_refl eq_refl Hl) as [_ H].
  destruct (H eq_refl eq_refl) as (o & s & E & _ & _ & Hp & _). exists o, s. split; [exact E|exact Hp].
Defined.

Lemma write_then_read_witness :
  eventually (write_step example_mask)
    (fun n => (exists o c', wconf n = Ret (WUpcall None o, c') /\ bytes_transferred_ o = 5%nat /\ writable c') /\
      eventually (net_step (PL := one_buffer) example_mask 0) (received_message text (16 * 1024 * 1024) [0x81] [] (str "Hello") [])
        (mk_net (async_read (PL := one_buffer) example_mask 0 new_multi_buffer example_stream) (written n ++ [0x81]) []))
    (mk_wnet (async_write example_mask example_memory (str "Hello") example_client) []).
Proof.
  apply (write_then_read (PL := one_buffer) example_mask example_memory 0 text (16 * 1024 * 1024) (str "Hello") [0x81] [] example_client example_stream new_multi_buffer
    example_mask_u32 example_memory_length example_writable).
  - reflexivity.
  - reflexivity.
  - by left.
  - intros _. apply ascii_valid. repeat constructor; cbn; lia.
  - repeat constructor; cbn; lia.
  - lia.
  - cbn. lia.
  - cbn. lia.
  - apply example_between.
  - reflexivity.
  - apply mb_new_holds.
Defined.
