(* ===== verification/OpQueue.v ===== *)
(** * The queue of operations of boost::asio

    src/externals/boost/boost/asio/detail/op_queue.hpp: a list of operations that are
    linked through their own [next_] members. Several queues share the operations; the
    invariant says which list each of them holds. *)

From Stdlib Require Import ZArith Lia.
From stdpp Require Import base list gmap.
From S2P Require Import Prelude Exceptions.

(** ** The code *)

(** An operation by its address, and the member [next_] of the operations there are. *)
Abbreviation operation := positive.
Abbreviation next_map := (gmap operation (option operation)).

(** [op_queue_access::next(o)] and [op_queue_access::next(o, n)]. *)
Definition next (o : operation) (m : next_map) : cpp (option operation) :=
  match m !! o with Some n => Ret n | None => Undef end.
Definition set_next (o : operation) (n : option operation) (m : next_map) : cpp next_map :=
  match m !! o with Some _ => Ret (<[o:=n]> m) | None => Undef end.

Record op_queue := mk_op_queue { front_ : option operation; back_ : option operation }.

Definition new_op_queue : op_queue := mk_op_queue None None.

Definition empty (q : op_queue) : bool := bool_decide (front_ q = None).

Definition pop (q : op_queue) (m : next_map) : cpp (op_queue * next_map) :=
  match front_ q with
  | Some tmp =>
      let* front := next tmp m in
      let back := match front with None => None | Some _ => back_ q end in
      let* m := set_next tmp None m in
      Ret (mk_op_queue front back, m)
  | None => Ret (q, m)
  end.

Definition push (h : operation) (q : op_queue) (m : next_map) : cpp (op_queue * next_map) :=
  let* m := set_next h None m in
  match back_ q with
  | Some back => let* m := set_next back (Some h) m in Ret (mk_op_queue (front_ q) (Some h), m)
  | None => Ret (mk_op_queue (Some h) (Some h), m)
  end.

(** [push(q)]: the queue, and [q] after it. *)
Definition push_queue (other q : op_queue) (m : next_map) : cpp (op_queue * op_queue * next_map) :=
  match front_ other with
  | Some other_front =>
      match back_ q with
      | Some back =>
          let* m := set_next back (Some other_front) m in
          Ret (mk_op_queue (front_ q) (back_ other), new_op_queue, m)
      | None => Ret (mk_op_queue (Some other_front) (back_ other), new_op_queue, m)
      end
  | None => Ret (q, other, m)
  end.

Definition is_enqueued (o : operation) (q : op_queue) (m : next_map) : cpp bool :=
  let* n := next o m in Ret (bool_decide (n <> None) || bool_decide (back_ q = Some o)).

(** The destructor of a queue frees every operation in it, in order. *)
Fixpoint destroy_all (fuel : nat) (q : op_queue) (m : next_map) : cpp (list operation) :=
  match front_ q with
  | None => Ret []
  | Some op =>
      match fuel with
      | O => Undef
      | S fuel =>
          let* (q, m) := pop q m in
          let* rest := destroy_all fuel q m in
          Ret (op :: rest)
      end
  end.

(** ** What a queue holds *)

(** The members [next_] link these operations. *)
Fixpoint linked (m : next_map) (l : list operation) : Prop :=
  match l with
  | [] => True
  | o :: l => m !! o = Some (head l) /\ linked m l
  end.

Record holds (m : next_map) (q : op_queue) (l : list operation) : Prop := {
  holds_front : front_ q = head l;
  holds_back : back_ q = last l;
  holds_linked : linked m l
}.

Lemma linked_frame m o n l : o ∉ l -> linked m l -> linked (<[o:=n]> m) l.
Proof.
  induction l as [|a l IH]; [done|]. intros Ho [Ha Hl]. apply not_elem_of_cons in Ho as [Ho1 Ho2].
  split; [by rewrite lookup_insert_ne|by apply IH].
Qed.

Lemma holds_frame m o n q l : o ∉ l -> holds m q l -> holds (<[o:=n]> m) q l.
Proof. intros Ho [Hf Hb Hl]. split; [done..|]. by apply linked_frame. Qed.

(** A list is continued by the operation that its last one is linked to. *)
Lemma linked_app m l1 a l2 :
  NoDup (l1 ++ a :: l2) -> linked m (l1 ++ [a]) -> linked m l2 -> linked (<[a:=head l2]> m) (l1 ++ a :: l2).
Proof.
  induction l1 as [|b l1 IH]; cbn [app linked]; intros Hnd H1 H2.
  - apply NoDup_cons in Hnd as [Ha _]. split; [by rewrite lookup_insert_eq|by apply linked_frame].
  - apply NoDup_cons in Hnd as [Hb Hnd]. destruct H1 as [Hb1 H1]. split; [|by apply IH].
    rewrite lookup_insert_ne by (intros ->; apply Hb; set_solver). rewrite Hb1. f_equal. by destruct l1.
Qed.

Lemma linked_alive m l o : linked m l -> o ∈ l -> is_Some (m !! o).
Proof. induction l as [|a l IH]; intros Hl Ho; [by apply not_elem_of_nil in Ho|]. destruct Hl as [Ha Hl]. apply elem_of_cons in Ho as [->|Ho]; [by eexists|by apply IH]. Qed.

Lemma last_split (l : list operation) a : last l = Some a -> exists l1, l = l1 ++ [a].
Proof.
  induction l as [|b l IH]; [done|]. destruct l as [|c l]; cbn; intros H; [injection H as ->; by exists []|].
  destruct (IH H) as [l1 E]. exists (b :: l1). by rewrite E.
Qed.

Lemma pop_holds m q l :
  NoDup l -> holds m q l ->
  exists q' m', pop q m = Ret (q', m') /\ holds m' q' (tail l) /\ (forall o, head l <> Some o -> m' !! o = m !! o) /\
    (forall o, head l = Some o -> m' !! o = Some None) /\ empty q = bool_decide (l = []).
Proof.
  intros Hnd [Hf Hb Hl]. unfold pop, empty. rewrite Hf. destruct l as [|a l]; cbn [head tail].
  - exists q, m. split_and!; [done| |done|done|done]. split; [done..|]. done.
  - destruct Hl as [Ha Hl]. apply NoDup_cons in Hnd as [Ha' Hnd]. unfold next, set_next. rewrite Ha. cbn [obind].
    eexists _, _. split; [done|]. split_and!.
    + split; [done| |by apply linked_frame]. cbn. rewrite Hb. by destruct l.
    + intros o Ho. rewrite lookup_insert_ne; [done|]. congruence.
    + intros o [= ->]. by rewrite lookup_insert_eq.
    + done.
Qed.

Lemma push_op_holds m q l h :
  NoDup l -> holds m q l -> h ∉ l -> is_Some (m !! h) ->
  exists q' m', push h q m = Ret (q', m') /\ holds m' q' (l ++ [h]) /\ (forall o, o ∉ l ++ [h] -> m' !! o = m !! o).
Proof.
  intros Hnd [Hf Hb Hl] Hh [n Hn]. unfold push, set_next. rewrite Hn. cbn [obind]. rewrite Hb.
  destruct (last l) as [b|] eqn:Eb.
  - destruct (last_split l b Eb) as [l1 ->].
    assert (h <> b) as Hne by (intros ->; apply Hh; set_solver).
    rewrite lookup_insert_ne by done. destruct (linked_alive _ _ b Hl) as [x Hx]; [set_solver|]. rewrite Hx. cbn [obind].
    eexists _, _. split; [done|]. split.
    + split; [by rewrite Hf; destruct l1|by rewrite last_snoc|]. cbn [front_ back_]. rewrite <- app_assoc. cbn [app].
      apply (linked_app _ l1 b [h]).
      * change (b :: [h]) with ([b] ++ [h]). rewrite app_assoc. apply NoDup_app. split_and!; [done|set_solver|apply NoDup_singleton].
      * by apply linked_frame.
      * split; [by rewrite lookup_insert_eq|done].
    + intros o Ho. rewrite !lookup_insert_ne; [done|set_solver..].
  - apply last_None in Eb as ->. eexists _, _. split; [done|]. split; [split; [done..|]; split; [by rewrite lookup_insert_eq|done]|].
    intros o Ho. rewrite lookup_insert_ne; [done|set_solver].
Qed.

Lemma push_queue_holds m q1 l1 q2 l2 :
  NoDup (l1 ++ l2) -> holds m q1 l1 -> holds m q2 l2 ->
  exists q m', push_queue q2 q1 m = Ret (q, new_op_queue, m') /\ holds m' q (l1 ++ l2) /\ (forall o, o ∉ l1 -> m' !! o = m !! o).
Proof.
  intros Hnd [Hf1 Hb1 Hl1] [Hf2 Hb2 Hl2]. unfold push_queue. rewrite Hf2. destruct l2 as [|a l2].
  - cbn [head]. exists q1, m. rewrite app_nil_r. split_and!; [|done|done]. destruct q2; cbn in *. by subst.
  - cbn [head]. rewrite Hb1. destruct (last l1) as [b|] eqn:Eb.
    + destruct (last_split l1 b Eb) as [l ->]. unfold set_next. destruct (linked_alive _ _ b Hl1) as [x Hx]; [set_solver|]. rewrite Hx. cbn [obind].
      eexists _, _. split; [done|]. split.
      * split; [by rewrite Hf1; destruct l| |].
        { cbn [back_]. rewrite Hb2, last_app. by destruct (last (a :: l2)) eqn:E; [|apply last_None in E]. }
        rewrite <- app_assoc in *. by apply (linked_app m l b (a :: l2)).
      * intros o Ho. rewrite lookup_insert_ne; [done|set_solver].
    + apply last_None in Eb as ->. eexists _, _. split; [done|]. split; [|done]. by split.
Qed.

(** An operation in a queue is found to be enqueued; one in no queue is not. *)
Lemma is_enqueued_holds m q l o :
  NoDup l -> holds m q l -> (o ∈ l -> is_enqueued o q m = Ret true) /\ (o ∉ l -> m !! o = Some None -> is_enqueued o q m = Ret false).
Proof.
  intros Hnd [_ Hb Hl]. unfold is_enqueued, next. rewrite Hb. split.
  - clear Hb. intros Ho. apply list_elem_of_split in Ho as (l1 & l2 & ->).
    assert (m !! o = Some (head l2)) as ->.
    { clear Hnd. induction l1 as [|a l1 IH]; destruct Hl as [Ha Hl]; [done|by apply IH]. }
    cbn [obind]. destruct l2 as [|b l2]; [|done]. by rewrite last_snoc, (bool_decide_eq_true_2 (Some o = Some o)).
  - intros Ho ->. cbn [obind]. rewrite (bool_decide_eq_false_2 (last l = Some o)); [done|].
    intros E. destruct (last_split l o E) as [l1 ->]. apply Ho, elem_of_app. right. by left.
Qed.

(** ** Several queues *)

(** The calls on queues that share their operations, by the numbers of the queues. *)
Inductive call := Pop (i : nat) | Push (i : nat) (h : operation) | PushQueue (i j : nat).

Definition queue_of (c : call) : nat := match c with Pop i | Push i _ | PushQueue i _ => i end.

(** A call, and what [front] and [empty] of its queue returned before it. *)
Definition run_call (c : call) (qs : list op_queue) (m : next_map) : cpp (option operation * bool * list op_queue * next_map) :=
  let i := queue_of c in
  match qs !! i with
  | None => Undef
  | Some q =>
      match c with
      | Pop _ => let* (q', m) := pop q m in Ret (front_ q, empty q, <[i:=q']> qs, m)
      | Push _ h => let* (q', m) := push h q m in Ret (front_ q, empty q, <[i:=q']> qs, m)
      | PushQueue _ j =>
          match qs !! j with
          | None => Undef
          | Some other => let* (q', other', m) := push_queue other q m in Ret (front_ q, empty q, <[j:=other']> (<[i:=q']> qs), m)
          end
      end
  end.

Fixpoint run_calls (cs : list call) (qs : list op_queue) (m : next_map) : cpp (list (option operation * bool)) :=
  match cs with
  | [] => Ret []
  | c :: cs =>
      let* (front, e, qs, m) := run_call c qs m in
      let* rest := run_calls cs qs m in
      Ret ((front, e) :: rest)
  end.

(** The same on lists; the call is not allowed for an operation that is in a list, that
    there is none of, or from a queue to itself. *)
Definition spec_call (alive : gset operation) (c : call) (ls : list (list operation)) : option (option operation * bool * list (list operation)) :=
  let i := queue_of c in
  l ← ls !! i;
  ls ← match c with
    | Pop _ => Some (<[i:=tail l]> ls)
    | Push _ h => if decide (h ∈ alive /\ h ∉ concat ls) then Some (<[i:=l ++ [h]]> ls) else None
    | PushQueue _ j => if decide (i = j) then None else k ← ls !! j; Some (<[j:=[]]> (<[i:=l ++ k]> ls))
    end;
  Some (head l, bool_decide (l = []), ls).

Fixpoint spec_calls (alive : gset operation) (cs : list call) (ls : list (list operation)) : option (list (option operation * bool)) :=
  match cs with
  | [] => Some []
  | c :: cs =>
      '(front, e, ls) ← spec_call alive c ls;
      rest ← spec_calls alive cs ls;
      Some ((front, e) :: rest)
  end.

(** Every queue holds its list, and no operation is in two. *)
Record all_hold (m : next_map) (qs : list op_queue) (ls : list (list operation)) : Prop := {
  ah_holds : Forall2 (holds m) qs ls;
  ah_nodup : NoDup (concat ls)
}.

Lemma holds_agree m m' q l : (forall o, o ∈ l -> m' !! o = m !! o) -> holds m q l -> holds m' q l.
Proof.
  intros H [Hf Hb Hl]. split; [done..|]. clear Hf Hb. induction l as [|a l IH]; [done|]. destruct Hl as [Ha Hl].
  split; [by rewrite H by left|]. apply IH; [|done]. intros o Ho. apply H. by right.
Qed.

(** The other lists, when one is replaced. *)
Lemma concat_insert (ls : list (list operation)) i l :
  ls !! i = Some l -> exists r, concat ls ≡ₚ l ++ r /\ (forall l', concat (<[i:=l']> ls) ≡ₚ l' ++ r) /\
    (forall k l2, k <> i -> ls !! k = Some l2 -> l2 ⊆ r).
Proof.
  revert i. induction ls as [|a ls IH]; intros [|i] E; [done..| |].
  - injection E as ->. exists (concat ls). split_and!; [done..|]. intros [|k] l2 Hk Hl2; [done|]. cbn in Hl2. intros o Ho.
    apply list_elem_of_In, in_concat. exists l2. split; apply list_elem_of_In; [by apply (list_elem_of_lookup_2 _ k)|done].
  - destruct (IH i E) as (r & H1 & H2 & H3). exists (a ++ r). split_and!.
    + cbn. rewrite H1, !app_assoc. by rewrite (Permutation_app_comm a l).
    + intros l'. cbn. rewrite H2, !app_assoc. by rewrite (Permutation_app_comm a l').
    + intros [|k] l2 Hk Hl2; [injection Hl2 as ->; set_solver|]. assert (l2 ⊆ r) by (by apply (H3 k); [congruence|]). set_solver.
Qed.

(** The queue [i] is replaced, and the others keep their links. *)
Lemma all_hold_insert m m' qs ls i l q' l' :
  all_hold m qs ls -> ls !! i = Some l -> holds m' q' l' ->
  (forall k l2, k <> i -> ls !! k = Some l2 -> forall o, o ∈ l2 -> m' !! o = m !! o) ->
  Forall2 (holds m') (<[i:=q']> qs) (<[i:=l']> ls).
Proof.
  intros [Hh Hnd] Hl Hq Hframe. apply Forall2_lookup. intros k. destruct (decide (k = i)) as [->|Hk].
  - assert (i < length ls)%nat by (by eapply lookup_lt_Some). pose proof (Forall2_length _ _ _ Hh). rewrite !list_lookup_insert_eq by lia. by constructor.
  - rewrite !list_lookup_insert_ne by done. pose proof (Forall2_lookup_lr (holds m) qs ls k) as Hlr.
    destruct (ls !! k) as [l2|] eqn:E2; destruct (qs !! k) as [q2|] eqn:Eq2.
    + constructor. apply (holds_agree m); [by apply (Hframe k)|]. by apply (Hlr q2 l2).
    + exfalso. pose proof (Forall2_length _ _ _ Hh). apply lookup_lt_Some in E2. apply lookup_ge_None in Eq2. lia.
    + exfalso. pose proof (Forall2_length _ _ _ Hh). apply lookup_lt_Some in Eq2. apply lookup_ge_None in E2. lia.
    + constructor.
Qed.

Lemma queue_of_ex c : exists n, queue_of c = n.
Proof. by eexists. Qed.

(** A call does what it does on the lists. *)
Lemma run_call_spec alive c qs ls m f e ls' :
  all_hold m qs ls -> (forall h, h ∈ alive -> is_Some (m !! h)) -> spec_call alive c ls = Some (f, e, ls') ->
  exists qs' m', run_call c qs m = Ret (f, e, qs', m') /\ all_hold m' qs' ls' /\ (forall h, h ∈ alive -> is_Some (m' !! h)).
Proof.
  intros Hall Halive Hc. pose proof Hall as [Hh Hnd]. unfold spec_call, run_call in *. cbv zeta in *.
  destruct (queue_of_ex c) as [n En]. rewrite En in *.
  destruct (ls !! n) as [l|] eqn:El; [|done]. destruct (Forall2_lookup_r _ _ _ _ _ Hh El) as (q & Eq & Hq). rewrite Eq. cbn [mbind option_bind] in Hc.
  assert (front_ q = head l /\ empty q = bool_decide (l = [])) as [Ef Ee].
  { split; [apply Hq|]. unfold empty. rewrite (holds_front _ _ _ Hq). by destruct l. }
  destruct (concat_insert ls n l El) as (r & H1 & H2 & H3). assert (NoDup (l ++ r)) as Hlr by (by rewrite <- H1).
  assert (NoDup l) as Hndl by (by apply NoDup_app in Hlr as (? & _)).
  assert (forall k l2, k <> n -> ls !! k = Some l2 -> forall o, o ∈ l2 -> o ∉ l) as Hdis.
  { intros k l2 Hk Hl2 o Ho Hol. apply NoDup_app in Hlr as (_ & Hd & _). apply (Hd o Hol). by apply (H3 k l2 Hk Hl2). }
  destruct c as [i'|i' h|i' j]; cbn [mbind option_bind] in Hc.
  - injection Hc as <- <- <-. destruct (pop_holds m q l Hndl Hq) as (q' & m' & -> & Hq' & Hm1 & Hm2 & _). cbn [obind].
    eexists _, _. split; [by rewrite Ef, Ee|]. split.
    + split; [apply (all_hold_insert m m' qs ls n l q'); try done|].
      * intros k l2 Hk Hl2 o Ho. apply Hm1. intros Hhd. apply (Hdis k l2 Hk Hl2 o Ho). destruct l; [done|]. injection Hhd as ->. by left.
      * rewrite H2. destruct l as [|a l]; [done|]. by apply NoDup_cons in Hlr as [_ ?].
    + intros h Hh'. destruct (decide (head l = Some h)) as [E|E]; [by rewrite (Hm2 h E)|by rewrite Hm1; [apply Halive|]].
  - case_decide as Hd; [|done]. destruct Hd as [Hal Hni]. injection Hc as <- <- <-.
    assert (h ∉ l ++ r) as Hh' by (by rewrite <- H1).
    destruct (push_op_holds m q l h Hndl Hq) as (q' & m' & -> & Hq' & Hm); [set_solver|by apply Halive|]. cbn [obind].
    eexists _, _. split; [by rewrite Ef, Ee|]. split.
    + split; [apply (all_hold_insert m m' qs ls n l q'); try done|].
      * intros k l2 Hk Hl2 o Ho. apply Hm. intros [Ho'|Ho']%elem_of_app; [by apply (Hdis k l2 Hk Hl2 o)|].
        apply list_elem_of_singleton in Ho' as ->. apply Hh'. apply elem_of_app. right. by apply (H3 k l2).
      * rewrite H2, <- app_assoc. cbn. rewrite <- Permutation_middle. by apply NoDup_cons.
    + intros o Ho. destruct (decide (o ∈ l ++ [h])) as [E|E]; [by apply (linked_alive m' (l ++ [h])); [apply Hq'|]|by rewrite Hm; [apply Halive|]].
  - case_decide as Hij; [done|]. destruct (ls !! j) as [k|] eqn:Ek; [|done]. cbn [mbind option_bind] in Hc. injection Hc as <- <- <-.
    destruct (Forall2_lookup_r _ _ _ _ _ Hh Ek) as (q2 & Eq2 & Hq2). cbn in En. subst i'. rewrite Eq2.
    destruct (concat_insert ls j k Ek) as (r2 & G1 & G2 & G3).
    assert (<[j:=[]]> ls !! n = Some l) as Ei by (by rewrite list_lookup_insert_ne by congruence).
    destruct (concat_insert _ n l Ei) as (r3 & J1 & J2 & J3).
    assert (concat (<[j:=[]]> (<[n:=l ++ k]> ls)) ≡ₚ concat ls) as Hperm.
    { rewrite (list_insert_insert_ne ls) by congruence. rewrite J2, G1. rewrite (Permutation_app_comm l k), <- app_assoc. apply Permutation_app_head.
      rewrite <- J1, G2. done. }
    assert (NoDup (l ++ k)) as Hlk.
    { apply NoDup_app. split_and!; [done|intros o Hol Hok; by apply (Hdis j k ltac:(congruence) Ek o Hok)|]. assert (NoDup (k ++ r2)) as H by (by rewrite <- G1). by apply NoDup_app in H as (? & _). }
    destruct (push_queue_holds m q l q2 k Hlk Hq Hq2) as (q' & m' & -> & Hq' & Hm). cbn [obind].
    eexists _, _. split; [by rewrite Ef, Ee|].
    assert (Forall2 (holds m') (<[n:=q']> qs) (<[n:=l ++ k]> ls)) as Hh1.
    { apply (all_hold_insert m m' qs ls n l q' (l ++ k)); try done. intros k' l2 Hk Hl2 o Ho. apply Hm. by apply (Hdis k' l2). }
    split; [split; [by apply Forall2_insert|by rewrite Hperm]|].
    intros o Ho. destruct (decide (o ∈ l ++ k)) as [E|E]; [by apply (linked_alive m' (l ++ k)); [apply Hq'|]|].
    rewrite Hm; [by apply Halive|]. intros ?. apply E. apply elem_of_app. by left.
Qed.

Lemma run_calls_spec alive cs : forall qs ls m outs,
  all_hold m qs ls -> (forall h, h ∈ alive -> is_Some (m !! h)) -> spec_calls alive cs ls = Some outs -> run_calls cs qs m = Ret outs.
Proof.
  induction cs as [|c cs IH]; intros qs ls m outs Hall Hal H; cbn in *; [by injection H as <-|].
  destruct (spec_call alive c ls) as [[[f e] ls']|] eqn:E; [|done]. cbn in H.
  destruct (spec_calls alive cs ls') as [rest|] eqn:Er; [|done]. injection H as <-.
  destruct (run_call_spec alive c qs ls m f e ls' Hall Hal E) as (qs' & m' & -> & Hall' & Hal'). cbn [obind].
  by rewrite (IH qs' ls' m' rest Hall' Hal' Er).
Qed.

(** Queues of operations are lists: calls on any number of queues that start empty
    return what the same calls on lists return, and follow no null pointer, as long as
    an operation is pushed only when no queue has it. *)
Theorem op_queues_refine_lists (m : next_map) (n : nat) (cs : list call) (outs : list (option operation * bool)) :
  spec_calls (dom m) cs (repeat [] n) = Some outs -> run_calls cs (repeat new_op_queue n) m = Ret outs.
Proof.
  apply run_calls_spec.
  - split.
    + induction n; constructor; [|done]. by split.
    + assert (concat (repeat [] n) = ([] : list operation)) as -> by (by induction n). constructor.
  - intros h. apply elem_of_dom.
Qed.

Lemma destroy_all_holds l : forall fuel q m, NoDup l -> holds m q l -> (length l <= fuel)%nat -> destroy_all fuel q m = Ret l.
Proof.
  induction l as [|a l IH]; intros fuel q m Hnd Hq Hf; pose proof (holds_front _ _ _ Hq) as E; cbn [head] in E.
  - destruct fuel; cbn; by rewrite E.
  - destruct fuel as [|fuel]; [cbn in Hf; lia|]. cbn [destroy_all]. rewrite E.
    destruct (pop_holds m q (a :: l) Hnd Hq) as (q' & m' & -> & Hq' & _). cbn [obind].
    apply NoDup_cons in Hnd as [_ Hnd]. rewrite (IH fuel q' m'); [done..|cbn in Hf; lia].
Qed.

(** ** Examples *)

Definition three_operations : next_map := {[1%positive := None; 2%positive := None; 3%positive := None]}.

(** Two queues; the second is put at the end of the first. *)
Lemma op_queues_refine_lists_witness :
  run_calls [Push 0 1; Push 1 2; Push 1 3; PushQueue 0 1; Pop 0; Pop 0; Pop 1; Pop 0; Pop 0]%positive (repeat new_op_queue 2) three_operations =
    Ret [(None, true); (None, true); (Some 2%positive, false); (Some 1%positive, false); (Some 1%positive, false); (Some 2%positive, false);
         (None, true); (Some 3%positive, false); (None, true)].
Proof. apply (op_queues_refine_lists three_operations 2). vm_compute. reflexivity. Defined.
