(* ===== verification/Strand.v ===== *)
(** * Strands of boost::asio

    src/externals/boost/boost/asio/detail/strand_executor_service.hpp and its
    impl/strand_executor_service.hpp and .ipp: the operations that several threads put
    into a strand are run one at a time and in order. The sessions of the server bind
    their handlers to strands. What a thread does between two operations on the mutex
    of the strand is one step; a queue is its list (OpQueue.v). *)

From Stdlib Require Import ZArith Lia.
From stdpp Require Import base list.
From S2P Require Import Prelude.

Section Strand.
(** The operations, which [complete] runs. *)
Context {Op : Type}.

(** ** The code *)

(** [class strand_impl], without its mutex and its place in the list of all strands. *)
Record strand_impl := mk_strand {
  locked_ : bool;
  shutdown_ : bool;
  waiting_queue_ : list Op;
  ready_queue_ : list Op
}.

(** [create_implementation()]. *)
Definition create_implementation : strand_impl := mk_strand false false [] [].

(** What [enqueue] does while it holds the mutex: [op] is destroyed, or waits, or the
    caller has acquired the strand and then calls [ready_queue_.push(op)]. *)
Inductive enqueued := Destroyed | Waits | First.

Definition enqueue (op : Op) (s : strand_impl) : enqueued * strand_impl :=
  if shutdown_ s then (Destroyed, s)
  else if locked_ s then (Waits, mk_strand true (shutdown_ s) (waiting_queue_ s ++ [op]) (ready_queue_ s))
  else (First, mk_strand true (shutdown_ s) (waiting_queue_ s) (ready_queue_ s)).

Definition push_ready (op : Op) (s : strand_impl) : strand_impl :=
  mk_strand (locked_ s) (shutdown_ s) (waiting_queue_ s) (ready_queue_ s ++ [op]).

(** A turn of the loop of [invoker::operator()]: the operation that is popped. *)
Definition next_ready (s : strand_impl) : option Op * strand_impl :=
  match ready_queue_ s with
  | [] => (None, s)
  | o :: ready => (Some o, mk_strand (locked_ s) (shutdown_ s) (waiting_queue_ s) ready)
  end.

(** What [~on_invoker_exit] does while it holds the mutex: [more_handlers]. *)
Definition invoker_exit (s : strand_impl) : bool * strand_impl :=
  let ready := ready_queue_ s ++ waiting_queue_ s in
  let more_handlers := match ready with [] => false | _ => true end in
  (more_handlers, mk_strand more_handlers (shutdown_ s) [] ready).

(** What [shutdown()] does to a strand: the operations that it destroys. *)
Definition shutdown (s : strand_impl) : list Op * strand_impl :=
  (waiting_queue_ s ++ ready_queue_ s, mk_strand (locked_ s) true [] []).

(** ** Threads *)

(** [dispatch], [post] and [defer]. *)
Inductive request := Dispatch | Post | Defer.

(** The calls that a thread is in, the innermost first: a request whose [enqueue] has
    acquired the strand, before it pushes its operation and before it hands an invoker
    to the executor; an invoker in its loop, while an operation runs, in
    [~on_invoker_exit] before it takes the mutex and before it posts itself again; and
    a function that [dispatch] runs at once. *)
Inductive frame :=
  | Pushing (op : Op) (r : request)
  | Scheduling (r : request)
  | Looping
  | Running (op : Op)
  | Exiting
  | Reposting
  | Inline (op : Op).

(** The handlers are the code that calls the strand, or that is called by it. *)
Definition user_code (k : list frame) : bool :=
  match k with [] => true | Running _ :: _ | Inline _ :: _ => true | _ => false end.

(** [call_stack<strand_impl>::contains(impl)]: the frames of [invoker::operator()]. *)
Definition invoking (f : frame) : bool :=
  match f with Looping | Running _ | Exiting | Reposting => true | _ => false end.
Definition contains (k : list frame) : bool := existsb invoking k.

(** A call of [dispatch], [post] or [defer] by a thread: the strand and the calls of the
    thread afterwards, and the operation if the strand has accepted it. *)
Inductive requests (s : strand_impl) (k : list frame) : strand_impl -> list frame -> list Op -> Prop :=
  | req_first op r s' :
      user_code k = true -> (r = Dispatch -> contains k = false) -> enqueue op s = (First, s') -> requests s k s' (Pushing op r :: k) [op]
  | req_waits op r s' :
      user_code k = true -> (r = Dispatch -> contains k = false) -> enqueue op s = (Waits, s') -> requests s k s' k [op]
  | req_destroyed op r s' :
      user_code k = true -> (r = Dispatch -> contains k = false) -> enqueue op s = (Destroyed, s') -> requests s k s' k []
  | req_inline op : user_code k = true -> contains k = true -> requests s k s (Inline op :: k) [].

(** Any other step of a thread, with the number of invokers that wait to be run by the
    executor, and the operations that begin. The executor may run an invoker that is
    dispatched at once. An operation that throws leaves the loop. *)
Inductive works (s : strand_impl) : nat -> list frame -> strand_impl -> nat -> list frame -> list Op -> Prop :=
  | work_push op r p k : works s p (Pushing op r :: k) (push_ready op s) p (Scheduling r :: k) []
  | work_schedule r p k : works s p (Scheduling r :: k) s (S p) k []
  | work_schedule_now p k : works s p (Scheduling Dispatch :: k) s p (Looping :: k) []
  | work_take p k : user_code k = true -> works s (S p) k s p (Looping :: k) []
  | work_pop o s' p k : next_ready s = (Some o, s') -> works s p (Looping :: k) s' p (Running o :: k) [o]
  | work_leave s' p k : next_ready s = (None, s') -> works s p (Looping :: k) s' p (Exiting :: k) []
  | work_return o p k : works s p (Running o :: k) s p (Looping :: k) []
  | work_throw o p k : works s p (Running o :: k) s p (Exiting :: k) []
  | work_exit more s' p k : invoker_exit s = (more, s') -> works s p (Exiting :: k) s' p (if more : bool then Reposting :: k else k) []
  | work_repost p k : works s p (Reposting :: k) s (S p) k []
  | work_inline o p k : works s p (Inline o :: k) s p k [].

(** The strand, the invokers that wait, the threads, and the operations that the strand
    has accepted and those that began, in order. *)
Record config := mk_config {
  impl : strand_impl;
  posted : nat;
  threads : list (list frame);
  accepted : list Op;
  begun : list Op
}.

Inductive request_step : config -> config -> Prop :=
  | request_of_thread s p l1 k l2 acc beg s' k' a :
      requests s k s' k' a ->
      request_step (mk_config s p (l1 ++ k :: l2) acc beg) (mk_config s' p (l1 ++ k' :: l2) (acc ++ a) beg).

Inductive work_step : config -> config -> Prop :=
  | work_of_thread s p l1 k l2 acc beg s' p' k' b :
      works s p k s' p' k' b ->
      work_step (mk_config s p (l1 ++ k :: l2) acc beg) (mk_config s' p' (l1 ++ k' :: l2) acc (beg ++ b)).

(** What [n] threads may do with a new strand. *)
Inductive reachable (n : nat) : config -> Prop :=
  | reach_new : reachable n (mk_config create_implementation 0 (repeat [] n) [] [])
  | reach_request c c' : reachable n c -> request_step c c' -> reachable n c'
  | reach_work c c' : reachable n c -> work_step c c' -> reachable n c'.

(** ** The invariant *)

(** No thread but one is in a call. *)
Definition idle (ts : list (list frame)) : Prop := Forall (eq []) ts.
Definition alone (k : list frame) (ts : list (list frame)) : Prop :=
  exists l1 l2, ts = l1 ++ k :: l2 /\ idle l1 /\ idle l2.

Definition is_inline (f : frame) : bool := match f with Inline _ => true | _ => false end.

(** The calls of the thread that has acquired the strand. *)
Inductive owning : list frame -> frame -> Prop :=
  | owning_base f : is_inline f = false -> owning [f] f
  | owning_inline o k op : owning k (Running op) -> owning (Inline o :: k) (Running op).

(** The operation that is accepted but in no queue. *)
Definition carried (f : frame) : list Op := match f with Pushing op _ => [op] | _ => [] end.

(** The strand is free, or acquired by an invoker that waits or by a thread. *)
Inductive inv : config -> Prop :=
  | inv_free ts acc : idle ts -> inv (mk_config (mk_strand false false [] []) 0 ts acc acc)
  | inv_posted ts w r acc beg : idle ts -> r <> [] -> acc = beg ++ r ++ w -> inv (mk_config (mk_strand true false w r) 1 ts acc beg)
  | inv_owned ts k f w r acc beg :
      alone k ts -> owning k f -> acc = beg ++ carried f ++ r ++ w -> (carried f <> [] -> r = []) ->
      match f with Scheduling _ | Reposting => r <> [] | _ => True end ->
      inv (mk_config (mk_strand true false w r) 0 ts acc beg).

Lemma idle_alone l1 l2 k : idle (l1 ++ [] :: l2) -> alone k (l1 ++ k :: l2).
Proof. intros H. apply Forall_app in H as [H1 H2]. apply Forall_cons in H2 as [_ H2]. by exists l1, l2. Qed.

Lemma idle_stack l1 k l2 : idle (l1 ++ k :: l2) -> k = [].
Proof. intros H. apply Forall_app in H as [_ H]. apply Forall_cons in H as [H _]. done. Qed.

Lemma alone_idle l1 l2 : alone [] (l1 ++ [] :: l2) -> idle (l1 ++ [] :: l2).
Proof. intros (a & b & -> & Ha & Hb). apply Forall_app. split; [done|]. by apply Forall_cons. Qed.

(** A thread that takes a step is the one, or idle. *)
Lemma alone_cases k l1 k1 l2 :
  alone k (l1 ++ k1 :: l2) -> (k1 = k /\ forall k', alone k' (l1 ++ k' :: l2)) \/ k1 = [].
Proof.
  intros (a & b & E & Ha & Hb). revert a E Ha. induction l1 as [|x l1 IH]; intros [|y a] E Ha; cbn [app] in E; injection E as E1 E2.
  - left. subst. split; [done|]. intros k'. by exists [], b.
  - right. apply Forall_cons in Ha as [<- _]. done.
  - subst. apply Forall_app in Hb as [Hb1 Hb2]. apply Forall_cons in Hb2 as [Hk1 Hb2]. by right.
  - apply Forall_cons in Ha as [<- Ha]. subst x. destruct (IH a E2 Ha) as [[-> H]|H]; [|by right]. left. split; [done|].
    intros k'. destruct (H k') as (a' & b' & E' & Ha' & Hb'). exists ([] :: a'), b'. cbn [app]. rewrite E'. split; [done|]. split; [by apply Forall_cons|done].
Qed.

Lemma owning_nonempty k f : owning k f -> k <> [].
Proof. by intros []. Qed.

Lemma owning_contains k f : owning k f -> user_code k = true -> exists op, f = Running op.
Proof. intros [f' H|o k' op H]; [|by exists op]. destruct f'; try done. by eexists. Qed.

Lemma inv_request c c' : inv c -> request_step c c' -> inv c'.
Proof.
  intros Hinv Hstep. destruct Hstep as [s p l1 k l2 acc beg s' k' a Hreq].
  remember (l1 ++ k :: l2) as ts eqn:Ets. inversion Hinv as [ts0 acc0 Hid|ts0 w r acc0 beg0 Hid Hr Hacc|ts0 k0 f w r acc0 beg0 Hal Hown Hacc Hc Hf]; subst.
  - pose proof (idle_stack _ _ _ Hid) as ->. inversion Hreq as [op r s1 _ _ E|op r s1 _ _ E|op r s1 _ _ E|op _ E]; subst; try done.
    injection E as <-. apply (inv_owned _ [Pushing op r] (Pushing op r)); [by apply idle_alone|by apply owning_base|done|done|done].
  - pose proof (idle_stack _ _ _ Hid) as ->. inversion Hreq as [op r0 s1 _ _ E|op r0 s1 _ _ E|op r0 s1 _ _ E|op _ E]; subst; try done.
    injection E as <-. apply inv_posted; [done|done|]. by rewrite <- !app_assoc.
  - inversion Hreq as [op r0 s1 _ _ E|op r0 s1 _ _ E|op r0 s1 _ _ E|op Hu E]; subst; try done.
    + injection E as <-. apply (inv_owned _ k0 f); try done. by rewrite <- !app_assoc.
    + rewrite app_nil_r. destruct (alone_cases _ _ _ _ Hal) as [[-> Hal']| ->]; [|done].
      destruct (owning_contains _ _ Hown Hu) as [o ->]. apply (inv_owned _ (Inline op :: k0) (Running o)); [apply Hal'|by apply owning_inline|done|done|done].
Qed.

(** The thread has these calls, the innermost of the strand being [f]. *)
Ltac now_owned k f :=
  apply (inv_owned _ k f);
  first [done | match goal with H : forall k', alone k' _ |- alone _ _ => apply H end | by apply owning_base | idtac].

Lemma inv_work c c' : inv c -> work_step c c' -> inv c'.
Proof.
  intros Hinv Hstep. destruct Hstep as [s p l1 k l2 acc beg s' p' k' b Hw].
  remember (l1 ++ k :: l2) as ts eqn:Ets. inversion Hinv as [ts0 acc0 Hid|ts0 w r acc0 beg0 Hid Hr Hacc|ts0 k0 f w r acc0 beg0 Hal Hown Hacc Hc Hf]; subst; cbn [impl posted threads].
  - pose proof (idle_stack _ _ _ Hid) as ->. by inversion Hw.
  - pose proof (idle_stack _ _ _ Hid) as ->. inversion Hw; subst. rewrite app_nil_r.
    apply (inv_owned _ [Looping] Looping); [by apply idle_alone|by apply owning_base|done|done|done].
  - destruct (alone_cases _ _ _ _ Hal) as [[-> Hal']| ->]; [|by inversion Hw].
    assert (forall k1, k0 = f :: k1 -> is_inline f = false -> k1 = []) as Hbase by (intros k1 ->; inversion Hown; subst; done).
    inversion Hw; subst; try (specialize (Hbase _ eq_refl)); rewrite ?app_nil_r.
    all: inversion Hown; subst; try done.
    + rewrite (Hc ltac:(done)) in *. now_owned [Scheduling r0] (Scheduling r0).
    + apply inv_posted; [apply alone_idle, Hal'|done|done].
    + now_owned [Looping] Looping.
    + match goal with E : next_ready _ = _ |- _ => unfold next_ready in E; cbn in E; destruct r as [|o' r]; [done|injection E as -> <-] end.
      now_owned [Running o] (Running o). by rewrite <- app_assoc.
    + match goal with E : next_ready _ = _ |- _ => unfold next_ready in E; cbn in E; destruct r as [|o' r]; [injection E as <-|done] end.
      now_owned [Exiting] Exiting.
    + now_owned [Looping] Looping.
    + now_owned [Exiting] Exiting.
    + match goal with E : invoker_exit _ = _ |- _ => unfold invoker_exit in E; cbn in E end. cbn [carried app].
      destruct (r ++ w) as [|o rw] eqn:Erw; match goal with E : (_, _) = (_, _) |- _ => injection E as <- <- end.
      * rewrite app_nil_r. apply inv_free, alone_idle, Hal'.
      * now_owned [Reposting] Reposting. by rewrite app_nil_r.
    + apply inv_posted; [apply alone_idle, Hal'|done|done].
    + now_owned k' (Running op).
Qed.

Lemma inv_reachable n c : reachable n c -> inv c.
Proof.
  induction 1 as [|c c' _ IH Hs|c c' _ IH Hs]; [|by apply (inv_request c)|by apply (inv_work c)].
  apply inv_free. induction n; [constructor|by apply Forall_cons].
Qed.

Lemma idle_concat ts : idle ts -> concat ts = [].
Proof. induction 1 as [|k ts <- _ IH]; [done|]. by cbn. Qed.

Lemma idle_lookup ts i k : idle ts -> ts !! i = Some k -> k = [].
Proof. intros H Hi. symmetry. by apply (Forall_lookup_1 _ _ _ _ H Hi). Qed.

Lemma alone_concat k ts : alone k ts -> concat ts = k.
Proof. intros (l1 & l2 & -> & H1 & H2). rewrite concat_app. cbn. by rewrite (idle_concat l1), (idle_concat l2), app_nil_r. Qed.

Lemma alone_index k ts : alone k ts -> exists n, forall i k1, ts !! i = Some k1 -> k1 <> [] -> i = n /\ k1 = k.
Proof.
  intros (l1 & l2 & -> & H1 & H2). exists (length l1). intros i k1 Hi Hk. apply lookup_app_Some in Hi as [Hi|[Hl Hi]].
  - by rewrite (idle_lookup l1 i k1 H1 Hi) in Hk.
  - destruct (i - length l1)%nat as [|n] eqn:E; cbn in Hi; [injection Hi as ->; split; [lia|done]|].
    by rewrite (idle_lookup l2 n k1 H2 Hi) in Hk.
Qed.

(** ** What a strand promises *)

(** The calls in which a thread uses [ready_queue_] without the mutex, hands over an
    invoker, or runs an operation. *)
Definition uses (f : frame) : bool := negb (is_inline f).

Lemma owning_uses k f : owning k f -> List.filter uses k = [f].
Proof. induction 1 as [f H|o k op _ IH]; cbn; [unfold uses; by rewrite H|done]. Qed.

(** C10: whatever threads do with a strand, at any moment at most one of them has an
    operation of the strand running, is about to push to [ready_queue_] or to pop from
    it, which they do without the mutex, or has an invoker to hand over, and while an
    invoker waits there is none; that thread is in one such call. The operations begin
    in the order in which the strand accepted them and none of them twice; and when the
    strand is not locked, all of them have begun and no thread runs one. *)
Theorem strand_serial (n : nat) (c : config) :
  reachable n c ->
  (forall i j k1 k2, threads c !! i = Some k1 -> threads c !! j = Some k2 -> k1 <> [] -> k2 <> [] -> i = j /\ posted c = 0%nat) /\
  (length (List.filter uses (concat (threads c))) + posted c <= 1)%nat /\
  (exists rest, accepted c = begun c ++ rest) /\
  (locked_ (impl c) = false -> accepted c = begun c /\ concat (threads c) = []).
Proof.
  intros Hr. apply inv_reachable in Hr. destruct Hr as [ts acc Hid|ts w r acc beg Hid Hr ->|ts k f w r acc beg Hal Hown -> Hc Hf];
    cbn [threads impl posted accepted begun locked_].
  - rewrite (idle_concat ts Hid). split_and!; [|cbn; lia|exists []; by rewrite app_nil_r|done].
    intros i j k1 k2 Hi Hj H1. by rewrite (idle_lookup ts i k1 Hid Hi) in H1.
  - rewrite (idle_concat ts Hid). split_and!; [|cbn; lia|by eexists|done].
    intros i j k1 k2 Hi Hj H1. by rewrite (idle_lookup ts i k1 Hid Hi) in H1.
  - split_and!; [|rewrite (alone_concat k ts Hal), (owning_uses k f Hown); cbn; lia|by eexists|done].
    intros i j k1 k2 Hi Hj H1 H2. destruct (alone_index k ts Hal) as [m Hm]. by rewrite (proj1 (Hm i k1 Hi H1)), (proj1 (Hm j k2 Hj H2)).
Qed.

(** *** Everything is run *)

(** What is left to do: it decreases with every step that is not a new request. *)
Definition weight (s : strand_impl) (f : frame) : nat :=
  match f with
  | Pushing _ _ => 16
  | Scheduling _ => 7
  | Looping => 2
  | Running _ => 8
  | Exiting => match ready_queue_ s with [] => 1 | _ => 6 end
  | Reposting => 5
  | Inline _ => 1
  end.

Definition left_to_do (s : strand_impl) (p : nat) (k : list frame) : nat :=
  8 * length (ready_queue_ s) + 16 * length (waiting_queue_ s) + 4 * p + sum_list_with (weight s) k.

Lemma works_decreases s p f k s' p' k' b :
  works s p (f :: k) s' p' k' b -> (is_inline f = false -> k = []) ->
  (left_to_do s' p' k' < left_to_do s p (f :: k))%nat.
Proof.
  intros Hw Hk. unfold left_to_do. inversion Hw; subst; try (rewrite (Hk eq_refl)); cbn [sum_list_with weight is_inline]; try lia.
  all: try (destruct (ready_queue_ s'); lia).
  - cbn [push_ready ready_queue_ waiting_queue_]. rewrite length_app. cbn [length]. lia.
  - match goal with E : next_ready _ = _ |- _ => unfold next_ready in E; destruct (ready_queue_ s) as [|o' r] eqn:Er; [done|injection E as -> <-] end.
    cbn [ready_queue_ waiting_queue_ length]. lia.
  - match goal with E : next_ready _ = _ |- _ => unfold next_ready in E; destruct (ready_queue_ s) as [|o' r] eqn:Er; [injection E as <-|done] end.
    rewrite Er. cbn. lia.
  - match goal with E : invoker_exit _ = _ |- _ => unfold invoker_exit in E; injection E as <- <- end. cbn [ready_queue_ waiting_queue_]. rewrite length_app.
    destruct (ready_queue_ s) as [|o r], (waiting_queue_ s) as [|o' w]; cbn [app length sum_list_with weight]; lia.
Qed.

(** The strand has nothing to do. *)
Definition drained (c : config) : Prop := begun c = accepted c /\ locked_ (impl c) = false /\ concat (threads c) = [].

Definition to_do (c : config) : nat := left_to_do (impl c) (posted c) (concat (threads c)).

Lemma alone_others k l1 k1 l2 : alone k (l1 ++ k1 :: l2) -> k1 <> [] -> k1 = k /\ (forall k', concat (l1 ++ k' :: l2) = k').
Proof.
  intros Hal H1. destruct (alone_cases _ _ _ _ Hal) as [[-> H]|H]; [|done]. split; [done|]. intros k'. apply alone_concat, H.
Qed.

Lemma work_step_decreases c c' : inv c -> work_step c c' -> (to_do c' < to_do c)%nat.
Proof.
  intros Hinv Hstep. destruct Hstep as [s p l1 k l2 acc beg s' p' k' b Hw].
  remember (l1 ++ k :: l2) as ts eqn:Ets. unfold to_do. inversion Hinv as [ts0 acc0 Hid|ts0 w r acc0 beg0 Hid Hr Hacc|ts0 k0 f w r acc0 beg0 Hal Hown Hacc Hc Hf]; subst; cbn [impl posted threads].
  - pose proof (idle_stack _ _ _ Hid) as ->. by inversion Hw.
  - pose proof (idle_stack _ _ _ Hid) as ->. inversion Hw; subst. rewrite !(alone_concat _ _ (idle_alone _ _ _ Hid)). unfold left_to_do. cbn. lia.
  - destruct k as [|f1 k]; [by inversion Hw|]. destruct (alone_others _ _ _ _ Hal) as [<- Ho]; [done|]. rewrite !Ho.
    apply (works_decreases _ _ _ _ _ _ _ _ Hw). intros Hi. by inversion Hown; subst.
Qed.

Lemma work_step_progress c : inv c -> threads c <> [] -> drained c \/ exists c', work_step c c'.
Proof.
  intros [ts acc Hid|ts w r acc beg Hid Hr ->|ts k f w r acc beg Hal Hown -> Hc Hf] Hts; cbn [threads] in Hts.
  - left. split; [done|]. split; [done|]. by apply idle_concat.
  - right. destruct ts as [|k ts]; [done|]. apply Forall_cons in Hid as [<- _]. eexists. by apply (work_of_thread _ _ [] [] ts), work_take.
  - right. destruct Hal as (l1 & l2 & -> & _). destruct Hown as [f Hi|o k op _]; [|eexists; apply work_of_thread, work_inline].
    destruct f as [op rq|rq| |op| | |op]; [..|done].
    + eexists. apply work_of_thread, work_push.
    + eexists. apply work_of_thread, work_schedule.
    + destruct r as [|o r]; eexists; apply work_of_thread; [by apply work_leave|by apply work_pop].
    + eexists. apply work_of_thread, work_return.
    + eexists. by apply work_of_thread, work_exit.
    + eexists. apply work_of_thread, work_repost.
Qed.

Lemma length_threads n c : reachable n c -> length (threads c) = n.
Proof.
  induction 1 as [|c c' _ IH Hs|c c' _ IH Hs]; [apply repeat_length|..]; destruct Hs; cbn [threads] in *; by rewrite !length_app in *.
Qed.

(** C22: once no new operations are posted, and each one that begins returns or throws,
    every operation that the strand has accepted is run, however the steps of the
    threads are ordered: no operation is forgotten in a queue, not even when another
    one throws, and the strand is free in the end. *)
Theorem strand_drains (n : nat) (c : config) : (0 < n)%nat -> reachable n c -> eventually work_step drained c.
Proof.
  intros Hn Hr. remember (to_do c) as m eqn:Em. revert c Hr Em. induction m as [m IH] using lt_wf_ind. intros c Hr ->.
  pose proof (inv_reachable n c Hr) as Hinv. destruct (work_step_progress c Hinv) as [H|H]; [|by apply eventually_now|].
  - intros E. pose proof (length_threads n c Hr) as El. rewrite E in El. cbn in El. lia.
  - apply eventually_step; [done|]. intros c' Hs. apply (IH (to_do c')); [by apply work_step_decreases|by apply (reach_work n c)|done].
Qed.

End Strand.

(** ** Examples *)

(** Two threads post an operation each; the second waits, and the first runs. *)
Definition example_config : config := mk_config (mk_strand true false [2] []) 0 [[Running 1]; []] [1; 2] [1].

Lemma example_reachable : reachable 2 example_config.
Proof.
  pose proof (reach_new (Op := Z) 2) as H0.
  assert (reachable 2 (mk_config (mk_strand true false [] []) 0 [[Pushing 1 Post]; []] [1] [])) as H1.
  { apply (reach_request _ _ _ H0). by apply (request_of_thread _ _ [] [] [[]] [] []), (req_first _ _ 1 Post). }
  assert (reachable 2 (mk_config (mk_strand true false [] [1]) 0 [[Scheduling Post]; []] [1] [])) as H2.
  { apply (reach_work _ _ _ H1). exact (work_of_thread _ _ [] _ [[]] [1] [] _ _ _ _ (work_push (mk_strand true false [] []) 1 Post 0 [])). }
  assert (reachable 2 (mk_config (mk_strand true false [2] [1]) 0 [[Scheduling Post]; []] [1; 2] [])) as H3.
  { apply (reach_request _ _ _ H2). by apply (request_of_thread _ _ [[Scheduling Post]] [] [] [1] []), (req_waits _ _ 2 Dispatch). }
  assert (reachable 2 (mk_config (mk_strand true false [2] [1]) 1 [[]; []] [1; 2] [])) as H4.
  { apply (reach_work _ _ _ H3). by apply (work_of_thread _ _ [] [Scheduling Post] [[]] [1; 2] []), work_schedule. }
  assert (reachable 2 (mk_config (mk_strand true false [2] [1]) 0 [[Looping]; []] [1; 2] [])) as H5.
  { apply (reach_work _ _ _ H4). by apply (work_of_thread _ _ [] [] [[]] [1; 2] []), work_take. }
  apply (reach_work _ _ _ H5). by apply (work_of_thread _ _ [] [Looping] [[]] [1; 2] []), work_pop.
Qed.

Lemma strand_serial_witness :
  (length (List.filter uses (concat (threads example_config))) + 0 <= 1)%nat /\ exists rest, accepted example_config = [1] ++ rest.
Proof. destruct (strand_serial 2 example_config example_reachable) as (_ & H & Hrest & _). split; [exact H|exact Hrest]. Defined.

Lemma strand_drains_witness : eventually work_step drained example_config.
Proof. apply (strand_drains 2); [lia|exact example_reachable]. Defined.
