(* ===== verification/Sha1.v ===== *)
(** * SHA-1

    src/externals/boost/boost/beast/core/detail/sha1.hpp: the digest of a message that is
    given in pieces. The handshake of the websocket uses it. It is proved to be the one
    of FIPS 180-4. *)

From Stdlib Require Import ZArith Lia String Ascii.
From stdpp Require Import base list.
From S2P Require Import Prelude Exceptions StaticBuffer WsFrame.

(** ** The code *)

Module sha1.

Definition BLOCK_INTS : nat := 16.
Definition BLOCK_BYTES : nat := 64.
Definition DIGEST_BYTES : nat := 20.

(** The addition of [std::uint32_t]. *)
Definition add (x y : Z) : Z := wrap 32 (x + y).

(** [rol] of a 32-bit integer. *)
Definition rol32 (value : Z) (bits : Z) : Z := Z.lor (wrap 32 (Z.shiftl value bits)) (Z.shiftr value (32 - bits)).

Definition word_at (block : list Z) (i : nat) : Z := nth i block 0.

Definition blk (block : list Z) (i : nat) : Z :=
  rol32 (Z.lxor (Z.lxor (Z.lxor (word_at block ((i + 13) mod 16)) (word_at block ((i + 8) mod 16)))
                        (word_at block ((i + 2) mod 16))) (word_at block i)) 1.

(** The functions [R0] to [R4]: the block, and the new [w] and [z]. *)
Inductive round := R0 | R1 | R2 | R3 | R4.

Definition mix (r : round) (w x y : Z) : Z :=
  match r with
  | R0 | R1 => Z.lxor (Z.land w (Z.lxor x y)) y
  | R2 | R4 => Z.lxor (Z.lxor w x) y
  | R3 => Z.lor (Z.land (Z.lor w x) y) (Z.land w x)
  end.

Definition constant (r : round) : Z :=
  match r with R0 | R1 => 0x5a827999 | R2 => 0x6ed9eba1 | R3 => 0x8f1bbcdc | R4 => 0xca62c1d6 end.

Definition run_round (r : round) (block : list Z) (v w x y z : Z) (i : nat) : list Z * Z * Z :=
  let block := match r with R0 => block | _ => <[i:=blk block i]> block end in
  let z := add z (add (add (add (mix r w x y) (word_at block i)) (constant r)) (rol32 v 5)) in
  (block, rol32 w 30, z).

Definition make_block (p : bytes) : list Z :=
  map (fun i => Z.lor (Z.lor (Z.lor (byte_at p (4 * i + 3)) (Z.shiftl (byte_at p (4 * i + 2)) 8))
                             (Z.shiftl (byte_at p (4 * i + 1)) 16)) (Z.shiftl (byte_at p (4 * i)) 24)) (seq 0 BLOCK_INTS).

(** The local variables of [transform]. *)
Inductive var := A | B | C | D | E.
Record vars := mk_vars { a : Z; b : Z; c : Z; d : Z; e : Z }.

Definition get (x : var) (s : vars) : Z :=
  match x with A => a s | B => b s | C => c s | D => d s | E => e s end.
Definition set (x : var) (n : Z) (s : vars) : vars :=
  match x with
  | A => mk_vars n (b s) (c s) (d s) (e s)
  | B => mk_vars (a s) n (c s) (d s) (e s)
  | C => mk_vars (a s) (b s) n (d s) (e s)
  | D => mk_vars (a s) (b s) (c s) n (e s)
  | E => mk_vars (a s) (b s) (c s) (d s) n
  end.

(** The calls that [transform] makes, with their arguments. *)
Definition calls : list (round * (var * var * var * var * var) * nat) :=
  [(R0, (A, B, C, D, E), 0%nat); (R0, (E, A, B, C, D), 1%nat); (R0, (D, E, A, B, C), 2%nat); (R0, (C, D, E, A, B), 3%nat); (R0, (B, C, D, E, A), 4%nat);
   (R0, (A, B, C, D, E), 5%nat); (R0, (E, A, B, C, D), 6%nat); (R0, (D, E, A, B, C), 7%nat); (R0, (C, D, E, A, B), 8%nat); (R0, (B, C, D, E, A), 9%nat);
   (R0, (A, B, C, D, E), 10%nat); (R0, (E, A, B, C, D), 11%nat); (R0, (D, E, A, B, C), 12%nat); (R0, (C, D, E, A, B), 13%nat); (R0, (B, C, D, E, A), 14%nat);
   (R0, (A, B, C, D, E), 15%nat); (R1, (E, A, B, C, D), 0%nat); (R1, (D, E, A, B, C), 1%nat); (R1, (C, D, E, A, B), 2%nat); (R1, (B, C, D, E, A), 3%nat);
   (R2, (A, B, C, D, E), 4%nat); (R2, (E, A, B, C, D), 5%nat); (R2, (D, E, A, B, C), 6%nat); (R2, (C, D, E, A, B), 7%nat); (R2, (B, C, D, E, A), 8%nat);
   (R2, (A, B, C, D, E), 9%nat); (R2, (E, A, B, C, D), 10%nat); (R2, (D, E, A, B, C), 11%nat); (R2, (C, D, E, A, B), 12%nat); (R2, (B, C, D, E, A), 13%nat);
   (R2, (A, B, C, D, E), 14%nat); (R2, (E, A, B, C, D), 15%nat); (R2, (D, E, A, B, C), 0%nat); (R2, (C, D, E, A, B), 1%nat); (R2, (B, C, D, E, A), 2%nat);
   (R2, (A, B, C, D, E), 3%nat); (R2, (E, A, B, C, D), 4%nat); (R2, (D, E, A, B, C), 5%nat); (R2, (C, D, E, A, B), 6%nat); (R2, (B, C, D, E, A), 7%nat);
   (R3, (A, B, C, D, E), 8%nat); (R3, (E, A, B, C, D), 9%nat); (R3, (D, E, A, B, C), 10%nat); (R3, (C, D, E, A, B), 11%nat); (R3, (B, C, D, E, A), 12%nat);
   (R3, (A, B, C, D, E), 13%nat); (R3, (E, A, B, C, D), 14%nat); (R3, (D, E, A, B, C), 15%nat); (R3, (C, D, E, A, B), 0%nat); (R3, (B, C, D, E, A), 1%nat);
   (R3, (A, B, C, D, E), 2%nat); (R3, (E, A, B, C, D), 3%nat); (R3, (D, E, A, B, C), 4%nat); (R3, (C, D, E, A, B), 5%nat); (R3, (B, C, D, E, A), 6%nat);
   (R3, (A, B, C, D, E), 7%nat); (R3, (E, A, B, C, D), 8%nat); (R3, (D, E, A, B, C), 9%nat); (R3, (C, D, E, A, B), 10%nat); (R3, (B, C, D, E, A), 11%nat);
   (R4, (A, B, C, D, E), 12%nat); (R4, (E, A, B, C, D), 13%nat); (R4, (D, E, A, B, C), 14%nat); (R4, (C, D, E, A, B), 15%nat); (R4, (B, C, D, E, A), 0%nat);
   (R4, (A, B, C, D, E), 1%nat); (R4, (E, A, B, C, D), 2%nat); (R4, (D, E, A, B, C), 3%nat); (R4, (C, D, E, A, B), 4%nat); (R4, (B, C, D, E, A), 5%nat);
   (R4, (A, B, C, D, E), 6%nat); (R4, (E, A, B, C, D), 7%nat); (R4, (D, E, A, B, C), 8%nat); (R4, (C, D, E, A, B), 9%nat); (R4, (B, C, D, E, A), 10%nat);
   (R4, (A, B, C, D, E), 11%nat); (R4, (E, A, B, C, D), 12%nat); (R4, (D, E, A, B, C), 13%nat); (R4, (C, D, E, A, B), 14%nat); (R4, (B, C, D, E, A), 15%nat)].

Definition run_call (call : round * (var * var * var * var * var) * nat) (st : list Z * vars) : list Z * vars :=
  let '(r, (v, w, x, y, z), i) := call in
  let (block, s) := st in
  let '(block, nw, nz) := run_round r block (get v s) (get w s) (get x s) (get y s) (get z s) i in
  (block, set z nz (set w nw s)).

Definition transform (digest : list Z) (block : list Z) : list Z :=
  let s := mk_vars (word_at digest 0) (word_at digest 1) (word_at digest 2) (word_at digest 3) (word_at digest 4) in
  let (_, s) := fold_left (fun st call => run_call call st) calls (block, s) in
  [add (word_at digest 0) (a s); add (word_at digest 1) (b s); add (word_at digest 2) (c s);
   add (word_at digest 3) (d s); add (word_at digest 4) (e s)].

(** [struct sha1_context]. *)
Record sha1_context := mk_context {
  buflen : nat;
  blocks : Z;
  digest : list Z;
  buf : bytes
}.

(** [init(ctx)]; [buf] is what the buffer holds. *)
Definition init (buf : bytes) : sha1_context :=
  mk_context 0 0 [0x67452301; 0xefcdab89; 0x98badcfe; 0x10325476; 0xc3d2e1f0] buf.

(** [update(ctx, message, size)]. *)
Fixpoint update_loop (fuel : nat) (ctx : sha1_context) (p : bytes) : cpp sha1_context :=
  match fuel with
  | O => Undef
  | S fuel =>
      let n := Nat.min (length p) (BLOCK_BYTES - buflen ctx) in
      let buf := list_inserts (buflen ctx) (take n p) (buf ctx) in
      let buflen := (buflen ctx + n)%nat in
      if negb (buflen =? 64)%nat then Ret (mk_context buflen (blocks ctx) (digest ctx) buf)
      else
        let digest := transform (digest ctx) (make_block buf) in
        update_loop fuel (mk_context 0 (wrap 64 (blocks ctx + 1)) digest buf) (drop n p)
  end.

Definition update (ctx : sha1_context) (message : bytes) : cpp sha1_context := update_loop (S (length message)) ctx message.

(** The bytes of a word that [finish] writes. *)
Definition word_bytes (w : Z) : bytes :=
  [Z.land (Z.shiftr w 24) 0xff; Z.land (Z.shiftr w 16) 0xff; Z.land (Z.shiftr w 8) 0xff; Z.land w 0xff].

(** [finish(ctx, digest)]: the bytes of the digest. *)
Definition finish (ctx : sha1_context) : cpp bytes :=
  let total_bits := wrap 64 (wrap 64 (wrap 64 (blocks ctx * 64) + Z.of_nat (buflen ctx)) * 8) in
  if (BLOCK_BYTES <=? buflen ctx)%nat then Undef
  else
    let n := S (buflen ctx) in
    let buf := list_inserts n (repeat 0 (BLOCK_BYTES - n)) (<[buflen ctx:=0x80]> (buf ctx)) in
    let block := make_block buf in
    let (digest, block) :=
      if (BLOCK_BYTES - 8 <? n)%nat
      then (transform (digest ctx) block, list_inserts 0 (repeat 0 (BLOCK_INTS - 2)) block)
      else (digest ctx, block) in
    let block := <[(BLOCK_INTS - 2)%nat:=wrap 32 (Z.shiftr total_bits 32)]> (<[(BLOCK_INTS - 1)%nat:=Z.land total_bits 0xffffffff]> block) in
    Ret (concat (map word_bytes (transform digest block))).

Example sha1_abc :
  (let* ctx := update (init (repeat 0 64)) (str "ab") in let* ctx := update ctx (str "c") in finish ctx) =
  Ret [0xa9; 0x99; 0x3e; 0x36; 0x47; 0x06; 0x81; 0x6a; 0xba; 0x3e; 0x25; 0x71; 0x78; 0x50; 0xc2; 0x6c; 0x9c; 0xd0; 0xd8; 0x9d].
Proof. vm_compute. reflexivity. Qed.

End sha1.

(** ** FIPS 180-4 *)

Module FIPS.

Import sha1.

Definition rotl (n x : Z) : Z := Z.lor (wrap 32 (Z.shiftl x n)) (Z.shiftr x (32 - n)).

(** Section 4.1.1, with [not32] the complement of 32 bits. *)
Definition not32 (x : Z) : Z := Z.lxor x (2 ^ 32 - 1).
Definition f (t : nat) (x y z : Z) : Z :=
  if (t <? 20)%nat then Z.lxor (Z.land x y) (Z.land (not32 x) z)
  else if (t <? 40)%nat then Z.lxor (Z.lxor x y) z
  else if (t <? 60)%nat then Z.lxor (Z.lxor (Z.land x y) (Z.land x z)) (Z.land y z)
  else Z.lxor (Z.lxor x y) z.

(** Section 4.2.1. *)
Definition K (t : nat) : Z :=
  if (t <? 20)%nat then 0x5a827999 else if (t <? 40)%nat then 0x6ed9eba1 else if (t <? 60)%nat then 0x8f1bbcdc else 0xca62c1d6.

(** Section 5.1.1: the bytes that are appended to a message of [n] bytes. *)
Definition padding (n : nat) : bytes :=
  0x80 :: repeat 0 (Z.to_nat ((55 - Z.of_nat n) mod 64)) ++ big_bytes 8 (8 * Z.of_nat n).

(** Section 5.2.1: the words of a block. *)
Fixpoint words (p : bytes) : list Z :=
  match p with
  | b0 :: b1 :: b2 :: b3 :: p => big_value [b0; b1; b2; b3] :: words p
  | _ => []
  end.

(** Section 6.1.2: the message schedule up to the word [t]. *)
Fixpoint schedule_upto (m : list Z) (t : nat) : list Z :=
  match t with
  | O => []
  | S t =>
      let w := schedule_upto m t in
      w ++ [if (t <? 16)%nat then nth t m 0
            else rotl 1 (Z.lxor (Z.lxor (Z.lxor (nth (t - 3) w 0) (nth (t - 8) w 0)) (nth (t - 14) w 0)) (nth (t - 16) w 0))]
  end.
Definition schedule (m : list Z) : list Z := schedule_upto m 80.

Definition step (w : list Z) (t : nat) (s : vars) : vars :=
  let tmp := wrap 32 (rotl 5 (a s) + f t (b s) (c s) (d s) + e s + K t + nth t w 0) in
  mk_vars tmp (a s) (rotl 30 (b s)) (c s) (d s).

Definition compress (h : list Z) (block : bytes) : list Z :=
  let w := schedule (words block) in
  let s := fold_left (fun s t => step w t s) (seq 0 80) (mk_vars (nth 0 h 0) (nth 1 h 0) (nth 2 h 0) (nth 3 h 0) (nth 4 h 0)) in
  [add (a s) (nth 0 h 0); add (b s) (nth 1 h 0); add (c s) (nth 2 h 0); add (d s) (nth 3 h 0); add (e s) (nth 4 h 0)].

(** The blocks of 64 bytes; the padded message has no others. *)
Fixpoint hash_blocks (n : nat) (h : list Z) (p : bytes) : list Z :=
  match n with O => h | S n => hash_blocks n (compress h (take 64 p)) (drop 64 p) end.

Definition initial_hash : list Z := [0x67452301; 0xefcdab89; 0x98badcfe; 0x10325476; 0xc3d2e1f0].

Definition sha1 (message : bytes) : bytes :=
  let p := message ++ padding (length message) in
  concat (map (big_bytes 4) (hash_blocks (length p / 64) initial_hash p)).

Example sha1_empty : sha1 [] = [0xda; 0x39; 0xa3; 0xee; 0x5e; 0x6b; 0x4b; 0x0d; 0x32; 0x55; 0xbf; 0xef; 0x95; 0x60; 0x18; 0x90; 0xaf; 0xd8; 0x07; 0x09].
Proof. vm_compute. reflexivity. Qed.

End FIPS.

Import sha1 FIPS.

(** ** Words *)

Lemma wrap_add_l x y : wrap 32 (wrap 32 x + y) = wrap 32 (x + y).
Proof. apply Zplus_mod_idemp_l. Qed.
Lemma wrap_add_r x y : wrap 32 (x + wrap 32 y) = wrap 32 (x + y).
Proof. apply Zplus_mod_idemp_r. Qed.

Lemma add_comm x y : add x y = add y x.
Proof. unfold add. f_equal. lia. Qed.

Lemma add_sum z x y k r : add z (add (add (add x y) k) r) = wrap 32 (x + y + k + r + z).
Proof. unfold add. rewrite (Z.add_comm z). rewrite !wrap_add_l. rewrite <- !Z.add_assoc, wrap_add_l. by rewrite !Z.add_assoc. Qed.

Lemma add_u32 x y : u32 (add x y).
Proof. by apply wrap_range. Qed.

Lemma word_bits_above x n i : 0 <= x < 2 ^ n -> n <= i -> Z.testbit x i = false.
Proof.
  intros Hx Hi. destruct (Z.eq_dec x 0) as [->|]; [apply Z.bits_0|]. apply Z.bits_above_log2; [lia|].
  apply Z.lt_le_trans with n; [|done]. apply Z.log2_lt_pow2; lia.
Qed.

Lemma lor_width n x y : 0 <= n -> in_width n x -> in_width n y -> in_width n (Z.lor x y).
Proof.
  intros Hn Hx Hy. assert (Z.lor x y = Z.lor x y mod 2 ^ n) as ->; [|by apply wrap_range].
  apply Z.bits_inj'. intros i Hi. destruct (Z.lt_ge_cases i n); [by rewrite Z.mod_pow2_bits_low|].
  rewrite Z.mod_pow2_bits_high, Z.lor_spec by lia. by rewrite (word_bits_above x n i), (word_bits_above y n i).
Qed.

Lemma rotl_u32 n x : 0 <= n <= 32 -> u32 x -> u32 (rotl n x).
Proof.
  intros Hn Hx. apply lor_width; [done|by apply wrap_range|]. unfold in_width in *. rewrite Z.shiftr_div_pow2 by lia.
  pose proof (Z.pow_pos_nonneg 2 (32 - n) ltac:(lia) ltac:(lia)). split; [apply Z.div_pos; lia|].
  apply Z.le_lt_trans with x; [|lia]. apply Z.div_le_upper_bound; nia.
Qed.

(** The functions of the rounds, with fewer operations. *)
Lemma choice x y z : u32 x -> u32 z -> Z.lxor (Z.land x (Z.lxor y z)) z = Z.lxor (Z.land x y) (Z.land (not32 x) z).
Proof.
  intros Hx Hz. apply Z.bits_inj'. intros i Hi. unfold not32. change (2 ^ 32 - 1) with (Z.ones 32).
  rewrite !Z.lxor_spec, !Z.land_spec, !Z.lxor_spec. destruct (Z.lt_ge_cases i 32).
  - rewrite Z.ones_spec_low by lia. by destruct (Z.testbit x i), (Z.testbit y i), (Z.testbit z i).
  - rewrite (word_bits_above x 32 i), (word_bits_above z 32 i) by done. by rewrite andb_false_r.
Qed.

Lemma majority x y z : Z.lor (Z.land (Z.lor x y) z) (Z.land x y) = Z.lxor (Z.lxor (Z.land x y) (Z.land x z)) (Z.land y z).
Proof.
  apply Z.bits_inj'. intros i Hi. rewrite !Z.lxor_spec, !Z.lor_spec, !Z.land_spec, !Z.lor_spec.
  by destruct (Z.testbit x i), (Z.testbit y i), (Z.testbit z i).
Qed.

Definition round_of (t : nat) : round :=
  if (t <? 16)%nat then R0 else if (t <? 20)%nat then R1 else if (t <? 40)%nat then R2 else if (t <? 60)%nat then R3 else R4.

Lemma mix_round t x y z : u32 x -> u32 z -> mix (round_of t) x y z = f t x y z.
Proof.
  intros Hx Hz. unfold round_of, f. destruct (Nat.ltb_spec t 16); [rewrite (proj2 (Nat.ltb_lt t 20)) by lia; by apply choice|].
  destruct (Nat.ltb_spec t 20); [by apply choice|]. destruct (Nat.ltb_spec t 40); [done|]. destruct (Nat.ltb_spec t 60); [|done].
  apply majority.
Qed.

Lemma constant_round t : constant (round_of t) = K t.
Proof. unfold round_of, K. destruct (Nat.ltb_spec t 16); [by rewrite (proj2 (Nat.ltb_lt t 20)) by lia|]. by repeat case_match. Qed.

(** The words of a block. *)
Lemma word_of_bytes b0 b1 b2 b3 :
  Forall u8 [b0; b1; b2; b3] -> Z.lor (Z.lor (Z.lor b3 (Z.shiftl b2 8)) (Z.shiftl b1 16)) (Z.shiftl b0 24) = big_value [b0; b1; b2; b3].
Proof.
  intros H. repeat (apply Forall_cons in H as [? H]). unfold in_width in *. rewrite !Z.shiftl_mul_pow2 by lia.
  rewrite (Z.lor_comm b3), lor_disjoint by lia. rewrite (Z.lor_comm _ (b1 * _)), lor_disjoint by lia.
  rewrite (Z.lor_comm _ (b0 * _)), lor_disjoint by lia. cbn [big_value length]. lia.
Qed.

Lemma words_map n p :
  length p = (4 * n)%nat -> Forall u8 p ->
  map (fun i => Z.lor (Z.lor (Z.lor (byte_at p (4 * i + 3)) (Z.shiftl (byte_at p (4 * i + 2)) 8))
                             (Z.shiftl (byte_at p (4 * i + 1)) 16)) (Z.shiftl (byte_at p (4 * i)) 24)) (seq 0 n) = words p.
Proof.
  revert p. induction n as [|n IH]; intros p Hl Hp; [by destruct p|].
  destruct p as [|b0 [|b1 [|b2 [|b3 p]]]]; cbn [length] in Hl; try lia. cbn [seq map words].
  apply Forall_cons in Hp as [H0 Hp]. apply Forall_cons in Hp as [H1 Hp]. apply Forall_cons in Hp as [H2 Hp]. apply Forall_cons in Hp as [H3 Hp].
  f_equal; [apply (word_of_bytes b0 b1 b2 b3); repeat (apply List.Forall_cons; [done|]); apply List.Forall_nil|]. rewrite <- (IH p) by (done || lia). rewrite <- seq_shift, map_map. apply map_ext. intros i.
  replace (4 * S i)%nat with (4 + 4 * i)%nat by lia. done.
Qed.

Lemma make_block_words p : length p = 64%nat -> Forall u8 p -> make_block p = words p.
Proof. intros Hl Hp. by apply (words_map 16). Qed.

(** ** The message schedule in a block of sixteen words *)

Lemma length_schedule m t : length (schedule_upto m t) = t.
Proof. induction t; cbn [schedule_upto]; [done|]. rewrite length_app. cbn [length]. lia. Qed.

Lemma schedule_prefix m t k i : (i < t)%nat -> nth i (schedule_upto m (k + t)) 0 = nth i (schedule_upto m t) 0.
Proof.
  intros Hi. induction k as [|k IH]; [done|]. cbn [Nat.add schedule_upto]. by rewrite app_nth1 by (rewrite length_schedule; lia).
Qed.

Lemma schedule_at m t : (t < 80)%nat ->
  nth t (schedule m) 0 = if (t <? 16)%nat then nth t m 0
    else rotl 1 (Z.lxor (Z.lxor (Z.lxor (nth (t - 3) (schedule m) 0) (nth (t - 8) (schedule m) 0)) (nth (t - 14) (schedule m) 0)) (nth (t - 16) (schedule m) 0)).
Proof.
  intros Ht. unfold schedule at 1. replace 80%nat with ((79 - t) + S t)%nat by lia. rewrite schedule_prefix by lia. cbn [schedule_upto].
  rewrite app_nth2 by (rewrite length_schedule; lia). rewrite length_schedule, Nat.sub_diag. cbn [nth].
  destruct (Nat.ltb_spec t 16); [done|]. unfold schedule.
  rewrite <- !(schedule_prefix m t (80 - t)) by lia. by replace (80 - t + t)%nat with 80%nat by lia.
Qed.

(** The word of the schedule that the word [j] of the block is before round [t]. *)
Definition slot (t j : nat) : nat := if (t <? 16)%nat then j else (t - 1 - (t + 15 - j) mod 16)%nat.
Definition block_before (w : list Z) (t : nat) : list Z := map (fun j => nth (slot t j) w 0) (seq 0 16).

Lemma word_at_block (w : list Z) (t j : nat) : (j < 16)%nat -> word_at (block_before w t) j = nth (slot t j) w 0.
Proof.
  intros Hj. unfold word_at, block_before. rewrite (nth_indep _ 0 (nth (slot t 0) w 0)) by (by rewrite length_map, length_seq).
  by rewrite (map_nth (fun j => nth (slot t j) w 0)), seq_nth.
Qed.

(** The slots that a round reads and the one that it writes. *)
Lemma slots t : (16 <= t < 80)%nat ->
  slot t ((t mod 16 + 13) mod 16) = (t - 3)%nat /\ slot t ((t mod 16 + 8) mod 16) = (t - 8)%nat /\
  slot t ((t mod 16 + 2) mod 16) = (t - 14)%nat /\ slot t (t mod 16) = (t - 16)%nat.
Proof.
  intros Ht. assert (forallb (fun t => (slot t ((t mod 16 + 13) mod 16) =? t - 3) && (slot t ((t mod 16 + 8) mod 16) =? t - 8) &&
    (slot t ((t mod 16 + 2) mod 16) =? t - 14) && (slot t (t mod 16) =? t - 16))%nat (seq 16 64) = true) as H by (by vm_compute).
  rewrite forallb_forall in H. specialize (H t ltac:(apply in_seq; lia)). cbn beta in H. bool_prop. by rewrite !Nat.eqb_eq in *.
Qed.

Lemma slot_next t j : (t < 80)%nat -> (j < 16)%nat -> slot (S t) j = if (j =? t mod 16)%nat then (if (t <? 16)%nat then j else t) else slot t j.
Proof.
  intros Ht Hj. assert (forallb (fun t => forallb (fun j => (slot (S t) j =? if (j =? t mod 16) then (if (t <? 16) then j else t) else slot t j)%nat) (seq 0 16)) (seq 0 80) = true)
    as H by (by vm_compute).
  rewrite forallb_forall in H. specialize (H t ltac:(apply in_seq; lia)). cbn beta in H. rewrite forallb_forall in H.
  specialize (H j ltac:(apply in_seq; lia)). by apply Nat.eqb_eq in H.
Qed.

Lemma block_next (w : list Z) (t : nat) (n : Z) : (t < 80)%nat -> ((16 <= t)%nat -> n = nth t w 0) -> ((t < 16)%nat -> n = nth (t mod 16) w 0) ->
  <[(t mod 16)%nat:=n]> (block_before w t) = block_before w (S t).
Proof.
  intros Ht H1 H2. apply list_eq. intros j. destruct (Nat.lt_ge_cases j 16) as [Hj|Hj].
  - unfold block_before. assert (length (map (fun j => nth (slot t j) w 0) (seq 0 16)) = 16%nat) as Hl by (by rewrite length_map, length_seq).
    destruct (Nat.eq_dec (t mod 16)%nat j) as [<-|Hne].
    + rewrite list_lookup_insert_eq by (rewrite Hl; by apply Nat.mod_upper_bound). rewrite list_lookup_fmap, lookup_seq_lt by done. cbn.
      rewrite slot_next, Nat.eqb_refl by done. f_equal. destruct (Nat.ltb_spec t 16); auto.
    + rewrite list_lookup_insert_ne by done. rewrite !list_lookup_fmap, lookup_seq_lt by done. cbn.
      rewrite slot_next by done. by rewrite (proj2 (Nat.eqb_neq _ _)).
  - rewrite !lookup_ge_None_2; [done|..]; unfold block_before; rewrite ?length_insert, length_map, length_seq; done.
Qed.

(** ** The rounds *)

Definition arguments (t : nat) : var * var * var * var * var :=
  match (t mod 5)%nat with
  | 0%nat => (A, B, C, D, E) | 1%nat => (E, A, B, C, D) | 2%nat => (D, E, A, B, C) | 3%nat => (C, D, E, A, B) | _ => (B, C, D, E, A)
  end.

Lemma calls_eq : calls = map (fun t => (round_of t, arguments t, (t mod 16)%nat)) (seq 0 80).
Proof. vm_compute. reflexivity. Qed.

(** The variables hold those of the standard, in the order of the arguments. *)
Definition agrees (t : nat) (s s' : vars) : Prop :=
  let '(v, w, x, y, z) := arguments t in
  get v s = a s' /\ get w s = b s' /\ get x s = c s' /\ get y s = d s' /\ get z s = e s'.

Definition u32_vars (s : vars) : Prop := u32 (a s) /\ u32 (b s) /\ u32 (c s) /\ u32 (d s) /\ u32 (e s).

Lemma arguments_next t nz nw s :
  let '(v, w, x, y, z) := arguments t in
  let s' := set z nz (set w nw s) in
  let '(v', w', x', y', z') := arguments (S t) in
  get v' s' = nz /\ get w' s' = get v s /\ get x' s' = nw /\ get y' s' = get x s /\ get z' s' = get y s.
Proof.
  unfold arguments. assert (t mod 5 < 5)%nat as H by (by apply Nat.mod_upper_bound).
  assert (S t mod 5 = if (t mod 5 =? 4) then 0 else S (t mod 5))%nat as ->.
  { rewrite <- Nat.add_1_r, <- Nat.Div0.add_mod_idemp_l. destruct (t mod 5)%nat as [|[|[|[|[|]]]]]; try done. lia. }
  destruct (t mod 5)%nat as [|[|[|[|[|]]]]]; cbn; try done; lia.
Qed.

Lemma run_call_ok (w : list Z) (t : nat) s s' :
  (t < 80)%nat -> agrees t s s' -> u32_vars s' -> (forall t, (16 <= t < 80)%nat -> nth t w 0 =
    rotl 1 (Z.lxor (Z.lxor (Z.lxor (nth (t - 3) w 0) (nth (t - 8) w 0)) (nth (t - 14) w 0)) (nth (t - 16) w 0))) ->
  exists s1, run_call (round_of t, arguments t, (t mod 16)%nat) (block_before w t, s) = (block_before w (S t), s1) /\
    agrees (S t) s1 (step w t s') /\ u32_vars (step w t s').
Proof.
  intros Ht Hag (Ua & Ub & Uc & Ud & Ue) Hw. unfold agrees in *. pose proof (arguments_next t) as Hnext. unfold run_call, run_round.
  destruct (arguments t) as [[[[v w'] x] y] z]. destruct Hag as (Ev & Ew' & Ex & Ey & Ez). rewrite Ev, Ew', Ex, Ey, Ez.
  assert (t mod 16 < 16)%nat as Hm by (by apply Nat.mod_upper_bound).
  assert (exists blk', (match round_of t with R0 => block_before w t | _ => <[(t mod 16)%nat:=blk (block_before w t) (t mod 16)]> (block_before w t) end) = blk' /\
    blk' = block_before w (S t) /\ word_at blk' (t mod 16) = nth t w 0) as (blk' & -> & Eb & Ew).
  { eexists. split; [done|]. destruct (Nat.lt_ge_cases t 16) as [Hlt|Hge].
    - assert (round_of t = R0) as -> by (unfold round_of; by rewrite (proj2 (Nat.ltb_lt t 16))).
      split; [|rewrite word_at_block by done; unfold slot; by rewrite (proj2 (Nat.ltb_lt t 16)), Nat.mod_small by lia].
      rewrite <- (block_next w t (nth (t mod 16) w 0)) by (done || lia). symmetry. apply list_insert_id. unfold block_before.
      rewrite list_lookup_fmap, lookup_seq_lt by done. cbn. unfold slot. by rewrite (proj2 (Nat.ltb_lt t 16)).
    - assert (match round_of t with R0 => block_before w t | _ => <[(t mod 16)%nat:=blk (block_before w t) (t mod 16)]> (block_before w t) end =
        <[(t mod 16)%nat:=blk (block_before w t) (t mod 16)]> (block_before w t)) as ->.
      { unfold round_of. rewrite (proj2 (Nat.ltb_ge t 16)) by lia. by repeat case_match. }
      assert (blk (block_before w t) (t mod 16) = nth t w 0) as ->.
      { unfold blk. rewrite !word_at_block by (done || by apply Nat.mod_upper_bound). destruct (slots t ltac:(lia)) as (-> & -> & -> & ->).
        by rewrite (Hw t ltac:(lia)). }
      rewrite block_next by (done || lia). split; [done|]. rewrite word_at_block by done. rewrite slot_next, Nat.eqb_refl by done.
      by rewrite (proj2 (Nat.ltb_ge t 16)) by lia. }
  eexists. rewrite Eb. split; [reflexivity|]. rewrite <- Eb, Ew.
  rewrite mix_round, constant_round by done.
  set (nz := add (e s') _).
  assert (nz = wrap 32 (rotl 5 (a s') + f t (b s') (c s') (d s') + e s' + K t + nth t w 0)) as Enz.
  { unfold nz. rewrite add_sum. f_equal. change (rol32 (a s') 5) with (rotl 5 (a s')). lia. }
  clearbody nz. specialize (Hnext nz (rotl 30 (b s')) s). cbn zeta in Hnext.
  destruct (arguments (S t)) as [[[[v1 w1] x1] y1] z1].
  split.
  - rewrite Ev, Ex, Ey in Hnext. cbn [step a b c d e]. rewrite <- Enz. exact Hnext.
  - unfold u32_vars, step. cbn. split_and!; try done; [by apply wrap_range|apply rotl_u32; [lia|done]].
Qed.

(** All the rounds. *)
Lemma run_calls_ok (w : list Z) n : forall s s',
  (n <= 80)%nat -> agrees 0 s s' -> u32_vars s' -> (forall t, (16 <= t < 80)%nat -> nth t w 0 =
    rotl 1 (Z.lxor (Z.lxor (Z.lxor (nth (t - 3) w 0) (nth (t - 8) w 0)) (nth (t - 14) w 0)) (nth (t - 16) w 0))) ->
  exists s1, fold_left (fun st call => run_call call st) (map (fun t => (round_of t, arguments t, (t mod 16)%nat)) (seq 0 n)) (block_before w 0, s) =
      (block_before w n, s1) /\
    agrees n s1 (fold_left (fun s t => step w t s) (seq 0 n) s') /\ u32_vars (fold_left (fun s t => step w t s) (seq 0 n) s').
Proof.
  intros s s' Hn Hag Hu Hw. induction n as [|n IH]; [by exists s|]. destruct IH as (s1 & E & Hag1 & Hu1); [lia|].
  rewrite seq_S, map_app, !fold_left_app, E. cbn [map fold_left Nat.add]. by apply run_call_ok; [lia|..].
Qed.

Lemma transform_ok h p :
  length h = 5%nat -> Forall u32 h -> length p = 64%nat -> transform h (words p) = compress h p.
Proof.
  intros Hl Hh Hp. unfold transform, compress. set (w := schedule (words p)). set (s := mk_vars (word_at h 0) _ _ _ _).
  assert (length (words p) = 16%nat) as Hlw by (do 64 (destruct p as [|? p]; [done|]); by destruct p).
  assert (words p = block_before w 0) as ->.
  { apply (nth_ext _ _ 0 0); [by rewrite Hlw|]. intros j Hj. rewrite Hlw in Hj. change (nth j (block_before w 0) 0) with (word_at (block_before w 0) j).
    rewrite word_at_block by done. unfold slot. cbn [Nat.ltb Nat.leb]. unfold w. rewrite schedule_at by lia. by rewrite (proj2 (Nat.ltb_lt j 16)). }
  rewrite calls_eq. destruct (run_calls_ok w 80 s s) as (s1 & -> & Hag & _); try done; cycle 2.
  { change (agrees 0 s1 (fold_left (fun s t => step w t s) (seq 0 80) s)) in Hag. destruct Hag as (Ea & Eb & Ec & Ed & Ee). cbn [get] in *.
    rewrite Ea, Eb, Ec, Ed, Ee. by rewrite !(add_comm (word_at h _)). }
  - do 5 (destruct h as [|? h]; [done|]). destruct h; [|done]. rewrite !Forall_cons in Hh. unfold u32_vars. cbn. tauto.
  - intros t Ht. unfold w. rewrite schedule_at by lia. by rewrite (proj2 (Nat.ltb_ge t 16)) by lia.
Qed.

(** ** Messages in pieces *)

Definition is_hash (h : list Z) : Prop := length h = 5%nat /\ Forall u32 h.

Lemma sums_hash (s : vars) (h0 h1 h2 h3 h4 : Z) : is_hash [add (a s) h0; add (b s) h1; add (c s) h2; add (d s) h3; add (e s) h4].
Proof. split; [reflexivity|]. repeat (apply List.Forall_cons; [apply add_u32|]). apply List.Forall_nil. Qed.

Lemma compress_hash h p : is_hash (compress h p).
Proof. unfold compress. apply sums_hash. Qed.

#[local] Opaque compress transform.

Lemma hash_blocks_hash n h p : is_hash h -> is_hash (hash_blocks n h p).
Proof. revert h p. induction n as [|n IH]; intros h p H; [done|]. apply IH, compress_hash. Qed.

Lemma hash_blocks_S n h p : hash_blocks (S n) h p = compress (hash_blocks n h p) (take 64 (drop (64 * n) p)).
Proof.
  revert h p. induction n as [|n IH]; intros h p; [by rewrite Nat.mul_0_r, drop_0|]. cbn [hash_blocks] in *. rewrite IH, drop_drop.
  by replace (64 * S n)%nat with (64 + 64 * n)%nat by lia.
Qed.

(** Blocks look no further. *)
Lemma hash_blocks_app n h p q : (64 * n <= length p)%nat -> hash_blocks n h (p ++ q) = hash_blocks n h p.
Proof.
  revert h p. induction n as [|n IH]; intros h p Hl; [done|]. cbn [hash_blocks]. rewrite take_app_le, drop_app_le by lia. apply IH.
  rewrite length_drop. lia.
Qed.

(** The context after the message [m]. *)
Record contains (m : bytes) (ctx : sha1_context) : Prop := {
  ct_bytes : Forall u8 m;
  ct_buflen : buflen ctx = (length m mod 64)%nat;
  ct_blocks : blocks ctx = wrap 64 (Z.of_nat (length m / 64));
  ct_digest : digest ctx = hash_blocks (length m / 64) initial_hash m;
  ct_length : length (buf ctx) = 64%nat;
  ct_buf : take (buflen ctx) (buf ctx) = drop (64 * (length m / 64)) m
}.

Lemma contains_new buf : length buf = 64%nat -> contains [] (init buf).
Proof. intros H. split; try done. Qed.

Lemma div_mod_64 (n : nat) : (n = 64 * (n / 64) + n mod 64 /\ n mod 64 < 64)%nat.
Proof. pose proof (Nat.div_mod_eq n 64). pose proof (Nat.mod_upper_bound n 64). lia. Qed.

Lemma div_mod_unique (n q r : nat) : (n = 64 * q + r -> r < 64 -> n / 64 = q /\ n mod 64 = r)%nat.
Proof. intros E H. split; symmetry; [by apply (Nat.div_unique n 64 q r)|by apply (Nat.mod_unique n 64 q r)]. Qed.

Lemma take_inserts_end (l d : bytes) n : (n + length d <= length l)%nat -> take (n + length d) (list_inserts n d l) = take n l ++ d.
Proof.
  intros H. apply list_eq. intros i. destruct (Nat.lt_ge_cases i (n + length d)) as [Hi|Hi].
  - rewrite lookup_take_lt by done. rewrite inserts_lookup. destruct (Nat.lt_ge_cases i n).
    + rewrite (proj2 (Nat.leb_gt n i)) by done. cbn [andb]. by rewrite lookup_app_l, lookup_take_lt by (rewrite ?length_take; lia).
    + rewrite (proj2 (Nat.leb_le n i)), (proj2 (Nat.ltb_lt i (n + length d))), (proj2 (Nat.ltb_lt i (length l))) by lia. cbn [andb].
      rewrite lookup_app_r by (rewrite length_take; lia). rewrite length_take. f_equal. lia.
  - rewrite !lookup_ge_None_2; [done|..]; rewrite ?length_app, ?length_take, ?length_inserts; lia.
Qed.

Lemma inserts_front (x y z : bytes) : length x = length y -> list_inserts 0 x (y ++ z) = x ++ z.
Proof.
  intros H. apply list_eq. intros i. rewrite inserts_lookup. cbn [Nat.leb Nat.add andb]. destruct (Nat.ltb_spec i (length x)); cbn [andb].
  - rewrite (proj2 (Nat.ltb_lt _ _)) by (rewrite length_app; lia). by rewrite lookup_app_l, Nat.sub_0_r by lia.
  - rewrite !lookup_app_r by lia. by rewrite H.
Qed.

Lemma update_loop_ok fuel : forall p m ctx,
  (length p < fuel)%nat -> contains m ctx -> Forall u8 p -> exists ctx', update_loop fuel ctx p = Ret ctx' /\ contains (m ++ p) ctx'.
Proof.
  induction fuel as [|fuel IH]; intros p m ctx Hf [Hm Hbl Hbk Hd Hlb Hb] Hp; [lia|]. cbn [update_loop]. rewrite Hbl in *.
  destruct (div_mod_64 (length m)) as [Em Hlt]. set (q := (length m / 64)%nat) in *. set (r := (length m mod 64)%nat) in *.
  set (n := Nat.min (length p) (BLOCK_BYTES - r)). unfold BLOCK_BYTES in n.
  assert (length (take n p) = n) as Hn by (rewrite length_take; lia).
  pose proof (take_inserts_end (buf ctx) (take n p) r ltac:(rewrite Hn, Hlb; lia)) as Hbuf. rewrite Hn, Hb in Hbuf.
  destruct (Nat.eqb_spec (r + n) 64) as [E|E]; cbn [negb].
  - set (b := list_inserts r (take n p) (buf ctx)) in *.
    assert (b = drop (64 * q) m ++ take n p) as Eb.
    { rewrite <- Hbuf, E. symmetry. apply take_ge. unfold b. rewrite length_inserts. lia. }
    assert (length (m ++ take n p) = 64 * S q + 0)%nat as Hl by (rewrite length_app, Hn; lia).
    destruct (div_mod_unique _ _ _ Hl ltac:(lia)) as [Eq Er].
    assert (drop (64 * q) (m ++ take n p) = b) as Edrop by (rewrite Eb, drop_app_le by lia; done).
    assert (length b = 64%nat) as Hlb' by (unfold b; by rewrite length_inserts).
    assert (Forall u8 b) as Hub by (rewrite Eb; apply Forall_app; split; [by apply Forall_drop|by apply Forall_take]).
    destruct (IH (drop n p) (m ++ take n p) (mk_context 0 (wrap 64 (blocks ctx + 1)) (transform (digest ctx) (make_block b)) b)) as (ctx' & E' & H').
    + rewrite length_drop. lia.
    + split; cbn [buflen blocks digest buf]; rewrite ?Eq, ?Er; try done.
      * apply Forall_app. split; [done|by apply Forall_take].
      * rewrite Hbk. unfold wrap. rewrite Zplus_mod_idemp_l. f_equal. lia.
      * rewrite make_block_words by done. rewrite hash_blocks_S, Edrop, (take_ge b) by lia. rewrite hash_blocks_app by lia.
        rewrite Hd. apply transform_ok; [apply hash_blocks_hash..|done]; by split; [|repeat (apply List.Forall_cons; [done|])].
      * rewrite drop_ge by lia. done.
    + by apply Forall_drop.
    + exists ctx'. split; [done|]. by rewrite <- app_assoc, take_drop in H'.
  - assert (length p <= 64 - r)%nat as Hle by lia. assert (n = length p) as -> by lia. rewrite firstn_all in *. eexists. split; [done|].
    assert (length (m ++ p) = 64 * q + (r + length p))%nat as Hl by (rewrite length_app; lia).
    destruct (div_mod_unique _ _ _ Hl ltac:(lia)) as [Eq Er].
    split; cbn [buflen blocks digest buf]; rewrite ?Eq, ?Er; try done.
    + by apply Forall_app.
    + by rewrite hash_blocks_app by lia.
    + by rewrite length_inserts.
    + rewrite Hbuf. by rewrite drop_app_le by lia.
Qed.

Lemma update_ok m ctx p : contains m ctx -> Forall u8 p -> exists ctx', update ctx p = Ret ctx' /\ contains (m ++ p) ctx'.
Proof. intros H Hp. by apply update_loop_ok; [lia|..]. Qed.

(** ** The end of a message *)

Lemma words_app p q k : length p = (4 * k)%nat -> words (p ++ q) = words p ++ words q.
Proof.
  revert p. induction k as [|k IH]; intros p Hl; [by destruct p|].
  destruct p as [|b0 [|b1 [|b2 [|b3 p]]]]; cbn [length] in Hl; try lia. cbn [app words]. by rewrite IH by lia.
Qed.

Lemma words_zeros k : words (repeat 0 (4 * k)) = repeat 0 k.
Proof. induction k as [|k IH]; [done|]. replace (4 * S k)%nat with (S (S (S (S (4 * k))))) by lia. cbn [repeat words]. by rewrite IH. Qed.

Lemma length_words k p : length p = (4 * k)%nat -> length (words p) = k.
Proof.
  revert p. induction k as [|k IH]; intros p Hl; [by destruct p|].
  destruct p as [|b0 [|b1 [|b2 [|b3 p]]]]; cbn [length] in Hl; try lia. cbn [words length]. by rewrite IH by lia.
Qed.

(** The length as two words. *)
Lemma words_length n : u64 n -> words (big_bytes 8 n) = [wrap 32 (Z.shiftr n 32); Z.land n 0xffffffff].
Proof.
  intros Hn.
  assert (big_bytes 8 n = big_bytes 4 (Z.shiftr n 32) ++ big_bytes 4 n) as ->.
  { unfold big_bytes. cbn [seq map app Nat.sub]. rewrite !Z.shiftr_shiftr by lia. done. }
  rewrite (words_app _ _ 1) by apply length_big_bytes.
  assert (forall x, words (big_bytes 4 x) = [big_value (big_bytes 4 x)]) as H by (intros x; unfold big_bytes; by cbn [seq map Nat.sub words]).
  rewrite !H, !big_value_bytes. cbn [app]. change 0xffffffff with (2 ^ 32 - 1). by rewrite land_low.
Qed.

Lemma word_bytes_big w : word_bytes w = big_bytes 4 w.
Proof. unfold word_bytes, big_bytes. cbn [seq map Nat.sub]. by rewrite Z.shiftr_0_r. Qed.

(** The last words of a block are replaced. *)
Lemma replace_last x y n :
  length x = 56%nat -> length y = 8%nat -> u64 n ->
  <[14%nat:=wrap 32 (Z.shiftr n 32)]> (<[15%nat:=Z.land n 0xffffffff]> (words (x ++ y))) = words (x ++ big_bytes 8 n).
Proof.
  intros Hx Hy Hn. rewrite !(words_app x _ 14) by done. rewrite words_length by done.
  pose proof (length_words 14 x Hx) as Hl. pose proof (length_words 2 y Hy) as Hl2.
  destruct (words y) as [|y0 [|y1 [|]]]; cbn [length] in Hl2; try lia.
  rewrite (insert_app_r_alt _ _ 15), (insert_app_r_alt _ _ 14) by lia. rewrite Hl. done.
Qed.

Lemma zeros_u8 n : Forall u8 (repeat 0 n).
Proof. induction n; cbn [repeat]; [apply List.Forall_nil|by apply List.Forall_cons]. Qed.

Lemma compress_words h x : is_hash h -> length x = 64%nat -> transform h (words x) = compress h x.
Proof. intros [Hl Hh] Hx. by apply transform_ok. Qed.

Lemma finish_ok m ctx : contains m ctx -> Z.of_nat (length m) < 2 ^ 61 -> finish ctx = Ret (sha1 m).
Proof.
  intros [Hm Hbl Hbk Hd Hlb Hb] Hlen. unfold finish. rewrite Hbl in *. destruct (div_mod_64 (length m)) as [Em Hlt].
  set (q := (length m / 64)%nat) in *. set (r := (length m mod 64)%nat) in *.
  assert (wrap 64 (wrap 64 (wrap 64 (blocks ctx * 64) + Z.of_nat r) * 8) = 8 * Z.of_nat (length m)) as ->.
  { rewrite Hbk. rewrite (wrap_small 64 (Z.of_nat q)) by (unfold in_width; lia). rewrite (wrap_small 64 (Z.of_nat q * 64)) by (unfold in_width; lia).
    rewrite (wrap_small 64 (_ + _)) by (unfold in_width; lia). rewrite wrap_small by (unfold in_width; lia). lia. }
  unfold BLOCK_BYTES, BLOCK_INTS. rewrite (proj2 (Nat.leb_gt 64 r)) by lia.
  set (rest := drop (64 * q) m). assert (length rest = r) as Hrest by (unfold rest; rewrite length_drop; lia).
  assert (list_inserts (S r) (repeat 0 (64 - S r)) (<[r:=128]> (buf ctx)) = rest ++ 128 :: repeat 0 (63 - r)) as ->.
  { pose proof (take_inserts_end (buf ctx) [128] r ltac:(cbn; lia)) as H. cbn [length list_inserts] in H. rewrite Hb in H.
    pose proof (take_inserts_end (<[r:=128]> (buf ctx)) (repeat 0 (64 - S r)) (r + 1)) as H2. rewrite length_insert, repeat_length in H2. specialize (H2 ltac:(lia)).
    rewrite H in H2. replace (r + 1 + (64 - S r))%nat with 64%nat in H2 by lia. replace (64 - S r)%nat with (63 - r)%nat in * by lia. replace (S r) with (r + 1)%nat by lia.
    rewrite take_ge in H2 by (rewrite length_inserts, length_insert; lia). rewrite <- app_assoc in H2. exact H2. }
  assert (make_block (rest ++ 128 :: repeat 0 (63 - r)) = words (rest ++ 128 :: repeat 0 (63 - r))) as ->.
  { apply make_block_words; [rewrite length_app; cbn [length]; rewrite repeat_length; lia|]. apply Forall_app. split; [by apply Forall_drop|].
    apply List.Forall_cons; [done|apply zeros_u8]. }
  assert (u64 (8 * Z.of_nat (length m))) as Hbits by (unfold in_width; lia).
  unfold sha1. set (pad := padding (length m)). rewrite Hd.
  assert (is_hash (hash_blocks q initial_hash m)) as Hh by (by apply hash_blocks_hash; split; [|repeat (apply List.Forall_cons; [done|])]).
  assert ((55 - Z.of_nat (length m)) mod 64 = if (r <? 56)%nat then 55 - Z.of_nat r else 119 - Z.of_nat r) as Epad.
  { symmetry. destruct (Nat.ltb_spec r 56); [apply (Z.mod_unique_pos _ _ (- Z.of_nat q))|apply (Z.mod_unique_pos _ _ (- Z.of_nat q - 1))]; lia. }
  unfold pad, padding. rewrite Epad. destruct (Nat.ltb_spec r 56) as [Hr|Hr].
  - rewrite (proj2 (Nat.ltb_ge _ _)) by lia.
    assert (rest ++ 128 :: repeat 0 (63 - r) = (rest ++ 128 :: repeat 0 (55 - r)) ++ repeat 0 8) as ->.
    { rewrite <- app_assoc. cbn [app]. rewrite <- repeat_app. do 3 f_equal. lia. }
    rewrite replace_last by (done || (rewrite length_app; cbn [length]; rewrite ?repeat_length; lia)).
    set (x := (rest ++ 128 :: repeat 0 (55 - r)) ++ big_bytes 8 (8 * Z.of_nat (length m))).
    assert (length x = 64%nat) as Hx by (unfold x; rewrite !length_app, length_big_bytes; cbn [length]; rewrite repeat_length; lia).
    rewrite compress_words by done. replace (Z.to_nat (55 - Z.of_nat r)) with (55 - r)%nat by lia.
    assert (128 :: repeat 0 (55 - r) ++ big_bytes 8 (8 * Z.of_nat (length m)) = drop r x) as ->.
    { unfold x. rewrite <- app_assoc. by rewrite drop_app_length' by done. }
    assert (drop (64 * q) (m ++ drop r x) = x) as Ex.
    { rewrite drop_app_le by lia. fold rest. rewrite <- Hrest. assert (rest = take (length rest) x) as E by (unfold x; rewrite <- app_assoc; by rewrite take_app_length).
      rewrite E at 1. apply take_drop. }
    assert (length (m ++ drop r x) = 64 * S q + 0)%nat as Hl by (rewrite length_app, length_drop; lia).
    destruct (div_mod_unique _ _ _ Hl ltac:(lia)) as [-> _]. rewrite hash_blocks_S, Ex, hash_blocks_app, take_ge by lia.
    by rewrite (map_ext _ _ word_bytes_big).
  - rewrite (proj2 (Nat.ltb_lt _ _)) by lia. set (x := rest ++ 128 :: repeat 0 (63 - r)).
    assert (length x = 64%nat) as Hx by (unfold x; rewrite length_app; cbn [length]; rewrite repeat_length; lia).
    rewrite compress_words by done.
    assert (list_inserts 0 (repeat 0 (16 - 2)) (words x) = words (repeat 0 56 ++ drop 56 x)) as ->.
    { rewrite <- (take_drop 56 x) at 1. rewrite !(words_app _ _ 14) by (rewrite ?repeat_length, ?length_take; lia).
      change (words (repeat 0 56)) with (repeat 0 14). apply inserts_front. by rewrite (length_words 14) by (rewrite length_take; lia). }
    rewrite replace_last by (done || (rewrite length_drop; lia)).
    set (y := repeat 0 56 ++ big_bytes 8 (8 * Z.of_nat (length m))). assert (length y = 64%nat) as Hy by done.
    rewrite compress_words by (done || apply compress_hash).
    replace (Z.to_nat (119 - Z.of_nat r)) with ((63 - r) + 56)%nat by lia. rewrite repeat_app, <- app_assoc. fold y.
    assert (128 :: repeat 0 (63 - r) ++ y = drop r (x ++ y)) as ->.
    { unfold x. rewrite <- app_assoc. by rewrite drop_app_length' by done. }
    assert (drop (64 * q) (m ++ drop r (x ++ y)) = x ++ y) as Ex.
    { rewrite drop_app_le by lia. fold rest. rewrite <- Hrest. assert (rest = take (length rest) (x ++ y)) as E by (unfold x; rewrite <- app_assoc; by rewrite take_app_length).
      rewrite E at 1. apply take_drop. }
    assert (length (m ++ drop r (x ++ y)) = 64 * S (S q) + 0)%nat as Hl by (rewrite !length_app, length_drop, length_app; lia).
    destruct (div_mod_unique _ _ _ Hl ltac:(lia)) as [-> _].
    rewrite hash_blocks_S. replace (64 * S q)%nat with (64 * q + 64)%nat by lia. rewrite <- drop_drop, Ex, (drop_app_length' x y 64) by done. rewrite (take_ge y) by lia.
    rewrite hash_blocks_S, Ex, take_app_length' by done. rewrite hash_blocks_app by lia.
    by rewrite (map_ext _ _ word_bytes_big).
Qed.

Lemma updates_ok pieces : forall m ctx, contains m ctx -> Forall (Forall u8) pieces ->
  exists ctx', fold_left (fun c p => let* ctx := c in update ctx p) pieces (Ret ctx) = Ret ctx' /\ contains (m ++ concat pieces) ctx'.
Proof.
  induction pieces as [|p pieces IH]; intros m ctx H Hp; [exists ctx; by rewrite app_nil_r|]. apply Forall_cons in Hp as [Hp Hps].
  cbn [fold_left obind concat]. destruct (update_ok m ctx p H Hp) as (ctx1 & -> & H1). rewrite app_assoc. by apply IH.
Qed.

(** C21: for a message of less than [2^61] bytes in any pieces, the digest is the one of
    FIPS 180-4, and no access is outside the buffer. *)
Theorem sha1_fips180 (buf : bytes) (pieces : list bytes) :
  length buf = 64%nat -> Forall (Forall u8) pieces -> Z.of_nat (length (concat pieces)) < 2 ^ 61 ->
  (let* ctx := fold_left (fun c p => let* ctx := c in update ctx p) pieces (Ret (init buf)) in finish ctx) = Ret (sha1 (concat pieces)).
Proof.
  intros Hb Hp Hl. destruct (updates_ok pieces [] (init buf) (contains_new buf Hb) Hp) as (ctx & -> & H). by apply finish_ok.
Qed.

Lemma sha1_fips180_witness :
  (let* ctx := fold_left (fun c p => let* ctx := c in update ctx p) [str "ab"; str "c"] (Ret (init (repeat 0 64))) in finish ctx) =
    Ret [0xa9; 0x99; 0x3e; 0x36; 0x47; 0x06; 0x81; 0x6a; 0xba; 0x3e; 0x25; 0x71; 0x78; 0x50; 0xc2; 0x6c; 0x9c; 0xd0; 0xd8; 0x9d].
Proof.
  rewrite (sha1_fips180 (repeat 0 64) [str "ab"; str "c"]).
  - vm_compute. reflexivity.
  - reflexivity.
  - apply List.Forall_cons; [bytes_ok|]. apply List.Forall_cons; [bytes_ok|apply List.Forall_nil].
  - reflexivity.
Defined.
