(* ===== verification/Hybi13.v ===== *)
(** * The accept key of the handshake

    src/externals/boost/boost/beast/core/detail/base64.hpp and
    websocket/detail/hybi13.hpp: base64 without the iterators of Base64.v, and the value
    of the field Sec-WebSocket-Accept. *)

From Stdlib Require Import ZArith Lia String Ascii.
From stdpp Require Import base list.
From S2P Require Import Prelude Exceptions Base64 WsFrame WsStream Sha1.

Module base64.

Definition alphabet : bytes := str "ABCDEFGHIJKLMNOPQRSTUVWXYZabcdefghijklmnopqrstuvwxyz0123456789+/".
Definition tab (i : Z) : Z := nth (Z.to_nat i) alphabet 0.

(** [get_inverse()]; -1 is none. *)
Definition inverse (c : Z) : option Z :=
  if (65 <=? c) && (c <=? 90) then Some (c - 65)
  else if (97 <=? c) && (c <=? 122) then Some (c - 71)
  else if (48 <=? c) && (c <=? 57) then Some (c + 4)
  else if c =? 43 then Some 62
  else if c =? 47 then Some 63
  else None.

Definition encoded_size (n : nat) : nat := 4 * ((n + 2) / 3).
Definition decoded_size (n : nat) : nat := n / 4 * 3.

(** [encode(dest, src, len)]: the characters that are written. *)
Fixpoint encode (src : bytes) : bytes :=
  match src with
  | i0 :: i1 :: i2 :: src =>
      tab (Z.shiftr (Z.land i0 0xfc) 2) ::
      tab (Z.shiftl (Z.land i0 0x03) 4 + Z.shiftr (Z.land i1 0xf0) 4) ::
      tab (Z.shiftr (Z.land i2 0xc0) 6 + Z.shiftl (Z.land i1 0x0f) 2) ::
      tab (Z.land i2 0x3f) :: encode src
  | [i0; i1] =>
      [tab (Z.shiftr (Z.land i0 0xfc) 2);
       tab (Z.shiftl (Z.land i0 0x03) 4 + Z.shiftr (Z.land i1 0xf0) 4);
       tab (Z.shiftl (Z.land i1 0x0f) 2); 61]
  | [i0] => [tab (Z.shiftr (Z.land i0 0xfc) 2); tab (Z.shiftl (Z.land i0 0x03) 4); 61; 61]
  | [] => []
  end.

(** The three bytes of four sextets. *)
Definition join (c4 : list Z) : bytes :=
  [wrap 8 (Z.shiftl (nth 0 c4 0) 2 + Z.shiftr (Z.land (nth 1 c4 0) 0x30) 4);
   wrap 8 (Z.shiftl (Z.land (nth 1 c4 0) 0xf) 4 + Z.shiftr (Z.land (nth 2 c4 0) 0x3c) 2);
   wrap 8 (Z.shiftl (Z.land (nth 2 c4 0) 0x3) 6 + nth 3 c4 0)].

(** The loop of [decode], and what follows it, with the sextets in [c4] before [i]: the
    bytes, and the characters that are left. *)
Fixpoint decode_from (c4 : list Z) (src : bytes) : bytes * bytes :=
  let finish := (take (length c4 - 1) (join c4), src) in
  match src with
  | [] => finish
  | c :: rest =>
      if c =? 61 then finish
      else
        match inverse c with
        | None => finish
        | Some v =>
            if (length c4 =? 3)%nat then
              let (out, left) := decode_from [] rest in (join (c4 ++ [v]) ++ out, left)
            else decode_from (c4 ++ [v]) rest
        end
  end.

(** [decode(dest, src, len)]: the bytes, and the number of characters that were read. *)
Definition decode (src : bytes) : bytes * nat :=
  let (out, left) := decode_from [] src in (out, (length src - length left)%nat).

(** The table is what [inverse] says. *)
Definition inverse_table : list Z :=
  repeat (-1) 43 ++ [62; -1; -1; -1; 63; 52; 53; 54; 55; 56; 57; 58; 59; 60; 61] ++ repeat (-1) 7 ++
  map Z.of_nat (seq 0 26) ++ repeat (-1) 6 ++ map Z.of_nat (seq 26 26) ++ repeat (-1) 133.

(** [base64_encode(data, len)] and [base64_decode(data)]: a result that does not fit in
    what [dest] was resized to is a write outside of it. *)
Definition fits (size : nat) (out : bytes) : cpp bytes := if (length out <=? size)%nat then Ret out else Undef.
Definition base64_encode (s : bytes) : cpp bytes := fits (encoded_size (length s)) (encode s).
Definition base64_decode (data : bytes) : cpp bytes := fits (decoded_size (length data)) (fst (decode data)).

End base64.

(** ** The keys *)

Module hybi13.

Import base64.

(** The capacity of [sec_ws_key_type] and of [sec_ws_accept_type]. *)
Definition key_max_size : nat := encoded_size 16.
Definition accept_max_size : nat := encoded_size 20.

(** [make_sec_ws_key]; [secure] are the four values that [p->secure()] returns. *)
Definition make_sec_ws_key (secure : list Z) : cpp bytes :=
  let a := concat (map (fun v => [Z.land v 0xff; Z.land (Z.shiftr v 8) 0xff; Z.land (Z.shiftr v 16) 0xff; Z.land (Z.shiftr v 24) 0xff]) secure) in
  fits key_max_size (encode a).

Definition guid : bytes := str "258EAFA5-E914-47DA-95CA-C5AB0DC85B11".

(** [make_sec_ws_accept]; [buf] is what the buffer of the [sha1_context] holds. *)
Definition make_sec_ws_accept (buf : bytes) (key : bytes) : cpp bytes :=
  let* _ := assert_ (length key <=? key_max_size)%nat in
  let m := key ++ guid in
  let ctx := sha1.init buf in
  let* ctx := sha1.update ctx m in
  let* digest := sha1.finish ctx in
  fits accept_max_size (encode digest).

(** The example of RFC 6455, section 1.3. *)
Example make_sec_ws_accept_rfc :
  make_sec_ws_accept (repeat 0 64) (str "dGhlIHNhbXBsZSBub25jZQ==") = Ret (str "s3pPLMBiTxaQ9kYGzzhZRbK+xOo=").
Proof. vm_compute. reflexivity. Qed.

End hybi13.

Import base64 hybi13.

(** ** base64 is the one of RFC 4648 *)

Lemma inverse_is_table c : u8 c -> nth (Z.to_nat c) inverse_table 0 = default (-1) (inverse c).
Proof. intros Hc. bits1 256%nat c. Qed.

Lemma tab_char i : 0 <= i < 64 -> tab i = base64_char i.
Proof. intros Hi. bits1 64%nat i. Qed.

Lemma encode_rfc4648 src : Forall u8 src -> encode src = rfc4648_encode src.
Proof.
  unfold in_width. change (2 ^ 8) with 256.
  induction src as [|a|a b|a b c l IH] using list_ind3; intros Hv;
    repeat match goal with H : Forall _ (_ :: _) |- _ => apply Forall_cons in H as [? ?] end.
  - done.
  - cbn [encode rfc4648_encode]. repeat f_equal; bits1 256%nat a.
  - cbn [encode rfc4648_encode]. f_equal; [bits1 256%nat a|]. f_equal; [bits2 256%nat 256%nat a b|]. f_equal. bits1 256%nat b.
  - cbn [encode rfc4648_encode]. f_equal; [bits1 256%nat a|]. f_equal; [bits2 256%nat 256%nat a b|].
    f_equal; [bits2 256%nat 256%nat b c|]. f_equal; [bits1 256%nat c|]. by apply IH.
Qed.

Lemma length_encode src : length (encode src) = encoded_size (length src).
Proof.
  unfold encoded_size. induction src as [|a|a b|a b c l IH] using list_ind3; try done.
  cbn [encode length]. rewrite IH. replace (S (S (S (length l))) + 2)%nat with (length l + 2 + 1 * 3)%nat by lia.
  rewrite Nat.div_add by lia. lia.
Qed.

Lemma base64_encode_ok s : Forall u8 s -> base64_encode s = Ret (rfc4648_encode s).
Proof. intros Hs. unfold base64_encode, fits. by rewrite length_encode, Nat.leb_refl, encode_rfc4648. Qed.


(** ** The decoder *)

Lemma inverse_tab i : 0 <= i < 64 -> default (-1) (inverse (tab i)) = i.
Proof. intros Hi. bits1 64%nat i. Qed.

Lemma tab_not_pad i : 0 <= i < 64 -> (if tab i =? 61 then 1 else 0) = 0.
Proof. intros Hi. bits1 64%nat i. Qed.

(** A character of the alphabet gives its sextet. *)
Lemma decode_step i c4 rest :
  0 <= i < 64 ->
  decode_from c4 (tab i :: rest) =
  if (length c4 =? 3)%nat then let (out, left) := decode_from [] rest in (join (c4 ++ [i]) ++ out, left)
  else decode_from (c4 ++ [i]) rest.
Proof.
  intros Hi. cbn [decode_from]. pose proof (tab_not_pad i Hi). destruct (tab i =? 61); [done|].
  pose proof (inverse_tab i Hi) as E. destruct (inverse (tab i)) as [v|]; cbn in E; [by subst|lia].
Qed.

Lemma sextet_1 a : 0 <= a < 256 -> Z.shiftr (Z.land a 0xfc) 2 = a / 4.
Proof. intros Ha. bits1 256%nat a. Qed.
Lemma sextet_2 a b : 0 <= a < 256 -> 0 <= b < 256 -> Z.shiftl (Z.land a 0x03) 4 + Z.shiftr (Z.land b 0xf0) 4 = a mod 4 * 16 + b / 16.
Proof. intros Ha Hb. bits2 256%nat 256%nat a b. Qed.
Lemma sextet_3 b c : 0 <= b < 256 -> 0 <= c < 256 -> Z.shiftr (Z.land c 0xc0) 6 + Z.shiftl (Z.land b 0x0f) 2 = b mod 16 * 4 + c / 64.
Proof. intros Hb Hc. bits2 256%nat 256%nat b c. Qed.
Lemma sextet_4 c : 0 <= c < 256 -> Z.land c 0x3f = c mod 64.
Proof. intros Hc. bits1 256%nat c. Qed.

(** The bytes of sextets. *)
Lemma join_sextets x y z w :
  0 <= x < 64 -> 0 <= y < 64 -> 0 <= z < 64 -> 0 <= w < 64 ->
  join [x; y; z; w] = [x * 4 + y / 16; y mod 16 * 16 + z / 4; z mod 4 * 64 + w].
Proof.
  intros Hx Hy Hz Hw. unfold join. cbn [nth].
  f_equal; [bits2 64%nat 64%nat x y|]. f_equal; [bits2 64%nat 64%nat y z|]. f_equal. bits2 64%nat 64%nat z w.
Qed.

Ltac sextets := Z.to_euclidean_division_equations; lia.

Lemma decode_encode src : Forall u8 src -> (decode_from [] (encode src)).1 = src.
Proof.
  unfold in_width. change (2 ^ 8) with 256.
  induction src as [|a|a b|a b c l IH] using list_ind3; intros Hv;
    repeat match goal with H : Forall _ (_ :: _) |- _ => apply Forall_cons in H as [? ?] end.
  - done.
  - cbn [encode]. rewrite sextet_1 by done.
    replace (Z.shiftl (Z.land a 3) 4) with (a mod 4 * 16) by (symmetry; bits1 256%nat a).
    rewrite !decode_step by sextets. cbn [length Nat.eqb app decode_from Nat.sub fst Z.eqb Pos.eqb].
    change (take 1 (join [a / 4; a mod 4 * 16])) with (take 1 (join [a / 4; a mod 4 * 16; 0; 0])).
    rewrite join_sextets by sextets. cbn [firstn]. f_equal. sextets.
  - cbn [encode]. rewrite sextet_1, sextet_2 by done.
    replace (Z.shiftl (Z.land b 15) 2) with (b mod 16 * 4) by (symmetry; bits1 256%nat b).
    rewrite !decode_step by sextets. cbn [length Nat.eqb app decode_from Nat.sub fst Z.eqb Pos.eqb].
    change (take 2 (join [a / 4; a mod 4 * 16 + b / 16; b mod 16 * 4])) with (take 2 (join [a / 4; a mod 4 * 16 + b / 16; b mod 16 * 4; 0])).
    rewrite join_sextets by sextets. cbn [firstn]. f_equal; [|f_equal]; sextets.
  - cbn [encode]. rewrite sextet_1, sextet_2, sextet_3, sextet_4 by done.
    rewrite !decode_step by sextets. cbn [length Nat.eqb app].
    destruct (decode_from [] (encode l)) as [out left] eqn:E. cbn [fst] in *. rewrite IH by done.
    rewrite join_sextets by sextets. cbn [app]. f_equal; [|f_equal; [|f_equal]]; sextets.
Qed.

Lemma base64_decode_encode s : Forall u8 s -> base64_decode (encode s) = Ret s.
Proof.
  intros Hs. unfold base64_decode, decode, fits. pose proof (decode_encode s Hs) as E.
  destruct (decode_from [] (encode s)) as [out left]. cbn [fst] in *. subst out.
  rewrite length_encode. unfold decoded_size, encoded_size.
  rewrite (Nat.mul_comm 4), Nat.div_mul by lia.
  pose proof (Nat.div_mod_eq (length s + 2) 3). pose proof (Nat.mod_upper_bound (length s + 2) 3).
  by rewrite (proj2 (Nat.leb_le _ _)) by lia.
Qed.

(** ** The accept key is the one of RFC 6455 *)

(** RFC 6455, section 4.2.2: the base64 of the SHA-1 of the key with the GUID. *)
Definition rfc6455_accept (key : bytes) : bytes := rfc4648_encode (FIPS.sha1 (key ++ guid)).

Lemma big_bytes_digest_u8 n v : Forall u8 (big_bytes n v).
Proof. apply Forall_map, Forall_forall. intros i _. cbn. change 0xff with (2 ^ 8 - 1). rewrite land_low by lia. by apply wrap_range. Qed.

Lemma digest_bytes h : Forall u8 (concat (map (big_bytes 4) h)) /\ length (concat (map (big_bytes 4) h)) = (4 * length h)%nat.
Proof.
  induction h as [|w h [IH IHl]]; [by split|]. cbn [map concat]. rewrite length_app, length_big_bytes, IHl. cbn [length]. split; [|lia].
  apply Forall_app. split; [apply big_bytes_digest_u8|done].
Qed.

Lemma sha1_bytes m : Forall u8 (FIPS.sha1 m) /\ length (FIPS.sha1 m) = 20%nat.
Proof.
  unfold FIPS.sha1. destruct (digest_bytes (FIPS.hash_blocks (length (m ++ FIPS.padding (length m)) / 64) FIPS.initial_hash (m ++ FIPS.padding (length m)))) as [H Hl].
  split; [done|]. rewrite Hl. destruct (hash_blocks_hash (length (m ++ FIPS.padding (length m)) / 64) FIPS.initial_hash (m ++ FIPS.padding (length m))) as [-> _]; [|done].
  by split; [|repeat (apply List.Forall_cons; [done|])].
Qed.

Lemma make_sec_ws_accept_ok buf key :
  length buf = 64%nat -> Forall u8 key -> (length key <= key_max_size)%nat -> make_sec_ws_accept buf key = Ret (rfc6455_accept key).
Proof.
  intros Hb Hk Hl. unfold make_sec_ws_accept, assert_. rewrite (proj2 (Nat.leb_le _ _)) by done. cbn [obind].
  assert (Forall u8 (key ++ guid)) as Hm by (apply Forall_app; split; [done|bytes_ok]).
  destruct (update_ok [] (sha1.init buf) (key ++ guid) (contains_new buf Hb) Hm) as (ctx & -> & Hc). cbn [obind].
  rewrite (finish_ok (key ++ guid) ctx Hc).
  - cbn [obind]. destruct (sha1_bytes (key ++ guid)) as [Hd Hdl]. unfold fits. rewrite length_encode, Hdl.
    by rewrite encode_rfc4648.
  - rewrite length_app. change (length guid) with 36%nat. change key_max_size with 24%nat in Hl. lia.
Qed.

(** C16: the field Sec-WebSocket-Accept is, for every key of at most 24 bytes, the one that
    RFC 6455 asks for, of 28 characters, whatever the buffers held before; the digest is
    within its arrays, and base64 gives the digest back. A longer key fails the assertion. *)
Theorem make_sec_ws_accept_rfc6455 (buf key : bytes) :
  length buf = 64%nat -> Forall u8 key ->
  (if (length key <=? key_max_size)%nat
   then make_sec_ws_accept buf key = Ret (rfc6455_accept key) /\
     length (rfc6455_accept key) = accept_max_size /\ base64_decode (rfc6455_accept key) = Ret (FIPS.sha1 (key ++ guid))
   else make_sec_ws_accept buf key = Undef).
Proof.
  intros Hb Hk. destruct (Nat.leb_spec (length key) key_max_size) as [Hl|Hl].
  - destruct (sha1_bytes (key ++ guid)) as [Hd Hdl]. split; [by apply make_sec_ws_accept_ok|]. unfold rfc6455_accept.
    rewrite <- encode_rfc4648 by done. by rewrite length_encode, Hdl, base64_decode_encode.
  - unfold make_sec_ws_accept, assert_. by rewrite (proj2 (Nat.leb_gt _ _)) by done.
Qed.

Lemma make_sec_ws_accept_rfc6455_witness :
  make_sec_ws_accept (repeat 0 64) (str "dGhlIHNhbXBsZSBub25jZQ==") = Ret (rfc6455_accept (str "dGhlIHNhbXBsZSBub25jZQ==")) /\
  rfc6455_accept (str "dGhlIHNhbXBsZSBub25jZQ==") = str "s3pPLMBiTxaQ9kYGzzhZRbK+xOo=".
Proof.
  assert (Forall u8 (str "dGhlIHNhbXBsZSBub25jZQ==")) as H by bytes_ok.
  split; [exact (proj1 (make_sec_ws_accept_rfc6455 (repeat 0 64) _ eq_refl H))|vm_compute; reflexivity].
Defined.

Lemma base64_char_u8 t : u8 (base64_char t).
Proof.
  unfold base64_char. destruct (_ !! Z.to_nat t) as [c|] eqn:E; [|done]. cbn. revert E. apply Forall_lookup_1. bytes_ok.
Qed.

Lemma rfc4648_u8 v : Forall u8 (rfc4648_encode v).
Proof.
  induction v as [|a|a b|a b c l IH] using list_ind3; cbn [rfc4648_encode];
    repeat (apply List.Forall_cons; [first [apply base64_char_u8 | done]|]); [apply List.Forall_nil..|exact IH].
Qed.

(** The key of a client: 16 random bytes in base64. *)
Lemma make_sec_ws_key_ok secure :
  length secure = 4%nat ->
  exists key, make_sec_ws_key secure = Ret key /\ Forall u8 key /\ length key = key_max_size /\
    base64_decode key = Ret (concat (map (fun v => [Z.land v 0xff; Z.land (Z.shiftr v 8) 0xff; Z.land (Z.shiftr v 16) 0xff; Z.land (Z.shiftr v 24) 0xff]) secure)).
Proof.
  intros Hl. destruct secure as [|v0 [|v1 [|v2 [|v3 [|]]]]]; try discriminate Hl. unfold make_sec_ws_key.
  set (a := concat _). assert (Forall u8 a) as Ha.
  { unfold a. cbn [map concat app]. repeat (apply List.Forall_cons; [change 0xff with (2 ^ 8 - 1); rewrite land_low by lia; by apply wrap_range|]). apply List.Forall_nil. }
  exists (encode a). unfold fits. rewrite length_encode. split; [done|]. split; [|split; [done|by apply base64_decode_encode]].
  rewrite encode_rfc4648 by done. by apply rfc4648_u8.
Qed.
