(* ===== verification/HttpString.v ===== *)
(** * Strings of HTTP

    src/externals/boost/boost/beast/core/string.hpp and http/detail/rfc7230.hpp with the
    iterators of http/impl/rfc7230.ipp and http/detail/basic_parsed_list.hpp: comparison
    without case, the characters of tokens, white space, and lists of tokens. A pointer into
    a text is the text from there on. *)

From Stdlib Require Import ZArith Lia String Ascii.
From stdpp Require Import base list.
From S2P Require Import Prelude.

(** ** The code *)

Definition ascii_tolower (c : Z) : Z := if (65 <=? c) && (c <? 65 + 26) then c + 97 - 65 else c.

(** [detail::iequals]: the two loops. The slow one reads a character after the last one of
    both texts, which decides nothing. *)
Fixpoint iequals_slow (n : nat) (a b : Z) (p1 p2 : bytes) : bool :=
  if negb (ascii_tolower a =? ascii_tolower b) then false
  else match n with
       | O => true
       | S n => iequals_slow n (hd 0 p1) (hd 0 p2) (tl p1) (tl p2)
       end.

Fixpoint iequals_loop (n : nat) (p1 p2 : bytes) : bool :=
  match n with
  | O => true
  | S n =>
      let a := hd 0 p1 in
      let b := hd 0 p2 in
      if negb (a =? b) then iequals_slow n a b (tl p1) (tl p2) else iequals_loop n (tl p1) (tl p2)
  end.

Definition iequals (lhs rhs : bytes) : bool :=
  let n := length lhs in
  if negb (length rhs =? n)%nat then false else iequals_loop n lhs rhs.

(** [iless]: the characters are signed. *)
Definition signed_char (c : Z) : Z := if c <? 128 then c else c - 256.
Fixpoint iless (lhs rhs : bytes) : bool :=
  match lhs, rhs with
  | _, [] => false
  | [], _ :: _ => true
  | c1 :: lhs, c2 :: rhs =>
      if signed_char (ascii_tolower c1) <? signed_char (ascii_tolower c2) then true
      else if signed_char (ascii_tolower c2) <? signed_char (ascii_tolower c1) then false
      else iless lhs rhs
  end.

Module rfc7230.

(** The table of [is_token_char], after which all is 0. *)
Definition token_table : list Z := [
  0; 0; 0; 0;  0; 0; 0; 0;  0; 0; 0; 0;  0; 0; 0; 0;
  0; 0; 0; 0;  0; 0; 0; 0;  0; 0; 0; 0;  0; 0; 0; 0;
  0; 1; 0; 1;  1; 1; 1; 1;  0; 0; 1; 1;  0; 1; 1; 0;
  1; 1; 1; 1;  1; 1; 1; 1;  1; 1; 0; 0;  0; 0; 0; 0;
  0; 1; 1; 1;  1; 1; 1; 1;  1; 1; 1; 1;  1; 1; 1; 1;
  1; 1; 1; 1;  1; 1; 1; 1;  1; 1; 1; 0;  0; 0; 1; 1;
  1; 1; 1; 1;  1; 1; 1; 1;  1; 1; 1; 1;  1; 1; 1; 1;
  1; 1; 1; 1;  1; 1; 1; 1;  1; 1; 1; 0;  1; 0; 1; 0 ].
Definition is_token_char (c : Z) : bool := negb (nth (Z.to_nat c) token_table 0 =? 0).

Definition is_ows (c : Z) : bool := (c =? 32) || (c =? 9).

Fixpoint skip_ows (it : bytes) : bytes :=
  match it with
  | c :: it' => if negb (is_ows c) then it else skip_ows it'
  | [] => []
  end.

(** The text without the white space at its end, and [trim]. *)
Fixpoint trim_end (s : bytes) : bytes :=
  match s with
  | [] => []
  | c :: s => match trim_end s with [] => if is_ows c then [] else [c] | t => c :: t end
  end.
Definition trim (s : bytes) : bytes := trim_end (skip_ows s).

(** The token that starts at [it], and what follows it. *)
Fixpoint take_token (it : bytes) : bytes * bytes :=
  match it with
  | [] => ([], [])
  | c :: it' => if is_token_char c then let (v, rest) := take_token it' in (c :: v, rest) else ([], it)
  end.

(** [token_list::const_iterator]; [first_] and [it_] are compared by what is left of the
    text. *)
Record const_iterator := mk_iterator { v_ : bytes; it_ : bytes; first_ : bytes }.

Definition same_pointer (p q : bytes) : bool := (length p =? length q)%nat.

(** The loop of [increment], with [skip_ows] in it: the token and what follows it, or none
    for [err()]. *)
Fixpoint increment_loop (need_comma : bool) (it : bytes) : option (bytes * bytes) :=
  match it with
  | [] => None
  | c :: it' =>
      if is_ows c then increment_loop need_comma it'
      else if is_token_char c then if need_comma then None else Some (take_token it)
      else if negb (c =? 44) then None
      else increment_loop false it'
  end.

Definition increment (i : const_iterator) : const_iterator :=
  let need_comma := negb (same_pointer (it_ i) (first_ i)) in
  match increment_loop need_comma (it_ i) with
  | Some (v, rest) => mk_iterator v rest (it_ i)
  | None => mk_iterator [] [] []
  end.

Definition begin_ (s : bytes) : const_iterator := increment (mk_iterator [] s s).

(** Comparison with [end()], whose pointers are at the end of the text. *)
Definition at_end (i : const_iterator) : bool := same_pointer (it_ i) [] && same_pointer (first_ i) [].

(** [std::find_if(begin(), end(), pred)]: the iterator that is found, or the end; each step
    passes a character. *)
Fixpoint find_if (fuel : nat) (pred : bytes -> bool) (i : const_iterator) : const_iterator :=
  match fuel with
  | O => i
  | S fuel => if at_end i then i else if pred (v_ i) then i else find_if fuel pred (increment i)
  end.

(** [token_list{s}.exists(t)]. *)
Definition exists_ (s t : bytes) : bool :=
  negb (at_end (find_if (S (length s)) (fun v => iequals t v) (begin_ s))).

(** [opt_token_list_policy]: false is an error; the pointer is null at the end. *)
Definition opt_token_list_policy (at_start : bool) (it : bytes) : bool * option (bytes * bytes) :=
  let fix loop (need_comma : bool) (it : bytes) :=
    match it with
    | [] => (true, None)
    | c :: it' =>
        if is_ows c then loop need_comma it'
        else if is_token_char c then if need_comma then (false, None) else (true, Some (take_token it))
        else if negb (c =? 44) then (false, None)
        else loop false it'
    end in
  loop (negb at_start) it.

(** The elements that an iteration over [basic_parsed_list<opt_token_list_policy>] visits,
    and whether it ends without an error, which is [validate_list]. *)
Fixpoint parsed_list (fuel : nat) (at_start : bool) (it : bytes) : list bytes * bool :=
  match fuel with
  | O => ([], true)
  | S fuel =>
      match opt_token_list_policy at_start it with
      | (ok, None) => ([], ok)
      | (_, Some (v, rest)) => let (vs, ok) := parsed_list fuel false rest in (v :: vs, ok)
      end
  end.
Definition opt_token_list (s : bytes) : list bytes * bool := parsed_list (S (length s)) true s.
Definition validate_list (s : bytes) : bool := snd (opt_token_list s).

Example exists_upgrade : exists_ (str "keep-alive, Upgrade") (str "upgrade") = true.
Proof. reflexivity. Qed.
Example exists_not : exists_ (str "keep-alive Upgrade") (str "upgrade") = false.
Proof. reflexivity. Qed.

End rfc7230.
Import rfc7230.

(** ** Comparison without case *)

Definition lower (s : bytes) : bytes := map ascii_tolower s.

Lemma iequals_slow_spec n : forall a b p1 p2,
  length p1 = n -> length p2 = n -> iequals_slow n a b p1 p2 = bool_decide (lower (a :: p1) = lower (b :: p2)).
Proof.
  induction n as [|n IH]; intros a b p1 p2 H1 H2; cbn [iequals_slow lower map].
  - destruct p1, p2; try discriminate. destruct (Z.eqb_spec (ascii_tolower a) (ascii_tolower b)) as [->|N]; cbn [negb]; case_bool_decide; congruence.
  - destruct p1 as [|a' p1], p2 as [|b' p2]; try discriminate. injection H1 as H1. injection H2 as H2. cbn [hd tl]. rewrite IH by done.
    unfold lower. destruct (Z.eqb_spec (ascii_tolower a) (ascii_tolower b)) as [->|N]; cbn [negb map].
    + apply bool_decide_ext. split; congruence.
    + case_bool_decide; [congruence|done].
Qed.

Lemma iequals_loop_spec n : forall p1 p2,
  length p1 = n -> length p2 = n -> iequals_loop n p1 p2 = bool_decide (lower p1 = lower p2).
Proof.
  induction n as [|n IH]; intros p1 p2 H1 H2; cbn [iequals_loop]; [by destruct p1, p2|].
  destruct p1 as [|a p1], p2 as [|b p2]; try discriminate. injection H1 as H1. injection H2 as H2. cbn [hd tl].
  destruct (Z.eqb_spec a b) as [->|N]; cbn [negb]; [|by apply iequals_slow_spec].
  rewrite IH by done. apply bool_decide_ext. unfold lower; cbn [map]. split; congruence.
Qed.

(** [iequals] is equality of the texts in lower case. *)
Lemma iequals_spec lhs rhs : iequals lhs rhs = bool_decide (lower lhs = lower rhs).
Proof.
  unfold iequals. destruct (Nat.eqb_spec (length rhs) (length lhs)) as [E|N]; cbn [negb]; [by apply iequals_loop_spec|].
  symmetry. apply bool_decide_false. intros H. apply N. apply (f_equal length) in H. unfold lower in H. by rewrite !length_map in H.
Qed.

Lemma iequals_refl s : iequals s s = true.
Proof. rewrite iequals_spec. by apply bool_decide_true. Qed.

Lemma iequals_sym s t : iequals s t = iequals t s.
Proof. rewrite !iequals_spec. apply bool_decide_ext. split; congruence. Qed.

Lemma iequals_true s t : iequals s t = true <-> lower s = lower t.
Proof. by rewrite iequals_spec, bool_decide_eq_true. Qed.

(** [iless] is a strict order of the texts in lower case, which is total on them. *)
Lemma signed_char_inj c d : u8 c -> u8 d -> signed_char c = signed_char d -> c = d.
Proof. unfold signed_char, in_width. intros Hc Hd. destruct (Z.ltb_spec c 128), (Z.ltb_spec d 128); lia. Qed.

Lemma ascii_tolower_u8 c : u8 c -> u8 (ascii_tolower c).
Proof. unfold ascii_tolower, in_width. intros Hc. destruct (Z.leb_spec 65 c), (Z.ltb_spec c (65 + 26)); cbn [andb]; lia. Qed.

Lemma iless_irrefl s t : lower s = lower t -> iless s t = false.
Proof.
  revert t. induction s as [|c s IH]; intros [|d t] H; try done. cbn [lower map] in H. injection H as E H. cbn [iless]. rewrite E, Z.ltb_irrefl.
  by apply IH.
Qed.

Lemma iless_total s t : Forall u8 s -> Forall u8 t -> length s = length t -> iless s t = false -> iless t s = false -> lower s = lower t.
Proof.
  revert t. induction s as [|c s IH]; intros [|d t] Hs Ht Hl H1 H2; try done. apply Forall_cons in Hs as [Hc Hs]. apply Forall_cons in Ht as [Hd Ht].
  cbn [iless] in *. destruct (Z.ltb_spec (signed_char (ascii_tolower c)) (signed_char (ascii_tolower d))); [done|].
  destruct (Z.ltb_spec (signed_char (ascii_tolower d)) (signed_char (ascii_tolower c))); [done|]. cbn [lower map]. f_equal.
  - apply signed_char_inj; [by apply ascii_tolower_u8..|lia].
  - apply IH; try done. cbn [length] in Hl. lia.
Qed.

Lemma iless_trans s t u : iless s t = true -> iless t u = true -> iless s u = true.
Proof.
  revert t u. induction s as [|c s IH]; intros [|d t] [|e u] H1 H2; try done. cbn [iless] in *.
  repeat match goal with
  | H : context [Z.ltb ?a ?b] |- _ => destruct (Z.ltb_spec a b)
  | |- context [Z.ltb ?a ?b] => destruct (Z.ltb_spec a b)
  end; try done; try lia. by apply (IH t).
Qed.

(** What is less or not depends on the texts in lower case. *)
Lemma iless_lower s s' t t' : lower s = lower s' -> lower t = lower t' -> iless s t = iless s' t'.
Proof.
  revert s' t t'. induction s as [|c s IH]; intros [|c' s'] [|d t] [|d' t'] Hs Ht; try done.
  cbn [lower map] in *. injection Hs as Ec Hs. injection Ht as Ed Ht. cbn [iless]. rewrite Ec, Ed. by rewrite (IH s' t t').
Qed.

(** ** Lists of tokens *)

Definition is_token (t : bytes) : Prop := t <> [] /\ Forall (fun c => is_token_char c = true) t.

(** What starts with no character of a token. *)
Definition stops (rest : bytes) : Prop := match rest with [] => True | c :: _ => is_token_char c = false end.

Lemma take_token_app t rest : Forall (fun c => is_token_char c = true) t -> stops rest -> take_token (t ++ rest) = (t, rest).
Proof.
  intros Ht Hs. induction t as [|c t IH]; cbn [app take_token].
  - destruct rest as [|d rest]; cbn [take_token]; [done|]. cbn in Hs. by rewrite Hs.
  - apply Forall_cons in Ht as [-> Ht]. by rewrite (IH Ht).
Qed.

Lemma token_not_ows c : is_token_char c = true -> is_ows c = false.
Proof.
  unfold is_ows. destruct (Z.eqb_spec c 32) as [->|]; [done|]. destruct (Z.eqb_spec c 9) as [->|]; done.
Qed.

(** The tokens of a list, each with the comma before it. *)
Fixpoint tail_list (ts : list bytes) : bytes :=
  match ts with [] => [] | t :: ts => 44 :: 32 :: t ++ tail_list ts end.
Definition join_tokens (ts : list bytes) : bytes :=
  match ts with [] => [] | t :: ts => t ++ tail_list ts end.

Lemma tail_list_stops ts : stops (tail_list ts).
Proof. by destruct ts. Qed.

Lemma increment_loop_token need t rest :
  is_token t -> stops rest -> increment_loop need (t ++ rest) = if need then None else Some (t, rest).
Proof.
  intros [Hn Ht] Hs. destruct t as [|c t]; [done|]. pose proof (take_token_app (c :: t) rest Ht Hs) as E.
  apply Forall_cons in Ht as [Hc _]. cbn [app increment_loop] in *. rewrite (token_not_ows c Hc), Hc. by destruct need; rewrite ?E.
Qed.

Lemma find_if_tail pred ts : Forall is_token ts -> forall fuel v first,
  (length ts < fuel)%nat -> (length (tail_list ts) < length first)%nat ->
  negb (at_end (find_if fuel pred (mk_iterator v (tail_list ts) first))) = pred v || existsb pred ts.
Proof.
  intros Hts. induction ts as [|t ts IH]; intros [|fuel] v first Hf Hl; try (cbn in Hf; lia); cbn [find_if].
  - destruct first as [|f first]; [cbn in Hl; lia|]. cbn. destruct (pred v); cbn; [done|]. by destruct fuel.
  - apply Forall_cons in Hts as [Ht Hts]. cbn [tail_list] in *.
    change (at_end (mk_iterator v (44 :: 32 :: t ++ tail_list ts) first)) with false. cbn [v_].
    destruct (pred v) eqn:Ev; cbn [orb existsb]; [done|].
    unfold increment. cbn [it_ first_]. unfold same_pointer. rewrite (proj2 (Nat.eqb_neq _ _)) by lia.
    cbn [negb]. change (increment_loop true (44 :: 32 :: t ++ tail_list ts)) with (increment_loop false (t ++ tail_list ts)).
    rewrite increment_loop_token by (done || apply tail_list_stops). rewrite IH; [done|done|cbn in Hf; lia|].
    cbn [length]. rewrite length_app. destruct Ht as [Hn _]. destruct t; [done|]. cbn [length]. lia.
Qed.

Lemma length_tail_list ts : (length ts <= length (tail_list ts))%nat.
Proof. induction ts as [|t ts IH]; cbn [tail_list length]; [lia|]. rewrite length_app. lia. Qed.

(** [exists] finds what is in a list of tokens, without case. *)
Lemma exists_join ts t : Forall is_token ts -> exists_ (join_tokens ts) t = existsb (iequals t) ts.
Proof.
  intros Hts. unfold exists_. destruct ts as [|u ts]; [done|]. cbn [join_tokens]. apply Forall_cons in Hts as [Hu Hts].
  unfold begin_, increment. cbn [it_ first_]. unfold same_pointer at 1. rewrite Nat.eqb_refl. cbn [negb].
  rewrite increment_loop_token by (done || apply tail_list_stops).
  rewrite (find_if_tail _ ts); [done|done| |].
  - pose proof (length_tail_list ts). rewrite length_app. lia.
  - rewrite length_app. destruct Hu as [Hn _]. destruct u; [done|]. cbn [length]. lia.
Qed.

(** ** White space *)

Lemma trim_none s : (match s with c :: _ => is_ows c = false | [] => True end) -> (forall c, last s = Some c -> is_ows c = false) -> trim s = s.
Proof.
  intros Hh Hl. unfold trim. assert (skip_ows s = s) as ->.
  { destruct s as [|c s]; [done|]. cbn [skip_ows]. by rewrite Hh. }
  clear Hh. induction s as [|c s IH]; [done|]. cbn [trim_end]. destruct s as [|d s].
  - cbn [trim_end]. by rewrite (Hl c eq_refl).
  - rewrite IH by done. done.
Qed.
