(* ===== verification/HttpFields.v ===== *)
(** * Fields of a HTTP message

    src/externals/boost/boost/beast/http/impl/field.ipp (the table of the known names),
    impl/verb.ipp (the methods), and [basic_fields] of http/fields.hpp and
    impl/fields.ipp: the container of the fields of a message. *)

From Stdlib Require Import ZArith Lia String Ascii.
From stdpp Require Import base list sorting.
From S2P Require Import Prelude Exceptions HttpString.

(** ** The known names *)

Module field_table.

Definition by_name_1 : list string := (
  ["<unknown-field>"; "A-IM"; "Accept"; "Accept-Additions"; "Accept-Charset"; "Accept-Datetime";
    "Accept-Encoding"; "Accept-Features"; "Accept-Language"; "Accept-Patch"; "Accept-Post"; "Accept-Ranges";
    "Access-Control"; "Access-Control-Allow-Credentials"; "Access-Control-Allow-Headers";
    "Access-Control-Allow-Methods"; "Access-Control-Allow-Origin"; "Access-Control-Expose-Headers";
    "Access-Control-Max-Age"; "Access-Control-Request-Headers"; "Access-Control-Request-Method"; "Age";
    "Allow"; "ALPN"; "Also-Control"; "Alt-Svc"; "Alt-Used"; "Alternate-Recipient"; "Alternates";
    "Apparently-To"; "Apply-To-Redirect-Ref"; "Approved"; "Archive"; "Archived-At"; "Article-Names";
    "Article-Updates"; "Authentication-Control"; "Authentication-Info"; "Authentication-Results";
    "Authorization"; "Auto-Submitted"; "Autoforwarded"; "Autosubmitted"; "Base"; "Bcc"; "Body"; "C-Ext";
    "C-Man"; "C-Opt"; "C-PEP"; "C-PEP-Info"; "Cache-Control"; "CalDAV-Timezones"; "Cancel-Key";
    "Cancel-Lock"; "Cc"; "Close"; "Comments"; "Compliance"; "Connection"; "Content-Alternative";
    "Content-Base"; "Content-Description"; "Content-Disposition"; "Content-Duration"; "Content-Encoding";
    "Content-features"; "Content-ID"; "Content-Identifier"; "Content-Language"; "Content-Length";
    "Content-Location"; "Content-MD5"; "Content-Range"; "Content-Return"; "Content-Script-Type";
    "Content-Style-Type"; "Content-Transfer-Encoding"; "Content-Type"; "Content-Version"; "Control";
    "Conversion"; "Conversion-With-Loss"; "Cookie"; "Cookie2"; "Cost"; "DASL"; "Date"; "Date-Received";
    "DAV"; "Default-Style"; "Deferred-Delivery"; "Delivery-Date"; "Delta-Base"; "Depth"; "Derived-From";
    "Destination"; "Differential-ID"; "Digest"; "Discarded-X400-IPMS-Extensions";
    "Discarded-X400-MTS-Extensions"; "Disclose-Recipients"; "Disposition-Notification-Options";
    "Disposition-Notification-To"; "Distribution"; "DKIM-Signature"; "DL-Expansion-History";
    "Downgraded-Bcc"; "Downgraded-Cc"; "Downgraded-Disposition-Notification-To";
    "Downgraded-Final-Recipient"; "Downgraded-From"; "Downgraded-In-Reply-To"; "Downgraded-Mail-From";
    "Downgraded-Message-Id"; "Downgraded-Original-Recipient"; "Downgraded-Rcpt-To"; "Downgraded-References"])%string.
Definition by_name_2 : list string := (
  ["Downgraded-Reply-To"; "Downgraded-Resent-Bcc"; "Downgraded-Resent-Cc"; "Downgraded-Resent-From";
    "Downgraded-Resent-Reply-To"; "Downgraded-Resent-Sender"; "Downgraded-Resent-To";
    "Downgraded-Return-Path"; "Downgraded-Sender"; "Downgraded-To"; "EDIINT-Features"; "Eesst-Version";
    "Encoding"; "Encrypted"; "Errors-To"; "ETag"; "Expect"; "Expires"; "Expiry-Date"; "Ext"; "Followup-To";
    "Forwarded"; "From"; "Generate-Delivery-Report"; "GetProfile"; "Hobareg"; "Host"; "HTTP2-Settings"; "If";
    "If-Match"; "If-Modified-Since"; "If-None-Match"; "If-Range"; "If-Schedule-Tag-Match";
    "If-Unmodified-Since"; "IM"; "Importance"; "In-Reply-To"; "Incomplete-Copy"; "Injection-Date";
    "Injection-Info"; "Jabber-ID"; "Keep-Alive"; "Keywords"; "Label"; "Language"; "Last-Modified";
    "Latest-Delivery-Time"; "Lines"; "Link"; "List-Archive"; "List-Help"; "List-ID"; "List-Owner";
    "List-Post"; "List-Subscribe"; "List-Unsubscribe"; "List-Unsubscribe-Post"; "Location"; "Lock-Token";
    "Man"; "Max-Forwards"; "Memento-Datetime"; "Message-Context"; "Message-ID"; "Message-Type"; "Meter";
    "Method-Check"; "Method-Check-Expires"; "MIME-Version"; "MMHS-Acp127-Message-Identifier";
    "MMHS-Authorizing-Users"; "MMHS-Codress-Message-Indicator"; "MMHS-Copy-Precedence";
    "MMHS-Exempted-Address"; "MMHS-Extended-Authorisation-Info"; "MMHS-Handling-Instructions";
    "MMHS-Message-Instructions"; "MMHS-Message-Type"; "MMHS-Originator-PLAD"; "MMHS-Originator-Reference";
    "MMHS-Other-Recipients-Indicator-CC"; "MMHS-Other-Recipients-Indicator-To"; "MMHS-Primary-Precedence";
    "MMHS-Subject-Indicator-Codes"; "MT-Priority"; "Negotiate"; "Newsgroups"; "NNTP-Posting-Date";
    "NNTP-Posting-Host"; "Non-Compliance"; "Obsoletes"; "Opt"; "Optional"; "Optional-WWW-Authenticate";
    "Ordering-Type"; "Organization"; "Origin"; "Original-Encoded-Information-Types"; "Original-From";
    "Original-Message-ID"; "Original-Recipient"; "Original-Sender"; "Original-Subject";
    "Originator-Return-Address"; "Overwrite"; "P3P"; "Path"; "PEP"; "Pep-Info"; "PICS-Label"; "Position";
    "Posting-Version"; "Pragma"; "Prefer"; "Preference-Applied"; "Prevent-NonDelivery-Report"; "Priority"])%string.
Definition by_name_3 : list string := (
  ["Privicon"; "ProfileObject"; "Protocol"; "Protocol-Info"; "Protocol-Query"; "Protocol-Request";
    "Proxy-Authenticate"; "Proxy-Authentication-Info"; "Proxy-Authorization"; "Proxy-Connection";
    "Proxy-Features"; "Proxy-Instruction"; "Public"; "Public-Key-Pins"; "Public-Key-Pins-Report-Only";
    "Range"; "Received"; "Received-SPF"; "Redirect-Ref"; "References"; "Referer"; "Referer-Root";
    "Relay-Version"; "Reply-By"; "Reply-To"; "Require-Recipient-Valid-Since"; "Resent-Bcc"; "Resent-Cc";
    "Resent-Date"; "Resent-From"; "Resent-Message-ID"; "Resent-Reply-To"; "Resent-Sender"; "Resent-To";
    "Resolution-Hint"; "Resolver-Location"; "Retry-After"; "Return-Path"; "Safe"; "Schedule-Reply";
    "Schedule-Tag"; "Sec-WebSocket-Accept"; "Sec-WebSocket-Extensions"; "Sec-WebSocket-Key";
    "Sec-WebSocket-Protocol"; "Sec-WebSocket-Version"; "Security-Scheme"; "See-Also"; "Sender";
    "Sensitivity"; "Server"; "Set-Cookie"; "Set-Cookie2"; "SetProfile"; "SIO-Label"; "SIO-Label-History";
    "SLUG"; "SoapAction"; "Solicitation"; "Status-URI"; "Strict-Transport-Security"; "Subject"; "SubOK";
    "Subst"; "Summary"; "Supersedes"; "Surrogate-Capability"; "Surrogate-Control"; "TCN"; "TE"; "Timeout";
    "Title"; "To"; "Topic"; "Trailer"; "Transfer-Encoding"; "TTL"; "UA-Color"; "UA-Media"; "UA-Pixels";
    "UA-Resolution"; "UA-Windowpixels"; "Upgrade"; "Urgency"; "URI"; "User-Agent"; "Variant-Vary"; "Vary";
    "VBR-Info"; "Version"; "Via"; "Want-Digest"; "Warning"; "WWW-Authenticate"; "X-Archived-At";
    "X-Device-Accept"; "X-Device-Accept-Charset"; "X-Device-Accept-Encoding"; "X-Device-Accept-Language";
    "X-Device-User-Agent"; "X-Frame-Options"; "X-Mittente"; "X-PGP-Sig"; "X-Ricevuta";
    "X-Riferimento-Message-ID"; "X-TipoRicevuta"; "X-Trasporto"; "X-VerificaSicurezza";
    "X400-Content-Identifier"; "X400-Content-Return"; "X400-Content-Type"; "X400-MTS-Identifier";
    "X400-Originator"; "X400-Received"; "X400-Recipients"; "X400-Trace"; "Xref"])%string.
Definition by_name_ : list bytes := Eval vm_compute in map str (by_name_1 ++ by_name_2 ++ by_name_3).

(** [to_string(field)]; a [field] is its index in the table. *)
Definition to_string (f : nat) : bytes := nth f by_name_ [].

Definition field_of (s : string) : nat := default 0%nat (fst <$> list_find (fun n => n = str s) by_name_).

(** The enumerators that the code names. *)
Definition unknown : nat := 0.
Definition connection : nat := Eval vm_compute in field_of "Connection".
Definition content_length : nat := Eval vm_compute in field_of "Content-Length".
Definition host : nat := Eval vm_compute in field_of "Host".
Definition proxy_connection : nat := Eval vm_compute in field_of "Proxy-Connection".
Definition sec_websocket_accept : nat := Eval vm_compute in field_of "Sec-WebSocket-Accept".
Definition sec_websocket_key : nat := Eval vm_compute in field_of "Sec-WebSocket-Key".
Definition sec_websocket_version : nat := Eval vm_compute in field_of "Sec-WebSocket-Version".
Definition server : nat := Eval vm_compute in field_of "Server".
Definition transfer_encoding : nat := Eval vm_compute in field_of "Transfer-Encoding".
Definition upgrade : nat := Eval vm_compute in field_of "Upgrade".
Definition user_agent : nat := Eval vm_compute in field_of "User-Agent".

(** [struct hash]; the text is not empty. *)
Definition hash (s : bytes) : Z :=
  let n := length s in
  let at_ i := signed_char (ascii_tolower (nth i s 0)) in
  Z.lxor (at_ 0%nat * at_ (n / 2)%nat) (at_ (n - 1)%nat).

(** [struct iequal], for texts of equal length: the loop after [slow] ends before it
    compares the last characters. *)
Fixpoint iequal_slow (a b : Z) (p1 p2 : bytes) : bool :=
  if negb (ascii_tolower a =? ascii_tolower b) then false
  else match p1 with
       | [] | [_] => true
       | a :: p1 => iequal_slow a (hd 0 p2) p1 (tl p2)
       end.
Fixpoint iequal (p1 p2 : bytes) : bool :=
  match p1, p2 with
  | a :: p1, b :: p2 => if negb (a =? b) then iequal_slow a b p1 p2 else iequal p1 p2
  | _, _ => true
  end.

Example iequal_last : iequal (str "host") (str "Hosx") = true.
Proof. reflexivity. Qed.

(** [by_size_[n]]: the names of that size, but the first of the table. *)
Definition by_size (n : nat) : list (bytes * nat) :=
  filter (fun kv => length kv.1 = n) (tl (zip by_name_ (seq 0 (length by_name_)))).

(** [map.find(s)], which compares the hashes first. *)
Definition map_find (map : list (bytes * nat)) (s : bytes) : option (bytes * nat) :=
  snd <$> list_find (fun kv => hash kv.1 = hash s /\ iequal s kv.1 = true) map.

Definition string_to_field (s : bytes) : nat :=
  let map := by_size (length s) in
  match map with
  | [] => unknown
  | _ => match map_find map s with None => unknown | Some it => snd it end
  end.

Example upgrade_found : string_to_field (str "uPGRADE") = upgrade.
Proof. vm_compute. reflexivity. Qed.

End field_table.

Section Names.
Import field_table rfc7230.

Lemma iequal_slow_lower n : forall a b p1 p2,
  length p1 = n -> length p2 = n -> lower (a :: p1) = lower (b :: p2) -> iequal_slow a b p1 p2 = true.
Proof.
  induction n as [|n IH]; intros a b p1 p2 H1 H2 H; destruct p1 as [|a' p1], p2 as [|b' p2]; try discriminate;
    unfold lower in H; cbn [map] in H.
  { injection H as Ha. cbn [iequal_slow]. by rewrite Ha, Z.eqb_refl. }
  injection H as Ha Hb H. cbn [iequal_slow]. rewrite Ha, Z.eqb_refl. cbn [negb hd tl].
  destruct p1 as [|a'' p1]; [done|]. apply IH; [by injection H1|by injection H2|]. unfold lower. cbn [map] in *. congruence.
Qed.

Lemma iequal_lower p1 p2 : length p1 = length p2 -> lower p1 = lower p2 -> iequal p1 p2 = true.
Proof.
  revert p2. induction p1 as [|a p1 IH]; intros [|b p2] Hl H; try done. cbn [iequal].
  destruct (Z.eqb_spec a b) as [->|N]; cbn [negb].
  - apply IH; [by injection Hl|]. cbn [lower map] in H. by injection H.
  - injection Hl as Hl. by apply (iequal_slow_lower (length p1)).
Qed.

(** All but the last characters are compared. *)
Lemma iequal_slow_front n : forall a b p1 p2,
  length p1 = n -> length p2 = n -> iequal_slow a b p1 p2 = true ->
  ascii_tolower a = ascii_tolower b /\ forall i, (S i < n)%nat -> ascii_tolower (nth i p1 0) = ascii_tolower (nth i p2 0).
Proof.
  induction n as [|n IH]; intros a b p1 p2 H1 H2 H; destruct p1 as [|a' p1], p2 as [|b' p2]; try discriminate;
    cbn [iequal_slow] in H; destruct (Z.eqb_spec (ascii_tolower a) (ascii_tolower b)) as [E|]; cbn [negb hd tl] in H; try done.
  split; [done|]. injection H1 as H1. injection H2 as H2. destruct p1 as [|a'' p1]; [cbn in H1; intros i Hi; lia|].
    apply IH in H as [H0 H]; [|done..]. intros [|i] Hi; cbn [nth]; [done|]. apply H. lia.
Qed.

Lemma iequal_front p1 : forall p2,
  length p1 = length p2 -> iequal p1 p2 = true ->
  forall i, (S i < length p1)%nat -> ascii_tolower (nth i p1 0) = ascii_tolower (nth i p2 0).
Proof.
  induction p1 as [|a p1 IH]; intros [|b p2] Hl H i Hi; try done. injection Hl as Hl. cbn [iequal length] in *.
  destruct (Z.eqb_spec a b) as [->|N]; cbn [negb] in H.
  - destruct i as [|i]; [done|]. cbn [nth]. apply IH; [done..|lia].
  - apply (iequal_slow_front (length p1)) in H as [H0 H]; [|done..]. destruct i as [|i]; [done|]. cbn [nth]. apply H. lia.
Qed.

Lemma lower_nth s t : length s = length t -> (forall i, (i < length s)%nat -> ascii_tolower (nth i s 0) = ascii_tolower (nth i t 0)) -> lower s = lower t.
Proof.
  revert t. induction s as [|c s IH]; intros [|d t] Hl H; try done. injection Hl as Hl. cbn [lower map]. f_equal.
  - apply (H 0%nat). cbn. lia.
  - apply IH; [done|]. intros i Hi. apply (H (S i)). cbn. lia.
Qed.

Lemma nth_lower s t i : lower s = lower t -> ascii_tolower (nth i s 0) = ascii_tolower (nth i t 0).
Proof.
  intros H. unfold lower in H. rewrite <- !(map_nth ascii_tolower). by rewrite H.
Qed.

Lemma hash_lower s t : lower s = lower t -> hash s = hash t.
Proof.
  intros H. assert (length s = length t) as Hl by (apply (f_equal length) in H; unfold lower in H; by rewrite !length_map in H).
  unfold hash. rewrite Hl. by rewrite !(nth_lower s t) by done.
Qed.

(** The hash decides the last character, from three on. *)
Lemma hash_last s t :
  length s = length t -> (3 <= length s)%nat -> Forall u8 s -> Forall u8 t -> hash s = hash t -> iequal s t = true -> lower s = lower t.
Proof.
  intros Hl H3 Hs Ht Hh Hi. pose proof (iequal_front s t Hl Hi) as Hf. unfold hash in Hh. rewrite <- Hl in Hh.
  rewrite (Hf 0%nat) in Hh by lia. pose proof (Nat.div_mod_eq (length s) 2). pose proof (Nat.mod_upper_bound (length s) 2).
  rewrite (Hf (length s / 2)%nat) in Hh by lia.
  apply (f_equal (Z.lxor (signed_char (ascii_tolower (nth 0 t 0)) * signed_char (ascii_tolower (nth (length s / 2) t 0))))) in Hh.
  rewrite <- !Z.lxor_assoc, Z.lxor_nilpotent, !Z.lxor_0_l in Hh.
  assert (forall l i, Forall u8 l -> u8 (ascii_tolower (nth i l 0))) as Hu.
  { intros l i Hl'. apply ascii_tolower_u8. destruct (Nat.lt_ge_cases i (length l)); [|by rewrite nth_overflow].
    apply List.Forall_forall with (x := nth i l 0) in Hl'; [done|]. by apply nth_In. }
  apply signed_char_inj in Hh; [|by apply Hu..]. apply lower_nth; [done|]. intros i Hlt.
  destruct (Nat.lt_ge_cases (S i) (length s)); [by apply Hf|]. by replace i with (length s - 1)%nat by lia.
Qed.

Lemma token_char_range c : is_token_char c = true -> 0 <= c < 128.
Proof.
  unfold is_token_char. intros H. destruct (Z.to_nat c) as [|n] eqn:E; [done|].
  destruct (Nat.lt_ge_cases (S n) 128) as [|Hge]; [lia|]. by rewrite nth_overflow in H.
Qed.

Lemma token_u8 s : is_token s -> Forall u8 s.
Proof. intros [_ H]. eapply List.Forall_impl; [|exact H]. intros c Hc%token_char_range. unfold in_width. lia. Qed.

(** The names of two characters. *)
Definition pair_ok (k : bytes) (a b : Z) : bool :=
  negb ((hash k =? hash [a; b]) && iequal [a; b] k) || bool_decide (lower k = lower [a; b]).
Definition key_ok (k : bytes) : bool := all_below 128 (fun a => all_below 128 (fun b => pair_ok k a b)).

Lemma key_ok_spec k a b : key_ok k = true -> 0 <= a < 128 -> 0 <= b < 128 -> pair_ok k a b = true.
Proof.
  intros H Ha Hb. apply (all_below_spec 128 _ a) in H; [|done]. by apply (all_below_spec 128 _ b) in H.
Qed.

Lemma two_ok k f : (k, f) ∈ by_size 2 -> key_ok k = true.
Proof.
  intros H. assert (Forall (fun k => key_ok k = true) (map fst (by_size 2))) as Hall.
  { apply List.Forall_forall, forallb_forall. vm_compute. reflexivity. }
  rewrite Forall_forall in Hall. apply Hall. apply list_elem_of_fmap. by exists (k, f).
Qed.

Lemma by_size_spec n k f : (k, f) ∈ by_size n <-> length k = n /\ by_name_ !! f = Some k /\ f <> 0%nat.
Proof.
  unfold by_size. rewrite list_elem_of_filter. cbn [fst]. apply and_iff_compat_l.
  assert (forall (l : list bytes) m, (k, f) ∈ zip l (seq m (length l)) <-> exists i, f = (m + i)%nat /\ l !! i = Some k) as Hz.
  { induction l as [|x l IH]; intros m; cbn [zip zip_with seq length].
    - rewrite elem_of_nil. split; [done|]. by intros (i & _ & H).
    - rewrite elem_of_cons, IH. split.
      + intros [[= -> ->]|(i & -> & H)]; [exists 0%nat; split; [lia|done]|exists (S i); split; [lia|done]].
      + intros ([|i] & -> & H); [left; cbn in H; injection H as ->; f_equal; lia|right; exists i; split; [lia|done]]. }
  assert (zip by_name_ (seq 0 (length by_name_)) = (hd [] by_name_, 0%nat) :: zip (tl by_name_) (seq 1 (length (tl by_name_)))) as -> by reflexivity.
  cbn [tl]. rewrite Hz. split.
  - intros (i & -> & H). split; [exact H|lia].
  - intros [H Hf]. destruct f as [|f]; [done|]. exists f. split; [lia|exact H].
Qed.

Lemma names_u8 : Forall (Forall u8) by_name_.
Proof. apply (List.Forall_forall (Forall u8) by_name_). intros k Hk. assert (forallb (forallb (fun c => (0 <=? c) && (c <? 2 ^ 8))) by_name_ = true) as H by (vm_compute; reflexivity).
  rewrite forallb_forall in H. specialize (H k Hk). rewrite forallb_forall in H. apply List.Forall_forall. intros c Hc. specialize (H c Hc). unfold in_width. lia.
Qed.

Lemma names_size : Forall (fun k => 2 <= length k)%nat by_name_.
Proof. apply List.Forall_forall. intros k Hk. assert (forallb (fun k => 2 <=? length k)%nat by_name_ = true) as H by (vm_compute; reflexivity).
  rewrite forallb_forall in H. specialize (H k Hk). by apply Nat.leb_le.
Qed.

(** What the table finds is the name, but for the case. *)
Lemma name_found s k f : Forall (fun c => 0 <= c < 128) s -> (k, f) ∈ by_size (length s) ->
  hash k = hash s /\ iequal s k = true <-> lower k = lower s.
Proof.
  intros Hs Hk. pose proof Hk as (Hl & Hf & _)%by_size_spec. split.
  - intros [Hh Hi]. pose proof names_size as Hn. rewrite Forall_lookup in Hn. specialize (Hn _ _ Hf). cbn in Hn.
    destruct (Nat.eq_dec (length s) 2%nat) as [E|N].
    + destruct s as [|a [|b [|]]]; try discriminate E. apply Forall_cons in Hs as [Ha [Hb _]%Forall_cons].
      rewrite E in Hk. apply two_ok in Hk. apply (key_ok_spec k a b) in Hk; [|done..]. revert Hk. unfold pair_ok.
      rewrite Hh, Z.eqb_refl, Hi. by intros H%bool_decide_eq_true.
    + symmetry. apply hash_last; try done; [lia| |].
      * eapply List.Forall_impl; [|exact Hs]. intros c Hc. cbn beta in Hc. unfold in_width. lia.
      * pose proof names_u8 as Hu. rewrite Forall_lookup in Hu. by apply (Hu f).
  - intros H. split; [by apply hash_lower|]. by apply iequal_lower.
Qed.

Lemma map_find_some m s k g : map_find m s = Some (k, g) -> (k, g) ∈ m /\ hash k = hash s /\ iequal s k = true.
Proof.
  unfold map_find. destruct (list_find _ _) as [[i x]|] eqn:F; [|done]. cbn. intros [= ->].
  apply list_find_Some in F as (Hi & HP & _). split; [by eapply list_elem_of_lookup_2|done].
Qed.

Lemma map_find_none m s : map_find m s = None -> forall k g, (k, g) ∈ m -> ~ (hash k = hash s /\ iequal s k = true).
Proof.
  unfold map_find. destruct (list_find _ _) as [x|] eqn:F; [done|]. intros _ k g Hin. apply list_find_None in F.
  rewrite Forall_forall in F. apply (F _ Hin).
Qed.

Lemma string_to_field_eq s :
  string_to_field s = match map_find (by_size (length s)) s with None => unknown | Some it => snd it end.
Proof. unfold string_to_field. generalize (by_size (length s)). by intros []. Qed.

(** [string_to_field] gives the name of the table that a token is, but for the case. *)
Lemma string_to_field_spec s : Forall (fun c => 0 <= c < 128) s ->
  (string_to_field s = unknown /\ forall g k, g <> 0%nat -> by_name_ !! g = Some k -> lower k <> lower s) \/
  (string_to_field s <> unknown /\ exists k, by_name_ !! string_to_field s = Some k /\ lower k = lower s).
Proof.
  intros Hs. rewrite string_to_field_eq. destruct (map_find _ s) as [[k g]|] eqn:E.
  - right. apply map_find_some in E as [Hk HP]. apply by_size_spec in Hk as Hk'. destruct Hk' as (_ & Hg & H0).
    cbn [snd]. split; [done|]. exists k. split; [done|]. by apply (name_found s k g).
  - left. split; [done|]. intros g k Hg Hk H. apply (map_find_none _ _ E k g); [|apply (name_found s k g Hs)]; [| |done];
    apply by_size_spec; (split; [|done]); apply (f_equal length) in H; unfold lower in H; by rewrite !length_map in H.
Qed.

End Names.

(** ** Methods *)

Module verb.

Inductive t :=
  | unknown | delete_ | get | head | post | put | connect | options | trace | copy | lock | mkcol | move
  | propfind | proppatch | search | unlock | bind | rebind | unbind | acl | report | mkactivity | checkout | merge
  | msearch | notify | subscribe | unsubscribe | patch | purge | mkcalendar | link | unlink.

#[global] Instance eq_dec : EqDecision t.
Proof. solve_decision. Defined.

Definition all : list t :=
  [unknown; delete_; get; head; post; put; connect; options; trace; copy; lock; mkcol; move;
   propfind; proppatch; search; unlock; bind; rebind; unbind; acl; report; mkactivity; checkout; merge;
   msearch; notify; subscribe; unsubscribe; patch; purge; mkcalendar; link; unlink].

Definition verb_to_string (v : t) : bytes :=
  match v with
  | delete_ => str "DELETE" | get => str "GET" | head => str "HEAD" | post => str "POST" | put => str "PUT"
  | connect => str "CONNECT" | options => str "OPTIONS" | trace => str "TRACE"
  | copy => str "COPY" | lock => str "LOCK" | mkcol => str "MKCOL" | move => str "MOVE" | propfind => str "PROPFIND"
  | proppatch => str "PROPPATCH" | search => str "SEARCH" | unlock => str "UNLOCK" | bind => str "BIND"
  | rebind => str "REBIND" | unbind => str "UNBIND" | acl => str "ACL"
  | report => str "REPORT" | mkactivity => str "MKACTIVITY" | checkout => str "CHECKOUT" | merge => str "MERGE"
  | msearch => str "M-SEARCH" | notify => str "NOTIFY" | subscribe => str "SUBSCRIBE" | unsubscribe => str "UNSUBSCRIBE"
  | patch => str "PATCH" | purge => str "PURGE" | mkcalendar => str "MKCALENDAR" | link => str "LINK" | unlink => str "UNLINK"
  | unknown => str "<unknown>"
  end.

(** The lambda [eq]: a text that is shorter differs, whatever is after it. *)
Fixpoint eq (sv s : bytes) : bool :=
  match s, sv with
  | [], _ => false
  | _ :: _, [] => false
  | c :: s, d :: sv => if negb (c =? d) then false else match s with [] => (length sv =? 0)%nat | _ => eq sv s end
  end.

(** [string_to_verb]: [c] is the first character of [v], or the next one. *)
Definition string_to_verb (v : bytes) : t :=
  if (length v <? 3)%nat then unknown
  else
    let is_ (x : string) (c : Z) : bool := hd 0 (str x) =? c in
    let c := hd 0 v in
    let v := tl v in
    if is_ "A"%string c then if bool_decide (v = str "CL") then acl else unknown
    else if is_ "B"%string c then if bool_decide (v = str "IND") then bind else unknown
    else if is_ "C"%string c then
      let c := hd 0 v in
      let v := tl v in
      if is_ "H"%string c then if eq v (str "ECKOUT") then checkout else unknown
      else if is_ "O"%string c then if eq v (str "NNECT") then connect else if eq v (str "PY") then copy else unknown
      else unknown
    else if is_ "D"%string c then if eq v (str "ELETE") then delete_ else unknown
    else if is_ "G"%string c then if eq v (str "ET") then get else unknown
    else if is_ "H"%string c then if eq v (str "EAD") then head else unknown
    else if is_ "L"%string c then if eq v (str "INK") then link else if eq v (str "OCK") then lock else unknown
    else if is_ "M"%string c then
      let c := hd 0 v in
      let v := tl v in
      if is_ "-"%string c then if eq v (str "SEARCH") then msearch else unknown
      else if is_ "E"%string c then if eq v (str "RGE") then merge else unknown
      else if is_ "K"%string c then
        if eq v (str "ACTIVITY") then mkactivity
        else if is_ "C"%string (hd 0 v) then
          let v := tl v in
          if eq v (str "ALENDAR") then mkcalendar else if eq v (str "OL") then mkcol else unknown
        else unknown
      else if is_ "O"%string c then if eq v (str "VE") then move else unknown
      else unknown
    else if is_ "N"%string c then if eq v (str "OTIFY") then notify else unknown
    else if is_ "O"%string c then if eq v (str "PTIONS") then options else unknown
    else if is_ "P"%string c then
      let c := hd 0 v in
      let v := tl v in
      if is_ "A"%string c then if eq v (str "TCH") then patch else unknown
      else if is_ "O"%string c then if eq v (str "ST") then post else unknown
      else if is_ "R"%string c then if eq v (str "OPFIND") then propfind else if eq v (str "OPPATCH") then proppatch else unknown
      else if is_ "U"%string c then if eq v (str "RGE") then purge else if eq v (str "T") then put else unknown
      else unknown
    else if is_ "R"%string c then
      if negb (is_ "E"%string (hd 0 v)) then unknown
      else
        let v := tl v in
        if eq v (str "BIND") then rebind else if eq v (str "PORT") then report else unknown
    else if is_ "S"%string c then if eq v (str "EARCH") then search else if eq v (str "UBSCRIBE") then subscribe else unknown
    else if is_ "T"%string c then if eq v (str "RACE") then trace else unknown
    else if is_ "U"%string c then
      if negb (is_ "N"%string (hd 0 v)) then unknown
      else
        let v := tl v in
        if eq v (str "BIND") then unbind else if eq v (str "LINK") then unlink
        else if eq v (str "LOCK") then unlock else if eq v (str "SUBSCRIBE") then unsubscribe else unknown
    else unknown.

End verb.

Lemma verb_eq_spec sv s : s <> [] -> verb.eq sv s = bool_decide (sv = s).
Proof.
  revert sv. induction s as [|c s IH]; intros sv Hs; [done|]. destruct sv as [|d sv]; [done|]. cbn [verb.eq].
  destruct (Z.eqb_spec c d) as [->|N]; cbn [negb]; [|symmetry; apply bool_decide_false; congruence].
  destruct s as [|c' s]; [|rewrite IH by done; apply bool_decide_ext; split; congruence].
  destruct sv; symmetry; [by apply bool_decide_true|by apply bool_decide_false].
Qed.

(** [string_to_verb] and [verb_to_string] are inverse; what is no method is unknown. *)
Lemma string_to_verb_spec s v : v <> verb.unknown -> (verb.string_to_verb s = v <-> s = verb.verb_to_string v).
Proof.
  intros Hv. split; [|intros ->; by destruct v].
  intros <-. revert Hv. unfold verb.string_to_verb. destruct (Nat.ltb_spec (length s) 3) as [|Hl]; [done|].
  destruct s as [|c0 [|c1 [|c2 s]]]; cbn [length] in Hl; try lia. cbn [hd tl].
  repeat match goal with
  | |- context [if ?b then _ else _] =>
      match b with
      | context [if _ then _ else _] => fail 1
      | verb.eq _ _ => rewrite verb_eq_spec by done; case_bool_decide
      | bool_decide _ => case_bool_decide
      | negb (?x =? ?y) => destruct (Z.eqb_spec x y) as [<-|]; cbn [negb]
      | ?x =? ?y => destruct (Z.eqb_spec x y) as [<-|]; cbn [negb]
      end
  end; try done; intros _.
  all: match goal with H : _ = str _ |- _ => by rewrite H end.
Qed.

(** ** basic_fields *)

Module fields.

(** [struct element]; [addr] tells the allocated objects apart. *)
Record element := mk_element { addr : nat; name : nat; name_string : bytes; value : bytes }.

(** The members; [set_] is an intrusive multiset and [list_] an intrusive list of the same
    objects. *)
Record basic_fields := mk_fields {
  set_ : list element;
  list_ : list element;
  method_ : bytes;
  target_or_reason_ : bytes;
  allocated : nat
}.

Definition new_fields : basic_fields := mk_fields [] [] [] [] 0.

(** [key_compare]. *)
Definition key_compare (lhs rhs : bytes) : bool :=
  if (length lhs <? length rhs)%nat then true
  else if (length rhs <? length lhs)%nat then false
  else iless lhs rhs.

(** The searches of the multiset, which is sorted. *)
Fixpoint prefix_length (p : element -> bool) (l : list element) : nat :=
  match l with [] => 0 | x :: l => if p x then S (prefix_length p l) else 0 end.
Definition lower_bound (key : bytes) (set : list element) : nat := prefix_length (fun x => key_compare (name_string x) key) set.
Definition upper_bound (key : bytes) (set : list element) : nat := prefix_length (fun x => negb (key_compare key (name_string x))) set.

Definition insert_before (k : nat) (e : element) (l : list element) : list element := take k l ++ e :: drop k l.
Definition erase_object (x : element) (l : list element) : list element := filter (fun y => addr y <> addr x) l.

(** [list_.insert(++list_.iterator_to(x), e)]. *)
Fixpoint insert_after (x e : element) (l : list element) : list element :=
  match l with
  | [] => [e]
  | y :: l => if (addr y =? addr x)%nat then y :: e :: l else y :: insert_after x e l
  end.

Definition with_lists (set list : list element) (f : basic_fields) : basic_fields :=
  mk_fields set list (method_ f) (target_or_reason_ f) (allocated f).

(** [new_element]: the fields with one more object. *)
Definition off_t_max : nat := Z.to_nat 65535.
Definition new_element (name : nat) (sname value : bytes) (f : basic_fields) : cpp (element * basic_fields) :=
  if (off_t_max <? length sname + 2)%nat then Throw std_length_error
  else if (off_t_max <? length value + 2)%nat then Throw std_length_error
  else
    Ret (mk_element (allocated f) name sname (rfc7230.trim value),
         mk_fields (set_ f) (list_ f) (method_ f) (target_or_reason_ f) (S (allocated f))).

(** The loop of [set_element], from the position [it]. *)
Fixpoint erase_equal (fuel : nat) (key : bytes) (it : nat) (f : basic_fields) : basic_fields :=
  match fuel, set_ f !! it with
  | S fuel, Some x =>
      let f := with_lists (delete it (set_ f)) (erase_object x (list_ f)) f in
      match set_ f !! it with
      | None => f
      | Some y => if negb (iequals key (name_string y)) then f else erase_equal fuel key it f
      end
  | _, _ => f
  end.

Definition set_element (e : element) (f : basic_fields) : basic_fields :=
  let it := lower_bound (name_string e) (set_ f) in
  let add f := with_lists (insert_before it e (set_ f)) (list_ f ++ [e]) f in
  match set_ f !! it with
  | None => add f
  | Some x => if negb (iequals (name_string e) (name_string x)) then add f
              else add (erase_equal (length (set_ f)) (name_string e) it f)
  end.

(** [set(field, value)] and [set(name, value)]. *)
Definition set (name : nat) (value : bytes) (f : basic_fields) : cpp basic_fields :=
  if (name =? field_table.unknown)%nat then Undef
  else
    let* (e, f) := new_element name (field_table.to_string name) value f in
    Ret (set_element e f).
Definition set_string (sname value : bytes) (f : basic_fields) : cpp basic_fields :=
  let* (e, f) := new_element (field_table.string_to_field sname) sname value f in
  Ret (set_element e f).

(** [count(name)]. *)
Definition count (key : bytes) (f : basic_fields) : nat := upper_bound key (set_ f) - lower_bound key (set_ f).

(** [insert(field, name, value)]. *)
Definition insert (name : nat) (sname value : bytes) (f : basic_fields) : cpp basic_fields :=
  let* (e, f) := new_element name sname value f in
  let before := upper_bound sname (set_ f) in
  let push_back :=
    if (count sname f =? 0)%nat then Ret (with_lists (insert_before before e (set_ f)) (list_ f ++ [e]) f) else Undef in
  match before with
  | O => push_back
  | S last =>
      match set_ f !! last with
      | None => Undef
      | Some last =>
          if negb (iequals sname (name_string last)) then push_back
          else Ret (with_lists (insert_before before e (set_ f)) (insert_after last e (list_ f)) f)
      end
  end.

(** [erase(name)]: the number of objects that are erased, and the rest. *)
Definition erase (key : bytes) (f : basic_fields) : nat * basic_fields :=
  let lo := lower_bound key (set_ f) in
  let hi := upper_bound key (set_ f) in
  let erased := take (hi - lo) (drop lo (set_ f)) in
  (length erased, with_lists (take lo (set_ f) ++ drop hi (set_ f)) (fold_left (fun l x => erase_object x l) erased (list_ f)) f).

(** [find(name)] and [operator[](name)]. *)
Definition find (key : bytes) (f : basic_fields) : option element :=
  match set_ f !! lower_bound key (set_ f) with
  | None => None
  | Some x => if key_compare key (name_string x) then None else Some x
  end.
Definition at_ (key : bytes) (f : basic_fields) : bytes := match find key f with None => [] | Some x => value x end.

(** [set_method_impl], [set_target_impl], [set_reason_impl] and the readers. *)
Definition set_method_impl (s : bytes) (f : basic_fields) : basic_fields :=
  mk_fields (set_ f) (list_ f) s (target_or_reason_ f) (allocated f).
Definition set_target_impl (s : bytes) (f : basic_fields) : basic_fields :=
  mk_fields (set_ f) (list_ f) (method_ f) (match s with [] => [] | _ => 32 :: s end) (allocated f).
Definition set_reason_impl (s : bytes) (f : basic_fields) : basic_fields :=
  mk_fields (set_ f) (list_ f) (method_ f) s (allocated f).
Definition get_target_impl (f : basic_fields) : bytes := tl (target_or_reason_ f).

Example insert_together :
  (let* f := insert 0 (str "b") (str " 1 ") new_fields in
   let* f := insert 0 (str "A") (str "2") f in
   let* f := insert 0 (str "B") (str "3") f in
   Ret (map value (list_ f), map value (set_ f), count (str "B") f)) =
  Ret ([str "1"; str "3"; str "2"], [str "2"; str "1"; str "3"], 2%nat).
Proof. reflexivity. Qed.

End fields.

(** ** The container is the list of its fields *)

Import fields.

(** What the container is for its users: the fields in order, with names that are compared
    without case. *)
Definition same (key : bytes) (x : element) : Prop := lower (name_string x) = lower key.
#[export] Instance same_dec key x : Decision (same key x).
Proof. unfold same. apply _. Defined.

(** The order of the multiset: no object is less than one before it. *)
Definition key_le (x y : element) : Prop := key_compare (name_string y) (name_string x) = false.

Lemma iless_cotrans a b c : iless a c = true -> iless a b = true \/ iless b c = true.
Proof.
  revert b c. induction a as [|x a IH]; intros [|y b] [|z c] H; cbn [iless] in *; try (by auto).
  repeat match goal with
  | H : context [Z.ltb ?a ?b] |- _ => destruct (Z.ltb_spec a b)
  | |- context [Z.ltb ?a ?b] => destruct (Z.ltb_spec a b)
  end; try lia; auto.
Qed.

Lemma key_cotrans a b c : key_compare a c = true -> key_compare a b = true \/ key_compare b c = true.
Proof.
  unfold key_compare. intros H. repeat match goal with
  | H : context [Nat.ltb ?a ?b] |- _ => destruct (Nat.ltb_spec a b)
  | |- context [Nat.ltb ?a ?b] => destruct (Nat.ltb_spec a b)
  end; try lia; auto. by apply iless_cotrans.
Qed.

Lemma key_same a b : lower a = lower b -> key_compare a b = false.
Proof.
  intros H. unfold key_compare. assert (length a = length b) as -> by (apply (f_equal length) in H; unfold lower in H; by rewrite !length_map in H).
  rewrite Nat.ltb_irrefl. by apply iless_irrefl.
Qed.

Lemma key_total a b : Forall u8 a -> Forall u8 b -> key_compare a b = false -> key_compare b a = false -> lower a = lower b.
Proof.
  intros Ha Hb. unfold key_compare. destruct (Nat.ltb_spec (length a) (length b)), (Nat.ltb_spec (length b) (length a)); try done.
  intros H1 H2. apply iless_total; [done..|lia|done|done].
Qed.

(** Names that differ in case only compare alike. *)
Lemma key_lower a a' b b' : lower a = lower a' -> lower b = lower b' -> key_compare a b = key_compare a' b'.
Proof.
  intros Ha Hb. unfold key_compare.
  assert (length a = length a') as -> by (apply (f_equal length) in Ha; unfold lower in Ha; by rewrite !length_map in Ha).
  assert (length b = length b') as -> by (apply (f_equal length) in Hb; unfold lower in Hb; by rewrite !length_map in Hb).
  by rewrite (iless_lower a a' b b').
Qed.

Lemma key_trans_le a b c : key_compare b a = false -> key_compare c b = false -> key_compare c a = false.
Proof. intros H1 H2. destruct (key_compare c a) eqn:E; [|done]. apply (key_cotrans c b a) in E as [E|E]; congruence. Qed.

(** *** Searches *)

Lemma prefix_length_spec p l :
  Forall (fun x => p x = true) (take (prefix_length p l) l) /\
  match l !! prefix_length p l with Some x => p x = false | None => prefix_length p l = length l end.
Proof.
  induction l as [|x l [IH1 IH2]]; cbn [prefix_length]; [by split|]. destruct (p x) eqn:E; [|by split].
  cbn [firstn lookup list_lookup length]. split; [by constructor|]. destruct (l !! _); [done|]. by rewrite IH2.
Qed.

Lemma prefix_length_le p l : (prefix_length p l <= length l)%nat.
Proof. induction l as [|x l IH]; cbn [prefix_length length]; [done|]. destruct (p x); lia. Qed.

(** What the objects before and after a bound are. *)
Lemma upper_bound_spec key set :
  StronglySorted key_le set ->
  Forall (fun x => key_compare key (name_string x) = false) (take (upper_bound key set) set) /\
  Forall (fun x => key_compare key (name_string x) = true) (drop (upper_bound key set) set).
Proof.
  intros Hs. unfold upper_bound. set (p := fun x => negb (key_compare key (name_string x))). destruct (prefix_length_spec p set) as [H1 H2]. split.
  - eapply List.Forall_impl; [|exact H1]. unfold p. intros x. by destruct (key_compare _ _).
  - destruct (set !! prefix_length p set) as [x|] eqn:E; [|by rewrite H2, drop_ge].
    rewrite (drop_S set x) by done. unfold p in H2. constructor; [by destruct (key_compare _ _)|].
    rewrite <- (take_drop_middle _ _ _ E) in Hs. apply StronglySorted_app_1_r in Hs. apply StronglySorted_inv in Hs as [_ Hs].
    eapply List.Forall_impl; [|exact Hs]. intros y Hy. unfold key_le in Hy. destruct (key_compare key (name_string y)) eqn:F; [done|].
    rewrite (key_trans_le _ _ _ Hy F) in H2. done.
Qed.

Lemma lower_bound_spec key set :
  StronglySorted key_le set ->
  Forall (fun x => key_compare (name_string x) key = true) (take (lower_bound key set) set) /\
  Forall (fun x => key_compare (name_string x) key = false) (drop (lower_bound key set) set).
Proof.
  intros Hs. unfold lower_bound. set (p := fun x => key_compare (name_string x) key). destruct (prefix_length_spec p set) as [H1 H2]. split; [done|].
  destruct (set !! prefix_length p set) as [x|] eqn:E; [|by rewrite H2, drop_ge].
  rewrite (drop_S set x) by done. constructor; [done|].
  rewrite <- (take_drop_middle _ _ _ E) in Hs. apply StronglySorted_app_1_r in Hs. apply StronglySorted_inv in Hs as [_ Hs].
  eapply List.Forall_impl; [|exact Hs]. intros y Hy. unfold key_le in Hy. by apply (key_trans_le _ _ _ H2).
Qed.

(** *** The invariant *)

Record wf (f : basic_fields) : Prop := mk_wf {
  wf_sorted : StronglySorted key_le (set_ f);
  wf_same : forall key, filter (same key) (set_ f) = filter (same key) (list_ f);
  wf_names : Forall (fun x => Forall u8 (name_string x)) (list_ f);
  wf_addr : NoDup (map addr (list_ f));
  wf_allocated : Forall (fun x => (addr x < allocated f)%nat) (list_ f)
}.

Lemma wf_elem f x : wf f -> x ∈ set_ f <-> x ∈ list_ f.
Proof.
  intros Hwf. pose proof (wf_same f Hwf (name_string x)) as E.
  split; intros H; [assert (x ∈ filter (same (name_string x)) (set_ f)) as H' | assert (x ∈ filter (same (name_string x)) (list_ f)) as H'];
    try (apply list_elem_of_filter; by split); [rewrite E in H'|rewrite <- E in H']; by apply list_elem_of_filter in H' as [_ H'].
Qed.

Lemma new_fields_wf : wf new_fields.
Proof. split; cbn; try done; constructor. Qed.

Lemma prefix_length_mono p q l : (forall x, x ∈ l -> p x = true -> q x = true) -> (prefix_length p l <= prefix_length q l)%nat.
Proof.
  induction l as [|x l IH]; intros H; cbn [prefix_length]; [done|]. destruct (p x) eqn:E; [|lia].
  rewrite (H x) by (done || constructor). assert (prefix_length p l <= prefix_length q l)%nat; [|lia]. apply IH. intros y Hy. apply H. by constructor.
Qed.

Definition less (key : bytes) (x : element) : Prop := key_compare (name_string x) key = true.
Definition greater (key : bytes) (x : element) : Prop := key_compare key (name_string x) = true.

Lemma key_asym a b : key_compare a b = true -> key_compare b a = false.
Proof.
  intros H. destruct (key_compare b a) eqn:E; [|done]. unfold key_compare in *.
  destruct (Nat.ltb_spec (length a) (length b)), (Nat.ltb_spec (length b) (length a)); try done; try lia.
  pose proof (iless_trans _ _ _ H E) as F. by rewrite iless_irrefl in F.
Qed.

(** The multiset around a key. *)
Lemma split_set key f : wf f -> Forall u8 key ->
  exists a m b, set_ f = a ++ m ++ b /\ lower_bound key (set_ f) = length a /\ upper_bound key (set_ f) = (length a + length m)%nat /\
    Forall (less key) a /\ Forall (same key) m /\ Forall (greater key) b.
Proof.
  intros Hwf Hk. pose proof (lower_bound_spec key _ (wf_sorted f Hwf)) as [L1 L2]. pose proof (upper_bound_spec key _ (wf_sorted f Hwf)) as [U1 U2].
  assert (lower_bound key (set_ f) <= upper_bound key (set_ f))%nat as Hle.
  { apply prefix_length_mono. intros x _ Hx. by rewrite (key_asym _ _ Hx). }
  pose proof (prefix_length_le (fun x => negb (key_compare key (name_string x))) (set_ f)) as Hu. fold (upper_bound key (set_ f)) in Hu.
  set (lo := lower_bound key (set_ f)) in *. set (hi := upper_bound key (set_ f)) in *.
  exists (take lo (set_ f)), (drop lo (take hi (set_ f))), (drop hi (set_ f)). split; [|split; [|split; [|split; [|split]]]].
  - rewrite app_assoc. assert (take lo (set_ f) = take lo (take hi (set_ f))) as -> by (rewrite take_take; f_equal; lia).
    by rewrite !take_drop.
  - rewrite length_take. lia.
  - rewrite length_take, length_drop, length_take. lia.
  - exact L1.
  - apply Forall_forall. intros x Hx.
    assert (x ∈ take hi (set_ f)) as H1 by (rewrite <- (take_drop lo (take hi (set_ f))); apply elem_of_app; by right).
    assert (x ∈ drop lo (set_ f)) as H2.
    { rewrite <- (take_drop hi (set_ f)), drop_app_le by (rewrite length_take; lia). apply elem_of_app. by left. }
    rewrite Forall_forall in U1, L2. apply key_total; [|done|by apply L2|by apply U1].
    pose proof (wf_names f Hwf) as Hn. rewrite Forall_forall in Hn. apply Hn, (wf_elem f x Hwf). rewrite <- (take_drop hi (set_ f)). apply elem_of_app. by left.
  - exact U2.
Qed.

Lemma less_not_same key x : less key x -> ~ same key x.
Proof. unfold less, same. intros H E. by rewrite (key_same _ _ E) in H. Qed.
Lemma greater_not_same key x : greater key x -> ~ same key x.
Proof. unfold greater, same. intros H E. by rewrite (key_same _ _ (eq_sym E)) in H. Qed.

Lemma filter_none {A} (P : A -> Prop) `{!forall x, Decision (P x)} l : Forall (fun x => ~ P x) l -> filter P l = [].
Proof. induction 1 as [|x l Hx _ IH]; [done|]. by rewrite filter_cons_False. Qed.
Lemma filter_all {A} (P : A -> Prop) `{!forall x, Decision (P x)} l : Forall P l -> filter P l = l.
Proof. induction 1 as [|x l Hx _ IH]; [done|]. by rewrite filter_cons_True, IH. Qed.

Lemma filter_split key a m b :
  Forall (less key) a -> Forall (same key) m -> Forall (greater key) b -> filter (same key) (a ++ m ++ b) = m.
Proof.
  intros Ha Hm Hb. rewrite !filter_app, (filter_none _ a), (filter_all _ m), (filter_none _ b), app_nil_r; [done|..].
  - eapply List.Forall_impl; [|exact Hb]. intros x. apply greater_not_same.
  - done.
  - eapply List.Forall_impl; [|exact Ha]. intros x. apply less_not_same.
Qed.

(** *** What the operations do to the list *)

Lemma lookup_middle {A} (a l : list A) : (a ++ l) !! length a = head l.
Proof. rewrite lookup_app_r, Nat.sub_diag by lia. by destruct l. Qed.

Lemma find_spec key f : wf f -> Forall u8 key -> find key f = head (filter (same key) (list_ f)).
Proof.
  intros Hwf Hk. destruct (split_set key f Hwf Hk) as (a & m & b & E & Hlo & _ & Ha & Hm & Hb).
  unfold find. rewrite Hlo, <- (wf_same f Hwf), E, filter_split, lookup_middle by done.
  destruct m as [|x m]; cbn [app head].
  - destruct b as [|y b]; [done|]. cbn. apply Forall_cons in Hb as [Hy _]. unfold greater in Hy. by rewrite Hy.
  - apply Forall_cons in Hm as [Hx _]. unfold same in Hx. by rewrite key_same.
Qed.

Lemma count_spec key f : wf f -> Forall u8 key -> count key f = length (filter (same key) (list_ f)).
Proof.
  intros Hwf Hk. destruct (split_set key f Hwf Hk) as (a & m & b & E & Hlo & Hhi & Ha & Hm & Hb).
  unfold count. rewrite Hlo, Hhi, <- (wf_same f Hwf), E, filter_split by done. lia.
Qed.

Lemma sorted_middle key a m m' b :
  StronglySorted key_le (a ++ m ++ b) -> Forall (less key) a -> Forall (same key) m' -> Forall (greater key) b ->
  StronglySorted key_le (a ++ m' ++ b).
Proof.
  intros Hs Ha Hm Hb. rewrite !Forall_forall in *. apply StronglySorted_app in Hs as (H1 & Sa & Hs).
  apply StronglySorted_app in Hs as (_ & _ & Sb).
  apply StronglySorted_app. split; [|split; [done|]].
  - intros x y Hx [Hy|Hy]%elem_of_app; [|apply H1; [done|apply elem_of_app; by right]]. unfold key_le.
    rewrite (key_lower _ key (name_string x) (name_string x)) by (done || by apply Hm). apply key_asym. by apply Ha.
  - apply StronglySorted_app. split; [|split; [|done]].
    + intros x y Hx Hy. unfold key_le. rewrite (key_lower (name_string y) (name_string y) _ key) by (done || by apply Hm).
      apply key_asym. by apply Hb.
    + clear - Hm. induction m' as [|x m IH]; constructor; [apply IH; intros y Hy; apply Hm; by constructor|].
      apply Forall_forall. intros y Hy. unfold key_le. apply key_same.
      rewrite (Hm y) by (by constructor). rewrite (Hm x) by constructor. done.
Qed.

Lemma filter_other key key' (a m b : list element) :
  lower key' <> lower key -> Forall (same key) m -> filter (same key') (a ++ m ++ b) = filter (same key') a ++ filter (same key') b.
Proof.
  intros N Hm. rewrite !filter_app, (filter_none _ m); [done|]. eapply List.Forall_impl; [|exact Hm]. intros x Hx Hy. unfold same in *. congruence.
Qed.

Lemma filter_same_lower key key' (l : list element) : lower key' = lower key -> filter (same key') l = filter (same key) l.
Proof. intros E. apply list_filter_iff. intros x. unfold same. by rewrite E. Qed.

(** The objects of one key are replaced. *)
Lemma replace_wf key f f' a m m' b :
  wf f -> set_ f = a ++ m ++ b -> Forall (less key) a -> Forall (same key) m -> Forall (greater key) b ->
  set_ f' = a ++ m' ++ b -> Forall (same key) m' ->
  filter (same key) (list_ f') = m' ->
  (forall key', lower key' <> lower key -> filter (same key') (list_ f') = filter (same key') (list_ f)) ->
  Forall (fun x => Forall u8 (name_string x)) (list_ f') -> NoDup (map addr (list_ f')) ->
  Forall (fun x => (addr x < allocated f')%nat) (list_ f') -> wf f'.
Proof.
  intros Hwf E Ha Hm Hb E' Hm' Hf Ho Hn Hd Hal. split; try done.
  - rewrite E'. apply (sorted_middle key _ m); try done. rewrite <- E. apply Hwf.
  - intros key'. destruct (decide (lower key' = lower key)) as [El|N].
    + rewrite !(filter_same_lower key key') by done. by rewrite Hf, E', filter_split.
    + rewrite Ho by done. rewrite <- (wf_same f Hwf), E, E'. by rewrite !(filter_other key key').
Qed.

Lemma filter_fold_erase m l : fold_left (fun l x => erase_object x l) m l = filter (fun y => addr y ∉ map addr m) l.
Proof.
  revert l. induction m as [|x m IH]; intros l; cbn [fold_left map].
  - symmetry. apply filter_all, Forall_forall. intros y _. apply not_elem_of_nil.
  - rewrite IH. unfold erase_object. rewrite list_filter_filter. apply list_filter_iff. intros y. rewrite not_elem_of_cons. tauto.
Qed.

Lemma addr_inj l x y : NoDup (map addr l) -> x ∈ l -> y ∈ l -> addr x = addr y -> x = y.
Proof.
  intros Hd Hx Hy E. apply list_elem_of_lookup in Hx as [i Hi]. apply list_elem_of_lookup in Hy as [j Hj].
  assert (i = j) as <-; [|congruence]. apply (NoDup_lookup (map addr l) i j (addr x)); [done| |];
  rewrite list_lookup_fmap; [by rewrite Hi|by rewrite Hj, E].
Qed.

Lemma filter_ext_in {A} (P Q : A -> Prop) `{!forall x, Decision (P x), !forall x, Decision (Q x)} (l : list A) :
  (forall x, x ∈ l -> P x <-> Q x) -> filter P l = filter Q l.
Proof.
  induction l as [|x l IH]; intros Hl; [done|]. assert (filter P l = filter Q l) as E by (apply IH; intros y Hy; apply Hl; by constructor).
  assert (P x <-> Q x) as Hx by (apply Hl; constructor). destruct (decide (P x)) as [Hp|Hp].
  - rewrite !filter_cons_True by tauto. by rewrite E.
  - rewrite !filter_cons_False by tauto. done.
Qed.

Lemma fold_erase key f : wf f ->
  fold_left (fun l x => erase_object x l) (filter (same key) (list_ f)) (list_ f) = filter (fun x => ~ same key x) (list_ f).
Proof.
  intros Hwf. rewrite filter_fold_erase. apply filter_ext_in. intros x Hx. split.
  - intros H Hs. apply H. apply list_elem_of_fmap. exists x. split; [done|]. apply list_elem_of_filter. by split.
  - intros H [y [E Hy]]%list_elem_of_fmap. apply list_elem_of_filter in Hy as [Hs Hy].
    apply H. by rewrite (addr_inj _ x y (wf_addr f Hwf)).
Qed.

Lemma delete_middle {A} (a l : list A) x : delete (length a) (a ++ x :: l) = a ++ l.
Proof. by rewrite delete_middle. Qed.

Lemma erase_equal_spec key m : forall fuel a b f,
  m <> [] -> (length m <= fuel)%nat -> set_ f = a ++ m ++ b -> Forall (same key) m -> Forall (greater key) b ->
  erase_equal fuel key (length a) f = with_lists (a ++ b) (fold_left (fun l x => erase_object x l) m (list_ f)) f.
Proof.
  induction m as [|x m IH]; intros fuel a b f Hn Hf E Hm Hb; [done|]. destruct fuel as [|fuel]; [cbn in Hf; lia|].
  apply Forall_cons in Hm as [Hx Hm]. cbn [erase_equal]. rewrite E, lookup_middle. cbn [app head set_ with_lists].
  rewrite delete_middle, lookup_middle. destruct m as [|y m]; cbn [app head].
  - destruct b as [|y b]; [done|]. cbn [head]. apply Forall_cons in Hb as [Hy _].
    destruct (iequals key (name_string y)) eqn:Ei; [|done]. apply iequals_true in Ei. by apply greater_not_same in Hy.
  - pose proof Hm as [Hy _]%Forall_cons. assert (iequals key (name_string y) = true) as -> by (apply iequals_true; symmetry; exact Hy).
    cbn [negb]. rewrite (IH fuel a b); try done. cbn [length] in *. lia.
Qed.

Lemma insert_before_middle a m b e : insert_before (length a) e (a ++ m ++ b) = a ++ e :: m ++ b.
Proof. unfold insert_before. by rewrite take_app_length, drop_app_length. Qed.

(** A new object. *)
Definition fresh (e : element) (f : basic_fields) : Prop :=
  Forall u8 (name_string e) /\ (addr e < allocated f)%nat /\ addr e ∉ map addr (list_ f).

Lemma filter_not_same_other key key' (l : list element) :
  lower key' <> lower key -> filter (same key') (filter (fun x => ~ same key x) l) = filter (same key') l.
Proof. intros N. rewrite list_filter_filter. apply list_filter_iff. intros x. unfold same. split; [by intros []|]. intros H. split; congruence. Qed.

Lemma filter_not_same_self key (l : list element) : filter (same key) (filter (fun x => ~ same key x) l) = [].
Proof. apply filter_none, Forall_forall. intros x [H _]%list_elem_of_filter. done. Qed.

Lemma forall_filter {A} (P Q : A -> Prop) `{!forall x, Decision (Q x)} (l : list A) : Forall P l -> Forall P (filter Q l).
Proof. rewrite !Forall_forall. intros Hl x [_ Hx]%list_elem_of_filter. by apply Hl. Qed.

Lemma nodup_filter_addr (Q : element -> Prop) `{!forall x, Decision (Q x)} l : NoDup (map addr l) -> NoDup (map addr (filter Q l)).
Proof. intros Hl. eapply sublist_NoDup; [exact Hl|]. apply (fmap_sublist addr), sublist_filter. Qed.

Lemma not_in_filter_addr (Q : element -> Prop) `{!forall x, Decision (Q x)} n l : n ∉ map addr l -> n ∉ map addr (filter Q l).
Proof. intros Hl [x [E Hx]]%list_elem_of_fmap. apply Hl. apply list_elem_of_fmap. exists x. split; [done|]. by apply list_elem_of_filter in Hx as [_ Hx]. Qed.

Lemma set_element_spec e f : wf f -> fresh e f ->
  wf (set_element e f) /\ list_ (set_element e f) = filter (fun x => ~ same (name_string e) x) (list_ f) ++ [e].
Proof.
  intros Hwf (Hu & Hal & Hfr). set (key := name_string e) in *.
  destruct (split_set key f Hwf Hu) as (a & m & b & E & Hlo & _ & Ha & Hm & Hb).
  assert (filter (same key) (list_ f) = m) as Hsame by (by rewrite <- (wf_same f Hwf), E, filter_split).
  assert (set_element e f = with_lists (a ++ e :: b) (filter (fun x => ~ same key x) (list_ f) ++ [e]) f) as ->.
  { unfold set_element. fold key. rewrite Hlo, E, lookup_middle. destruct m as [|x m]; cbn [app].
    - assert (filter (fun x => ~ same key x) (list_ f) = list_ f) as -> by (apply filter_all, Forall_forall; intros x Hx Hs; by apply (filter_nil_not_elem_of _ _ _ Hsame Hs)).
      change (a ++ b) with (a ++ [] ++ b). destruct b as [|y b]; cbn [head]; [by rewrite insert_before_middle|].
      apply Forall_cons in Hb as [Hy _]. destruct (iequals key (name_string y)) eqn:Ei; [|cbn [negb]; by rewrite insert_before_middle].
      apply iequals_true in Ei. by apply greater_not_same in Hy.
    - cbn [head]. pose proof Hm as [Hx _]%Forall_cons.
      assert (iequals key (name_string x) = true) as -> by (apply iequals_true; symmetry; exact Hx). cbn [negb].
      rewrite (erase_equal_spec key (x :: m) _ a b); try done; [|repeat (rewrite length_app || cbn [length app]); lia]. cbn [set_ list_ with_lists].
      change (a ++ b) with (a ++ [] ++ b). rewrite insert_before_middle. rewrite <- Hsame at 1. by rewrite fold_erase. }
  split; [|done]. pose proof Hwf as [_ _ Wn Wd Wal].
  apply (replace_wf key f _ a m [e] b); try done; cbn [list_ with_lists allocated].
  - by repeat constructor.
  - rewrite filter_app, filter_not_same_self. by rewrite filter_cons_True.
  - intros key' N. rewrite filter_app, filter_not_same_other by done. rewrite filter_cons_False; [by rewrite app_nil_r|]. intros Hs. apply N. symmetry. exact Hs.
  - apply Forall_app. split; [by apply forall_filter|by constructor].
  - rewrite map_app. apply NoDup_app. split; [by apply nodup_filter_addr|]. split; [|apply NoDup_singleton].
    intros n Hn ->%list_elem_of_singleton. by apply (not_in_filter_addr (fun x => ~ same key x)) in Hfr.
  - apply Forall_app. split; [by apply forall_filter|by constructor].
Qed.

(** [e] after the last field of the same name, or at the end. *)
Fixpoint after_last (key : bytes) (e : element) (l : list element) : list element :=
  match l with
  | [] => [e]
  | x :: l => if decide (same key x /\ Forall (fun y => ~ same key y) l) then x :: e :: l else x :: after_last key e l
  end.

Lemma after_last_none key e l : filter (same key) l = [] -> after_last key e l = l ++ [e].
Proof.
  induction l as [|x l IH]; intros Hf; [done|]. cbn [after_last app].
  assert (~ same key x) as Hx by (intros Hs; apply (filter_nil_not_elem_of _ _ _ Hf Hs); constructor).
  rewrite decide_False by tauto. rewrite filter_cons_False in Hf by done. by rewrite IH.
Qed.

Lemma insert_after_last key x e l :
  NoDup (map addr l) -> last (filter (same key) l) = Some x -> insert_after x e l = after_last key e l.
Proof.
  induction l as [|y l IH]; intros Hd Hl; [done|]. cbn [insert_after after_last map] in *. apply NoDup_cons in Hd as [Hy Hd].
  destruct (decide (same key y /\ Forall (fun z => ~ same key z) l)) as [[Hs Hn]|Hn].
  - rewrite filter_cons_True, (filter_none _ l) in Hl by done. injection Hl as ->. by rewrite Nat.eqb_refl.
  - assert (last (filter (same key) l) = Some x) as Hl'.
    { destruct (decide (same key y)) as [Hs|Hs]; [|by rewrite filter_cons_False in Hl]. rewrite filter_cons_True in Hl by done.
      destruct (filter (same key) l) as [|z r] eqn:E; [|done]. exfalso. apply Hn. split; [done|]. apply Forall_forall. intros z Hz Hsz.
      by apply (filter_nil_not_elem_of _ _ _ E Hsz). }
    destruct (Nat.eqb_spec (addr y) (addr x)) as [E|]; [|by rewrite IH]. exfalso. apply Hy. rewrite E. apply list_elem_of_fmap. exists x. split; [done|].
    apply last_Some_elem_of in Hl'. by apply list_elem_of_filter in Hl' as [_ Hl'].
Qed.

Lemma after_last_perm key e l : after_last key e l ≡ₚ e :: l.
Proof.
  induction l as [|x l IH]; [done|]. cbn [after_last]. destruct (decide _); [apply Permutation_swap|]. rewrite IH. apply Permutation_swap.
Qed.

Lemma after_last_filter key e l : same key e -> filter (same key) (after_last key e l) = filter (same key) l ++ [e].
Proof.
  intros He. induction l as [|x l IH]; [cbn [after_last]; by rewrite filter_cons_True|]. cbn [after_last].
  destruct (decide _) as [[Hx Hn]|]; [rewrite !filter_cons_True by done; by rewrite filter_none|].
  destruct (decide (same key x)); [rewrite !filter_cons_True by done|rewrite !filter_cons_False by done]; by rewrite IH.
Qed.

Lemma after_last_other key key' e l : ~ same key' e -> filter (same key') (after_last key e l) = filter (same key') l.
Proof.
  intros He. induction l as [|x l IH]; [cbn [after_last]; by rewrite filter_cons_False|]. cbn [after_last].
  destruct (decide _); destruct (decide (same key' x));
    repeat first [rewrite filter_cons_True by done | rewrite filter_cons_False by done | rewrite IH]; done.
Qed.

Lemma erase_spec key f : wf f -> Forall u8 key ->
  wf (snd (erase key f)) /\ fst (erase key f) = length (filter (same key) (list_ f)) /\
  list_ (snd (erase key f)) = filter (fun x => ~ same key x) (list_ f).
Proof.
  intros Hwf Hk. destruct (split_set key f Hwf Hk) as (a & m & b & E & Hlo & Hhi & Ha & Hm & Hb).
  assert (filter (same key) (list_ f) = m) as Hsame by (by rewrite <- (wf_same f Hwf), E, filter_split).
  unfold erase. rewrite Hlo, Hhi, E. replace (length a + length m - length a)%nat with (length m) by lia.
  rewrite drop_app_length, take_app_length, take_app_length. rewrite <- drop_drop, !drop_app_length. cbn [fst snd list_ with_lists].
  rewrite <- Hsame at 1 3. rewrite fold_erase by done. split; [|by rewrite Hsame].
  pose proof Hwf as [_ _ Wn Wd Wal]. apply (replace_wf key f _ a m [] b); try done; cbn [list_ with_lists allocated].
  - apply filter_not_same_self.
  - intros key' N. by apply filter_not_same_other.
  - by apply forall_filter.
  - by apply nodup_filter_addr.
  - by apply forall_filter.
Qed.

(** The part of [insert] after the new object. *)
Lemma insert_spec_object (f : basic_fields) e :
  wf f -> fresh e f ->
  let before := upper_bound (name_string e) (set_ f) in
  let set' := insert_before before e (set_ f) in
  let push_back := if (count (name_string e) f =? 0)%nat then Ret (with_lists set' (list_ f ++ [e]) f) else Undef in
  exists f',
    match before with
    | O => push_back
    | S last =>
        match set_ f !! last with
        | None => Undef
        | Some last =>
            if negb (iequals (name_string e) (name_string last)) then push_back
            else Ret (with_lists set' (insert_after last e (list_ f)) f)
        end
    end = (Ret f' : cpp basic_fields) /\ wf f' /\ list_ f' = after_last (name_string e) e (list_ f) /\ method_ f' = method_ f /\ target_or_reason_ f' = target_or_reason_ f.
Proof.
  intros Hwf (Hu & Hal & Hfr). set (key := name_string e) in *. cbn zeta.
  destruct (split_set key f Hwf Hu) as (a & m & b & E & Hlo & Hhi & Ha & Hm & Hb).
  assert (filter (same key) (list_ f) = m) as Hsame by (by rewrite <- (wf_same f Hwf), E, filter_split).
  assert (count key f = length m) as -> by (unfold count; rewrite Hlo, Hhi; lia).
  assert (same key e) as He by done.
  assert (insert_before (upper_bound key (set_ f)) e (set_ f) = a ++ (m ++ [e]) ++ b) as Hset.
  { rewrite Hhi, E. replace (length a + length m)%nat with (length (a ++ m)) by (by rewrite length_app). rewrite app_assoc.
    unfold insert_before. rewrite take_app_length, drop_app_length. by rewrite <- !app_assoc. }
  assert (wf (with_lists (a ++ (m ++ [e]) ++ b) (after_last key e (list_ f)) f)) as Hwf'.
  { pose proof Hwf as [_ _ Wn Wd Wal]. apply (replace_wf key f _ a m (m ++ [e]) b); try done; cbn [list_ with_lists allocated].
    - apply Forall_app. split; [done|by constructor].
    - by rewrite after_last_filter, Hsame.
    - intros key' N. apply after_last_other. intros Hs. apply N. symmetry. exact Hs.
    - rewrite after_last_perm. by constructor.
    - rewrite after_last_perm. cbn [map]. by constructor.
    - rewrite after_last_perm. by constructor. }
  eexists. rewrite Hset. split; [|split; [exact Hwf'|done]]. rewrite Hhi, E. destruct m as [|y m] using rev_ind.
  - rewrite (after_last_none key e (list_ f)) by done. cbn [length app]. rewrite Nat.add_0_r. destruct a as [|x a] using rev_ind; [done|]. clear IHa.
    rewrite length_app, Nat.add_comm. cbn [length Nat.add]. rewrite <- app_assoc, lookup_middle. cbn [app head].
    apply Forall_app in Ha as [_ [Hx _]%Forall_cons].
    destruct (iequals key (name_string x)) eqn:Ei; [|done]. apply iequals_true in Ei. by apply less_not_same in Hx.
  - clear IHm. rewrite length_app. cbn [length]. replace (length a + (length m + 1))%nat with (S (length (a ++ m))) by (rewrite length_app; lia).
    rewrite <- !app_assoc. rewrite (app_assoc a m ([y] ++ b)), lookup_middle. cbn [app head].
    apply Forall_app in Hm as [_ [Hy _]%Forall_cons].
    assert (iequals key (name_string y) = true) as -> by (apply iequals_true; symmetry; exact Hy). cbn [negb].
    rewrite (insert_after_last key); [done|apply Hwf|]. by rewrite Hsame, last_snoc.
Qed.

(** *** The contract *)

(** The fields of a message: name as a number, name, and value. *)
Abbreviation entry := (nat * bytes * bytes)%type.
Definition view (x : element) : entry := (name x, name_string x, value x).
Definition has_name (key : bytes) (x : entry) : Prop := lower x.1.2 = lower key.
#[export] Instance has_name_dec key x : Decision (has_name key x).
Proof. unfold has_name. apply _. Defined.

Fixpoint spec_insert (e : entry) (l : list entry) : list entry :=
  match l with
  | [] => [e]
  | x :: l => if decide (has_name e.1.2 x /\ Forall (fun y => ~ has_name e.1.2 y) l) then x :: e :: l else x :: spec_insert e l
  end.
Definition spec_set (e : entry) (l : list entry) : list entry := filter (fun x => ~ has_name e.1.2 x) l ++ [e].
Definition spec_entry (name : nat) (sname value : bytes) : cpp entry :=
  if (65535 <? Z.of_nat (length sname) + 2) || (65535 <? Z.of_nat (length value) + 2) then Throw std_length_error
  else Ret (name, sname, rfc7230.trim value).

(** The operations that change the container. *)
Inductive call :=
  | CallSet (name : nat) (value : bytes)
  | CallSetString (sname value : bytes)
  | CallInsert (name : nat) (sname value : bytes)
  | CallErase (key : bytes).

Definition run_fields_call (c : call) (f : basic_fields) : cpp basic_fields :=
  match c with
  | CallSet name value => set name value f
  | CallSetString sname value => set_string sname value f
  | CallInsert name sname value => insert name sname value f
  | CallErase key => Ret (snd (erase key f))
  end.

Definition spec_call (c : call) (l : list entry) : cpp (list entry) :=
  match c with
  | CallSet name value => let* e := spec_entry name (field_table.to_string name) value in Ret (spec_set e l)
  | CallSetString sname value => let* e := spec_entry (field_table.string_to_field sname) sname value in Ret (spec_set e l)
  | CallInsert name sname value => let* e := spec_entry name sname value in Ret (spec_insert e l)
  | CallErase key => Ret (filter (fun x => ~ has_name key x) l)
  end.

Definition call_ok (c : call) : Prop :=
  match c with
  | CallSet name _ => name <> field_table.unknown
  | CallSetString s _ | CallInsert _ s _ | CallErase s => Forall u8 s
  end.

Lemma view_filter key l : map view (filter (same key) l) = filter (has_name key) (map view l).
Proof.
  induction l as [|x l IH]; [done|]. cbn [map]. destruct (decide (same key x)) as [H|H].
  - by rewrite !filter_cons_True, <- IH.
  - by rewrite !filter_cons_False, <- IH.
Qed.

Lemma view_filter_not key l : map view (filter (fun x => ~ same key x) l) = filter (fun x => ~ has_name key x) (map view l).
Proof.
  induction l as [|x l IH]; [done|]. cbn [map]. destruct (decide (same key x)) as [H|H].
  - rewrite filter_cons_False, filter_cons_False by tauto. exact IH.
  - rewrite filter_cons_True, filter_cons_True by done. cbn [map]. by rewrite <- IH.
Qed.

Lemma view_after_last e l : map view (after_last (name_string e) e l) = spec_insert (view e) (map view l).
Proof.
  induction l as [|x l IH]; [done|]. cbn [after_last map spec_insert].
  assert (same (name_string e) x /\ Forall (fun y => ~ same (name_string e) y) l <->
    has_name (view e).1.2 (view x) /\ Forall (fun y => ~ has_name (view e).1.2 y) (map view l)) as H.
  { apply and_iff_compat_l. by rewrite Forall_map. }
  destruct (decide (same _ x /\ _)) as [H1|H1]; [rewrite decide_True by tauto; done|rewrite decide_False by tauto].
  cbn [map]. by rewrite IH.
Qed.

Lemma new_element_spec name sname value f : wf f -> Forall u8 sname ->
  match new_element name sname value f, spec_entry name sname value with
  | Ret (e, f'), Ret v => view e = v /\ name_string e = sname /\ wf f' /\ fresh e f' /\ list_ f' = list_ f /\
      method_ f' = method_ f /\ target_or_reason_ f' = target_or_reason_ f
  | Throw e, Throw e' => e = e'
  | _, _ => False
  end.
Proof.
  intros [Ws Wf Wn Wd Wal] Hu. unfold new_element, spec_entry. unfold off_t_max.
  destruct (Nat.ltb_spec (Z.to_nat 65535) (length sname + 2)), (Z.ltb_spec 65535 (Z.of_nat (length sname) + 2)); try lia; cbn [orb]; [done|].
  destruct (Nat.ltb_spec (Z.to_nat 65535) (length value + 2)), (Z.ltb_spec 65535 (Z.of_nat (length value) + 2)); try lia; [done|].
  split; [done|]. split; [done|]. split; [|split; [|done]].
  - split; cbn; try done. eapply List.Forall_impl; [|exact Wal]. intros x. cbn. lia.
  - split; [done|]. split; cbn; [lia|]. intros [x [E Hx]]%list_elem_of_fmap. rewrite Forall_forall in Wal. specialize (Wal x Hx). cbn in Wal. lia.
Qed.

Lemma name_u8 n : Forall u8 (field_table.to_string n).
Proof.
  unfold field_table.to_string. rewrite nth_lookup. destruct (field_table.by_name_ !! n) as [k|] eqn:E; [|constructor]. cbn.
  pose proof names_u8 as H. rewrite Forall_lookup in H. by apply (H n).
Qed.

(** Each operation does to the list what the contract says. *)
Lemma run_fields_call_spec c f : wf f -> call_ok c ->
  match run_fields_call c f, spec_call c (map view (list_ f)) with
  | Ret f', Ret l => wf f' /\ map view (list_ f') = l
  | Throw e, Throw e' => e = e'
  | _, _ => False
  end.
Proof.
  intros Hwf Hc. destruct c as [name value|sname value|name sname value|key]; cbn [run_fields_call spec_call].
  - unfold set. rewrite (proj2 (Nat.eqb_neq _ _)) by exact Hc. pose proof (new_element_spec name (field_table.to_string name) value f Hwf (name_u8 name)) as H.
    destruct (new_element _ _ _ _) as [[e f']| |], (spec_entry _ _ _) as [v| |]; cbn [obind]; try done.
    destruct H as (<- & En & Hwf' & Hf & El & _). destruct (set_element_spec e f' Hwf' Hf) as [H1 H2]. split; [done|].
    rewrite H2, map_app, view_filter_not, El. done.
  - unfold set_string. pose proof (new_element_spec (field_table.string_to_field sname) sname value f Hwf Hc) as H.
    destruct (new_element _ _ _ _) as [[e f']| |], (spec_entry _ _ _) as [v| |]; cbn [obind]; try done.
    destruct H as (<- & En & Hwf' & Hf & El & _). destruct (set_element_spec e f' Hwf' Hf) as [H1 H2]. split; [done|].
    rewrite H2, map_app, view_filter_not, El. done.
  - unfold insert. pose proof (new_element_spec name sname value f Hwf Hc) as H.
    destruct (new_element _ _ _ _) as [[e f']| |], (spec_entry _ _ _) as [v| |]; cbn [obind]; try done.
    destruct H as (<- & <- & Hwf' & Hf & El & _). destruct (insert_spec_object f' e Hwf' Hf) as (f2 & -> & H1 & H2 & _). split; [done|].
    by rewrite H2, view_after_last, El.
  - destruct (erase_spec key f Hwf Hc) as (H1 & _ & H2). split; [done|]. by rewrite H2, view_filter_not.
Qed.

Fixpoint run_fields_calls (cs : list call) (f : basic_fields) : cpp basic_fields :=
  match cs with [] => Ret f | c :: cs => let* f := run_fields_call c f in run_fields_calls cs f end.
Fixpoint spec_calls (cs : list call) (l : list entry) : cpp (list entry) :=
  match cs with [] => Ret l | c :: cs => let* l := spec_call c l in spec_calls cs l end.

Lemma run_fields_calls_spec cs : forall f, wf f -> Forall call_ok cs ->
  match run_fields_calls cs f, spec_calls cs (map view (list_ f)) with
  | Ret f', Ret l => wf f' /\ map view (list_ f') = l
  | Throw e, Throw e' => e = e'
  | _, _ => False
  end.
Proof.
  induction cs as [|c cs IH]; intros f Hwf Hc; cbn [run_fields_calls spec_calls]; [done|]. apply Forall_cons in Hc as [Hc Hcs].
  pose proof (run_fields_call_spec c f Hwf Hc) as H. destruct (run_fields_call c f) as [f'|e|], (spec_call c _) as [l|e'|]; cbn [obind]; try done.
  destruct H as [Hwf' <-]. by apply IH.
Qed.

(** Lists with the same objects under every name. *)
Lemma filters_perm n : forall l l' : list element,
  (length l <= n)%nat -> (forall key, filter (same key) l = filter (same key) l') -> l ≡ₚ l'.
Proof.
  induction n as [|n IH]; intros l l' Hl Hf.
  - destruct l; [|cbn in Hl; lia]. destruct l' as [|y l']; [done|]. specialize (Hf (name_string y)). by rewrite filter_cons_True in Hf.
  - destruct l as [|x l]; [apply (IH [] l'); [cbn; lia|done]|]. set (key := name_string x).
    rewrite <- (filter_app_complement (same key) (x :: l)), <- (filter_app_complement (same key) l'), <- Hf. f_equiv.
    apply IH.
    + assert (length (filter (fun y => ~ same key y) (x :: l)) < length (x :: l))%nat; [|lia]. apply (length_filter_lt _ _ x); [constructor|]. intros H. by apply H.
    + intros key'. destruct (decide (lower key' = lower key)) as [E|N].
      * by rewrite !(filter_same_lower key key'), !filter_not_same_self by done.
      * by rewrite !filter_not_same_other.
Qed.

(** C15: [basic_fields], a sorted multiset and a list of the same objects, is a list of named
    values whose names are compared without case: whatever is inserted, set (but the unknown field) and erased, no assertion fails and the
    same exception ends it or the fields are those of the contract, in its order, and
    [find], [count] and [operator[]] see the first, all, and the first value of a name. *)
Theorem basic_fields_refine_list (cs : list call) :
  Forall call_ok cs ->
  match run_fields_calls cs new_fields, spec_calls cs [] with
  | Ret f, Ret l => map view (list_ f) = l /\ set_ f ≡ₚ list_ f /\ StronglySorted key_le (set_ f) /\
      forall key, Forall u8 key ->
        option_map view (find key f) = head (filter (has_name key) l) /\
        count key f = length (filter (has_name key) l) /\
        at_ key f = from_option snd [] (head (filter (has_name key) l))
  | Throw e, Throw e' => e = e'
  | _, _ => False
  end.
Proof.
  intros Hc. pose proof (run_fields_calls_spec cs new_fields new_fields_wf Hc) as H. change (map view (list_ new_fields)) with (@nil entry) in H.
  destruct (run_fields_calls cs new_fields) as [f|e|], (spec_calls cs []) as [l|e'|]; try done. destruct H as [Hwf <-].
  split; [done|]. split; [|split; [apply Hwf|]].
  - by apply (filters_perm (length (set_ f))), Hwf.
  - intros key Hk. unfold at_. rewrite find_spec, count_spec, <- view_filter by done. rewrite length_map.
    destruct (filter (same key) (list_ f)) as [|x r]; done.
Qed.

Lemma basic_fields_refine_list_witness :
  exists f, run_fields_calls [CallInsert 0 (str "b") (str " 1 "); CallInsert 0 (str "A") (str "2"); CallInsert 0 (str "B") (str "3");
      CallSetString (str "a") (str "4")] new_fields = Ret f /\
    map view (list_ f) = [(0%nat, str "b", str "1"); (0%nat, str "B", str "3"); (0%nat, str "a", str "4")] /\
    at_ (str "B") f = str "1" /\ count (str "B") f = 2%nat.
Proof.
  assert (Forall call_ok [CallInsert 0 (str "b") (str " 1 "); CallInsert 0 (str "A") (str "2"); CallInsert 0 (str "B") (str "3");
      CallSetString (str "a") (str "4")]) as Hc by (repeat (apply List.Forall_cons; [cbn [call_ok]; bytes_ok|]); apply List.Forall_nil).
  pose proof (basic_fields_refine_list _ Hc) as H.
  destruct (run_fields_calls _ new_fields) as [f|e|] eqn:E; [|exfalso; vm_compute in E; discriminate E|exfalso; vm_compute in E; discriminate E].
  exists f. split; [reflexivity|]. assert (Forall u8 (str "B")) as Hb by bytes_ok.
  match type of H with match ?s with _ => _ end => let v := eval vm_compute in s in change s with v in H end. cbn iota in H.
  destruct H as (H1 & _ & _ & H2). split; [rewrite H1; reflexivity|].
  specialize (H2 (str "B") Hb). destruct H2 as (_ & H3 & H4). split; [rewrite H4|rewrite H3]; vm_compute; reflexivity.
Defined.
