(* ===== verification/HttpParser.v ===== *)
(** * The parser of HTTP messages

    src/externals/boost/boost/beast/http/detail/basic_parser.hpp and impl/basic_parser.ipp
    with the derived [parser] of http/parser.hpp: a message is parsed from a buffer to
    which bytes are added until its end is there. A pointer into the buffer is what is left
    of the buffer, up to [last]. *)

From Stdlib Require Import ZArith Lia String Ascii.
From stdpp Require Import base list.
From S2P Require Import Prelude Exceptions HttpString HttpFields.

Import rfc7230.

Module http.

(** http/error.hpp. *)
Inductive error :=
  | end_of_stream | partial_message | need_more | unexpected_body | need_buffer | end_of_chunk | buffer_overflow
  | header_limit | body_limit | bad_alloc | bad_line_ending | bad_method | bad_target | bad_version | bad_status
  | bad_reason | bad_field | bad_value | bad_content_length | bad_transfer_encoding | bad_chunk | bad_chunk_extension
  | bad_obs_fold.

#[global] Instance error_eq_dec : EqDecision error.
Proof. solve_decision. Defined.

(** What a parsing function gives: a value and the pointer after it, or an error. *)
Inductive parsed (A : Type) := Parsed (a : A) (rest : bytes) | Error (e : error).
Arguments Parsed {A} a rest.
Arguments Error {A} e.

(** ** basic_parser_base *)

(** The table of [is_pathchar] is 1 from 33 on, but for 127. *)
Definition is_pathchar (c : Z) : bool := (33 <=? c) && negb (c =? 127).
Definition is_digit (c : Z) : bool := wrap 8 (c - 48) <? 10.
Definition is_print (c : Z) : bool := wrap 8 (c - 32) <? 95.

(** [unhex], without the digit for what is none. *)
Definition unhex (c : Z) : option Z :=
  if (48 <=? c) && (c <=? 57) then Some (c - 48)
  else if (65 <=? c) && (c <=? 70) then Some (c - 55)
  else if (97 <=? c) && (c <=? 102) then Some (c - 87)
  else None.

(** The pointer after the first character that is not in [f], and what is before it. *)
Fixpoint span (f : Z -> bool) (it : bytes) : bytes * bytes :=
  match it with
  | [] => ([], [])
  | c :: it' => if f c then let (v, rest) := span f it' in (c :: v, rest) else ([], it)
  end.

(** [find_eol(it, last, ec)]: none is the null pointer. *)
Inductive eol := Eol (rest : bytes) | NoEol | EolBad.
Fixpoint find_eol (it : bytes) : eol :=
  match it with
  | [] => NoEol
  | c :: it' =>
      if c =? 13 then
        match it' with
        | [] => NoEol
        | d :: it'' => if negb (d =? 10) then EolBad else Eol it''
        end
      else find_eol it'
  end.

(** [find_eom(p, last)]: what is after the end of a header; each step passes a character. *)
Fixpoint find_eom_loop (fuel : nat) (p : bytes) : option bytes :=
  match fuel with
  | O => None
  | S fuel =>
      match p with
      | p0 :: p1 :: p2 :: p3 :: rest =>
          if negb (p3 =? 10) then
            if p3 =? 13 then find_eom_loop fuel (drop 1 p) else find_eom_loop fuel (drop 4 p)
          else if negb (p2 =? 13) then find_eom_loop fuel (drop 4 p)
          else if negb (p1 =? 10) then find_eom_loop fuel (drop 2 p)
          else if negb (p0 =? 13) then find_eom_loop fuel (drop 2 p)
          else Some rest
      | _ => None
      end
  end.
Definition find_eom (p : bytes) : option bytes := find_eom_loop (S (length p)) p.

(** [parse_token_to_eol(p, last, token_last, ec)]: what is before the end of the line; none
    is the null pointer. *)
Inductive line := Line (token rest : bytes) | LineError (e : error) | LineNull.
Definition found_control (c : Z) : bool := negb (is_print c) && (((c <? 32) && negb (c =? 9)) || (c =? 127)).
Fixpoint parse_token_to_eol (p : bytes) : line :=
  match p with
  | [] => LineError need_more
  | c :: p' =>
      if found_control c then
        if c =? 13 then
          match p' with
          | [] => LineError need_more
          | d :: p'' => if negb (d =? 10) then LineError bad_line_ending else Line [] p''
          end
        else LineNull
      else
        match parse_token_to_eol p' with
        | Line token rest => Line (c :: token) rest
        | r => r
        end
  end.

(** [parse_dec] of a [std::uint64_t]. *)
Fixpoint parse_dec_loop (tmp : Z) (it : bytes) : option Z :=
  match it with
  | [] => Some tmp
  | c :: it =>
      if negb (is_digit c) || ((2 ^ 64 - 1) / 10 <? tmp) then None
      else
        let tmp := tmp * 10 in
        let d := c - 48 in
        if 2 ^ 64 - 1 - tmp <? d then None else parse_dec_loop (tmp + d) it
  end.
Definition parse_dec (it : bytes) : option Z := match it with [] => None | _ => parse_dec_loop 0 it end.

(** [parse_hex] of a [std::uint64_t]; the text ends before its buffer does. *)
Fixpoint parse_hex_loop (tmp : Z) (it : bytes) : option (Z * bytes) :=
  match it with
  | [] => Some (tmp, it)
  | c :: it' =>
      match unhex c with
      | None => Some (tmp, it)
      | Some d =>
          if (2 ^ 64 - 1) / 16 <? tmp then None
          else
            let tmp := tmp * 16 in
            if 2 ^ 64 - 1 - tmp <? d then None else parse_hex_loop (tmp + d) it'
      end
  end.
Definition parse_hex (it : bytes) : option (Z * bytes) :=
  match unhex (hd 0 it) with None => None | Some _ => parse_hex_loop 0 it end.

Definition parse_crlf (it : bytes) : option bytes :=
  match it with c :: d :: it => if (c =? 13) && (d =? 10) then Some it else None | _ => None end.

(** [parse_method] and [parse_target]: what is in [f], and a space. *)
Definition parse_word (f : Z -> bool) (bad : error) (it : bytes) : parsed bytes :=
  match span f it with
  | (_, []) => Error need_more
  | (v, c :: it) =>
      if negb (c =? 32) then Error bad
      else match v with [] => Error bad | _ => Parsed v it end
  end.
Definition parse_method (it : bytes) : parsed bytes := parse_word is_token_char bad_method it.
Definition parse_target (it : bytes) : parsed bytes := parse_word is_pathchar bad_target it.

Definition parse_version (it : bytes) : parsed Z :=
  match it with
  | h :: t :: t' :: p :: s :: d :: dot :: e :: rest =>
      if negb (bool_decide ([h; t; t'; p; s] = str "HTTP/")) then Error bad_version
      else if negb (is_digit d) then Error bad_version
      else if negb (dot =? 46) then Error bad_version
      else if negb (is_digit e) then Error bad_version
      else Parsed (10 * (d - 48) + (e - 48)) rest
  | _ => Error need_more
  end.

Definition parse_status (it : bytes) : parsed Z :=
  match it with
  | a :: b :: c :: s :: rest =>
      if negb (is_digit a) then Error bad_status
      else if negb (is_digit b) then Error bad_status
      else if negb (is_digit c) then Error bad_status
      else if negb (s =? 32) then Error bad_status
      else Parsed (100 * (a - 48) + 10 * (b - 48) + (c - 48)) rest
  | _ => Error need_more
  end.

Definition parse_reason (it : bytes) : parsed bytes :=
  match parse_token_to_eol it with
  | Line token rest => Parsed token rest
  | LineError e => Error e
  | LineNull => Error bad_reason
  end.

(** [parse_field]: the loop of the name; its table is the one of [is_token_char]. The
    pointer is at the colon. *)
Fixpoint parse_name (p : bytes) : parsed bytes :=
  match p with
  | [] => Error need_more
  | c :: p' =>
      if c =? 58 then Parsed [] p
      else if negb (is_token_char c) then Error bad_field
      else match parse_name p' with Parsed v rest => Parsed (c :: v) rest | r => r end
  end.

(** A line of a value, without white space around it; one character after it is there. *)
Definition parse_line (p : bytes) : parsed bytes :=
  match skip_ows p with
  | [] => Error need_more
  | first =>
      match parse_token_to_eol first with
      | LineError e => Error e
      | LineNull => Error bad_value
      | Line token p => match p with [] => Error need_more | _ => Parsed (trim_end token) p end
      end
  end.

Definition max_obs_fold : nat := 4096.

(** The lines of an obs-fold after the first that is not empty. *)
Fixpoint parse_obs_fold (fuel : nat) (buf p : bytes) : parsed bytes :=
  match fuel with
  | O => Error need_more
  | S fuel =>
      match parse_line p with
      | Error e => Error e
      | Parsed token p =>
          let folded := match token with [] => buf | _ => buf ++ 32 :: token end in
          if (max_obs_fold <? length folded)%nat then Error header_limit
          else if negb (is_ows (hd 0 p)) then Parsed folded p
          else parse_obs_fold fuel folded (tl p)
      end
  end.

(** The value; an obs-fold goes to a buffer that may be too small for its first line. *)
Fixpoint parse_value (fuel : nat) (p : bytes) : cpp (parsed bytes) :=
  match fuel with
  | O => Ret (Error need_more)
  | S fuel =>
      match parse_line p with
      | Error e => Ret (Error e)
      | Parsed token p =>
          if negb (is_ows (hd 0 p)) then Ret (Parsed token p)
          else
            let p := tl p in
            match token with
            | [] => parse_value fuel p
            | _ => if (max_obs_fold <? length token)%nat then Throw std_length_error
                   else Ret (parse_obs_fold (S (length p)) token p)
            end
      end
  end.

(** [parse_field(p, last, name, value, buf, ec)]. *)
Definition parse_field (p : bytes) : cpp (parsed (bytes * bytes)) :=
  match parse_name p with
  | Error e => Ret (Error e)
  | Parsed [] _ => Ret (Error bad_field)
  | Parsed name rest =>
      let p := tl rest in
      let* v := parse_value (S (length p)) p in
      match v with
      | Error e => Ret (Error e)
      | Parsed value p => Ret (Parsed (name, value) p)
      end
  end.

(** [parse_chunk_extensions]: the characters of a token from the second on, and the rest of a
    quoted string; none is the end of the buffer. *)
Definition ext_token (it : bytes) : option bytes :=
  match span is_token_char it with (_, []) => None | (_, it) => Some it end.
Definition ext_bws (it : bytes) : option bytes := match skip_ows it with [] => None | it => Some it end.
Fixpoint ext_quoted (it : bytes) : option bytes :=
  match it with
  | [] => None
  | c :: it =>
      if c =? 34 then Some it
      else if c =? 92 then match it with [] => None | _ :: it => ext_quoted it end
      else ext_quoted it
  end.

(** The labels [loop] and [semi], at which [at_semi] tells the code is; at [semi] the pointer
    is at the semicolon. *)
Fixpoint chunk_extensions (fuel : nat) (at_semi : bool) (it : bytes) : parsed unit :=
  match fuel with
  | O => Error need_more
  | S fuel =>
      let semi (it : bytes) : parsed unit :=
        match ext_bws (tl it) with
        | None => Error need_more
        | Some it =>
            if negb (is_token_char (hd 0 it)) then Error bad_chunk_extension
            else
              match ext_token (tl it) with
              | None => Error need_more
              | Some it =>
                  let bws := is_ows (hd 0 it) in
                  match ext_bws it with
                  | None => Error need_more
                  | Some it =>
                      if hd 0 it =? 59 then chunk_extensions fuel true it
                      else if negb (hd 0 it =? 61) then if bws then Error bad_chunk_extension else Parsed tt it
                      else
                        match ext_bws (tl it) with
                        | None => Error need_more
                        | Some it =>
                            if negb (hd 0 it =? 34) then
                              if negb (is_token_char (hd 0 it)) then Error bad_chunk_extension
                              else match ext_token (tl it) with None => Error need_more | Some it => chunk_extensions fuel false it end
                            else match ext_quoted (tl it) with None => Error need_more | Some it => chunk_extensions fuel false it end
                        end
                  end
              end
        end in
      if at_semi then semi it
      else
        match it with
        | [] => Error need_more
        | c :: _ =>
            if negb (is_ows c) && negb (c =? 59) then Parsed tt it
            else
              match ext_bws it with
              | None => Error need_more
              | Some it => if negb (hd 0 it =? 59) then Error bad_chunk_extension else semi it
              end
        end
  end.
Definition parse_chunk_extensions (it : bytes) : parsed unit := chunk_extensions (S (length it)) false it.

Example parse_field_fold : parse_field (str "a:  b " ++ [13; 10; 32] ++ str "c" ++ [13; 10; 13]) = Ret (Parsed (str "a", str "b c") [13]).
Proof. reflexivity. Qed.

(** ** basic_parser and parser *)

Inductive state :=
  | nothing_yet | start_line | in_fields | body0 | in_body | body_to_eof0 | body_to_eof | chunk_header0 | chunk_header
  | chunk_body | complete.

#[global] Instance state_eq_dec : EqDecision state.
Proof. solve_decision. Defined.

Definition flagSkipBody : Z := 1.
Definition flagEager : Z := 2.
Definition flagHasBody : Z := 8.
Definition flagHTTP11 : Z := 16.
Definition flagNeedEOF : Z := 32.
Definition flagExpectCRLF : Z := 64.
Definition flagConnectionClose : Z := 128.
Definition flagConnectionUpgrade : Z := 256.
Definition flagConnectionKeepAlive : Z := 512.
Definition flagContentLength : Z := 1024.
Definition flagChunked : Z := 2048.
Definition flagUpgrade : Z := 4096.
Definition flagFinalChunk : Z := 8192.

(** [message]: [method_] is of a request and [result_] of a response; a body of the type
    [empty_body] is always empty. *)
Record message := mk_message {
  version_ : Z;
  method_ : verb.t;
  result_ : Z;
  fields_ : fields.basic_fields;
  body_ : bytes
}.
Definition new_message : message := mk_message 11 verb.unknown 200 fields.new_fields [].

(** [string_body] or [empty_body]. *)
Inductive body_type := string_body | empty_body.

(** The members of [basic_parser] and of [parser]; [buf_len_] is the length of [buf_]. *)
Record parser := mk_parser {
  body_limit_ : Z;
  len_ : Z;
  buf_ : bytes;
  skip_ : nat;
  header_limit_ : nat;
  status_ : Z;
  state_ : state;
  f_ : Z;
  m_ : message
}.

Definition flag (b : Z) (p : parser) : bool := negb (Z.land (f_ p) b =? 0).
Definition set_flag (b : Z) (p : parser) : parser :=
  mk_parser (body_limit_ p) (len_ p) (buf_ p) (skip_ p) (header_limit_ p) (status_ p) (state_ p) (Z.lor (f_ p) b) (m_ p).
Definition set_state (x : state) (p : parser) : parser :=
  mk_parser (body_limit_ p) (len_ p) (buf_ p) (skip_ p) (header_limit_ p) (status_ p) x (f_ p) (m_ p).
Definition set_skip (x : nat) (p : parser) : parser :=
  mk_parser (body_limit_ p) (len_ p) (buf_ p) x (header_limit_ p) (status_ p) (state_ p) (f_ p) (m_ p).
Definition set_len (x : Z) (p : parser) : parser :=
  mk_parser (body_limit_ p) x (buf_ p) (skip_ p) (header_limit_ p) (status_ p) (state_ p) (f_ p) (m_ p).
Definition set_body_limit (x : Z) (p : parser) : parser :=
  mk_parser x (len_ p) (buf_ p) (skip_ p) (header_limit_ p) (status_ p) (state_ p) (f_ p) (m_ p).
Definition set_status (x : Z) (p : parser) : parser :=
  mk_parser (body_limit_ p) (len_ p) (buf_ p) (skip_ p) (header_limit_ p) x (state_ p) (f_ p) (m_ p).
Definition set_message (m : message) (p : parser) : parser :=
  mk_parser (body_limit_ p) (len_ p) (buf_ p) (skip_ p) (header_limit_ p) (status_ p) (state_ p) (f_ p) m.
Definition set_buf (x : bytes) (p : parser) : parser :=
  mk_parser (body_limit_ p) (len_ p) x (skip_ p) (header_limit_ p) (status_ p) (state_ p) (f_ p) (m_ p).
Definition set_fields (f : fields.basic_fields) (m : message) : message := mk_message (version_ m) (method_ m) (result_ m) f (body_ m).

(** [eager(bool)]. *)
Definition set_eager (v : bool) (p : parser) : parser :=
  mk_parser (body_limit_ p) (len_ p) (buf_ p) (skip_ p) (header_limit_ p) (status_ p) (state_ p)
    (if v then Z.lor (f_ p) flagEager else Z.land (f_ p) (Z.lnot flagEager)) (m_ p).

Definition is_done (p : parser) : bool := bool_decide (state_ p = complete).
Definition got_some (p : parser) : bool := negb (bool_decide (state_ p = nothing_yet)).
Definition is_header_done (p : parser) : bool :=
  match state_ p with nothing_yet | start_line | in_fields => false | _ => true end.
Definition upgrade (p : parser) : bool := flag flagConnectionUpgrade p.
Definition chunked (p : parser) : bool := flag flagChunked p.
Definition need_eof (p : parser) : bool := flag flagNeedEOF p.

(** A [BOOST_ASSERT]. *)
Definition assert_ (b : bool) : cpp unit := if b then Ret tt else Undef.

Definition keep_alive (p : parser) : cpp bool :=
  let* _ := assert_ (is_header_done p) in
  if flag flagHTTP11 p && flag flagConnectionClose p then Ret false
  else if negb (flag flagHTTP11 p) && negb (flag flagConnectionKeepAlive p) then Ret false
  else Ret (negb (flag flagNeedEOF p)).
Definition content_length (p : parser) : cpp (option Z) :=
  let* _ := assert_ (is_header_done p) in
  Ret (if negb (flag flagContentLength p) then None else Some (len_ p)).

(** [skip(bool)]. *)
Definition skip_body (v : bool) (p : parser) : cpp parser :=
  let* _ := assert_ (negb (got_some p)) in
  Ret (mk_parser (body_limit_ p) (len_ p) (buf_ p) (skip_ p) (header_limit_ p) (status_ p) (state_ p)
    (if v then Z.lor (f_ p) flagSkipBody else Z.land (f_ p) (Z.lnot flagSkipBody)) (m_ p)).

(** *** The callbacks of [parser] *)

Definition on_request_impl (method : verb.t) (method_str target : bytes) (version : Z) (m : message) : message :=
  let f := fields.set_target_impl target (fields_ m) in
  if negb (bool_decide (method = verb.unknown)) then mk_message version method (result_ m) (fields.set_method_impl [] f) (body_ m)
  else
    let v := verb.string_to_verb method_str in
    mk_message version v (result_ m) (fields.set_method_impl (if negb (bool_decide (v = verb.unknown)) then [] else method_str) f) (body_ m).

Definition on_response_impl (code : Z) (reason : bytes) (version : Z) (m : message) : message :=
  mk_message version (method_ m) code (fields.set_reason_impl reason (fields_ m)) (body_ m).

Definition on_field_impl (name : nat) (name_string value : bytes) (m : message) : cpp message :=
  let* f := fields.insert name name_string value (fields_ m) in Ret (set_fields f m).

(** [rd_.put]: the number of bytes, and the error. *)
Definition on_body_impl (b : body_type) (body : bytes) (m : message) : nat * option error * message :=
  match b with
  | string_body => (length body, None, mk_message (version_ m) (method_ m) (result_ m) (fields_ m) (body_ m ++ body))
  | empty_body => (0%nat, Some unexpected_body, m)
  end.

(** *** Fields *)

(** [do_field(f, value, ec)]. *)
Definition do_field (f : nat) (value : bytes) (p : parser) : parser * option error :=
  if (f =? field_table.connection)%nat || (f =? field_table.proxy_connection)%nat then
    if negb (validate_list value) then (p, Some bad_value)
    else
      (fold_left (fun p s =>
        if iequals (str "close") s then set_flag flagConnectionClose p
        else if iequals (str "keep-alive") s then set_flag flagConnectionKeepAlive p
        else if iequals (str "upgrade") s then set_flag flagConnectionUpgrade p
        else p) (fst (opt_token_list value)) p, None)
  else if (f =? field_table.content_length)%nat then
    if flag flagContentLength p then (p, Some bad_content_length)
    else if flag flagChunked p then (p, Some bad_content_length)
    else
      match parse_dec value with
      | None => (p, Some bad_content_length)
      | Some v => (set_flag flagContentLength (set_len v p), None)
      end
  else if (f =? field_table.transfer_encoding)%nat then
    if flag flagChunked p then (p, Some bad_transfer_encoding)
    else if flag flagContentLength p then (p, Some bad_transfer_encoding)
    else
      let it := find_if (S (length value)) (fun s => iequals (str "chunked") s) (begin_ value) in
      if at_end it then (p, None)
      else if negb (at_end (increment it)) then (p, None)
      else (set_flag flagChunked (set_len 0 p), None)
  else if (f =? field_table.upgrade)%nat then (set_flag flagUpgrade p, None)
  else (p, None).

(** [parse_fields(in, last, ec)]: the new parser, and [in]; each field passes a character. *)
Fixpoint parse_fields (fuel : nat) (p : parser) (it : bytes) : cpp (parser * bytes * option error) :=
  match fuel with
  | O => Ret (p, it, Some need_more)
  | S fuel =>
      match it with
      | c :: d :: rest =>
          if c =? 13 then Ret (p, rest, if negb (d =? 10) then Some bad_line_ending else None)
          else
            let* r := parse_field it in
            match r with
            | Error e => Ret (p, it, Some e)
            | Parsed (name, value) rest =>
                let f := field_table.string_to_field name in
                let (p, e) := do_field f value p in
                match e with
                | Some e => Ret (p, it, Some e)
                | None =>
                    let* m := on_field_impl f name value (m_ p) in
                    parse_fields fuel (set_message m p) rest
                end
            end
      | _ => Ret (p, it, Some need_more)
      end
  end.

Section Parser.
(** The template arguments [isRequest] and [Body]. *)
Context (is_request : bool) (body : body_type).

Definition new_parser : parser :=
  mk_parser (if is_request then 1 * 1024 * 1024 else 8 * 1024 * 1024) 0 [] 0 (Z.to_nat 8192) 0 nothing_yet 0 new_message.

(** [maybe_need_more(p, n, ec)]. *)
Definition maybe_need_more (p : parser) (it : bytes) : parser * option error :=
  if (skip_ p =? 0)%nat then (p, None)
  else
    let it := if (header_limit_ p <? length it)%nat then take (header_limit_ p) it else it in
    let n := length it in
    if (n <? skip_ p + 4)%nat then (p, Some need_more)
    else
      match find_eom (drop (skip_ p) it) with
      | None =>
          let p := set_skip (n - 3) p in
          if (header_limit_ p <? skip_ p + 4)%nat then (p, Some header_limit) else (p, Some need_more)
      | Some _ => (set_skip 0 p, None)
      end.

(** [parse_start_line(in, last, ec)] of a request and of a response: the new parser. *)
Definition parse_request_line (p : parser) (it : bytes) : parsed parser :=
  match parse_method it with
  | Error e => Error e
  | Parsed method it =>
      match parse_target it with
      | Error e => Error e
      | Parsed target it =>
          match parse_version it with
          | Error e => Error e
          | Parsed version it =>
              if (version <? 10) || (11 <? version) then Error bad_version
              else
                match it with
                | c :: d :: it =>
                    if negb (c =? 13) || negb (d =? 10) then Error bad_version
                    else
                      let p := if 11 <=? version then set_flag flagHTTP11 p else p in
                      let m := on_request_impl (verb.string_to_verb method) method target version (m_ p) in
                      Parsed (set_state in_fields (set_message m p)) it
                | _ => Error need_more
                end
          end
      end
  end.

(** [status_] keeps what [parse_status] stores before it fails, which nothing reads. *)
Definition parse_status_line (p : parser) (it : bytes) : parsed parser :=
  match parse_version it with
  | Error e => Error e
  | Parsed version it =>
      if (version <? 10) || (11 <? version) then Error bad_version
      else
        match it with
        | [] => Error need_more
        | c :: it =>
            if negb (c =? 32) then Error bad_version
            else
              match parse_status it with
              | Error e => Error e
              | Parsed status it =>
                  match parse_reason it with
                  | Error e => Error e
                  | Parsed reason it =>
                      let p := set_status status p in
                      let p := if 11 <=? version then set_flag flagHTTP11 p else p in
                      let m := on_response_impl status reason version (m_ p) in
                      Parsed (set_state in_fields (set_message m p)) it
                  end
              end
        end
  end.

Definition parse_start_line (p : parser) (it : bytes) : parsed parser :=
  if is_request then parse_request_line p it else parse_status_line p it.

(** What [finish_header] does with a message that may have a body. *)
Definition finish_body (p : parser) (otherwise : parser) : parser * option error :=
  if flag flagContentLength p then
    if body_limit_ p <? len_ p then (p, Some body_limit)
    else if 0 <? len_ p then (set_state body0 (set_flag flagHasBody p), None)
    else (set_state complete p, None)
  else if flag flagChunked p then (set_state chunk_header0 (set_flag flagHasBody p), None)
  else (otherwise, None).

(** [finish_header(ec)]; the callbacks [on_header_impl] and [on_finish_impl] succeed. *)
Definition finish_header (p : parser) : parser * option error :=
  if is_request then
    if flag flagSkipBody p then (set_state complete p, None)
    else finish_body p (set_state complete (set_len 0 p))
  else if flag flagSkipBody p || (status_ p / 100 =? 1) || (status_ p =? 204) || (status_ p =? 304)
  then (set_state complete p, None)
  else finish_body p (set_state body_to_eof0 (set_flag flagNeedEOF (set_flag flagHasBody p))).

(** What [put] does when a part of the header is not complete; [n] is what there was. *)
Definition need_more_header (p : parser) (n : nat) (rest : bytes) (e : error) : parser * error :=
  if bool_decide (e = need_more) then
    if (header_limit_ p <=? n)%nat then (p, header_limit)
    else (if (3 <=? length rest)%nat then set_skip (length rest - 3) p else p, need_more)
  else (p, e).

(** The results of the states of [put]: the pointer after what is parsed, and the error. *)
Abbreviation put_result := (cpp (parser * bytes * option error)).

(** [state::fields]. *)
Definition put_fields (p : parser) (it : bytes) : put_result :=
  let (p, e) := maybe_need_more p it in
  match e with
  | Some e => Ret (p, it, Some e)
  | None =>
      let window := take (header_limit_ p) it in
      let* r := parse_fields (S (length window)) p window in
      let '(p, rest, e) := r in
      let rest := rest ++ drop (header_limit_ p) it in
      match e with
      | Some e => let (p, e) := need_more_header p (length it) rest e in Ret (p, rest, Some e)
      | None => let (p, e) := finish_header p in Ret (p, rest, e)
      end
  end.

(** [state::start_line]. *)
Definition put_start_line (p : parser) (it : bytes) : put_result :=
  let (p, e) := maybe_need_more p it in
  match e with
  | Some e => Ret (p, it, Some e)
  | None =>
      match parse_start_line p (take (header_limit_ p) it) with
      | Error e => let (p, e) := need_more_header p (length it) it e in Ret (p, it, Some e)
      | Parsed p rest =>
          let rest := rest ++ drop (header_limit_ p) it in
          match rest with
          | [] => Ret (p, rest, Some need_more)
          | _ => put_fields p rest
          end
      end
  end.

(** [parse_body] and [parse_body_to_eof]. *)
Definition parse_body (p : parser) (it : bytes) : parser * bytes * option error :=
  let '(n, e, m) := on_body_impl body (take (Z.to_nat (Z.min (len_ p) (Z.of_nat (length it)))) it) (m_ p) in
  let p := set_len (len_ p - Z.of_nat n) (set_message m p) in
  match e with
  | Some e => (p, drop n it, Some e)
  | None => (if 0 <? len_ p then p else set_state complete p, drop n it, None)
  end.
Definition parse_body_to_eof (p : parser) (it : bytes) : parser * bytes * option error :=
  if body_limit_ p <? Z.of_nat (length it) then (p, it, Some body_limit)
  else
    let p := set_body_limit (body_limit_ p - Z.of_nat (length it)) p in
    let '(n, e, m) := on_body_impl body it (m_ p) in
    (set_message m p, drop n it, e).

(** The end of [parse_chunk_header], for the last chunk: [p0] is the start, [it] is after
    the size and [eol] after the line. *)
Definition parse_last_chunk (p : parser) (p0 it eol : bytes) : put_result :=
  match find_eom (drop (skip_ p) p0) with
  | None =>
      let* _ := assert_ (3 <=? length p0)%nat in
      Ret (set_skip (length p0 - 3) p, p0, Some need_more)
  | Some eom =>
      match parse_chunk_extensions it with
      | Error e => Ret (p, p0, Some e)
      | Parsed _ it =>
          if negb (length it =? length eol + 2)%nat then Ret (p, p0, Some bad_chunk_extension)
          else
            let window := take (length eol - length eom) eol in
            let* r := parse_fields (S (length window)) p window in
            let '(p, rest, e) := r in
            match e with
            | Some e => Ret (p, p0, Some e)
            | None => let* _ := assert_ (length rest =? 0)%nat in Ret (set_state complete p, eom, None)
            end
      end
  end.

(** [parse_chunk_header]. *)
Definition parse_chunk_header (p : parser) (p0 : bytes) : put_result :=
  if negb (flag flagFinalChunk p) then
    if (length p0 <? skip_ p + 2)%nat then Ret (p, p0, Some need_more)
    else
      match (if flag flagExpectCRLF p then parse_crlf p0 else Some p0) with
      | None => Ret (p, p0, Some bad_chunk)
      | Some it =>
          match find_eol (drop (skip_ p) p0) with
          | EolBad => Ret (p, p0, Some bad_line_ending)
          | NoEol => Ret (set_skip (length p0 - 1) p, p0, Some need_more)
          | Eol eol =>
              let p := set_skip (length p0 - length eol - 2) p in
              match parse_hex it with
              | None => Ret (p, p0, Some bad_chunk)
              | Some (size, it) =>
                  if negb (size =? 0) then
                    if body_limit_ p <? size then Ret (p, p0, Some body_limit)
                    else
                      let p := set_body_limit (body_limit_ p - size) p in
                      match parse_chunk_extensions it with
                      | Error e => Ret (p, p0, Some e)
                      | Parsed _ it =>
                          if negb (length it =? length eol + 2)%nat then Ret (p, p0, Some bad_chunk_extension)
                          else Ret (set_state chunk_body (set_flag flagExpectCRLF (set_skip 2 (set_len size p))), eol, None)
                      end
                  else parse_last_chunk (set_flag flagFinalChunk p) p0 it eol
              end
          end
      end
  else
    let* _ := assert_ (5 <=? length p0)%nat in
    match (if flag flagExpectCRLF p then parse_crlf p0 else Some p0) with
    | None => Undef
    | Some it =>
        match parse_hex it with
        | None => Undef
        | Some (_, it) => match find_eol it with Eol eol => parse_last_chunk p p0 it eol | _ => Undef end
        end
    end.

(** [parse_chunk_body]. *)
Definition parse_chunk_body (p : parser) (it : bytes) : parser * bytes * option error :=
  let '(n, e, m) := on_body_impl body (take (Z.to_nat (Z.min (len_ p) (Z.of_nat (length it)))) it) (m_ p) in
  let p := set_len (len_ p - Z.of_nat n) (set_message m p) in
  (if len_ p =? 0 then set_state chunk_header p else p, drop n it, e).

(** The states of [put(const_buffer)]; [on_body_init_impl] succeeds. *)
Definition put_state (p : parser) (it : bytes) : put_result :=
  match state_ p with
  | nothing_yet =>
      match it with
      | [] => Ret (p, it, Some need_more)
      | _ => put_start_line (set_state start_line p) it
      end
  | start_line => put_start_line p it
  | in_fields => put_fields p it
  | body0 => let* _ := assert_ (skip_ p =? 0)%nat in Ret (parse_body (set_state in_body p) it)
  | in_body => let* _ := assert_ (skip_ p =? 0)%nat in Ret (parse_body p it)
  | body_to_eof0 => let* _ := assert_ (skip_ p =? 0)%nat in Ret (parse_body_to_eof (set_state body_to_eof p) it)
  | body_to_eof => let* _ := assert_ (skip_ p =? 0)%nat in Ret (parse_body_to_eof p it)
  | chunk_header0 => parse_chunk_header (set_state chunk_header p) it
  | chunk_header => parse_chunk_header p it
  | chunk_body => Ret (parse_chunk_body p it)
  | complete => Ret (p, it, None)
  end.

Fixpoint put_loop (fuel : nat) (p : parser) (it : bytes) : put_result :=
  match fuel with
  | O => Undef
  | S fuel =>
      let* r := put_state p it in
      let '(p, it, e) := r in
      match e with
      | Some e => Ret (p, it, Some e)
      | None => if (0 <? length it)%nat && negb (is_done p) && flag flagEager p then put_loop fuel p it else Ret (p, it, None)
      end
  end.

(** [put(const_buffer, ec)]: what is left of the buffer, and the error. *)
Definition put (p : parser) (buffer : bytes) : put_result :=
  let* _ := assert_ (negb (bool_decide (state_ p = complete))) in
  put_loop (S (S (length buffer))) p buffer.

(** [put(buffers, ec)]: the number of bytes that are parsed, and the error; [noinit] is what
    the memory of a new buffer holds. *)
Definition max_stack_buffer : nat := Z.to_nat 8192.
Definition put_one (p : parser) (buffer : bytes) : cpp (parser * nat * option error) :=
  let* r := put p buffer in
  let '(p, rest, e) := r in Ret (p, (length buffer - length rest)%nat, e).
Definition put_buffers (noinit : nat -> bytes) (p : parser) (buffers : list bytes) : cpp (parser * nat * option error) :=
  match buffers with
  | [] => Ret (p, 0%nat, None)
  | [b] => put_one p b
  | _ =>
      let size := length (concat buffers) in
      if (size <=? max_stack_buffer)%nat then put_one p (concat buffers)
      else
        let p := if (length (buf_ p) <? size)%nat then set_buf (noinit size) p else p in
        let p := set_buf (list_inserts 0 (concat buffers) (buf_ p)) p in
        put_one p (buf_ p)
  end.

(** [put_eof(ec)]. *)
Definition put_eof (p : parser) : cpp (parser * option error) :=
  let* _ := assert_ (got_some p) in
  match state_ p with
  | start_line | in_fields => Ret (p, Some partial_message)
  | _ =>
      if flag flagContentLength p || flag flagChunked p then
        Ret (p, if negb (is_done p) then Some partial_message else None)
      else Ret (set_state complete p, None)
  end.

End Parser.

Definition request_text : bytes :=
  str "GET / HTTP/1.1" ++ [13; 10] ++ str "Host: a" ++ [13; 10] ++ str "Connection: keep-alive,Upgrade" ++ [13; 10; 13; 10] ++ str "x".

Example put_request :
  match put true empty_body (set_eager true (new_parser true)) request_text with
  | Ret (p, rest, e) =>
      (rest, e, state_ p, upgrade p, map view (fields.list_ (fields_ (m_ p)))) =
      (str "x", None, complete, true,
       [(field_table.host, str "Host", str "a"); (field_table.connection, str "Connection", str "keep-alive,Upgrade")])
  | _ => False
  end.
Proof. vm_compute. reflexivity. Qed.

End http.
