(* ===== verification/HttpPieces.v ===== *)
(** * A header in pieces

    The parser of HttpParser.v is given what has come so far, keeps what it could not parse
    yet and looks for the end of the header before it tries again. The result does not
    depend on the pieces in which a header comes. *)

From Stdlib Require Import ZArith Lia String Ascii.
From stdpp Require Import base list.
From S2P Require Import Prelude Exceptions HttpString HttpFields HttpParser.

Import rfc7230 http.

(** ** The end of a header *)

Definition is_eom (p : bytes) : bool :=
  match p with a :: b :: c :: d :: _ => (a =? 13) && (b =? 10) && (c =? 13) && (d =? 10) | _ => false end.

(** What is after the first end of a header. *)
Fixpoint first_eom (p : bytes) : option bytes :=
  match p with
  | [] => None
  | _ :: p' => if is_eom p then Some (drop 4 p) else first_eom p'
  end.

Lemma first_eom_none p : (length p < 4)%nat -> first_eom p = None.
Proof. destruct p as [|a [|b [|c [|d p]]]]; cbn; try done. lia. Qed.

Lemma first_eom_step a p : is_eom (a :: p) = false -> first_eom (a :: p) = first_eom p.
Proof. cbn [first_eom]. by intros ->. Qed.

Ltac no_eom := cbn [is_eom]; repeat match goal with
  | H : ?a <> ?b |- context [?a =? ?b] => rewrite (proj2 (Z.eqb_neq a b) H)
  | |- context [?a =? ?a] => rewrite Z.eqb_refl
  end; rewrite ?andb_false_r; cbn [andb Z.eqb Pos.eqb]; rewrite ?andb_false_r; try done.

(** The search by steps finds the first end. *)
Lemma find_eom_loop_first fuel : forall p, (length p < fuel)%nat -> find_eom_loop fuel p = first_eom p.
Proof.
  induction fuel as [|fuel IH]; intros p Hf; [lia|]. cbn [find_eom_loop].
  destruct p as [|a [|b [|c [|d p]]]]; try (by rewrite first_eom_none by (cbn; lia)).
  assert (forall k, (0 < k)%nat -> find_eom_loop fuel (drop k (a :: b :: c :: d :: p)) = first_eom (drop k (a :: b :: c :: d :: p))) as IH'.
  { intros k Hk. apply IH. rewrite length_drop. cbn [length] in *. lia. }
  assert (forall x q, is_eom (x :: q) = false -> first_eom (x :: q) = first_eom q) as S1 by apply first_eom_step.
  destruct (Z.eqb_spec d 10) as [->|Nd]; cbn [negb].
  - destruct (Z.eqb_spec c 13) as [->|Nc]; cbn [negb].
    + destruct (Z.eqb_spec b 10) as [->|Nb]; cbn [negb].
      * destruct (Z.eqb_spec a 13) as [->|Na]; cbn [negb]; [done|]. rewrite IH' by lia. cbn [drop].
        rewrite (S1 a), (S1 10); [done|destruct p as [|]; no_eom|no_eom].
      * rewrite IH' by lia. cbn [drop]. rewrite (S1 a), (S1 b); [done|destruct p as [|]; no_eom|no_eom].
    + rewrite IH' by lia. cbn [drop].
      rewrite (S1 a), (S1 b), (S1 c), (S1 10); [done|destruct p as [|? [|? [|]]]; no_eom..|no_eom].
  - destruct (Z.eqb_spec d 13) as [->|Nd']; rewrite IH' by lia; cbn [drop].
    + rewrite (S1 a); [done|no_eom].
    + rewrite (S1 a), (S1 b), (S1 c), (S1 d); [done|destruct p as [|? [|? [|]]]; no_eom..|no_eom].
Qed.

Lemma find_eom_first p : find_eom p = first_eom p.
Proof. apply find_eom_loop_first. lia. Qed.

(** An end that is there is found. *)
Lemma first_eom_some q r : first_eom (q ++ 13 :: 10 :: 13 :: 10 :: r) <> None.
Proof. induction q as [|a q IH]; [done|]. cbn [app first_eom]. by destruct (is_eom _). Qed.

(** ** More bytes do not change what is parsed *)

(** What a parsing function finds before the end of its text does not depend on what follows;
    at the end of the text it needs more. *)
Definition stable {A} (r r' : parsed A) (c : bytes) : Prop :=
  match r with
  | Parsed a rest => r' = Parsed a (rest ++ c)
  | Error e => e = need_more \/ r' = Error e
  end.

Lemma span_app f b c :
  match span f b with
  | (_, []) => True
  | (v, rest) => span f (b ++ c) = (v, rest ++ c)
  end.
Proof.
  induction b as [|x b IH]; [done|]. cbn [span app]. destruct (f x); [|done].
  destruct (span f b) as [v rest]. destruct rest as [|y rest]; [done|]. by rewrite IH.
Qed.

Lemma parse_word_stable f bad b c : stable (parse_word f bad b) (parse_word f bad (b ++ c)) c.
Proof.
  unfold parse_word. pose proof (span_app f b c) as H. destruct (span f b) as [v [|x rest]]; [by left|]. rewrite H. cbn [app].
  destruct (x =? 32); cbn [negb]; [|by right]. destruct v; [by right|done].
Qed.

Lemma parse_version_stable b c : stable (parse_version b) (parse_version (b ++ c)) c.
Proof.
  unfold parse_version. do 8 (destruct b as [|? b]; [by left|]). cbn [app].
  repeat match goal with |- context [if ?x then _ else _] => destruct x; [by right|] end. done.
Qed.

Lemma parse_status_stable b c : stable (parse_status b) (parse_status (b ++ c)) c.
Proof.
  unfold parse_status. do 4 (destruct b as [|? b]; [by left|]). cbn [app].
  repeat match goal with |- context [if ?x then _ else _] => destruct x; [by right|] end. done.
Qed.

Lemma parse_token_app b c :
  match parse_token_to_eol b with
  | Line t rest => parse_token_to_eol (b ++ c) = Line t (rest ++ c)
  | LineError e => e = need_more \/ parse_token_to_eol (b ++ c) = LineError e
  | LineNull => parse_token_to_eol (b ++ c) = LineNull
  end.
Proof.
  induction b as [|x b IH]; [by left|]. cbn [parse_token_to_eol app]. destruct (found_control x).
  - destruct (x =? 13); [|done]. destruct b as [|y b]; [by left|]. cbn [app]. destruct (negb (y =? 10)); [by right|done].
  - destruct (parse_token_to_eol b) as [t rest|e|]; [by rewrite IH|destruct IH as [->| ->]; [by left|by right]|by rewrite IH].
Qed.

Lemma parse_reason_stable b c : stable (parse_reason b) (parse_reason (b ++ c)) c.
Proof.
  unfold parse_reason. pose proof (parse_token_app b c) as H. destruct (parse_token_to_eol b) as [t rest|e|]; [by rewrite H| |rewrite H; by right].
  destruct H as [->| ->]; [by left|by right].
Qed.

Lemma parse_name_stable b c : stable (parse_name b) (parse_name (b ++ c)) c.
Proof.
  induction b as [|x b IH]; [by left|]. cbn [parse_name app]. destruct (x =? 58); [done|]. destruct (negb (is_token_char x)); [by right|].
  destruct (parse_name b) as [v rest|e]; cbn [stable] in *; [by rewrite IH|]. destruct IH as [->| ->]; [by left|by right].
Qed.

Lemma skip_ows_app b c : match skip_ows b with [] => True | x :: rest => skip_ows (b ++ c) = x :: rest ++ c end.
Proof. induction b as [|x b IH]; [done|]. cbn [skip_ows app]. by destruct (negb (is_ows x)). Qed.

Lemma parse_line_stable b c : stable (parse_line b) (parse_line (b ++ c)) c.
Proof.
  unfold parse_line. pose proof (skip_ows_app b c) as Hs. destruct (skip_ows b) as [|x p]; [by left|]. rewrite Hs.
  pose proof (parse_token_app (x :: p) c) as H. cbn [app] in H.
  destruct (parse_token_to_eol (x :: p)) as [t rest|e|]; [rewrite H|destruct H as [->| ->]; [by left|by right]|rewrite H; by right].
  destruct rest as [|y rest]; [by left|done].
Qed.

(** ** What is parsed ends with a line *)

Lemma skip_ows_suffix b : exists q, b = q ++ skip_ows b.
Proof. induction b as [|x b [q IH]]; [by exists []|]. cbn [skip_ows]. destruct (negb _); [by exists []|]. exists (x :: q). cbn. by rewrite <- IH. Qed.

Lemma parse_token_line b t rest : parse_token_to_eol b = Line t rest -> b = t ++ 13 :: 10 :: rest.
Proof.
  revert t rest. induction b as [|x b IH]; intros t rest; [done|]. cbn [parse_token_to_eol]. destruct (found_control x).
  - destruct (Z.eqb_spec x 13) as [->|]; [|done]. destruct b as [|y b]; [done|]. destruct (Z.eqb_spec y 10) as [->|]; cbn [negb]; [|done].
    by intros [= <- <-].
  - destruct (parse_token_to_eol b) as [t' rest'|e|]; try done. intros [= <- <-]. cbn [app]. by rewrite <- (IH t' rest').
Qed.

(** [rest] is not empty, and a line is before it. *)
Definition after_line (b rest : bytes) : Prop := rest <> [] /\ exists q, b = q ++ 13 :: 10 :: rest.

Lemma parse_line_after b t rest : parse_line b = Parsed t rest -> after_line b rest.
Proof.
  unfold parse_line. destruct (skip_ows_suffix b) as [q Hq]. destruct (skip_ows b) as [|x p] eqn:E; [done|].
  destruct (parse_token_to_eol (x :: p)) as [t' r|e|] eqn:El; try done. apply parse_token_line in El.
  destruct r as [|y r]; [done|]. intros [= <- <-]. split; [done|]. exists (q ++ t'). by rewrite Hq, El, <- app_assoc.
Qed.

Lemma after_line_length b rest : after_line b rest -> (2 + length rest <= length b)%nat.
Proof. intros [_ [q ->]]. rewrite length_app. cbn [length]. lia. Qed.

Lemma after_line_tl b rest rest' : after_line b rest -> after_line (tl rest) rest' -> after_line b rest'.
Proof.
  intros [Hn [q ->]] [Hn' [q' E]]. split; [done|]. destruct rest as [|x rest]; [done|]. cbn [tl] in E.
  exists (q ++ 13 :: 10 :: x :: q'). rewrite E, <- app_assoc. done.
Qed.

Lemma parse_obs_fold_after fuel : forall buf b v rest, parse_obs_fold fuel buf b = Parsed v rest -> after_line b rest.
Proof.
  induction fuel as [|fuel IH]; intros buf b v rest; [done|]. cbn [parse_obs_fold].
  destruct (parse_line b) as [t r|e] eqn:El; [|done]. apply parse_line_after in El.
  destruct (max_obs_fold <? _)%nat; [done|]. destruct (negb _); [by intros [= _ <-]|].
  intros H%IH. by apply (after_line_tl b r).
Qed.

Lemma parse_value_after fuel : forall b v rest, parse_value fuel b = Ret (Parsed v rest) -> after_line b rest.
Proof.
  induction fuel as [|fuel IH]; intros b v rest; [done|]. cbn [parse_value].
  destruct (parse_line b) as [t r|e] eqn:El; [|done]. apply parse_line_after in El.
  destruct (negb _); [by intros [= _ <-]|]. destruct t as [|x t].
  - intros H%IH. by apply (after_line_tl b r).
  - destruct (max_obs_fold <? _)%nat; [done|]. generalize (S (length (tl r))). intros n H. apply (after_line_tl b r); [done|].
      eapply (parse_obs_fold_after n). by injection H.
Qed.

Lemma parse_name_colon b v rest : parse_name b = Parsed v rest -> exists p, rest = 58 :: p /\ b = v ++ 58 :: p.
Proof.
  revert v rest. induction b as [|x b IH]; intros v rest; [done|]. cbn [parse_name]. destruct (Z.eqb_spec x 58) as [->|].
  - intros [= <- <-]. by exists b.
  - destruct (negb _); [done|]. destruct (parse_name b) as [v' r|e]; [|done]. intros [= <- <-].
    destruct (IH v' r eq_refl) as (p & -> & ->). by exists p.
Qed.

Lemma parse_field_after b nv rest : parse_field b = Ret (Parsed nv rest) -> after_line b rest.
Proof.
  unfold parse_field. destruct (parse_name b) as [v r|e] eqn:En; [|done]. apply parse_name_colon in En as (p & -> & ->). cbn [tl].
  destruct v as [|x v]; [done|]. destruct (parse_value _ p) as [[a r|e]|e|] eqn:Ev; cbn [obind]; try done. intros [= _ <-].
  apply parse_value_after in Ev as [Hn [q ->]]. split; [done|]. exists ((x :: v) ++ 58 :: q). by rewrite <- app_assoc.
Qed.

(** ** Values and fields *)

Lemma obs_fold_stable fuel : forall buf b c fuel', (length b < fuel)%nat -> (length (b ++ c) < fuel')%nat ->
  stable (parse_obs_fold fuel buf b) (parse_obs_fold fuel' buf (b ++ c)) c.
Proof.
  induction fuel as [|fuel IH]; intros buf b c fuel' Hf Hf'; [lia|]. destruct fuel' as [|fuel']; [lia|]. cbn [parse_obs_fold].
  pose proof (parse_line_stable b c) as H. destruct (parse_line b) as [t r|e] eqn:El; cbn [stable] in H.
  - rewrite H. apply parse_line_after, after_line_length in El as Hlen. destruct El as [Hn _].
    destruct (max_obs_fold <? _)%nat; [by right|]. destruct r as [|y r]; [done|]. cbn [app hd tl].
    destruct (negb (is_ows y)); [done|]. cbn [length] in Hlen. rewrite length_app in Hf'. apply IH; [lia|]. rewrite length_app. lia.
  - destruct H as [->| ->]; [by left|by right].
Qed.

(** Stability of a result that may be an exception. *)
Definition stable_cpp {A} (r r' : cpp (parsed A)) (c : bytes) : Prop :=
  match r with
  | Ret (Parsed a rest) => r' = Ret (Parsed a (rest ++ c))
  | Ret (Error e) => e = need_more \/ r' = Ret (Error e)
  | Throw e => r' = Throw e
  | Undef => r' = Undef
  end.

Lemma stable_ret {A} (r s : parsed A) c : stable r s c -> stable_cpp (Ret r) (Ret s) c.
Proof. destruct r as [a rest|e]; cbn; [by intros ->|]. intros [->| ->]; [by left|by right]. Qed.

Lemma parse_value_stable fuel : forall b c fuel', (length b < fuel)%nat -> (length (b ++ c) < fuel')%nat ->
  stable_cpp (parse_value fuel b) (parse_value fuel' (b ++ c)) c.
Proof.
  induction fuel as [|fuel IH]; intros b c fuel' Hf Hf'; [lia|]. destruct fuel' as [|fuel']; [lia|]. cbn [parse_value].
  pose proof (parse_line_stable b c) as H. destruct (parse_line b) as [t r|e] eqn:El; cbn [stable] in H.
  - rewrite H. apply parse_line_after, after_line_length in El as Hlen. destruct El as [Hn _].
    destruct r as [|y r]; [done|]. cbn [app hd tl]. destruct (negb (is_ows y)); [by apply stable_ret|].
    cbn [length] in Hlen. rewrite length_app in Hf'. destruct t as [|x t]; [apply IH; [lia|rewrite length_app; lia]|].
    destruct (max_obs_fold <? _)%nat; [done|]. apply stable_ret, obs_fold_stable; lia.
  - destruct H as [->| ->]; [by left|]. by right.
Qed.

Lemma parse_field_stable b c : stable_cpp (parse_field b) (parse_field (b ++ c)) c.
Proof.
  unfold parse_field. pose proof (parse_name_stable b c) as H. destruct (parse_name b) as [v r|e] eqn:En; cbn [stable] in H.
  - rewrite H. apply parse_name_colon in En as (p & -> & _). destruct v as [|x v]; [apply stable_ret; by right|]. cbn [app tl].
    pose proof (parse_value_stable (S (length p)) p c (S (length (p ++ c))) ltac:(lia) ltac:(lia)) as Hv.
    destruct (parse_value (S (length p)) p) as [[a rest|e]|e|]; cbn [obind stable_cpp] in *.
    + by rewrite Hv.
    + destruct Hv as [->| ->]; [by left|by right].
    + by rewrite Hv.
    + by rewrite Hv.
  - destruct H as [->| ->]; [by left|by right].
Qed.

Lemma parse_fields_fuel fuel : forall p b fuel', (length b < fuel)%nat -> (length b < fuel')%nat ->
  parse_fields fuel p b = parse_fields fuel' p b.
Proof.
  induction fuel as [|fuel IH]; intros p b fuel' Hf Hf'; [lia|]. destruct fuel' as [|fuel']; [lia|]. cbn [parse_fields].
  destruct b as [|x [|y b]]; try done. destruct (x =? 13); [done|].
  destruct (parse_field (x :: y :: b)) as [[[name value] rest|e]|e|] eqn:E; cbn [obind]; try done.
  destruct (do_field _ value p) as [p1 [e|]]; [done|]. destruct (on_field_impl _ _ _ _) as [m|e|]; cbn [obind]; try done.
  apply parse_field_after, after_line_length in E. cbn [length] in *. apply IH; lia.
Qed.

(** A parse of fields that needs more goes on where it was. *)
Definition all_fields (p : parser) (b : bytes) : cpp (parser * bytes * option error) := parse_fields (S (length b)) p b.
Definition resumes (r r' : cpp (parser * bytes * option error)) (c : bytes) : Prop :=
  match r with
  | Ret (p, rest, e) => if bool_decide (e = Some need_more) then r' = all_fields p (rest ++ c) else r' = Ret (p, rest ++ c, e)
  | Throw e => r' = Throw e
  | Undef => r' = Undef
  end.

Lemma do_field_error f value p : snd (do_field f value p) <> Some need_more.
Proof. unfold do_field. by repeat case_match. Qed.

Lemma parse_fields_resume fuel : forall p b c fuel', (length b < fuel)%nat -> (length (b ++ c) < fuel')%nat ->
  resumes (parse_fields fuel p b) (parse_fields fuel' p (b ++ c)) c.
Proof.
  induction fuel as [|fuel IH]; intros p b c fuel' Hf Hf'; [lia|]. cbn [parse_fields].
  destruct b as [|x [|y b]]; [apply parse_fields_fuel; [exact Hf'|lia]..|].
  destruct fuel' as [|fuel']; [lia|]. destruct (Z.eqb_spec x 13) as [->|N]; [by cbn; destruct (negb (y =? 10))|].
  assert (parse_fields (S fuel') p ((x :: y :: b) ++ c) =
    (let* r := parse_field ((x :: y :: b) ++ c) in
     match r with
     | Error e => Ret (p, (x :: y :: b) ++ c, Some e)
     | Parsed (name, value) rest =>
         let f := field_table.string_to_field name in
         let (p, e) := do_field f value p in
         match e with
         | Some e => Ret (p, (x :: y :: b) ++ c, Some e)
         | None => let* m := on_field_impl f name value (m_ p) in parse_fields fuel' (set_message m p) rest
         end
     end)) as Hstep.
  { cbn [parse_fields app]. by rewrite (proj2 (Z.eqb_neq x 13) N). }
  rewrite Hstep. pose proof (parse_field_stable (x :: y :: b) c) as H.
  destruct (parse_field (x :: y :: b)) as [[[name value] rest|e]|e|] eqn:E; cbn [obind stable_cpp] in *.
  - rewrite H. cbn [obind]. apply parse_field_after, after_line_length in E.
    pose proof (do_field_error (field_table.string_to_field name) value p) as Hd.
    destruct (do_field _ value p) as [p1 [e|]]; cbn [snd] in Hd; [cbn [resumes]; by rewrite bool_decide_false|].
    destruct (on_field_impl _ name value (m_ p1)) as [m|e|]; cbn [obind]; [|done..].
    rewrite length_app in *. cbn [length] in *. apply IH; [lia|]. rewrite length_app. lia.
  - destruct H as [->|H].
    + cbn [resumes]. rewrite bool_decide_true by done. rewrite <- Hstep. apply parse_fields_fuel; [exact Hf'|lia].
    + rewrite H. cbn [obind resumes]. destruct (bool_decide _) eqn:Ed; [|done]. apply bool_decide_eq_true in Ed. injection Ed as ->.
      unfold all_fields. rewrite (parse_fields_fuel _ p _ (S fuel')) by (exact Hf' || lia). by rewrite Hstep, H.
  - by rewrite H.
  - by rewrite H.
Qed.

(** ** What needs more ends in what follows *)

Lemma span_needs f b c v : span f b = (v, []) -> (length (snd (span f (b ++ c))) <= length c)%nat.
Proof.
  assert (forall l, (length (snd (span f l)) <= length l)%nat) as Hl.
  { induction l as [|x l IH]; [done|]. cbn [span]. destruct (f x); [|done]. destruct (span f l). cbn in *. lia. }
  revert v. induction b as [|x b IH]; intros v; [intros _; apply Hl|]. cbn [span app]. destruct (f x); [|done].
  destruct (span f b) as [w r]. intros [= _ ->]. specialize (IH w eq_refl). by destruct (span f (b ++ c)).
Qed.

Lemma parse_word_needs f bad b c a s : parse_word f bad b = Error need_more -> bad <> need_more ->
  parse_word f bad (b ++ c) = Parsed a s -> (length s < length c)%nat.
Proof.
  unfold parse_word. intros H Hb. destruct (span f b) as [v [|x r]] eqn:E.
  - pose proof (span_needs f b c v E). destruct (span f (b ++ c)) as [w [|y t]]; [done|]. cbn [snd length] in *.
    destruct (negb (y =? 32)); [done|]. destruct w; [done|]. intros [= _ <-]. lia.
  - exfalso. destruct (negb (x =? 32)); [congruence|]. destruct v; congruence.
Qed.

Lemma parse_version_needs b c a s : parse_version b = Error need_more -> parse_version (b ++ c) = Parsed a s -> (length s < length c)%nat.
Proof.
  intros H. assert (length b < 8)%nat as Hb.
  { revert H. unfold parse_version. do 8 (destruct b as [|? b]; [cbn; lia|]). by repeat match goal with |- context [if ?x then _ else _] => destruct x end. }
  unfold parse_version. assert (length (b ++ c) = length b + length c)%nat as Hl by apply length_app.
  destruct (b ++ c) as [|x0 [|x1 [|x2 [|x3 [|x4 [|x5 [|x6 [|x7 r]]]]]]]]; try done.
  repeat match goal with |- context [if ?x then _ else _] => destruct x; [done|] end. intros [= _ <-]. cbn [length] in Hl. lia.
Qed.

Lemma parse_status_needs b c a s : parse_status b = Error need_more -> parse_status (b ++ c) = Parsed a s -> (length s < length c)%nat.
Proof.
  intros H. assert (length b < 4)%nat as Hb.
  { revert H. unfold parse_status. do 4 (destruct b as [|? b]; [cbn; lia|]). by repeat match goal with |- context [if ?x then _ else _] => destruct x end. }
  unfold parse_status. assert (length (b ++ c) = length b + length c)%nat as Hl by apply length_app.
  destruct (b ++ c) as [|x0 [|x1 [|x2 [|x3 r]]]]; try done.
  repeat match goal with |- context [if ?x then _ else _] => destruct x; [done|] end. intros [= _ <-]. cbn [length] in Hl. lia.
Qed.

Lemma parse_token_needs b c t s :
  parse_token_to_eol b = LineError need_more -> parse_token_to_eol (b ++ c) = Line t s -> (length s < length c)%nat.
Proof.
  revert t. induction b as [|x b IH]; intros t H.
  - intros E%parse_token_line. cbn [app] in E. rewrite E, length_app. cbn [length]. lia.
  - cbn [parse_token_to_eol app] in *. destruct (found_control x).
    + destruct (x =? 13); [|done]. destruct b as [|y b]; [|by destruct (negb (y =? 10))]. cbn [app].
      destruct c as [|y c]; [done|]. destruct (negb (y =? 10)); [done|]. intros [= _ <-]. cbn. lia.
    + destruct (parse_token_to_eol b) as [|e|]; try done. injection H as ->.
      destruct (parse_token_to_eol (b ++ c)) as [t' r|e|]; try done. intros [= _ <-]. by apply (IH t').
Qed.

Lemma parse_reason_needs b c t s : parse_reason b = Error need_more -> parse_reason (b ++ c) = Parsed t s -> (length s < length c)%nat.
Proof.
  unfold parse_reason. intros H. destruct (parse_token_to_eol b) as [|e|] eqn:E; try done. injection H as ->.
  destruct (parse_token_to_eol (b ++ c)) as [t' r|e|] eqn:E'; try done. intros [= _ <-]. by apply (parse_token_needs b c t').
Qed.

Lemma parse_name_needs b c v s : parse_name b = Error need_more -> parse_name (b ++ c) = Parsed v s -> (length s <= length c)%nat.
Proof.
  revert v. induction b as [|x b IH]; intros v H.
  - intros (p & -> & E)%parse_name_colon. cbn [app] in E. rewrite E, length_app. lia.
  - cbn [parse_name app] in *. destruct (x =? 58); [done|]. destruct (negb _); [done|].
    destruct (parse_name b) as [|e]; [done|]. injection H as ->. destruct (parse_name (b ++ c)) as [v' r|e]; [|done]. intros [= _ <-]. by apply (IH v').
Qed.

Lemma skip_ows_length b : (length (skip_ows b) <= length b)%nat.
Proof. destruct (skip_ows_suffix b) as [q E]. apply (f_equal length) in E. rewrite length_app in E. lia. Qed.

Lemma skip_ows_nil b c : skip_ows b = [] -> skip_ows (b ++ c) = skip_ows c.
Proof. induction b as [|x b IH]; [done|]. cbn [skip_ows app]. by destruct (negb _). Qed.

Lemma parse_line_needs b c t s : parse_line b = Error need_more -> parse_line (b ++ c) = Parsed t s -> (length s <= length c)%nat.
Proof.
  unfold parse_line. intros H. destruct (skip_ows b) as [|x p] eqn:Es.
  - rewrite (skip_ows_nil b c Es). pose proof (skip_ows_length c). destruct (skip_ows c) as [|y q]; [done|].
    destruct (parse_token_to_eol (y :: q)) as [t' r|e|] eqn:E; try done. apply parse_token_line in E. destruct r as [|z r]; [done|].
    intros [= _ <-]. apply (f_equal length) in E. rewrite length_app in E. cbn [length] in *. lia.
  - pose proof (skip_ows_app b c) as Ha. rewrite Es in Ha. rewrite Ha. clear Ha.
    destruct (parse_token_to_eol (x :: p)) as [t' r|e|] eqn:E; [destruct r; [|done]| |done].
    + pose proof (parse_token_app (x :: p) c) as Ha. rewrite E in Ha. cbn [app] in Ha. rewrite Ha. destruct c as [|y c]; [done|]. by intros [= _ <-].
    + injection H as ->. destruct (parse_token_to_eol (x :: p ++ c)) as [t' r|e|] eqn:E'; try done. destruct r as [|y r]; [done|]. intros [= _ <-].
      pose proof (parse_token_needs (x :: p) c t' (y :: r) E E'). lia.
Qed.

Lemma obs_fold_needs fuel : forall buf b c fuel' v s, (length b < fuel)%nat -> (length (b ++ c) < fuel')%nat ->
  parse_obs_fold fuel buf b = Error need_more -> parse_obs_fold fuel' buf (b ++ c) = Parsed v s -> (length s <= length c)%nat.
Proof.
  induction fuel as [|fuel IH]; intros buf b c fuel' v s Hf Hf'; [lia|]. destruct fuel' as [|fuel']; [lia|]. cbn [parse_obs_fold].
  pose proof (parse_line_stable b c) as Hs. destruct (parse_line b) as [t r|e] eqn:El; cbn [stable] in Hs.
  - rewrite Hs. apply parse_line_after in El as Ha. apply after_line_length in Ha as Hlen. destruct Ha as [Hn _].
    destruct (max_obs_fold <? _)%nat; [done|]. destruct r as [|y r]; [done|]. cbn [app hd tl].
    destruct (negb (is_ows y)); [done|]. cbn [length] in Hlen. rewrite length_app in Hf'. apply IH; [lia|]. rewrite length_app. lia.
  - intros [= ->]. destruct (parse_line (b ++ c)) as [t r|e] eqn:El'; [|done].
    pose proof (parse_line_needs b c t r El El') as Hl.
    destruct (max_obs_fold <? _)%nat; [done|]. destruct (negb _); [by intros [= _ <-]|].
    intros H%parse_obs_fold_after%after_line_length. destruct r; cbn [tl length] in *; lia.
Qed.

Lemma parse_value_needs fuel : forall b c fuel' v s, (length b < fuel)%nat -> (length (b ++ c) < fuel')%nat ->
  parse_value fuel b = Ret (Error need_more) -> parse_value fuel' (b ++ c) = Ret (Parsed v s) -> (length s <= length c)%nat.
Proof.
  induction fuel as [|fuel IH]; intros b c fuel' v s Hf Hf'; [lia|]. destruct fuel' as [|fuel']; [lia|]. cbn [parse_value].
  pose proof (parse_line_stable b c) as Hs. destruct (parse_line b) as [t r|e] eqn:El; cbn [stable] in Hs.
  - rewrite Hs. apply parse_line_after in El as Ha. apply after_line_length in Ha as Hlen. destruct Ha as [Hn _].
    destruct r as [|y r]; [done|]. cbn [app hd tl]. destruct (negb (is_ows y)); [done|].
    cbn [length] in Hlen. rewrite length_app in Hf'. destruct t as [|x t]; [apply IH; [lia|rewrite length_app; lia]|].
    destruct (max_obs_fold <? _)%nat; [done|].
    intros H1 H2. apply (obs_fold_needs (S (length r)) (x :: t) r c (S (length (r ++ c))) v s); [lia|lia|by injection H1|by injection H2].
  - intros [= ->]. destruct (parse_line (b ++ c)) as [t r|e] eqn:El'; [|done].
    pose proof (parse_line_needs b c t r El El') as Hl. destruct (negb _); [by intros [= _ <-]|].
    assert (length (tl r) <= length r)%nat as Htl by (destruct r; cbn; lia). destruct t as [|x t].
    + intros H%parse_value_after%after_line_length. lia.
    + destruct (max_obs_fold <? _)%nat; [done|]. generalize (S (length (tl r))). intros n [= H%parse_obs_fold_after%after_line_length]. lia.
Qed.

Lemma parse_field_needs b c nv s : parse_field b = Ret (Error need_more) -> parse_field (b ++ c) = Ret (Parsed nv s) -> (length s <= length c)%nat.
Proof.
  unfold parse_field. intros H. pose proof (parse_name_stable b c) as Hs. destruct (parse_name b) as [v r|e] eqn:En; cbn [stable] in Hs.
  - rewrite Hs. apply parse_name_colon in En as (p & -> & _). destruct v as [|x v]; [done|]. cbn [app tl] in *.
    destruct (parse_value (S (length p)) p) as [[|e]|e|] eqn:Ev; cbn [obind] in H; try done. injection H as ->.
    destruct (parse_value (S (length (p ++ c))) (p ++ c)) as [[a r|e]|e|] eqn:Ev'; cbn [obind]; try done. intros [= _ <-].
    apply (parse_value_needs (S (length p)) p c (S (length (p ++ c))) a r); [lia|lia|done|done].
  - injection H as ->. destruct (parse_name (b ++ c)) as [v r|e] eqn:En'; [|done].
    pose proof (parse_name_needs b c v r En En'). destruct v as [|x v]; [done|].
    assert (length (tl r) <= length r)%nat as Htl by (destruct r; cbn; lia).
    destruct (parse_value (S (length (tl r))) (tl r)) as [[a r'|e]|e|] eqn:Ev'; cbn [obind]; try done. intros [= _ <-].
    apply parse_value_after, after_line_length in Ev'. lia.
Qed.

(** Fields that are parsed to their end: the end of a header, or only the empty line. *)
Lemma parse_fields_end fuel : forall p b p1 s, parse_fields fuel p b = Ret (p1, s, None) ->
  b = 13 :: 10 :: s \/ exists q, b = q ++ 13 :: 10 :: 13 :: 10 :: s.
Proof.
  induction fuel as [|fuel IH]; intros p b p1 s; [done|]. cbn [parse_fields]. destruct b as [|x [|y b]]; try done.
  destruct (Z.eqb_spec x 13) as [->|N].
  { destruct (Z.eqb_spec y 10) as [->|]; cbn [negb]; [|done]. intros [= _ <-]. by left. }
  destruct (parse_field (x :: y :: b)) as [[[name value] rest|e]|e|] eqn:E; cbn [obind]; try done.
  destruct (do_field _ value p) as [p2 [e|]]; [done|]. destruct (on_field_impl _ _ _ _) as [m|e|]; cbn [obind]; try done.
  intros H%IH. right. apply parse_field_after in E as [_ [q ->]]. destruct H as [->|[q' ->]]; [by exists q|].
  exists (q ++ 13 :: 10 :: q'). by rewrite <- app_assoc.
Qed.

Lemma parse_fields_needs fuel : forall p b c fuel' p1 rest p2 s, (length b < fuel)%nat -> (length (b ++ c) < fuel')%nat ->
  parse_fields fuel p b = Ret (p1, rest, Some need_more) -> parse_fields fuel' p (b ++ c) = Ret (p2, s, None) -> (length s < length c)%nat.
Proof.
  induction fuel as [|fuel IH]; intros p b c fuel' p1 rest p2 s Hf Hf' H H'; [lia|]. destruct fuel' as [|fuel']; [lia|].
  assert (2 + length s <= length (b ++ c))%nat as Hmin.
  { apply parse_fields_end in H' as [->|[q ->]]; [cbn; lia|]. rewrite length_app. cbn [length]. lia. }
  cbn [parse_fields] in H. destruct b as [|x [|y b]]; [rewrite length_app in Hmin; cbn [length] in Hmin; lia..|].
  cbn [parse_fields app] in H'. destruct (x =? 13); [by destruct (negb (y =? 10))|].
  pose proof (parse_field_stable (x :: y :: b) c) as Hst.
  destruct (parse_field (x :: y :: b)) as [[[name value] r|e]|e|] eqn:E; cbn [obind stable_cpp] in *; try done.
  - cbn [app] in Hst. rewrite Hst in H'. cbn [obind] in H'. pose proof (do_field_error (field_table.string_to_field name) value p) as Hd.
    destruct (do_field _ value p) as [p3 [e|]]; [cbn in Hd; congruence|].
    destruct (on_field_impl _ name value (m_ p3)) as [m|e|]; cbn [obind] in *; try done.
    apply parse_field_after, after_line_length in E. rewrite length_app in *. cbn [length] in *.
    apply (IH (set_message m p3) r c fuel' p1 rest p2 s); [lia|rewrite length_app; lia|done|done].
  - injection H as _ _ ->. destruct (parse_field (x :: y :: b ++ c)) as [[[name value] r|e]|e|] eqn:E'; cbn [obind] in H'; try done.
    pose proof (parse_field_needs _ _ _ _ E E') as Hl.
    destruct (do_field _ value p) as [p3 [e|]]; [done|]. destruct (on_field_impl _ name value (m_ p3)) as [m|e|]; cbn [obind] in H'; try done.
    apply parse_fields_end in H' as [->|[q ->]]; [cbn [length] in Hl; lia|]. rewrite length_app in Hl. cbn [length] in Hl. lia.
Qed.

(** ** The start line *)

Lemma span_length f b : (length (snd (span f b)) <= length b)%nat.
Proof. induction b as [|x b IH]; [done|]. cbn [span]. destruct (f x); [|done]. destruct (span f b). cbn in *. lia. Qed.

Lemma span_split f b : b = fst (span f b) ++ snd (span f b).
Proof. induction b as [|x b IH]; [done|]. cbn [span]. destruct (f x); [|done]. destruct (span f b). cbn in *. by rewrite <- IH. Qed.

Lemma parse_word_split f bad b v s : parse_word f bad b = Parsed v s -> b = v ++ 32 :: s /\ v <> [].
Proof.
  unfold parse_word. pose proof (span_split f b) as H. destruct (span f b) as [w [|x r]]; [done|]. cbn [fst snd] in H.
  destruct (Z.eqb_spec x 32) as [->|]; cbn [negb]; [|done]. destruct w; [done|]. intros [= <- <-]. done.
Qed.

Lemma parse_version_length b v s : parse_version b = Parsed v s -> length b = (8 + length s)%nat.
Proof.
  unfold parse_version. do 8 (destruct b as [|? b]; [done|]). repeat match goal with |- context [if ?x then _ else _] => destruct x; [done|] end.
  by intros [= _ <-].
Qed.

Lemma parse_version_split b v s : parse_version b = Parsed v s -> exists q, b = q ++ s.
Proof.
  unfold parse_version. do 8 (destruct b as [|? b]; [done|]). repeat match goal with |- context [if ?x then _ else _] => destruct x; [done|] end.
  intros [= _ <-]. by eexists [_; _; _; _; _; _; _; _].
Qed.

Lemma parse_status_split b v s : parse_status b = Parsed v s -> exists q, b = q ++ s.
Proof.
  unfold parse_status. do 4 (destruct b as [|? b]; [done|]). repeat match goal with |- context [if ?x then _ else _] => destruct x; [done|] end.
  intros [= _ <-]. by eexists [_; _; _; _].
Qed.

Lemma parse_reason_split b v s : parse_reason b = Parsed v s -> b = v ++ 13 :: 10 :: s.
Proof. unfold parse_reason. destruct (parse_token_to_eol b) as [t r|e|] eqn:E; try done. intros [= <- <-]. by apply parse_token_line. Qed.

(** The three properties of a start line. *)
Lemma request_line_stable p b c : stable (parse_request_line p b) (parse_request_line p (b ++ c)) c.
Proof.
  unfold parse_request_line. unfold parse_method, parse_target. pose proof (parse_word_stable is_token_char bad_method b c) as H.
  destruct (parse_word is_token_char _ b) as [m r|e]; cbn [stable] in H; [rewrite H|destruct H as [->| ->]; [by left|by right]].
  pose proof (parse_word_stable is_pathchar bad_target r c) as H1.
  destruct (parse_word is_pathchar _ r) as [t r1|e]; cbn [stable] in H1; [rewrite H1|destruct H1 as [->| ->]; [by left|by right]].
  pose proof (parse_version_stable r1 c) as H2.
  destruct (parse_version r1) as [v r2|e]; cbn [stable] in H2; [rewrite H2|destruct H2 as [->| ->]; [by left|by right]].
  destruct (_ || _); [by right|]. destruct r2 as [|x [|y r2]]; [by left..|]. cbn [app]. destruct (_ || _); [by right|done].
Qed.

Lemma status_line_stable p b c : stable (parse_status_line p b) (parse_status_line p (b ++ c)) c.
Proof.
  unfold parse_status_line. pose proof (parse_version_stable b c) as H.
  destruct (parse_version b) as [v r|e]; cbn [stable] in H; [rewrite H|destruct H as [->| ->]; [by left|by right]].
  destruct (_ || _); [by right|]. destruct r as [|x r]; [by left|]. cbn [app]. destruct (negb _); [by right|].
  pose proof (parse_status_stable r c) as H1.
  destruct (parse_status r) as [st r1|e]; cbn [stable] in H1; [rewrite H1|destruct H1 as [->| ->]; [by left|by right]].
  pose proof (parse_reason_stable r1 c) as H2.
  destruct (parse_reason r1) as [rs r2|e]; cbn [stable] in H2; [by rewrite H2|destruct H2 as [->| ->]; [by left|by right]].
Qed.

Lemma request_line_end p b p1 s : parse_request_line p b = Parsed p1 s -> exists q, b = q ++ 13 :: 10 :: s.
Proof.
  unfold parse_request_line, parse_method, parse_target.
  destruct (parse_word is_token_char _ b) as [m r|e] eqn:E; [|done]. apply parse_word_split in E as [-> _].
  destruct (parse_word is_pathchar _ r) as [t r1|e] eqn:E; [|done]. apply parse_word_split in E as [-> _].
  destruct (parse_version r1) as [v r2|e] eqn:E; [|done]. apply parse_version_split in E as [q ->].
  destruct (_ || _); [done|]. destruct r2 as [|x [|y r2]]; try done.
  destruct (Z.eqb_spec x 13) as [->|]; cbn [negb orb]; [|done]. destruct (Z.eqb_spec y 10) as [->|]; cbn [negb orb]; [|done].
  intros [= _ <-]. exists (m ++ 32 :: t ++ 32 :: q). rewrite <- !app_assoc. cbn [app]. by rewrite <- !app_assoc.
Qed.

Lemma status_line_end p b p1 s : parse_status_line p b = Parsed p1 s -> exists q, b = q ++ 13 :: 10 :: s.
Proof.
  unfold parse_status_line. destruct (parse_version b) as [v r|e] eqn:E; [|done]. apply parse_version_split in E as [q ->].
  destruct (_ || _); [done|]. destruct r as [|x r]; [done|]. destruct (negb _); [done|].
  destruct (parse_status r) as [st r1|e] eqn:E; [|done]. apply parse_status_split in E as [q' ->].
  destruct (parse_reason r1) as [rs r2|e] eqn:E; [|done]. apply parse_reason_split in E as ->.
  intros [= _ <-]. exists (q ++ x :: q' ++ rs). rewrite <- !app_assoc. cbn [app]. by rewrite <- !app_assoc.
Qed.

Lemma request_line_needs p b c p1 s :
  parse_request_line p b = Error need_more -> parse_request_line p (b ++ c) = Parsed p1 s -> (length s < length c)%nat.
Proof.
  unfold parse_request_line, parse_method, parse_target.
  pose proof (parse_word_stable is_token_char bad_method b c) as S1.
  destruct (parse_word is_token_char _ b) as [m r|e] eqn:E1; cbn [stable] in S1.
  - rewrite S1. pose proof (parse_word_stable is_pathchar bad_target r c) as S2.
    destruct (parse_word is_pathchar _ r) as [t r1|e] eqn:E2; cbn [stable] in S2.
    + rewrite S2. pose proof (parse_version_stable r1 c) as S3.
      destruct (parse_version r1) as [v r2|e] eqn:E3; cbn [stable] in S3.
      * rewrite S3. destruct (_ || _); [done|]. destruct r2 as [|x [|y r2]]; cbn [app]; [| |by destruct (_ || _)];
          intros _; [destruct c as [|x [|y c]]|destruct c as [|y c]]; try done; (destruct (_ || _); [done|]); intros [= _ <-]; cbn; lia.
      * intros [= ->]. destruct (parse_version (r1 ++ c)) as [v r2|e] eqn:E3'; [|done]. pose proof (parse_version_needs _ _ _ _ E3 E3').
        destruct (_ || _); [done|]. destruct r2 as [|x [|y r2]]; try done. destruct (_ || _); [done|]. intros [= _ <-]. cbn [length] in *. lia.
    + intros [= ->]. destruct (parse_word is_pathchar bad_target (r ++ c)) as [t r1|e] eqn:E2'; [|done].
      pose proof (parse_word_needs _ _ _ _ _ _ E2 ltac:(done) E2'). destruct (parse_version r1) as [v r2|e] eqn:E3; [|done]. apply parse_version_length in E3.
      destruct (_ || _); [done|]. destruct r2 as [|x [|y r2]]; try done. destruct (_ || _); [done|]. intros [= _ <-]. cbn [length] in *. lia.
  - intros [= ->]. destruct (parse_word is_token_char bad_method (b ++ c)) as [m r|e] eqn:E1'; [|done].
    pose proof (parse_word_needs _ _ _ _ _ _ E1 ltac:(done) E1'). destruct (parse_word is_pathchar _ r) as [t r1|e] eqn:E2; [|done].
    apply parse_word_split in E2 as [-> _]. destruct (parse_version r1) as [v r2|e] eqn:E3; [|done]. apply parse_version_length in E3.
    destruct (_ || _); [done|]. destruct r2 as [|x [|y r2]]; try done. destruct (_ || _); [done|]. intros [= _ <-].
    rewrite length_app in *. cbn [length] in *. lia.
Qed.

Lemma status_line_needs p b c p1 s :
  parse_status_line p b = Error need_more -> parse_status_line p (b ++ c) = Parsed p1 s -> (length s < length c)%nat.
Proof.
  unfold parse_status_line. pose proof (parse_version_stable b c) as S1. destruct (parse_version b) as [v r|e] eqn:E1; cbn [stable] in S1.
  - rewrite S1. destruct (_ || _); [done|]. destruct r as [|x r]; cbn [app].
    + intros _. destruct c as [|x c]; [done|]. destruct (negb _); [done|]. destruct (parse_status c) as [st r1|e] eqn:E; [|done].
      apply parse_status_split in E as [q ->]. destruct (parse_reason r1) as [rs r2|e] eqn:E; [|done]. apply parse_reason_split in E as ->.
      intros [= _ <-]. cbn [length]. rewrite !length_app. cbn [length]. lia.
    + destruct (negb _); [done|]. pose proof (parse_status_stable r c) as S2. destruct (parse_status r) as [st r1|e] eqn:E2; cbn [stable] in S2.
      * rewrite S2. destruct (parse_reason r1) as [rs r2|e] eqn:E3; [done|]. intros [= ->].
        destruct (parse_reason (r1 ++ c)) as [rs r2|e] eqn:E3'; [|done]. intros [= _ <-]. by apply (parse_reason_needs r1 c rs).
      * intros [= ->]. destruct (parse_status (r ++ c)) as [st r1|e] eqn:E2'; [|done]. pose proof (parse_status_needs _ _ _ _ E2 E2').
        destruct (parse_reason r1) as [rs r2|e] eqn:E; [|done]. apply parse_reason_split in E as ->. intros [= _ <-].
        rewrite length_app in *. cbn [length] in *. lia.
  - intros [= ->]. destruct (parse_version (b ++ c)) as [v r|e] eqn:E1'; [|done]. pose proof (parse_version_needs _ _ _ _ E1 E1').
    destruct (_ || _); [done|]. destruct r as [|x r]; [done|]. destruct (negb _); [done|]. destruct (parse_status r) as [st r1|e] eqn:E; [|done].
    apply parse_status_split in E as [q ->]. destruct (parse_reason r1) as [rs r2|e] eqn:E; [|done]. apply parse_reason_split in E as ->.
    intros [= _ <-]. cbn [length] in *. rewrite !length_app in *. cbn [length] in *. lia.
Qed.

(** ** The header as a whole *)

Section Header.
Context (is_request : bool) (body : body_type).

Definition header_state (p : parser) : Prop := state_ p = start_line \/ state_ p = in_fields.

Lemma start_line_stable p b c : stable (parse_start_line is_request p b) (parse_start_line is_request p (b ++ c)) c.
Proof. unfold parse_start_line. destruct is_request; [apply request_line_stable|apply status_line_stable]. Qed.

Lemma start_line_end p b p1 s : parse_start_line is_request p b = Parsed p1 s -> exists q, b = q ++ 13 :: 10 :: s.
Proof. unfold parse_start_line. destruct is_request; [apply request_line_end|apply status_line_end]. Qed.

Lemma start_line_needs p b c p1 s :
  parse_start_line is_request p b = Error need_more -> parse_start_line is_request p (b ++ c) = Parsed p1 s -> (length s < length c)%nat.
Proof. unfold parse_start_line. destruct is_request; [apply request_line_needs|apply status_line_needs]. Qed.

(** The header from the state of the parser on, with no search before it and no limit. *)
Definition parse_header (p : parser) (b : bytes) : cpp (parser * bytes * option error) :=
  match state_ p with
  | start_line =>
      match parse_start_line is_request p b with
      | Error e => Ret (p, b, Some e)
      | Parsed p s => all_fields p s
      end
  | _ => all_fields p b
  end.

(** What the parser keeps while it parses a header. *)
Definition kept (p p1 : parser) : Prop :=
  skip_ p1 = skip_ p /\ header_limit_ p1 = header_limit_ p /\ body_limit_ p1 = body_limit_ p /\ buf_ p1 = buf_ p /\
  (flag flagEager p1 = flag flagEager p) /\ (flag flagHasBody p1 = flag flagHasBody p).

Lemma kept_refl p : kept p p.
Proof. by repeat split. Qed.
Lemma kept_trans p q r : kept p q -> kept q r -> kept p r.
Proof. intros (H1 & H2 & H3 & H4 & H5 & H6) (K1 & K2 & K3 & K4 & K5 & K6). repeat split; congruence. Qed.

Lemma flag_lor a b p : Z.land a b = 0 -> flag a (set_flag b p) = flag a p.
Proof.
  intros H. unfold flag. cbn [f_ set_flag]. do 2 f_equal. apply Z.bits_inj'. intros i Hi. rewrite !Z.land_spec, Z.lor_spec.
  apply (f_equal (fun x => Z.testbit x i)) in H. rewrite Z.land_spec, Z.bits_0 in H.
  destruct (Z.testbit a i), (Z.testbit b i), (Z.testbit (f_ p) i); done.
Qed.

Lemma kept_flag b p : Z.land flagEager b = 0 -> Z.land flagHasBody b = 0 -> kept p (set_flag b p).
Proof. intros H1 H2. repeat split; by apply flag_lor. Qed.

Lemma do_field_kept f value p : kept p (fst (do_field f value p)) /\ state_ (fst (do_field f value p)) = state_ p.
Proof.
  assert (forall l q, kept p q /\ state_ q = state_ p ->
    let r := fold_left (fun p s =>
        if iequals (str "close") s then set_flag flagConnectionClose p
        else if iequals (str "keep-alive") s then set_flag flagConnectionKeepAlive p
        else if iequals (str "upgrade") s then set_flag flagConnectionUpgrade p
        else p) l q in kept p r /\ state_ r = state_ p) as Hl.
  { induction l as [|s l IH]; intros q Hq; [done|]. cbn [fold_left]. apply IH. destruct Hq as [Hq Hs].
    repeat case_match; (split; [|done]); try (by apply (kept_trans p q); [|apply kept_flag]). done. }
  unfold do_field. repeat case_match; cbn [fst]; try (by split; [apply kept_refl|]); try (by split; [apply kept_flag|]).
  - apply Hl. by split; [apply kept_refl|].
  - by split; [apply (kept_trans p (set_len z p)); [by repeat split|by apply kept_flag]|].
  - by split; [apply (kept_trans p (set_len 0 p)); [by repeat split|by apply kept_flag]|].
Qed.

Lemma parse_fields_kept fuel : forall p b p1 s e, parse_fields fuel p b = Ret (p1, s, e) -> kept p p1 /\ state_ p1 = state_ p.
Proof.
  induction fuel as [|fuel IH]; intros p b p1 s e; cbn [parse_fields]; [intros [= <- _ _]; by split; [apply kept_refl|]|].
  destruct b as [|x [|y b]]; try (intros [= <- _ _]; by split; [apply kept_refl|]).
  destruct (x =? 13); [intros [= <- _ _]; by split; [apply kept_refl|]|].
  destruct (parse_field (x :: y :: b)) as [[[name value] rest|e']|e'|] eqn:E; cbn [obind]; try done;
    [|intros [= <- _ _]; by split; [apply kept_refl|]].
  pose proof (do_field_kept (field_table.string_to_field name) value p) as [Hk Hs].
  destruct (do_field _ value p) as [p2 [e'|]]; cbn [fst] in *; [by intros [= <- _ _]|].
  destruct (on_field_impl _ _ _ _) as [m|e'|]; cbn [obind]; try done. intros [H1 H2]%IH.
  split; [|by rewrite H2]. apply (kept_trans p p2); [done|]. exact H1.
Qed.

Lemma start_line_kept p b p1 s : parse_start_line is_request p b = Parsed p1 s -> kept p p1 /\ state_ p1 = in_fields.
Proof.
  unfold parse_start_line, parse_request_line, parse_status_line.
  repeat case_match; try done; intros [= <- _]; (split; [|done]); repeat split; try done; first [exact (flag_lor flagEager flagHTTP11 p eq_refl)|exact (flag_lor flagHasBody flagHTTP11 p eq_refl)].
Qed.

Lemma parse_header_kept p b p1 s e : header_state p -> parse_header p b = Ret (p1, s, e) -> kept p p1 /\ header_state p1.
Proof.
  intros Hp. unfold parse_header, all_fields. destruct Hp as [Hp|Hp]; rewrite Hp.
  - destruct (parse_start_line is_request p b) as [p2 r|e'] eqn:E; [|intros [= <- _ _]; split; [apply kept_refl|by left]].
    apply start_line_kept in E as [Hk Hs]. intros [H1 H2]%parse_fields_kept. split; [by apply (kept_trans p p2)|]. right. by rewrite H2.
  - intros [H1 H2]%parse_fields_kept. split; [done|]. right. by rewrite H2.
Qed.

(** A header that needs more goes on where it was. *)
Definition resumes_header (r r' : cpp (parser * bytes * option error)) (c : bytes) : Prop :=
  match r with
  | Ret (p, rest, e) => if bool_decide (e = Some need_more) then r' = parse_header p (rest ++ c) else r' = Ret (p, rest ++ c, e)
  | Throw e => r' = Throw e
  | Undef => r' = Undef
  end.

Lemma fields_resume_header p b c : state_ p = in_fields -> resumes_header (all_fields p b) (all_fields p (b ++ c)) c.
Proof.
  intros Hs. pose proof (parse_fields_resume (S (length b)) p b c (S (length (b ++ c))) ltac:(lia) ltac:(lia)) as H.
  fold (all_fields p b) in H. fold (all_fields p (b ++ c)) in H. unfold resumes in H. unfold resumes_header.
  destruct (all_fields p b) as [[[p1 rest] e]|e|] eqn:E; [|done..]. destruct (bool_decide _); [|done]. rewrite H.
  apply parse_fields_kept in E as [_ Hs1]. unfold parse_header. by rewrite Hs1, Hs.
Qed.

Lemma parse_header_resume p b c : header_state p -> resumes_header (parse_header p b) (parse_header p (b ++ c)) c.
Proof.
  intros Hp. unfold parse_header. destruct Hp as [Hp|Hp]; rewrite Hp; [|by apply fields_resume_header].
  pose proof (start_line_stable p b c) as H. destruct (parse_start_line is_request p b) as [p1 r|e] eqn:E; cbn [stable] in H.
  - rewrite H. apply fields_resume_header. by apply start_line_kept in E as [_ ?].
  - cbn [resumes_header]. unfold parse_header. rewrite Hp. destruct H as [->|H]; [by rewrite bool_decide_true|].
    destruct (bool_decide _); by rewrite H.
Qed.

Lemma parse_header_needs p b c p1 rest p2 s : header_state p ->
  parse_header p b = Ret (p1, rest, Some need_more) -> parse_header p (b ++ c) = Ret (p2, s, None) -> (length s < length c)%nat.
Proof.
  intros Hp. unfold parse_header, all_fields. destruct Hp as [Hp|Hp]; rewrite Hp; [|intros H1 H2; by eapply parse_fields_needs; [| |exact H1|exact H2]; lia].
  pose proof (start_line_stable p b c) as Hst. destruct (parse_start_line is_request p b) as [p3 r|e] eqn:E; cbn [stable] in Hst.
  - rewrite Hst. intros H1 H2. by eapply parse_fields_needs; [| |exact H1|exact H2]; lia.
  - intros [= _ _ ->]. destruct (parse_start_line is_request p (b ++ c)) as [p3 r|e] eqn:E'; [|done].
    pose proof (start_line_needs _ _ _ _ _ E E') as Hl. intros [->|[q ->]]%parse_fields_end; [|rewrite length_app in Hl]; cbn [length] in Hl; lia.
Qed.

(** What is left is the end of the text. *)
Lemma parse_fields_suffix fuel : forall p b p1 s e, parse_fields fuel p b = Ret (p1, s, e) -> exists q, b = q ++ s.
Proof.
  induction fuel as [|fuel IH]; intros p b p1 s e; cbn [parse_fields]; [intros [= _ <- _]; by exists []|].
  destruct b as [|x [|y b]]; try (intros [= _ <- _]; by exists []). destruct (x =? 13); [intros [= _ <- _]; by exists [x; y]|].
  destruct (parse_field (x :: y :: b)) as [[[name value] rest|e']|e'|] eqn:E; cbn [obind]; try done; [|intros [= _ <- _]; by exists []].
  destruct (do_field _ value p) as [p2 [e'|]]; [intros [= _ <- _]; by exists []|].
  destruct (on_field_impl _ _ _ _) as [m|e'|]; cbn [obind]; try done. intros [q ->]%IH.
  apply parse_field_after in E as [_ [q' ->]]. exists (q' ++ 13 :: 10 :: q). by rewrite <- app_assoc.
Qed.

Lemma parse_header_suffix p b p1 s e : parse_header p b = Ret (p1, s, e) -> exists q, b = q ++ s.
Proof.
  unfold parse_header, all_fields. destruct (state_ p); try apply parse_fields_suffix.
  destruct (parse_start_line is_request p b) as [p2 r|e'] eqn:E; [|intros [= _ <- _]; by exists []].
  apply start_line_end in E as [q ->]. intros [q' ->]%parse_fields_suffix. exists (q ++ 13 :: 10 :: q'). by rewrite <- app_assoc.
Qed.

(** A header that is parsed from its start ends with an empty line. *)
Lemma parse_header_end p b p1 s : header_state p -> parse_header p b = Ret (p1, s, None) ->
  b = 13 :: 10 :: s \/ exists q, b = q ++ 13 :: 10 :: 13 :: 10 :: s.
Proof.
  intros Hp. unfold parse_header, all_fields. destruct Hp as [Hp|Hp]; rewrite Hp; [|apply parse_fields_end].
  destruct (parse_start_line is_request p b) as [p2 r|e] eqn:E; [|done]. apply start_line_end in E as [q ->].
  intros [->|[q' ->]]%parse_fields_end; right; [by exists q|]. exists (q ++ 13 :: 10 :: q'). by rewrite <- app_assoc.
Qed.

(** *** What [put] does with a header *)

Definition put_header (p : parser) (it : bytes) : cpp (parser * bytes * option error) :=
  match state_ p with start_line => put_start_line is_request p it | _ => put_fields is_request p it end.

Definition adjust_skip (p : parser) (rest : bytes) : parser := if (3 <=? length rest)%nat then set_skip (length rest - 3) p else p.

Definition after_header (r : cpp (parser * bytes * option error)) : cpp (parser * bytes * option error) :=
  let* r := r in
  let '(p, rest, e) := r in
  match e with
  | None => let (p, e) := finish_header is_request p in Ret (p, rest, e)
  | Some e => if bool_decide (e = need_more) then Ret (adjust_skip p rest, rest, Some need_more) else Ret (p, rest, Some e)
  end.

Lemma need_more_small p n rest e : (n < header_limit_ p)%nat ->
  need_more_header p n rest e = if bool_decide (e = need_more) then (adjust_skip p rest, need_more) else (p, e).
Proof. intros Hn. unfold need_more_header, adjust_skip. rewrite (proj2 (Nat.leb_gt _ _)) by done. done. Qed.

Lemma gate_open p it : skip_ p = 0%nat -> maybe_need_more p it = (p, None).
Proof. intros H. unfold maybe_need_more. by rewrite H. Qed.

Lemma put_fields_header p it : state_ p = in_fields -> skip_ p = 0%nat -> (length it < header_limit_ p)%nat ->
  put_fields is_request p it = after_header (parse_header p it).
Proof.
  intros Hs Hk Hl. unfold put_fields, parse_header. rewrite gate_open, Hs by done. rewrite take_ge by lia.
  fold (all_fields p it). unfold after_header. destruct (all_fields p it) as [[[p1 rest] e]|e|] eqn:E; cbn [obind]; try done.
  apply parse_fields_kept in E as [(_ & El & _) _]. rewrite El, drop_ge, app_nil_r by lia. destruct e as [e|]; [|done].
  rewrite need_more_small by congruence. by destruct (bool_decide _).
Qed.

Lemma put_header_parse p it : header_state p -> skip_ p = 0%nat -> (length it < header_limit_ p)%nat ->
  put_header p it = after_header (parse_header p it).
Proof.
  intros [Hs|Hs] Hk Hl; unfold put_header; rewrite Hs; [|by apply put_fields_header].
  unfold put_start_line, parse_header. rewrite gate_open, Hs by done. rewrite take_ge by lia.
  destruct (parse_start_line is_request p it) as [p1 rest|e] eqn:E.
  - pose proof (start_line_kept _ _ _ _ E) as [(Ek & El & _) Es]. apply start_line_end in E as [q Eq].
    rewrite El, drop_ge, app_nil_r by lia. destruct rest as [|x rest]; [done|].
    rewrite put_fields_header; [unfold parse_header; by rewrite Es|done|congruence|].
    rewrite El. apply (f_equal length) in Eq. rewrite length_app in Eq. cbn [length] in *. lia.
  - unfold after_header. cbn [obind]. rewrite need_more_small by done. by destruct (bool_decide _).
Qed.

(** The search before a parse that is taken up again. *)
Lemma gate_closed p it : skip_ p <> 0%nat -> (length it < header_limit_ p)%nat ->
  maybe_need_more p it =
  if (length it <? skip_ p + 4)%nat then (p, Some need_more)
  else match find_eom (drop (skip_ p) it) with
       | None => (set_skip (length it - 3) p, Some need_more)
       | Some _ => (set_skip 0 p, None)
       end.
Proof.
  intros Hk Hl. unfold maybe_need_more. rewrite (proj2 (Nat.eqb_neq _ _)) by done. rewrite (proj2 (Nat.ltb_ge (header_limit_ p) (length it))) by lia.
  destruct (Nat.ltb_spec (length it) (skip_ p + 4)); [done|]. destruct (find_eom _); [done|].
  cbn [header_limit_ skip_ set_skip]. by rewrite (proj2 (Nat.ltb_ge _ _)) by lia.
Qed.

Lemma put_header_gate p it :
  put_header p it =
  match maybe_need_more p it with
  | (p, Some e) => Ret (p, it, Some e)
  | (p, None) => put_header (set_skip 0 p) it
  end.
Proof.
  unfold put_header, put_start_line, put_fields. destruct (maybe_need_more p it) as [p1 [e|]] eqn:E; [by destruct (state_ p)|].
  assert (p1 = set_skip 0 p1 /\ state_ p1 = state_ p) as [E1 Es].
  { unfold maybe_need_more in E. destruct (Nat.eqb_spec (skip_ p) 0) as [Ek|]; [|repeat case_match; try done; injection E as <-; done].
    injection E as <-. split; [|done]. destruct p. cbn in *. by subst. }
  rewrite <- E1. assert (maybe_need_more p1 it = (p1, None)) as E2 by (apply gate_open; by rewrite E1). rewrite Es, E2. done.
Qed.

(** *** Pieces *)

(** The loop of [read_some_op]: [put] gets what is left and the next piece while it needs
    more. The results are the parser, what is left, the error and the pieces not read. *)
Fixpoint feed (p : parser) (pending : bytes) (pieces : list bytes) : cpp (parser * bytes * option error * list bytes) :=
  match pieces with
  | [] => Ret (p, pending, Some need_more, [])
  | c :: pieces =>
      let* r := put is_request body p (pending ++ c) in
      let '(p, rest, e) := r in
      if bool_decide (e = Some need_more) then feed p rest pieces else Ret (p, rest, e, pieces)
  end.

(** Between two pieces: the header would be parsed if all that is to come was there, and the
    search starts before its end. *)
Record between (p : parser) (pending more : bytes) (p1 : parser) (s : bytes) : Prop := mk_between {
  between_state : header_state p;
  between_parse : parse_header (set_skip 0 p) (pending ++ more) = Ret (p1, s, None);
  between_limit : (length (pending ++ more) < header_limit_ p)%nat;
  between_skip : skip_ p = 0%nat \/ (skip_ p + 3 <= length pending)%nat;
  between_rest : (length s < length more)%nat
}.

Lemma set_skip_id p : skip_ p = 0%nat -> set_skip 0 p = p.
Proof. destruct p. cbn. by intros ->. Qed.

(** A part of the header is not parsed. *)
Lemma between_more p pending c more p1 s p2 rest :
  between p pending (c ++ more) p1 s ->
  parse_header (set_skip 0 p) (pending ++ c) = Ret (p2, rest, Some need_more) ->
  between (adjust_skip p2 rest) rest more p1 s.
Proof.
  intros [Bs Bp Bl Bk _] E. assert (header_state (set_skip 0 p)) as Hs by exact Bs.
  pose proof (parse_header_resume (set_skip 0 p) (pending ++ c) more Hs) as Hr. rewrite E in Hr. cbn [resumes_header] in Hr.
  rewrite bool_decide_true in Hr by done. rewrite <- app_assoc, Bp in Hr.
  pose proof (parse_header_kept _ _ _ _ _ Hs E) as [(Ek & El & _) Hs2]. cbn [skip_ header_limit_ set_skip] in Ek, El.
  assert (length s < length more)%nat as Hm.
  { rewrite app_assoc in Bp. by apply (parse_header_needs _ _ _ _ _ _ _ Hs E Bp). }
  assert (exists q, pending ++ c = q ++ rest) as [q Eq].
  { by apply parse_header_suffix in E. }
  assert (length (rest ++ more) < header_limit_ p2)%nat as Hl.
  { rewrite El. apply (f_equal length) in Eq. rewrite !length_app in *. lia. }
  unfold adjust_skip. destruct (Nat.leb_spec 3 (length rest)).
  - split; cbn [state_ header_limit_ skip_ set_skip]; [exact Hs2| |done| |].
    + change (set_skip 0 (set_skip (length rest - 3) p2)) with (set_skip 0 p2). rewrite set_skip_id; [done|congruence].
    + right. lia.
    + done.
  - split; [done| |done|left; congruence|done]. rewrite set_skip_id; [done|congruence].
Qed.

(** The whole header is there, so the search finds its end. *)
Lemma gate_finds p pending c more p1 s :
  between p pending (c ++ more) p1 s -> skip_ p <> 0%nat -> (length more <= length s)%nat ->
  (skip_ p + 4 <= length (pending ++ c))%nat /\ find_eom (drop (skip_ p) (pending ++ c)) <> None.
Proof.
  intros [Bs Bp Bl Bk Br] Hk Hle. destruct Bk as [|Bk]; [done|]. rewrite app_assoc in Bp, Bl. rewrite length_app in Br.
  assert (header_state (set_skip 0 p)) as Hs by exact Bs.
  assert (length ((pending ++ c) ++ more) = length pending + length c + length more)%nat as Hl' by (rewrite !length_app; lia).
  destruct (parse_header_end _ _ _ _ Hs Bp) as [E|[q E]]; [rewrite E in Hl'; cbn [length] in Hl'; lia|].
  assert (length ((pending ++ c) ++ more) = length q + 4 + length s)%nat as Hl by (rewrite E, length_app; cbn [length]; lia).
  assert (length (pending ++ c) = length pending + length c)%nat as Hpc by apply length_app.
  assert (take (length q + 4) (pending ++ c) = q ++ [13; 10; 13; 10]) as Ht.
  { transitivity (take (length q + 4) ((pending ++ c) ++ more)); [symmetry; apply take_app_le; lia|].
    rewrite E. change (13 :: 10 :: 13 :: 10 :: s) with ([13; 10; 13; 10] ++ s). rewrite app_assoc.
    apply take_app_length'. rewrite length_app. done. }
  split; [lia|]. rewrite find_eom_first. rewrite <- (take_drop (length q + 4) (pending ++ c)), Ht.
  rewrite <- app_assoc, drop_app_le by lia. apply first_eom_some.
Qed.

(** A [put] of the next piece: the header is parsed, or the parser waits for more. *)
Lemma put_piece p pending c more p1 s P :
  between p pending (c ++ more) p1 s -> finish_header is_request p1 = (P, None) -> state_ P = complete ->
  (exists p' rest, put is_request body p (pending ++ c) = Ret (p', rest, Some need_more) /\ between p' rest more p1 s) \/
  (exists rest, put is_request body p (pending ++ c) = Ret (P, rest, None) /\ rest ++ more = s).
Proof.
  intros Hb Hfin HP. pose proof Hb as [Bs Bp Bl Bk Br].
  assert (forall p' rest e, put_header p (pending ++ c) = Ret (p', rest, Some e) -> put is_request body p (pending ++ c) = Ret (p', rest, Some e)) as Hput.
  { intros p' rest e Hr. unfold put, assert_. rewrite bool_decide_false by (intros E; destruct Bs; congruence). cbn [negb obind put_loop].
    assert (put_state is_request body p (pending ++ c) = put_header p (pending ++ c)) as -> by (unfold put_state, put_header; by destruct Bs as [->| ->]).
    by rewrite Hr. }
  assert (forall rest, put_header p (pending ++ c) = Ret (P, rest, None) -> put is_request body p (pending ++ c) = Ret (P, rest, None)) as Hdone.
  { intros rest Hr. unfold put, assert_. rewrite bool_decide_false by (intros E; destruct Bs; congruence). cbn [negb obind put_loop].
    assert (put_state is_request body p (pending ++ c) = put_header p (pending ++ c)) as -> by (unfold put_state, put_header; by destruct Bs as [->| ->]).
    rewrite Hr. cbn [obind]. unfold is_done. rewrite bool_decide_true by done. cbn [negb]. by rewrite andb_false_r. }
  assert (length (pending ++ c) < header_limit_ p)%nat as Hl by (rewrite app_assoc, length_app in Bl; lia).
  assert (put_header (set_skip 0 p) (pending ++ c) = put_header p (pending ++ c) ->
    (exists p' rest, put is_request body p (pending ++ c) = Ret (p', rest, Some need_more) /\ between p' rest more p1 s) \/
    (exists rest, put is_request body p (pending ++ c) = Ret (P, rest, None) /\ rest ++ more = s)) as Hparse.
  { intros Heq. assert (header_state (set_skip 0 p)) as Hs by exact Bs.
    rewrite (put_header_parse (set_skip 0 p)) in Heq by done.
    pose proof (parse_header_resume (set_skip 0 p) (pending ++ c) more Hs) as Hr. rewrite <- app_assoc, Bp in Hr.
    destruct (parse_header (set_skip 0 p) (pending ++ c)) as [[[p2 rest] e]|e|] eqn:E; cbn [resumes_header] in Hr; try done.
    destruct (decide (e = Some need_more)) as [->|N].
    - left. exists (adjust_skip p2 rest), rest. split; [|by apply (between_more p pending c more p1 s p2 rest)].
      apply Hput. by rewrite <- Heq.
    - rewrite bool_decide_false in Hr by done. injection Hr as <- Hs' <-. right. exists rest. split; [|by symmetry].
      apply Hdone. rewrite <- Heq. unfold after_header. cbn [obind]. by rewrite Hfin. }
  destruct (Nat.eq_dec (skip_ p) 0%nat) as [Ek|Nk]; [apply Hparse; by rewrite set_skip_id|].
  pose proof (put_header_gate p (pending ++ c)) as Hg. pose proof (gate_finds p pending c more p1 s Hb Nk) as Hfind. rewrite gate_closed in Hg by done.
  destruct Bk as [|Bk]; [done|].
  assert (forall k, (k + 3 <= length (pending ++ c))%nat -> ((length more <= length s)%nat -> False) ->
    between (set_skip k p) (pending ++ c) more p1 s) as Hwait.
  { intros k Hk1 Hk2. split; cbn [skip_ header_limit_ set_skip]; [exact Bs| | |by right|lia].
    - rewrite <- app_assoc. exact Bp.
    - by rewrite <- app_assoc. }
  destruct (Nat.ltb_spec (length (pending ++ c)) (skip_ p + 4)) as [H4|H4].
  - left. exists p, (pending ++ c). split; [by apply Hput|].
    assert (set_skip (skip_ p) p = p) as E by (by destruct p). rewrite <- E at 1. apply Hwait; [rewrite length_app; lia|]. intros H. apply Hfind in H. lia.
  - destruct (find_eom (drop (skip_ p) (pending ++ c))) as [r|] eqn:E.
    + apply Hparse. rewrite Hg. done.
    + left. eexists _, (pending ++ c). split; [by apply Hput|]. apply Hwait; [lia|]. intros H. by apply Hfind in H as [_ H].
Qed.

Lemma feed_between pieces : forall p pending p1 s P,
  between p pending (concat pieces) p1 s -> finish_header is_request p1 = (P, None) -> state_ P = complete ->
  exists rest read unread, pieces = read ++ unread /\ feed p pending pieces = Ret (P, rest, None, unread) /\ rest ++ concat unread = s.
Proof.
  induction pieces as [|c pieces IH]; intros p pending p1 s P Hb Hfin HP; [by pose proof (between_rest _ _ _ _ _ Hb) as Hr; cbn in Hr; lia|].
  cbn [concat] in Hb. cbn [feed].
  destruct (put_piece p pending c (concat pieces) p1 s P Hb Hfin HP) as [(p' & rest & E & Hb')|(rest & E & Hs)]; rewrite E; cbn [obind].
  - rewrite bool_decide_true by done. destruct (IH p' rest p1 s P Hb' Hfin HP) as (rest' & read & unread & -> & -> & Hr).
    by exists rest', (c :: read), unread.
  - rewrite bool_decide_false by done. by exists rest, [c], pieces.
Qed.

(** *** A message with a body keeps the flag that says so *)

Definition in_body_of (p : parser) : Prop := flag flagHasBody p = true /\ is_header_done p = true.

Lemma flag_set b p : b <> 0 -> flag b (set_flag b p) = true.
Proof.
  intros H. unfold flag. cbn [f_ set_flag]. assert (Z.land (Z.lor (f_ p) b) b = b) as ->.
  { apply Z.bits_inj'. intros i Hi. rewrite Z.land_spec, Z.lor_spec. by destruct (Z.testbit (f_ p) i), (Z.testbit b i). }
  by apply negb_true_iff, Z.eqb_neq.
Qed.

Lemma set_flag_body b p : flag flagHasBody p = true -> Z.land flagHasBody b = 0 -> flag flagHasBody (set_flag b p) = true.
Proof. intros H E. by rewrite flag_lor. Qed.

Lemma finish_header_body p p1 : finish_header is_request p = (p1, None) -> state_ p1 = complete \/ in_body_of p1.
Proof.
  unfold finish_header, finish_body. repeat case_match; intros [= <-]; try (by left); right; (split; [|done]).
  all: first [exact (flag_set flagHasBody p ltac:(done)) | exact (set_flag_body flagNeedEOF _ (flag_set flagHasBody p ltac:(done)) eq_refl)].
Qed.

Lemma last_chunk_body p p0 it eol_ p1 rest e : in_body_of p -> parse_last_chunk p p0 it eol_ = Ret (p1, rest, e) -> in_body_of p1.
Proof.
  intros [Hf Hs]. unfold parse_last_chunk, assert_. destruct (find_eom _) as [eom|].
  - destruct (parse_chunk_extensions it) as [u it'|e']; [|by intros [= <- _ _]]. destruct (negb _); [by intros [= <- _ _]|].
    generalize (take (length eol_ - length eom) eol_). intros w.
    destruct (parse_fields (S (length w)) p w) as [[[p2 r] e']|e'|] eqn:E; cbn [obind]; try done.
    apply parse_fields_kept in E as [(_ & _ & _ & _ & _ & Ef) Es]. destruct e' as [e'|].
    + intros [= <- _ _]. split; [congruence|]. unfold is_header_done. by rewrite Es.
    + destruct (_ =? 0)%nat; cbn [obind]; [|done]. intros [= <- _ _]. split; [|done]. rewrite <- Hf, <- Ef. done.
  - destruct (3 <=? _)%nat; cbn [obind]; [|done]. by intros [= <- _ _].
Qed.

Lemma chunk_header_body p it p1 rest e : in_body_of p -> parse_chunk_header p it = Ret (p1, rest, e) -> in_body_of p1.
Proof.
  intros [Hf Hs]. assert (forall b q, f_ q = f_ p -> Z.land flagHasBody b = 0 -> flag flagHasBody (set_flag b q) = true) as Hset.
  { intros b q Eq Hb. apply set_flag_body; [|done]. unfold flag. rewrite Eq. exact Hf. }
  unfold parse_chunk_header, assert_. repeat (case_match; try done); cbn [obind]; try (by intros [= <- _ _]).
  all: try (intros [= <- _ _]; split; [by apply Hset|done]).
  all: try (apply last_chunk_body; split; [first [by apply Hset|exact Hf]|done]).
Qed.

Lemma put_state_body p it p1 rest e : in_body_of p -> put_state is_request body p it = Ret (p1, rest, e) -> in_body_of p1.
Proof.
  intros [Hf Hs]. unfold put_state, assert_. unfold is_header_done in Hs.
  destruct (state_ p) eqn:E; try done.
  1-4: destruct (_ =? 0)%nat; cbn [obind]; [|done]; unfold parse_body, parse_body_to_eof, on_body_impl;
    repeat case_match; try done; intros [= <- _ _]; split; try done; unfold is_header_done; cbn [state_ set_state set_len set_message set_body_limit]; by rewrite ?E.
  - apply chunk_header_body. by split.
  - apply chunk_header_body. split; [done|]. unfold is_header_done. by rewrite E.
  - unfold parse_chunk_body, on_body_impl. repeat case_match; try done; intros [= <- _ _]; split; try done; unfold is_header_done; cbn [state_ set_state set_len set_message]; by rewrite ?E.
  - intros [= <- _ _]. split; [done|]. unfold is_header_done. by rewrite E.
Qed.

Lemma put_loop_body fuel : forall p it p1 rest e, in_body_of p -> put_loop is_request body fuel p it = Ret (p1, rest, e) -> in_body_of p1.
Proof.
  induction fuel as [|fuel IH]; intros p it p1 rest e Hp; cbn [put_loop]; [done|].
  destruct (put_state is_request body p it) as [[[p2 r] e']|e'|] eqn:E; cbn [obind]; try done. apply put_state_body in E; [|done].
  destruct e' as [e'|]; [by intros [= <- _ _]|]. destruct (_ && _); [by apply IH|by intros [= <- _ _]].
Qed.

(** *** From the first byte on *)

Lemma put_first p it : state_ p = nothing_yet -> it <> [] -> put is_request body p it = put is_request body (set_state start_line p) it.
Proof.
  intros Hs Hi. unfold put, assert_. rewrite Hs. cbn [state_ set_state]. rewrite !bool_decide_false by done. cbn [negb obind put_loop].
  unfold put_state. rewrite Hs. cbn [state_ set_state]. by destruct it.
Qed.

Lemma put_loop_S fuel p it :
  put_loop is_request body (S fuel) p it =
  (let* r := put_state is_request body p it in
   let '(p, it, e) := r in
   match e with
   | Some e => Ret (p, it, Some e)
   | None => if (0 <? length it)%nat && negb (is_done p) && flag flagEager p then put_loop is_request body fuel p it else Ret (p, it, None)
   end).
Proof. done. Qed.

(** A [put] that completes a message without a body has parsed a header. *)
Lemma put_complete p it P R :
  header_state p -> skip_ p = 0%nat -> (length it < header_limit_ p)%nat ->
  put is_request body p it = Ret (P, R, None) -> state_ P = complete -> flag flagHasBody P = false ->
  exists p1, parse_header p it = Ret (p1, R, None) /\ finish_header is_request p1 = (P, None).
Proof.
  intros Hs Hk Hl Hput HP Hf. unfold put, assert_ in Hput. rewrite bool_decide_false in Hput by (intros E; destruct Hs; congruence). cbn [negb obind] in Hput. rewrite put_loop_S in Hput.
  assert (put_state is_request body p it = put_header p it) as E by (unfold put_state, put_header; by destruct Hs as [->| ->]).
  rewrite E, put_header_parse in Hput by done. clear E. destruct (parse_header p it) as [[[p1 rest] [e|]]|e|] eqn:E; cbn [after_header obind] in Hput; try done.
  - destruct (bool_decide (e = need_more)); cbn [obind] in Hput; done.
  - destruct (finish_header is_request p1) as [p2 [e|]] eqn:Ef; cbn [obind] in Hput; [done|].
    apply finish_header_body in Ef as Hb. destruct (_ && _) eqn:Econd.
    + destruct Hb as [Hb|Hb]; [|apply put_loop_body in Hput as [Hf' _]; [congruence|done]].
      unfold is_done in Econd. rewrite bool_decide_true in Econd by done. by rewrite andb_false_r in Econd.
    + injection Hput as <- <-. by exists p1.
Qed.

End Header.

(** The parser of [http::async_read]. *)
Definition first_parser (is_request : bool) : parser := set_eager true (new_parser is_request).

(** C9: whatever the pieces in which a message without a body comes, with nothing between
    them or with what follows the message behind it, the parser, which is given what is left
    and the next piece each time, ends with the same message, flags and state as when it gets
    all at once, and nothing that follows the message is lost. The message and what comes with
    it are shorter than the limit of a header. *)
Theorem header_in_pieces (is_request : bool) (body : body_type) (pieces : list bytes) (P : parser) (R : bytes) :
  put is_request body (first_parser is_request) (concat pieces) = Ret (P, R, None) ->
  state_ P = complete -> flag flagHasBody P = false -> Z.of_nat (length (concat pieces)) < 8192 ->
  exists rest read unread, pieces = read ++ unread /\
    feed is_request body (first_parser is_request) [] pieces = Ret (P, rest, None, unread) /\ rest ++ concat unread = R.
Proof.
  intros Hput HP Hf Hl. induction pieces as [|c pieces IH]; [done|]. destruct (decide (c = [])) as [->|Hc].
  - destruct (IH Hput Hl) as (rest & read & unread & -> & E & Hr). exists rest, ([] :: read), unread. done.
  - assert (concat (c :: pieces) <> []) as Hne by (by destruct c).
    rewrite (put_first is_request body) in Hput by done. set (p := set_state start_line (first_parser is_request)) in *.
    assert (header_state p) as Hs by (by left). assert (header_limit_ p = Z.to_nat 8192) as Hlim by done.
    assert (length (concat (c :: pieces)) < header_limit_ p)%nat as Hlt by (rewrite Hlim; lia).
    destruct (put_complete is_request body p _ P R Hs eq_refl Hlt Hput HP Hf) as (p1 & Hpar & Hfin).
    assert (between is_request p [] (concat (c :: pieces)) p1 R) as Hb.
    { split; [done|exact Hpar|exact Hlt|by left|].
      destruct (parse_header_end is_request _ _ _ _ Hs Hpar) as [->|[q ->]]; [cbn; lia|]. rewrite length_app. cbn [length]. lia. }
    destruct (feed_between is_request body (c :: pieces) p [] p1 R P Hb Hfin HP) as (rest & read & unread & E & Hfeed & Hr).
    exists rest, read, unread. split; [done|]. split; [|done]. rewrite <- Hfeed. cbn [feed app]. by rewrite (put_first is_request body).
Qed.

Lemma header_in_pieces_witness :
  exists P rest read unread,
    [str "GET / HTTP/1.1"; [13]; [10] ++ str "Host: a" ++ [13; 10; 13]; [10; 129]; [130]] = read ++ unread /\
    feed true empty_body (first_parser true) [] [str "GET / HTTP/1.1"; [13]; [10] ++ str "Host: a" ++ [13; 10; 13]; [10; 129]; [130]] =
      Ret (P, rest, None, unread) /\ rest ++ concat unread = [129; 130] /\ fields.at_ (str "host") (fields_ (m_ P)) = str "a".
Proof.
  destruct (put true empty_body (first_parser true) (concat [str "GET / HTTP/1.1"; [13]; [10] ++ str "Host: a" ++ [13; 10; 13]; [10; 129]; [130]])) as [[[P R] e]|e|] eqn:E;
    [|exfalso; vm_compute in E; discriminate E..].
  assert (e = None /\ R = [129; 130] /\ state_ P = complete /\ flag flagHasBody P = false /\ fields.at_ (str "host") (fields_ (m_ P)) = str "a") as (-> & -> & H1 & H2 & H3).
  { vm_compute in E. injection E as <- <- <-. repeat split. }
  destruct (header_in_pieces true empty_body _ P _ E H1 H2 ltac:(reflexivity)) as (rest & read & unread & Hp & Hfeed & Hr).
  exists P, rest, read, unread. done.
Defined.
